(** * Whole-pattern-fit model components of py4DSTEM

    A shallow embedding of [py4DSTEM/process/wholepatternfit/wp_models.py].

    - Python floats and numpy float arrays are modelled by the real numbers
      of the Standard Library: rounding, overflow and NaN are idealised away.
    - Python integers (peak indices, numpy int64) are [Z]; sizes are [nat].
    - An exception is a value of [exn]; a fallible expression has type
      [result A]; a method that mutates an array in place and may raise has
      type [inplace S A], a state-and-error monad over the mutated array, so
      the array left behind by a call that raises is still observable.
    - A 2-D numpy array is an [ndarray]: its shape and its cells in C order.
      Elementwise operations between two arrays require equal shapes and
      raise [ValueError] otherwise (numpy's broadcasting between arrays of
      different shapes is not modelled); a scalar broadcasts over an array.
    - A Python dict is an insertion-ordered association list.  Parameter
      objects are kept by value in each dict that holds them; the offsets
      are whatever the engine assigned before a function is called.
    - Printing under [verbose] is left out. *)

From Stdlib Require Import Reals Lra Lia List String Ascii ZArith Bool.
From Stdlib Require Import DecimalString DecimalPos DecimalZ FinFun.
Import ListNotations.

Local Open Scope R_scope.

(** ** Exceptions and the two monads *)

Inductive exn : Type :=
| KeyError (key : string)
| NameError (name : string)
| AttributeError (attr : string)
| IndexError
| TypeError
| ValueError
| ZeroDivisionError
| NotImplementedError.

Inductive result (A : Type) : Type :=
| Ok (a : A)
| Raise (e : exn).

Arguments Ok {A} a.
Arguments Raise {A} e.

Definition rbind {A B} (r : result A) (k : A -> result B) : result B :=
  match r with
  | Ok a => k a
  | Raise e => Raise e
  end.

Definition inplace (S A : Type) : Type := S -> S * result A.

Definition ret {S A} (a : A) : inplace S A := fun s => (s, Ok a).

Definition bind {S A B} (m : inplace S A) (k : A -> inplace S B)
  : inplace S B :=
  fun s =>
    match m s with
    | (s', Ok a) => k a s'
    | (s', Raise e) => (s', Raise e)
    end.

Definition lift {S A} (r : result A) : inplace S A := fun s => (s, r).

Declare Scope py_scope.
Delimit Scope py_scope with py.
Notation "'let?' x ':=' r 'in' k" := (rbind r (fun x => k))
  (at level 10, x name, r at level 100, k at level 200) : py_scope.
Notation "x <- m ;; k" := (bind m (fun x => k))
  (at level 61, m at next level, right associativity) : py_scope.
Notation "m ;; k" := (bind m (fun _ => k))
  (at level 61, right associativity) : py_scope.
Local Open Scope py_scope.

(** [for item in items: body item], run left to right; the first exception
    stops the loop. *)
Fixpoint for_each {S A} (items : list A) (body : A -> inplace S unit)
  : inplace S unit :=
  match items with
  | [] => ret tt
  | a :: rest => body a ;; for_each rest body
  end.

(** ** Sequences, dicts and string formatting *)

(** [xs[i]] for a non-negative index. *)
Definition getindex {A} (xs : list A) (i : nat) : result A :=
  match nth_error xs i with
  | Some a => Ok a
  | None => Raise IndexError
  end.

Definition dict (V : Type) : Type := list (string * V).

Fixpoint getitem {V} (d : dict V) (k : string) : result V :=
  match d with
  | [] => Raise (KeyError k)
  | (k', v) :: rest => if String.eqb k' k then Ok v else getitem rest k
  end.

(** [d[k] = v]: an existing key keeps its position, a new key is appended. *)
Fixpoint setitem {V} (d : dict V) (k : string) (v : V) : dict V :=
  match d with
  | [] => [(k, v)]
  | (k', v') :: rest =>
      if String.eqb k' k then (k', v) :: rest
      else (k', v') :: setitem rest k v
  end.

Definition keys {V} (d : dict V) : list string := map fst d.

(** [str(z)] of a Python integer. *)
Definition str (z : Z) : string := NilZero.string_of_int (Z.to_int z).

(** [range(lo, hi)] over the integers. *)
Definition zrange (lo hi : Z) : list Z :=
  map (fun i => (lo + Z.of_nat i)%Z) (seq 0 (Z.to_nat (hi - lo))).

(** ** numpy arrays *)

Record ndarray (T : Type) : Type := mk_ndarray {
  shape : nat * nat;
  ravel : list T
}.

Arguments mk_ndarray {T} shape ravel.
Arguments shape {T} n.
Arguments ravel {T} n.

Module np.

Definition shape_eqb (s t : nat * nat) : bool :=
  Nat.eqb (fst s) (fst t) && Nat.eqb (snd s) (snd t).

(** a unary ufunc, or a binary one with a broadcast scalar *)
Definition amap {A B} (f : A -> B) (a : ndarray A) : ndarray B :=
  mk_ndarray (shape a) (map f (ravel a)).

Fixpoint zip_with {A B C} (f : A -> B -> C) (xs : list A) (ys : list B)
  : list C :=
  match xs, ys with
  | x :: xs', y :: ys' => f x y :: zip_with f xs' ys'
  | _, _ => []
  end.

(** a binary ufunc between two arrays *)
Definition azip {A B C} (f : A -> B -> C) (a : ndarray A) (b : ndarray B)
  : result (ndarray C) :=
  if shape_eqb (shape a) (shape b)
  then Ok (mk_ndarray (shape a) (zip_with f (ravel a) (ravel b)))
  else Raise ValueError.

(** [np.zeros_like(a)] *)
Definition zeros_like {A B} (zero : B) (a : ndarray A) : ndarray B :=
  amap (fun _ => zero) a.

Definition minimum (a b : R) : R := Rmin a b.
Definition maximum (a b : R) : R := Rmax a b.

(** [target += scalar] *)
Definition iadd_scalar (v : R) : inplace (ndarray R) unit :=
  fun target => (amap (fun t => t + v) target, Ok tt).

(** [target += contribution] *)
Definition iadd (contribution : ndarray R) : inplace (ndarray R) unit :=
  fun target =>
    match azip Rplus target contribution with
    | Ok target' => (target', Ok tt)
    | Raise e => (target, Raise e)
    end.

(** A Jacobian of shape (pixels, columns) is kept as the list of its
    columns, each a flat vector with one entry per pixel. *)
Definition jacobian_array : Type := list (list R).

Fixpoint update_nth {A} (i : nat) (f : A -> A) (xs : list A) : list A :=
  match xs, i with
  | [], _ => []
  | a :: rest, O => f a :: rest
  | a :: rest, S i' => a :: update_nth i' f rest
  end.

(** [J[:, col] += values]: the target column is fetched first, then the
    right-hand side is evaluated, then the two are added. *)
Definition iadd_column (col : nat) (values : result (list R))
  : inplace jacobian_array unit :=
  fun J =>
    match nth_error J col with
    | None => (J, Raise IndexError)
    | Some column =>
        match values with
        | Raise e => (J, Raise e)
        | Ok values =>
            if Nat.eqb (List.length values) (List.length column)
            then (update_nth col (fun c => zip_with Rplus c values) J, Ok tt)
            else (J, Raise ValueError)
        end
    end.

(** [a.ravel()] of a fallible array expression *)
Definition flat {A} (a : result (ndarray A)) : result (list A) :=
  match a with
  | Ok a => Ok (ravel a)
  | Raise e => Raise e
  end.

(** [J[:, col] = v] *)
Definition set_column (col : nat) (v : R) : inplace jacobian_array unit :=
  fun J =>
    match nth_error J col with
    | None => (J, Raise IndexError)
    | Some _ => (update_nth col (map (fun _ => v)) J, Ok tt)
    end.

End np.

(** ** WPFModelType *)

Inductive WPFModelType : Type :=
| BACKGROUND
| AMORPHOUS
| LATTICE
| DUMMY
| META.

(** ** Parameter (the class is named [Param] here, [Parameter] being a
    reserved word) *)

(** A bound is a float, possibly infinite. *)
Inductive bound : Type :=
| NegInf
| Finite (r : R)
| PosInf.

(** The first argument of [Parameter(...)]: a number, or anything with
    [__iter__], modelled as a sequence of numbers. *)
Inductive init_arg : Type :=
| Num (r : R)
| Seq (items : list R).

Module Param.

Record t : Type := mk {
  initial_value : R;
  lower_bound : bound;
  upper_bound : bound;
  offset : option nat    (* [None] is the [np.nan] placeholder *)
}.

Definition set_params (initial_value : R) (lower_bound upper_bound : option R)
  : R * bound * bound :=
  (initial_value,
   match lower_bound with Some l => Finite l | None => NegInf end,
   match upper_bound with Some u => Finite u | None => PosInf end).

Definition __init__ (initial_value : init_arg)
    (lower_bound upper_bound : option R) : result t :=
  let? fields :=
    match initial_value with
    | Seq items =>
        let items :=
          match items with
          | [v; tol] => [v; v - tol; v + tol]
          | _ => items
          end in
        match items with
        | [v; lo; hi] => Ok (set_params v (Some lo) (Some hi))
        | _ => Raise TypeError   (* wrong number of arguments *)
        end
    | Num v => Ok (set_params v lower_bound upper_bound)
    end in
  let '(v, lo, hi) := fields in
  Ok (mk v lo hi None).

End Param.

(** [x[param.offset]]: indexing the flat parameter vector with the
    [np.nan] placeholder raises [IndexError]. *)
Definition value_at (x : list R) (p : Param.t) : result R :=
  match Param.offset p with
  | Some i => getindex x i
  | None => Raise IndexError
  end.

(** ** WPFModelPrototype *)

(** The classes of the file, and whether a class (or a base class) has an
    attribute named [jacobian]. *)
Inductive class : Type :=
| cls_BaseModel
| cls_DCBackground
| cls_GaussianBackground
| cls_GaussianRing
| cls_SyntheticDiskLattice
| cls_SyntheticDiskMoire
| cls_ComplexOverlapKernelDiskLattice
| cls_KernelDiskLattice.

Definition defines_jacobian (c : class) : bool :=
  match c with
  | cls_BaseModel | cls_DCBackground | cls_GaussianBackground
  | cls_SyntheticDiskLattice | cls_SyntheticDiskMoire => true
  | cls_GaussianRing | cls_ComplexOverlapKernelDiskLattice
  | cls_KernelDiskLattice => false
  end.

Module WPFModelPrototype.

Record t : Type := mk {
  name : string;
  params : dict Param.t;
  nParams : nat;
  hasJacobian : bool;
  model_type : WPFModelType
}.

Definition __init__ (cls : class) (name : string)
    (params : dict Param.t) (model_type : WPFModelType) : t :=
  mk name params (List.length (keys params)) (defines_jacobian cls) model_type.

Definition func {S} : inplace S unit := lift (Raise NotImplementedError).

End WPFModelPrototype.

(** The keyword context handed to every forward and Jacobian function
    (the engine's [static_data] dict). *)
Record static_data : Type := mk_static_data {
  xArray : ndarray R;
  yArray : ndarray R;
  global_x0 : R;
  global_y0 : R;
  Q_Nx : nat;
  Q_Ny : nat
}.

(** ** _BaseModel *)

Module _BaseModel.

Definition __init__ (x0 y0 : init_arg) (name : string)
  : result WPFModelPrototype.t :=
  let? px := Param.__init__ x0 None None in
  let? py := Param.__init__ y0 None None in
  let params := setitem (setitem [] "x center" px) "y center" py in
  Ok (WPFModelPrototype.__init__ cls_BaseModel name params DUMMY).

Definition func (self : WPFModelPrototype.t) (x : list R)
    (kwargs : static_data) : inplace (ndarray R) unit :=
  ret tt.

Definition jacobian (self : WPFModelPrototype.t) (x : list R)
    (kwargs : static_data) : inplace np.jacobian_array unit :=
  ret tt.

End _BaseModel.

(** The composition engine as the constructors of the models see it. *)
Record WPF : Type := mk_WPF {
  coordinate_model : WPFModelPrototype.t;
  wpf_static_data : static_data
}.

(** Modelled from the spec: the engine's [_get_distance] helper, whose class
    is not part of this file.  It returns, per pixel, the Euclidean distance
    from the point whose coordinates are the current values of the two given
    Parameters. *)
Definition _get_distance (sd : static_data) (x : list R)
    (xParam yParam : Param.t) : result (ndarray R) :=
  let? cx := value_at x xParam in
  let? cy := value_at x yParam in
  np.azip (fun X Y => sqrt ((X - cx) ^ 2 + (Y - cy) ^ 2))
          (xArray sd) (yArray sd).


(** [self.params[key].offset], as used to index a Jacobian column. *)
Definition column_of (params : dict Param.t) (key : string) : result nat :=
  let? p := getitem params key in
  match Param.offset p with
  | Some i => Ok i
  | None => Raise IndexError
  end.

(** [x[self.params[key].offset]] *)
Definition param_value (params : dict Param.t) (x : list R) (key : string)
  : result R :=
  let? p := getitem params key in value_at x p.

(** [self.<attr>] for an attribute expected to hold the parameter dict. *)
Definition getattr_dict (self : WPFModelPrototype.t) (attr : string)
  : result (dict Param.t) :=
  if String.eqb attr "params" then Ok (WPFModelPrototype.params self)
  else Raise (AttributeError attr).

(** ** DCBackground *)

Module DCBackground.

Definition __init__ (background_value : init_arg) (name : string)
  : result WPFModelPrototype.t :=
  let? level := Param.__init__ background_value None None in
  let params := setitem [] "DC Level" level in
  Ok (WPFModelPrototype.__init__ cls_DCBackground name params BACKGROUND).

Definition func (self : WPFModelPrototype.t) (x : list R)
    (kwargs : static_data) : inplace (ndarray R) unit :=
  level <- lift (param_value (WPFModelPrototype.params self) x "DC Level") ;;
  np.iadd_scalar level.

Definition jacobian (self : WPFModelPrototype.t) (x : list R)
    (kwargs : static_data) : inplace np.jacobian_array unit :=
  col <- lift (column_of (WPFModelPrototype.params self) "DC Level") ;;
  np.set_column col 1.

End DCBackground.

(** ** GaussianBackground *)

Module GaussianBackground.

Definition __init__ (wpf : WPF) (sigma intensity : init_arg)
    (global_center : bool) (x0 y0 : init_arg) (name : string)
  : result WPFModelPrototype.t :=
  let? p_sigma := Param.__init__ sigma None None in
  let? p_intensity := Param.__init__ intensity None None in
  let params := setitem (setitem [] "sigma" p_sigma) "intensity" p_intensity in
  let? params :=
    if global_center then
      let globals := WPFModelPrototype.params (coordinate_model wpf) in
      let? xc := getitem globals "x center" in
      let params := setitem params "x center" xc in
      let? yc := getitem globals "y center" in
      Ok (setitem params "y center" yc)
    else
      let? xc := Param.__init__ x0 None None in
      let params := setitem params "x center" xc in
      let? yc := Param.__init__ y0 None None in
      Ok (setitem params "y center" yc) in
  Ok (WPFModelPrototype.__init__ cls_GaussianBackground name params BACKGROUND).

Definition func (self : WPFModelPrototype.t) (x : list R)
    (kwargs : static_data) : inplace (ndarray R) unit :=
  let params := WPFModelPrototype.params self in
  sigma <- lift (param_value params x "sigma") ;;
  level <- lift (param_value params x "intensity") ;;
  xc <- lift (getitem params "x center") ;;
  yc <- lift (getitem params "y center") ;;
  r <- lift (_get_distance kwargs x xc yc) ;;
  np.iadd (np.amap (fun r => level * exp (r ^ 2 / (-2 * sigma ^ 2))) r).

Definition jacobian (self : WPFModelPrototype.t) (x : list R)
    (kwargs : static_data) : inplace np.jacobian_array unit :=
  let params := WPFModelPrototype.params self in
  sigma <- lift (param_value params x "sigma") ;;
  level <- lift (param_value params x "intensity") ;;
  x0 <- lift (param_value params x "x center") ;;
  y0 <- lift (param_value params x "y center") ;;
  xc <- lift (getitem params "x center") ;;
  yc <- lift (getitem params "y center") ;;
  r <- lift (_get_distance kwargs x xc yc) ;;
  let exp_expr := np.amap (fun r => exp (r ^ 2 / (-2 * sigma ^ 2))) r in
  (* dF/d(x0) *)
  col <- lift (column_of params "x center") ;;
  np.iadd_column col
    (np.flat (np.azip (fun X e => level * (X - x0) * e / sigma ^ 2)
                      (xArray kwargs) exp_expr)) ;;
  (* dF/d(y0) *)
  col <- lift (column_of params "y center") ;;
  np.iadd_column col
    (np.flat (np.azip (fun Y e => level * (Y - y0) * e / sigma ^ 2)
                      (yArray kwargs) exp_expr)) ;;
  (* dF/s(sigma) *)
  col <- lift (column_of params "sigma") ;;
  np.iadd_column col
    (Ok (ravel (np.amap (fun r => level * r ^ 2
                                  * exp (r ^ 2 / (-2 * sigma ^ 2))
                                  / sigma ^ 3) r))) ;;
  (* dF/d(level) *)
  col <- lift (column_of params "intensity") ;;
  np.iadd_column col (Ok (ravel exp_expr)).

End GaussianBackground.

(** ** GaussianRing *)

(** The names bound at module level: the imports and the classes.  The
    engine class [WPF] is neither imported nor defined in this module. *)
Definition module_globals : list string :=
  ["signature"; "Optional"; "Flag"; "auto"; "np"; "set_trace";
   "WPFModelType"; "WPFModelPrototype"; "Parameter"; "_BaseModel";
   "DCBackground"; "GaussianBackground"; "GaussianRing";
   "SyntheticDiskLattice"; "SyntheticDiskMoire";
   "ComplexOverlapKernelDiskLattice"; "KernelDiskLattice"]%string.

(** [<name>._get_distance] for a global [name]: an unbound name raises
    NameError; the names that are bound hold imports and classes, none of
    which has the attribute. *)
Definition global_name {A} (name : string) : result A :=
  if existsb (String.eqb name) module_globals
  then Raise (AttributeError "_get_distance")
  else Raise (NameError name).

Module GaussianRing.

Definition __init__ (wpf : WPF) (radius sigma intensity : init_arg)
    (global_center : bool) (x0 y0 : init_arg) (name : string)
  : result WPFModelPrototype.t :=
  let globals := WPFModelPrototype.params (coordinate_model wpf) in
  let? p_radius := Param.__init__ radius None None in
  let? p_sigma := Param.__init__ sigma None None in
  let? p_intensity := Param.__init__ intensity None None in
  let? xc := if global_center then getitem globals "x center"
             else Param.__init__ x0 None None in
  let? yc := if global_center then getitem globals "y center"
             else Param.__init__ y0 None None in
  let params :=
    setitem (setitem (setitem (setitem (setitem []
      "radius" p_radius) "sigma" p_sigma) "intensity" p_intensity)
      "x center" xc) "y center" yc in
  Ok (WPFModelPrototype.__init__ cls_GaussianRing name params AMORPHOUS).

Definition global_center_func (self : WPFModelPrototype.t) (x : list R)
    (kwargs : static_data) : inplace (ndarray R) unit :=
  let params := WPFModelPrototype.params self in
  radius <- lift (param_value params x "radius") ;;
  sigma <- lift (param_value params x "sigma") ;;
  level <- lift (param_value params x "level") ;;
  engine <- lift (global_name "WPF") ;;
  xc <- lift (getitem params "x center") ;;
  yc <- lift (getitem params "y center") ;;
  r <- lift (_get_distance (wpf_static_data engine) x xc yc) ;;
  np.iadd (np.amap (fun r => level * exp ((r - radius) ^ 2 / (-2 * sigma ^ 2)))
                   r).

Definition global_center_jacobian (self : WPFModelPrototype.t) (x : list R)
    (kwargs : static_data) : inplace np.jacobian_array unit :=
  let params := WPFModelPrototype.params self in
  radius <- lift (param_value params x "radius") ;;
  sigma <- lift (param_value params x "sigma") ;;
  level <- lift (param_value params x "level") ;;
  x0 <- lift (param_value params x "x center") ;;
  y0 <- lift (param_value params x "y center") ;;
  engine <- lift (global_name "WPF") ;;
  xc <- lift (getitem params "x center") ;;
  yc <- lift (getitem params "y center") ;;
  r <- lift (_get_distance (wpf_static_data engine) x xc yc) ;;
  let local_r := np.amap (fun r => radius - r) r in
  let exp_expr := fun lr => exp (lr ^ 2 / (-2 * sigma ^ 2)) in
  (* both centre columns subtract [x0], as the source does *)
  let center_term := fun A lr =>
    level * exp_expr lr * (A - x0) * lr
    / (sigma ^ 2 * np.maximum lr (1 / 10)) in
  (* dF/d(x0) *)
  col <- lift (column_of params "x center") ;;
  np.iadd_column col (np.flat (np.azip center_term (xArray kwargs) local_r)) ;;
  (* dF/d(y0): the column is looked up in [self.parans] *)
  parans <- lift (getattr_dict self "parans") ;;
  col <- lift (column_of parans "y center") ;;
  np.iadd_column col (np.flat (np.azip center_term (yArray kwargs) local_r)) ;;
  (* dF/d(radius) *)
  col <- lift (column_of params "radius") ;;
  np.iadd_column col
    (Ok (ravel (np.amap (fun lr => -1 * level * exp_expr lr * lr / sigma ^ 2)
                        local_r))) ;;
  (* dF/d(sigma) *)
  col <- lift (column_of params "sigma") ;;
  np.iadd_column col
    (Ok (ravel (np.amap (fun lr => level * lr ^ 2 * exp_expr lr / sigma ^ 3)
                        local_r))) ;;
  (* dF/d(intensity) *)
  col <- lift (column_of params "intensity") ;;
  np.iadd_column col (Ok (ravel (np.amap exp_expr local_r))).

End GaussianRing.

(** ** Lattice peak bookkeeping shared by the lattice classes *)

Definition Rltb (a b : R) : bool := if Rlt_dec a b then true else false.
Definition Rgtb (a b : R) : bool := Rltb b a.

(** [f"[{u},{v}] Intensity"] and [f"[{u}, {v}] Phase"] *)
Definition intensity_key (u v : Z) : string :=
  ("[" ++ str u ++ "," ++ str v ++ "] Intensity")%string.

Definition phase_key (u v : Z) : string :=
  ("[" ++ str u ++ ", " ++ str v ++ "] Phase")%string.

(** The index pairs of a grid with [2 u_max + 1] rows and [2 v_max + 1]
    columns, in raveled order: [u] varies slowest. *)
Definition index_grid (u_max v_max : Z) : list (Z * Z) :=
  list_prod (zrange (- u_max) (u_max + 1)) (zrange (- v_max) (v_max + 1)).

(** [np.mgrid[-u_max : u_max + 1, -v_max : v_max + 1]], both index arrays
    ravelled and zipped.  For a negative [u_max] or [v_max] the slice stops
    below its start, its length [2 u_max + 1] is negative, and numpy refuses
    to allocate the arrays with ValueError. *)
Definition mgrid (u_max v_max : Z) : result (list (Z * Z)) :=
  if Z.ltb u_max 0 || Z.ltb v_max 0 then Raise ValueError
  else Ok (index_grid u_max v_max).

(** [[u, v] in exclude_indices] *)
Definition excluded (exclude_indices : list (Z * Z)) (u v : Z) : bool :=
  existsb (fun e => Z.eqb (fst e) u && Z.eqb (snd e) v) exclude_indices.

(** [(x < 0) or (x > Q_Nx) or (y < 0) or (y > Q_Ny)] *)
Definition outside (Q_Nx Q_Ny : nat) (x y : R) : bool :=
  Rltb x 0 || Rgtb x (INR Q_Nx) || Rltb y 0 || Rgtb y (INR Q_Ny).

Arguments outside : simpl never.

(** [inds[~delete_mask]] *)
Fixpoint select_kept {A} (inds : list A) (delete_mask : list bool) : list A :=
  match inds, delete_mask with
  | a :: inds', d :: mask' =>
      if d then select_kept inds' mask' else a :: select_kept inds' mask'
  | _, _ => []
  end.

(** ** SyntheticDiskLattice *)

Module SyntheticDiskLattice.

Record t : Type := mk {
  base : WPFModelPrototype.t;
  disk_radius : R;
  disk_width : R;
  u_inds : list Z;
  v_inds : list Z;
  refine_radius : bool;
  refine_width : bool
}.

Definition params (self : t) : dict Param.t :=
  WPFModelPrototype.params (base self).

(** The loop over the generated grid: it fills [delete_mask] and creates the
    Intensity parameters of the peaks that are kept. *)
Fixpoint prune_loop (x0 y0 : R) (Q_Nx Q_Ny : nat)
    (exclude_indices : list (Z * Z)) (intensity_0 : R)
    (grid : list (Z * Z)) (params : dict Param.t)
  : result (dict Param.t * list bool) :=
  match grid with
  | [] => Ok (params, [])
  | (u, v) :: rest =>
      let? ux := getitem params "ux" in
      let? vx := getitem params "vx" in
      let x := x0 + IZR u * Param.initial_value ux
                  + IZR v * Param.initial_value vx in
      let? uy := getitem params "uy" in
      let? vy := getitem params "vy" in
      let y := y0 + IZR u * Param.initial_value uy
                  + IZR v * Param.initial_value vy in
      let? step :=
        if excluded exclude_indices u v then Ok (params, true)
        else if outside Q_Nx Q_Ny x y then Ok (params, true)
        else
          let? p := Param.__init__ (Num intensity_0) None None in
          Ok (setitem params (intensity_key u v) p, false) in
      let? tail := prune_loop x0 y0 Q_Nx Q_Ny exclude_indices intensity_0
                              rest (fst step) in
      Ok (fst tail, snd step :: snd tail)
  end.

(** The loop over an explicit inclusion list. *)
Fixpoint include_loop (intensity_0 : R) (include_indices : list (Z * Z))
    (params : dict Param.t) : result (dict Param.t) :=
  match include_indices with
  | [] => Ok params
  | ind :: rest =>
      let? p := Param.__init__ (Num intensity_0) None None in
      include_loop intensity_0 rest
        (setitem params (intensity_key (fst ind) (snd ind)) p)
  end.

Definition __init__ (wpf : WPF) (ux uy vx vy disk_radius disk_width : R)
    (u_max v_max : Z) (intensity_0 : R) (refine_radius refine_width : bool)
    (global_center : bool) (x0 y0 : R) (exclude_indices : list (Z * Z))
    (include_indices : option (list (Z * Z))) (name : string) : result t :=
  let params : dict Param.t := [] in
  let? params :=
    if global_center then
      let globals := WPFModelPrototype.params (coordinate_model wpf) in
      let? xc := getitem globals "x center" in
      let params := setitem params "x center" xc in
      let? yc := getitem globals "y center" in
      Ok (setitem params "y center" yc)
    else
      let? xc := Param.__init__ (Num x0) None None in
      let params := setitem params "x center" xc in
      let? yc := Param.__init__ (Num y0) None None in
      Ok (setitem params "y center" yc) in
  let? xc := getitem params "x center" in
  let x0 := Param.initial_value xc in
  let? yc := getitem params "y center" in
  let y0 := Param.initial_value yc in
  let? p := Param.__init__ (Num ux) None None in
  let params := setitem params "ux" p in
  let? p := Param.__init__ (Num uy) None None in
  let params := setitem params "uy" p in
  let? p := Param.__init__ (Num vx) None None in
  let params := setitem params "vx" p in
  let? p := Param.__init__ (Num vy) None None in
  let params := setitem params "vy" p in
  let Q_Nx := Q_Nx (wpf_static_data wpf) in
  let Q_Ny := Q_Ny (wpf_static_data wpf) in
  let? peaks :=
    match include_indices with
    | None =>
        let? grid := mgrid u_max v_max in
        let? looped := prune_loop x0 y0 Q_Nx Q_Ny exclude_indices intensity_0
                                  grid params in
        let delete_mask := snd looped in
        Ok (fst looped,
            select_kept (map fst grid) delete_mask,
            select_kept (map snd grid) delete_mask)
    | Some include_indices =>
        let? params := include_loop intensity_0 include_indices params in
        match include_indices with
        | [] => Raise IndexError   (* [inds[:, 0]] of an array of shape (0,) *)
        | _ => Ok (params, map fst include_indices, map snd include_indices)
        end
    end in
  let '(params, u_inds, v_inds) := peaks in
  let? params :=
    if refine_radius then
      let? p := Param.__init__ (Num disk_radius) None None in
      Ok (setitem params "disk radius" p)
    else Ok params in
  let? params :=
    if refine_width then
      let? p := Param.__init__ (Num disk_width) None None in
      Ok (setitem params "edge width" p)
    else Ok params in
  Ok (mk (WPFModelPrototype.__init__ cls_SyntheticDiskLattice name params
                                     LATTICE)
         disk_radius disk_width u_inds v_inds refine_radius refine_width).

(** One pass of the forward loop: the sigmoid disk of peak [(u, v)]. *)
Definition func_peak (self : t) (x : list R) (static_data : static_data)
    (x0 y0 ux uy vx vy disk_radius disk_width : R) (uv : Z * Z)
  : inplace (ndarray R) unit :=
  let (u, v) := uv in
  let x_pos := x0 + IZR u * ux + IZR v * vx in
  let y_pos := y0 + IZR u * uy + IZR v * vy in
  intensity <- lift (param_value (params self) x (intensity_key u v)) ;;
  disk <- lift (np.azip
    (fun X Y =>
       intensity
       / (1 + exp (np.minimum
                     (4 * (sqrt ((X - x_pos) ^ 2 + (Y - y_pos) ^ 2)
                           - disk_radius)
                      / disk_width)
                     20)))
    (xArray static_data) (yArray static_data)) ;;
  np.iadd disk.

Definition func (self : t) (x : list R) (static_data : static_data)
  : inplace (ndarray R) unit :=
  x0 <- lift (param_value (params self) x "x center") ;;
  y0 <- lift (param_value (params self) x "y center") ;;
  ux <- lift (param_value (params self) x "ux") ;;
  uy <- lift (param_value (params self) x "uy") ;;
  vx <- lift (param_value (params self) x "vx") ;;
  vy <- lift (param_value (params self) x "vy") ;;
  disk_radius <- lift (if refine_radius self
                       then param_value (params self) x "disk radius"
                       else Ok (disk_radius self)) ;;
  disk_width <- lift (if refine_width self
                      then param_value (params self) x "edge width"
                      else Ok (disk_width self)) ;;
  for_each (combine (u_inds self) (v_inds self))
    (func_peak self x static_data x0 y0 ux uy vx vy disk_radius disk_width).

(** The per-pixel expressions of the Jacobian loop, for a pixel with mesh
    coordinates [(X, Y)] and clipped distance [r] from the pattern centre. *)
Section PeakDerivatives.

Variables (disk_intensity disk_radius disk_width x_pos y_pos : R).

Definition r_disk (X Y : R) : R :=
  np.maximum (5 / 10) (sqrt ((X - x_pos) ^ 2 + (Y - y_pos) ^ 2)).

(** a boolean array, used as 0 or 1 in the products below *)
Definition mask (X Y : R) : R :=
  if Rltb (r_disk X Y) (2 * disk_radius) then 1 else 0.

Definition top_exp (X Y : R) : R :=
  mask X Y * exp (4 * (mask X Y * r_disk X Y - disk_radius) / disk_width).

Definition dx (X Y r : R) : R :=
  4 * disk_intensity * (X - x_pos) * top_exp X Y
  / ((1 + top_exp X Y) ^ 2 * disk_width * r).

Definition dy (X Y r : R) : R :=
  4 * disk_intensity * (Y - y_pos) * top_exp X Y
  / ((1 + top_exp X Y) ^ 2 * disk_width * r).

Definition dI (X Y : R) : R := mask X Y * (1 / (1 + top_exp X Y)).

Definition dR (X Y : R) : R :=
  4 * disk_intensity * top_exp X Y
  / (disk_width * (1 + top_exp X Y) ^ 2).

Definition dW (X Y : R) : R :=
  4 * disk_intensity * top_exp X Y * (r_disk X Y - disk_radius)
  / (disk_width ^ 2 * (1 + top_exp X Y) ^ 2).

End PeakDerivatives.

(** One pass of the Jacobian loop. *)
Definition jacobian_peak (self : t) (x : list R) (static_data : static_data)
    (x0 y0 ux uy vx vy : R) (r : ndarray R) (disk_radius disk_width : R)
    (uv : Z * Z) : inplace np.jacobian_array unit :=
  let (u, v) := uv in
  let x_pos := x0 + IZR u * ux + IZR v * vx in
  let y_pos := y0 + IZR u * uy + IZR v * vy in
  disk_intensity <- lift (param_value (params self) x (intensity_key u v)) ;;
  coords <- lift (np.azip pair (xArray static_data) (yArray static_data)) ;;
  pixels <- lift (np.azip pair coords r) ;;
  let dx := map (fun p : R * R * R =>
                   dx disk_intensity disk_radius disk_width x_pos y_pos
                      (fst (fst p)) (snd (fst p)) (snd p)) (ravel pixels) in
  let dy := map (fun p : R * R * R =>
                   dy disk_intensity disk_radius disk_width x_pos y_pos
                      (fst (fst p)) (snd (fst p)) (snd p)) (ravel pixels) in
  (* insert center position derivatives *)
  col <- lift (column_of (params self) "x center") ;;
  np.iadd_column col (Ok (map (fun d => disk_intensity * d) dx)) ;;
  col <- lift (column_of (params self) "y center") ;;
  np.iadd_column col (Ok (map (fun d => disk_intensity * d) dy)) ;;
  (* insert lattice vector derivatives *)
  col <- lift (column_of (params self) "ux") ;;
  np.iadd_column col (Ok (map (fun d => disk_intensity * IZR u * d) dx)) ;;
  col <- lift (column_of (params self) "uy") ;;
  np.iadd_column col (Ok (map (fun d => disk_intensity * IZR u * d) dy)) ;;
  col <- lift (column_of (params self) "vx") ;;
  np.iadd_column col (Ok (map (fun d => disk_intensity * IZR v * d) dx)) ;;
  col <- lift (column_of (params self) "vy") ;;
  np.iadd_column col (Ok (map (fun d => disk_intensity * IZR v * d) dy)) ;;
  (* insert intensity derivative *)
  let dI := map (fun c : R * R =>
                   dI disk_radius disk_width x_pos y_pos (fst c) (snd c))
                (ravel coords) in
  col <- lift (column_of (params self) (intensity_key u v)) ;;
  np.iadd_column col (Ok dI) ;;
  (* insert disk radius derivative *)
  (if refine_radius self then
     let dR := map (fun c : R * R =>
                      dR disk_intensity disk_radius disk_width x_pos y_pos
                         (fst c) (snd c)) (ravel coords) in
     col <- lift (column_of (params self) "disk radius") ;;
     np.iadd_column col (Ok dR)
   else ret tt) ;;
  if refine_width self then
    let dW := map (fun c : R * R =>
                     dW disk_intensity disk_radius disk_width x_pos y_pos
                        (fst c) (snd c)) (ravel coords) in
    col <- lift (column_of (params self) "edge width") ;;
    np.iadd_column col (Ok dW)
  else ret tt.

Definition jacobian (self : t) (x : list R) (static_data : static_data)
  : inplace np.jacobian_array unit :=
  x0 <- lift (param_value (params self) x "x center") ;;
  y0 <- lift (param_value (params self) x "y center") ;;
  ux <- lift (param_value (params self) x "ux") ;;
  uy <- lift (param_value (params self) x "uy") ;;
  vx <- lift (param_value (params self) x "vx") ;;
  vy <- lift (param_value (params self) x "vy") ;;
  xc <- lift (getitem (params self) "x center") ;;
  yc <- lift (getitem (params self) "y center") ;;
  dist <- lift (_get_distance static_data x xc yc) ;;
  let r := np.amap (np.maximum (5 / 10)) dist in
  disk_radius <- lift (if refine_radius self
                       then param_value (params self) x "disk radius"
                       else Ok (disk_radius self)) ;;
  disk_width <- lift (if refine_width self
                      then param_value (params self) x "edge width"
                      else Ok (disk_width self)) ;;
  for_each (combine (u_inds self) (v_inds self))
    (jacobian_peak self x static_data x0 y0 ux uy vx vy r
                   disk_radius disk_width).

End SyntheticDiskLattice.

(** ** SyntheticDiskMoire *)

Module SyntheticDiskMoire.

(** The constructor reads the local name [params], which it never binds. *)
Definition __init__ (lattice_a lattice_b : SyntheticDiskLattice.t)
    (decorated_peaks : option (list (Z * Z))) (name : string)
  : result WPFModelPrototype.t :=
  let? params := (Raise (NameError "params") : result (dict Param.t)) in
  Ok (WPFModelPrototype.__init__ cls_SyntheticDiskMoire name params META).

Definition func (self : WPFModelPrototype.t) (x : list R)
    (static_data : static_data) : inplace (ndarray R) unit :=
  ret tt.

Definition jacobian (self : WPFModelPrototype.t) (x : list R)
    (static_data : static_data) : inplace np.jacobian_array unit :=
  ret tt.

End SyntheticDiskMoire.

(** ** Complex numbers and the discrete Fourier transform *)

Definition complex : Type := (R * R)%type.

Module Cx.

Definition zero : complex := (0, 0).
Definition of_real (a : R) : complex := (a, 0).
Definition add (z w : complex) : complex := (fst z + fst w, snd z + snd w).
Definition mul (z w : complex) : complex :=
  (fst z * fst w - snd z * snd w, fst z * snd w + snd z * fst w).
Definition scale (a : R) (z : complex) : complex := (a * fst z, a * snd z).
(** [np.abs] *)
Definition abs (z : complex) : R := sqrt (fst z ^ 2 + snd z ^ 2).
(** [np.exp] of a complex number *)
Definition exp (z : complex) : complex :=
  (Rtrigo_def.exp (fst z) * cos (snd z), Rtrigo_def.exp (fst z) * sin (snd z)).
(** [1j * t] *)
Definition j (t : R) : complex := (0, t).
Definition sum (zs : list complex) : complex := fold_right add zero zs.

End Cx.

Module fft.

(** [a[k, l]] of an array of shape [(M, N)] stored in C order *)
Definition cell (a : ndarray complex) (k l : nat) : complex :=
  nth (k * snd (shape a) + l) (ravel a) Cx.zero.

(** The two-dimensional discrete Fourier sum with sign [sgn] in the
    exponent, at output index [(m, n)]. *)
Definition dft_sum (sgn : R) (a : ndarray complex) (m n : nat) : complex :=
  let (M, N) := shape a in
  Cx.sum
    (flat_map
       (fun k =>
          map (fun l =>
                 Cx.mul (cell a k l)
                   (Cx.exp (Cx.j (sgn * 2 * PI
                                  * (INR m * INR k / INR M
                                     + INR n * INR l / INR N)))))
              (seq 0 N))
       (seq 0 M)).

Definition grid {A} (M N : nat) (f : nat -> nat -> A) : list A :=
  flat_map (fun m => map (fun n => f m n) (seq 0 N)) (seq 0 M).

(** [np.fft.fft2] *)
Definition fft2 (a : ndarray complex) : ndarray complex :=
  mk_ndarray (shape a)
    (grid (fst (shape a)) (snd (shape a)) (dft_sum (-1) a)).

(** [np.fft.ifft2] *)
Definition ifft2 (a : ndarray complex) : ndarray complex :=
  mk_ndarray (shape a)
    (grid (fst (shape a)) (snd (shape a))
       (fun m n =>
          Cx.scale (/ (INR (fst (shape a)) * INR (snd (shape a))))
                   (dft_sum 1 a m n))).

(** [np.fft.fftfreq(n)] *)
Definition fftfreq (n : nat) : result (list R) :=
  match n with
  | O => Raise ZeroDivisionError
  | _ =>
      Ok (map (fun i => (if Nat.ltb i ((n - 1) / 2 + 1)
                         then INR i else INR i - INR n) / INR n)
              (seq 0 n))
  end.

End fft.

(** The expression both kernel lattices evaluate for a peak at [(x, y)]:
    [np.fft.ifft2(self.probe_kernelFT
                  * np.exp(-2j * np.pi * (self.xqArray * x + self.yqArray * y)))],
    the probe kernel shifted by a Fourier phase ramp. *)
Definition shifted_kernel (probe_kernelFT : ndarray complex)
    (xqArray yqArray : ndarray R) (x y : R) : result (ndarray complex) :=
  let? ramp := np.azip (fun xq yq => xq * x + yq * y) xqArray yqArray in
  let phase := np.amap (fun t => Cx.exp (Cx.j (-2 * PI * t))) ramp in
  let? shifted := np.azip Cx.mul probe_kernelFT phase in
  Ok (fft.ifft2 shifted).

(** Run a computation on a fresh local array, leaving the outer one alone. *)
Definition with_local {S L A} (local : L) (m : inplace L A)
  : inplace S L :=
  fun s =>
    match m local with
    | (l, Ok _) => (s, Ok l)
    | (_, Raise e) => (s, Raise e)
    end.

(** [target += contribution] on a complex array *)
Definition iadd_complex (contribution : ndarray complex)
  : inplace (ndarray complex) unit :=
  fun target =>
    match np.azip Cx.add target contribution with
    | Ok target' => (target', Ok tt)
    | Raise e => (target, Raise e)
    end.

(** The part of [__init__] the two kernel lattices share, up to the creation
    of the per-peak parameters: the transforms, the four lattice-vector
    parameters, the grid and the frequency meshes. *)
Record kernel_setup : Type := mk_kernel_setup {
  ks_probe_kernelFT : ndarray complex;
  ks_params : dict Param.t;
  ks_grid : list (Z * Z);
  ks_yqArray : ndarray R;
  ks_xqArray : ndarray R
}.

Definition kernel_lattice_setup (wpf : WPF) (probe_kernel : ndarray R)
    (ux uy vx vy : R) (u_max v_max : Z) : result kernel_setup :=
  let probe_kernelFT := fft.fft2 (np.amap Cx.of_real probe_kernel) in
  let params : dict Param.t := [] in
  let? p := Param.__init__ (Num ux) None None in
  let params := setitem params "ux" p in
  let? p := Param.__init__ (Num uy) None None in
  let params := setitem params "uy" p in
  let? p := Param.__init__ (Num vx) None None in
  let params := setitem params "vx" p in
  let? p := Param.__init__ (Num vy) None None in
  let params := setitem params "vy" p in
  let? grid := mgrid u_max v_max in
  let Q_Nx := Q_Nx (wpf_static_data wpf) in
  let Q_Ny := Q_Ny (wpf_static_data wpf) in
  let? fy := fft.fftfreq Q_Ny in
  let yqArray := mk_ndarray (Q_Nx, Q_Ny) (List.concat (repeat fy Q_Nx)) in
  let? fx := fft.fftfreq Q_Nx in
  let xqArray :=
    mk_ndarray (Q_Nx, Q_Ny) (flat_map (fun f => repeat f Q_Ny) fx) in
  Ok (mk_kernel_setup probe_kernelFT params grid yqArray xqArray).

(** ** ComplexOverlapKernelDiskLattice *)

Module ComplexOverlapKernelDiskLattice.

Record t : Type := mk {
  base : WPFModelPrototype.t;
  probe_kernelFT : ndarray complex;
  u_inds : list Z;
  v_inds : list Z;
  yqArray : ndarray R;
  xqArray : ndarray R
}.

Fixpoint prune_loop (wpf : WPF) (exclude_indices : list (Z * Z))
    (intensity_0 : R) (grid : list (Z * Z)) (params : dict Param.t)
  : result (dict Param.t * list bool) :=
  match grid with
  | [] => Ok (params, [])
  | (u, v) :: rest =>
      let sd := wpf_static_data wpf in
      let? ux := getitem params "ux" in
      let? vx := getitem params "vx" in
      let x := global_x0 sd + IZR u * Param.initial_value ux
                            + IZR v * Param.initial_value vx in
      let? uy := getitem params "uy" in
      let? vy := getitem params "vy" in
      let y := global_y0 sd + IZR u * Param.initial_value uy
                            + IZR v * Param.initial_value vy in
      let? step :=
        if excluded exclude_indices u v then Ok (params, true)
        else if outside (Q_Nx sd) (Q_Ny sd) x y then Ok (params, true)
        else
          let? p := Param.__init__ (Num intensity_0) None None in
          let params := setitem params (intensity_key u v) p in
          let? ph :=
            if Z.eqb u 0 && Z.eqb v 0
            then (* direct beam clamped at zero phase *)
              Param.__init__ (Seq [0; 0; 0]) None None
            else Param.__init__ (Seq [1 / 100; - PI; PI]) None None in
          Ok (setitem params (phase_key u v) ph, false) in
      let? tail := prune_loop wpf exclude_indices intensity_0 rest
                              (fst step) in
      Ok (fst tail, snd step :: snd tail)
  end.

Definition __init__ (wpf : WPF) (probe_kernel : ndarray R)
    (ux uy vx vy : R) (u_max v_max : Z) (intensity_0 : R)
    (exclude_indices : list (Z * Z)) (name : string) : result t :=
  let? setup := kernel_lattice_setup wpf probe_kernel ux uy vx vy
                                     u_max v_max in
  let grid := ks_grid setup in
  let? looped := prune_loop wpf exclude_indices intensity_0 grid
                            (ks_params setup) in
  let delete_mask := snd looped in
  Ok (mk (WPFModelPrototype.__init__ cls_ComplexOverlapKernelDiskLattice
            name (fst looped) LATTICE)
         (ks_probe_kernelFT setup)
         (select_kept (map fst grid) delete_mask)
         (select_kept (map snd grid) delete_mask)
         (ks_yqArray setup) (ks_xqArray setup)).

(** One pass of the loop of [local_center_func], on [localDP]. *)
Definition local_peak (self : t) (args : list R) (x0 y0 ux uy vx vy : R)
    (iuv : nat * (Z * Z)) : inplace (ndarray complex) unit :=
  let '(i, (u, v)) := iuv in
  let x := x0 + IZR u * ux + IZR v * vx in
  let y := y0 + IZR u * uy + IZR v * vy in
  amplitude <- lift (getindex args (2 * i + 6)) ;;
  phase <- lift (getindex args (2 * i + 7)) ;;
  kernel <- lift (shifted_kernel (probe_kernelFT self) (xqArray self)
                                 (yqArray self) x y) ;;
  iadd_complex
    (np.amap (fun k => Cx.mul (Cx.mul (Cx.of_real amplitude)
                                      (Cx.exp (Cx.j phase)))
                              (Cx.of_real (Cx.abs k)))
             kernel).

Definition local_center_func (self : t) (args : list R)
    (kwargs : static_data) : inplace (ndarray R) unit :=
  x0 <- lift (getindex args 0) ;;
  y0 <- lift (getindex args 1) ;;
  ux <- lift (getindex args 2) ;;
  uy <- lift (getindex args 3) ;;
  vx <- lift (getindex args 4) ;;
  vy <- lift (getindex args 5) ;;
  fun DP =>
    (localDP <- with_local (np.zeros_like Cx.zero DP)
       (for_each
          (combine (seq 0 (List.length (u_inds self)))
                   (combine (u_inds self) (v_inds self)))
          (local_peak self args x0 y0 ux uy vx vy)) ;;
     np.iadd (np.amap (fun z => Cx.abs z ^ 2) localDP)) DP.

Definition global_center_func (self : t) (args : list R)
    (kwargs : static_data) : inplace (ndarray R) unit :=
  local_center_func self (global_x0 kwargs :: global_y0 kwargs :: args)
                    kwargs.

(** [self.func = self.global_center_func] *)
Definition func := global_center_func.

End ComplexOverlapKernelDiskLattice.

(** ** KernelDiskLattice *)

Module KernelDiskLattice.

Record t : Type := mk {
  base : WPFModelPrototype.t;
  probe_kernelFT : ndarray complex;
  u_inds : list Z;
  v_inds : list Z;
  yqArray : ndarray R;
  xqArray : ndarray R
}.

Fixpoint prune_loop (wpf : WPF) (exclude_indices : list (Z * Z))
    (intensity_0 : R) (grid : list (Z * Z)) (params : dict Param.t)
  : result (dict Param.t * list bool) :=
  match grid with
  | [] => Ok (params, [])
  | (u, v) :: rest =>
      let sd := wpf_static_data wpf in
      let? ux := getitem params "ux" in
      let? vx := getitem params "vx" in
      let x := global_x0 sd + IZR u * Param.initial_value ux
                            + IZR v * Param.initial_value vx in
      let? uy := getitem params "uy" in
      let? vy := getitem params "vy" in
      let y := global_y0 sd + IZR u * Param.initial_value uy
                            + IZR v * Param.initial_value vy in
      let? step :=
        if excluded exclude_indices u v then Ok (params, true)
        else if outside (Q_Nx sd) (Q_Ny sd) x y then Ok (params, true)
        else
          let? p := Param.__init__ (Num intensity_0) None None in
          Ok (setitem params (intensity_key u v) p, false) in
      let? tail := prune_loop wpf exclude_indices intensity_0 rest
                              (fst step) in
      Ok (fst tail, snd step :: snd tail)
  end.

Definition __init__ (wpf : WPF) (probe_kernel : ndarray R)
    (ux uy vx vy : R) (u_max v_max : Z) (intensity_0 : R)
    (exclude_indices : list (Z * Z)) (name : string) : result t :=
  let? setup := kernel_lattice_setup wpf probe_kernel ux uy vx vy
                                     u_max v_max in
  let grid := ks_grid setup in
  let? looped := prune_loop wpf exclude_indices intensity_0 grid
                            (ks_params setup) in
  let delete_mask := snd looped in
  Ok (mk (WPFModelPrototype.__init__ cls_KernelDiskLattice
            name (fst looped) LATTICE)
         (ks_probe_kernelFT setup)
         (select_kept (map fst grid) delete_mask)
         (select_kept (map snd grid) delete_mask)
         (ks_yqArray setup) (ks_xqArray setup)).

(** One pass of the loop of [local_center_func]. *)
Definition local_peak (self : t) (args : list R) (x0 y0 ux uy vx vy : R)
    (iuv : nat * (Z * Z)) : inplace (ndarray R) unit :=
  let '(i, (u, v)) := iuv in
  let x := x0 + IZR u * ux + IZR v * vx in
  let y := y0 + IZR u * uy + IZR v * vy in
  intensity <- lift (getindex args (i + 6)) ;;
  kernel <- lift (shifted_kernel (probe_kernelFT self) (xqArray self)
                                 (yqArray self) x y) ;;
  np.iadd (np.amap (fun k => (intensity * Cx.abs k) ^ 2) kernel).

Definition local_center_func (self : t) (args : list R)
    (kwargs : static_data) : inplace (ndarray R) unit :=
  x0 <- lift (getindex args 0) ;;
  y0 <- lift (getindex args 1) ;;
  ux <- lift (getindex args 2) ;;
  uy <- lift (getindex args 3) ;;
  vx <- lift (getindex args 4) ;;
  vy <- lift (getindex args 5) ;;
  for_each
    (combine (seq 0 (List.length (u_inds self)))
             (combine (u_inds self) (v_inds self)))
    (local_peak self args x0 y0 ux uy vx vy).

Definition global_center_func (self : t) (args : list R)
    (kwargs : static_data) : inplace (ndarray R) unit :=
  local_center_func self (global_x0 kwargs :: global_y0 kwargs :: args)
                    kwargs.

(** [self.func = self.global_center_func] *)
Definition func := global_center_func.

End KernelDiskLattice.

(** ** The forward and Jacobian functions of the file *)

(** Every function of the file that builds up the pattern in place,
    together with the object it is bound to. *)
Inductive forward_function : Type :=
| fwd_Prototype (self : WPFModelPrototype.t)
| fwd_BaseModel (self : WPFModelPrototype.t)
| fwd_DCBackground (self : WPFModelPrototype.t)
| fwd_GaussianBackground (self : WPFModelPrototype.t)
| fwd_GaussianRing_global_center (self : WPFModelPrototype.t)
| fwd_SyntheticDiskLattice (self : SyntheticDiskLattice.t)
| fwd_SyntheticDiskMoire (self : WPFModelPrototype.t)
| fwd_ComplexOverlap_global_center (self : ComplexOverlapKernelDiskLattice.t)
| fwd_ComplexOverlap_local_center (self : ComplexOverlapKernelDiskLattice.t)
| fwd_Kernel_global_center (self : KernelDiskLattice.t)
| fwd_Kernel_local_center (self : KernelDiskLattice.t).

(** Calling a forward function.  The functions written as
    [f(DP, x, **kwargs)] receive the flat parameter vector [x]; those written
    as [f(DP, *args, **kwargs)] receive [x] unpacked as positional
    arguments. *)
Definition call_forward (f : forward_function) (x : list R)
    (kwargs : static_data) : inplace (ndarray R) unit :=
  match f with
  | fwd_Prototype _ => WPFModelPrototype.func
  | fwd_BaseModel self => _BaseModel.func self x kwargs
  | fwd_DCBackground self => DCBackground.func self x kwargs
  | fwd_GaussianBackground self => GaussianBackground.func self x kwargs
  | fwd_GaussianRing_global_center self =>
      GaussianRing.global_center_func self x kwargs
  | fwd_SyntheticDiskLattice self => SyntheticDiskLattice.func self x kwargs
  | fwd_SyntheticDiskMoire self => SyntheticDiskMoire.func self x kwargs
  | fwd_ComplexOverlap_global_center self =>
      ComplexOverlapKernelDiskLattice.global_center_func self x kwargs
  | fwd_ComplexOverlap_local_center self =>
      ComplexOverlapKernelDiskLattice.local_center_func self x kwargs
  | fwd_Kernel_global_center self =>
      KernelDiskLattice.global_center_func self x kwargs
  | fwd_Kernel_local_center self =>
      KernelDiskLattice.local_center_func self x kwargs
  end.

(** A model component: an instance of one of the classes. *)
Inductive model : Type :=
| BaseModel_obj (self : WPFModelPrototype.t)
| DCBackground_obj (self : WPFModelPrototype.t)
| GaussianBackground_obj (self : WPFModelPrototype.t)
| GaussianRing_obj (self : WPFModelPrototype.t)
| SyntheticDiskLattice_obj (self : SyntheticDiskLattice.t)
| SyntheticDiskMoire_obj (self : WPFModelPrototype.t)
| ComplexOverlapKernelDiskLattice_obj (self : ComplexOverlapKernelDiskLattice.t)
| KernelDiskLattice_obj (self : KernelDiskLattice.t).

(** Attribute lookup of [model.func]: GaussianRing neither overrides [func]
    nor assigns it, so it inherits the prototype's. *)
Definition func_of (m : model) : forward_function :=
  match m with
  | BaseModel_obj self => fwd_BaseModel self
  | DCBackground_obj self => fwd_DCBackground self
  | GaussianBackground_obj self => fwd_GaussianBackground self
  | GaussianRing_obj self => fwd_Prototype self
  | SyntheticDiskLattice_obj self => fwd_SyntheticDiskLattice self
  | SyntheticDiskMoire_obj self => fwd_SyntheticDiskMoire self
  | ComplexOverlapKernelDiskLattice_obj self =>
      fwd_ComplexOverlap_global_center self
  | KernelDiskLattice_obj self => fwd_Kernel_global_center self
  end.

(** [target + contribution], cell by cell.  The sum is as long as the
    shorter of the two; wherever it matters the contribution is shown to
    have one entry for every cell of the target. *)
Definition padd (target : ndarray R) (contribution : list R) : ndarray R :=
  mk_ndarray (shape target) (np.zip_with Rplus (ravel target) contribution).

(** An array whose number of cells agrees with its shape. *)
Definition well_formed {A} (a : ndarray A) : Prop :=
  List.length (ravel a) = (fst (shape a) * snd (shape a))%nat.

(** Modelled from the spec: the composition engine's [evaluate] step, whose
    class is not part of this file.  Every registered component's forward
    function is invoked in registration order on the working pattern. *)
Definition evaluate_onto (components : list model) (x : list R)
    (kwargs : static_data) : inplace (ndarray R) unit :=
  for_each components (fun m => call_forward (func_of m) x kwargs).

(** ** Concrete objects used in the examples *)

(** [GaussianRing(WPF, radius=10, sigma=2, intensity=1)] with a local centre
    at (64, 64), after the engine assigned the offsets 0..4. *)
Definition example_ring : WPFModelPrototype.t :=
  let p v i := Param.mk v NegInf PosInf (Some i) in
  WPFModelPrototype.mk "Gaussian Ring"
    [("radius", p 10 2%nat); ("sigma", p 2 3%nat); ("intensity", p 1 4%nat);
     ("x center", p 64 0%nat); ("y center", p 64 1%nat)]%string
    5 false AMORPHOUS.

(** The 1x1 array [[v]]. *)
Definition one_pixel (v : R) : ndarray R := mk_ndarray (1, 1)%nat [v].

(** The context of a 1x1 pattern whose only pixel and whose centre are at
    the origin. *)
Definition example_context : static_data :=
  mk_static_data (one_pixel 0) (one_pixel 0) 0 0 1 1.

(** ** Additivity of an in-place computation *)

(** [m] only adds into the array it is given: started on two arrays of the
    same shape, each with as many cells as the shape says, it ends with the
    same outcome on both and has added the same contribution [c] to both;
    [c] has one entry for every cell, so no cell is dropped. *)
Definition additive {A} (m : inplace (ndarray R) A) : Prop :=
  forall DP1 DP2 : ndarray R,
    shape DP1 = shape DP2 ->
    well_formed DP1 -> well_formed DP2 ->
    exists (c : list R) (o : result A),
      List.length c = List.length (ravel DP1)
      /\ m DP1 = (padd DP1 c, o) /\ m DP2 = (padd DP2 c, o).

(** The part of additivity that needs no assumption on the number of cells:
    the two runs agree on the outcome and on what was added.  Where [c] is
    shorter than the array, [padd] cuts the array, so this alone does not
    say that the cells are kept. *)
Definition same_contribution {A} (m : inplace (ndarray R) A) : Prop :=
  forall DP1 DP2 : ndarray R,
    shape DP1 = shape DP2 ->
    List.length (ravel DP1) = List.length (ravel DP2) ->
    exists (c : list R) (o : result A),
      m DP1 = (padd DP1 c, o) /\ m DP2 = (padd DP2 c, o).

(** A computation that keeps the shape of a well-formed array and leaves
    it well formed, whether it returns or raises. *)
Definition keeps_cells {T A} (m : inplace (ndarray T) A) : Prop :=
  forall a a' o,
    well_formed a -> m a = (a', o) ->
    shape a' = shape a /\ well_formed a'.

(** ** Closed forms the models are compared with *)

Definition Rsum (terms : list R) : R := fold_right Rplus 0 terms.

(** The soft-edged disk profile as the design states it:
    I(r) = intensity / (1 + exp(clamp(4 (r - radius) / width, max = 20))). *)
Definition sigmoid_disk (intensity radius width r : R) : R :=
  intensity / (1 + exp (Rmin (4 * (r - radius) / width) 20)).

(** Euclidean distance between a pixel and a point. *)
Definition distance (X Y cx cy : R) : R :=
  sqrt ((X - cx) ^ 2 + (Y - cy) ^ 2).

(** The centre of peak [(u, v)]: center + u (ux, uy) + v (vx, vy). *)
Definition peak_center (x0 y0 ux uy vx vy : R) (uv : Z * Z) : R * R :=
  (x0 + IZR (fst uv) * ux + IZR (snd uv) * vx,
   y0 + IZR (fst uv) * uy + IZR (snd uv) * vy).

(** The constant background [DCBackground(1.0)] with its level at offset 2. *)
Definition example_dc : WPFModelPrototype.t :=
  WPFModelPrototype.mk "DC Background"
    [("DC Level"%string, Param.mk 1 NegInf PosInf (Some 2%nat))]
    1 true BACKGROUND.

(** A disk lattice with the single peak (0, 0), disk radius 1 and edge
    width 4, not refined, after the engine assigned the offsets 0..6. *)
Definition example_lattice : SyntheticDiskLattice.t :=
  let p v i := Param.mk v NegInf PosInf (Some i) in
  SyntheticDiskLattice.mk
    (WPFModelPrototype.mk "Synthetic Disk Lattice"
       [("x center", p 0 0%nat); ("y center", p 0 1%nat);
        ("ux", p 1 2%nat); ("uy", p 0 3%nat);
        ("vx", p 0 4%nat); ("vy", p 1 5%nat);
        ("[0,0] Intensity", p 2 6%nat)]%string
       7 true LATTICE)
    1 4 [0%Z] [0%Z] false false.

(** The context of a pattern of shape (2, 1): the meshes
    [np.mgrid[0:2, 0:1]], whose pixels are (0, 0) and (1, 0), and the
    centre at the origin. *)
Definition example_mesh : static_data :=
  mk_static_data (mk_ndarray (2, 1)%nat [0; 1]) (mk_ndarray (2, 1)%nat [0; 0])
                 0 0 2 1.

(** The parameter vector of [example_lattice] with the pattern centre at
    [(t, 0)], unit lattice vectors and peak intensity 2. *)
Definition example_vector (t : R) : list R := [t; 0; 1; 0; 0; 1; 2].

(** The array [shifted_kernel] returns when the three shapes agree. *)
Definition shifted (probe_kernelFT : ndarray complex)
    (xqArray yqArray : ndarray R) (x y : R) : ndarray complex :=
  fft.ifft2
    (mk_ndarray (shape probe_kernelFT)
       (np.zip_with Cx.mul (ravel probe_kernelFT)
          (map (fun t => Cx.exp (Cx.j (-2 * PI * t)))
               (np.zip_with (fun xq yq => xq * x + yq * y)
                            (ravel xqArray) (ravel yqArray))))).

(** [|shifted_kernel|] at the pixel with flat index [p] *)
Definition shifted_magnitude (probe_kernelFT : ndarray complex)
    (xqArray yqArray : ndarray R) (x y : R) (p : nat) : R :=
  Cx.abs (nth p (ravel (shifted probe_kernelFT xqArray yqArray x y)) Cx.zero).

(** [enumerate(zip(u_inds, v_inds))] *)
Definition enumerate_peaks (u_inds v_inds : list Z) : list (nat * (Z * Z)) :=
  combine (seq 0 (List.length u_inds)) (combine u_inds v_inds).

(** A kernel lattice on a 1x1 pattern: the probe kernel [[1.]], whose
    transform is [[1+0j]], the frequency meshes [[0.]], and the single peak
    (0, 0). *)
Definition example_kernel_lattice : KernelDiskLattice.t :=
  let p v := Param.mk v NegInf PosInf None in
  KernelDiskLattice.mk
    (WPFModelPrototype.mk "Custom Kernel Disk Lattice"
       [("ux", p 1); ("uy", p 0); ("vx", p 0); ("vy", p 1);
        ("[0,0] Intensity", p 1)]%string
       5 false LATTICE)
    (mk_ndarray (1, 1)%nat [(1, 0)]) [0%Z] [0%Z]
    (one_pixel 0) (one_pixel 0).

(** The coherent lattice on the same pattern. *)
Definition example_coherent_lattice : ComplexOverlapKernelDiskLattice.t :=
  let p v := Param.mk v NegInf PosInf None in
  ComplexOverlapKernelDiskLattice.mk
    (WPFModelPrototype.mk "Complex Overlapped Disk Lattice"
       [("ux", p 1); ("uy", p 0); ("vx", p 0); ("vy", p 1);
        ("[0,0] Intensity", p 1);
        ("[0, 0] Phase", Param.mk 0 (Finite 0) (Finite 0) None)]%string
       6 false LATTICE)
    (mk_ndarray (1, 1)%nat [(1, 0)]) [0%Z] [0%Z]
    (one_pixel 0) (one_pixel 0).

(** ** Characters of a formatted key *)

Fixpoint all_chars (P : ascii -> bool) (s : string) : bool :=
  match s with
  | EmptyString => true
  | String a rest => P a && all_chars P rest
  end.

(** the characters [str] produces *)
Definition numeral_char (a : ascii) : bool :=
  existsb (Ascii.eqb a) (list_ascii_of_string "0123456789-").

(** The Phase parameter of the direct beam: [Parameter(0.0, 0.0, 0.0)]. *)
Definition clamped_phase : Param.t := Param.mk 0 (Finite 0) (Finite 0) None.

(** An engine for a 1x1 pattern with its centre at the origin. *)
Definition example_engine : WPF :=
  mk_WPF
    (WPFModelPrototype.mk "Globals"
       [("x center", Param.mk 0 NegInf PosInf None);
        ("y center", Param.mk 0 NegInf PosInf None)]%string
       2 true DUMMY)
    example_context.

(** ** The pruning rule of the lattice constructors *)

(** A peak of the generated grid survives when it is not listed in the
    exclusion list and its predicted centre lies in
    [0, Q_Nx] x [0, Q_Ny]. *)
Definition survives (exclude_indices : list (Z * Z)) (Q_Nx Q_Ny : nat)
    (x0 y0 ux uy vx vy : R) (uv : Z * Z) : bool :=
  negb (excluded exclude_indices (fst uv) (snd uv))
  && negb (outside Q_Nx Q_Ny
             (x0 + IZR (fst uv) * ux + IZR (snd uv) * vx)
             (y0 + IZR (fst uv) * uy + IZR (snd uv) * vy)).

(** [Parameter(v)] *)
Definition free_parameter (v : R) : Param.t := Param.mk v NegInf PosInf None.

(** ** The Jacobian of the example lattice *)

(** A zeroed Jacobian with [npix] rows and [ncols] columns. *)
Definition zero_jacobian (npix ncols : nat) : np.jacobian_array :=
  repeat (repeat 0 npix) ncols.

(** The forward contribution of [example_lattice] at the pixel (1, 0), as a
    function of the x centre [t], all other parameters held fixed. *)
Definition forward_pixel (t : R) : R :=
  nth 1 (ravel (fst (SyntheticDiskLattice.func example_lattice
                       (example_vector t) example_mesh
                       (mk_ndarray (2, 1)%nat [0; 0])))) 0.

(** The entry of the analytic Jacobian for that pixel and the x-centre
    column, at [t = 0]. *)
Definition analytic_center_entry : R :=
  nth 1 (nth 0 (fst (SyntheticDiskLattice.jacobian example_lattice
                       (example_vector 0) example_mesh (zero_jacobian 2 7)))
               []) 0.

Arguments SyntheticDiskLattice.dx : simpl never.
Arguments SyntheticDiskLattice.dy : simpl never.
Arguments SyntheticDiskLattice.dI : simpl never.
Arguments SyntheticDiskLattice.dR : simpl never.
Arguments SyntheticDiskLattice.dW : simpl never.
Arguments np.maximum : simpl never.
Arguments np.minimum : simpl never.


(** ** Reading a Jacobian *)

(** [J[p, c]], with 0 outside the array. *)
Definition col_entry (J : np.jacobian_array) (c p : nat) : R :=
  nth p (nth c J []) 0.

(** A Jacobian of shape [(npix, ncols)]. *)
Definition jac_shape (npix ncols : nat) (J : np.jacobian_array) : Prop :=
  List.length J = ncols /\ Forall (fun column => List.length column = npix) J.

(** The columns a model owns: the offsets assigned to its parameters. *)
Definition owns_column (params : dict Param.t) (c : nat) : Prop :=
  exists key p, getitem params key = Ok p /\ Param.offset p = Some c.

(** ** Forward functions with a single in-place update *)

(** The forward functions whose body performs at most one [DP += ...], as
    its last statement.  The disk lattice and the incoherent kernel lattice
    update [DP] once per peak inside their loop. *)
Definition updates_once (f : forward_function) : bool :=
  match f with
  | fwd_SyntheticDiskLattice _
  | fwd_Kernel_global_center _
  | fwd_Kernel_local_center _ => false
  | _ => true
  end.

(** A computation that leaves the array untouched whenever it raises. *)
Definition all_or_nothing {S A} (m : inplace S A) : Prop :=
  forall s s' e, m s = (s', Raise e) -> s' = s.

(** ** The Jacobian functions of the file *)

Inductive jacobian_function : Type :=
| jac_BaseModel (self : WPFModelPrototype.t)
| jac_DCBackground (self : WPFModelPrototype.t)
| jac_GaussianBackground (self : WPFModelPrototype.t)
| jac_GaussianRing_global_center (self : WPFModelPrototype.t)
| jac_SyntheticDiskLattice (self : SyntheticDiskLattice.t)
| jac_SyntheticDiskMoire (self : WPFModelPrototype.t).

Definition call_jacobian (f : jacobian_function) (x : list R)
    (kwargs : static_data) : inplace np.jacobian_array unit :=
  match f with
  | jac_BaseModel self => _BaseModel.jacobian self x kwargs
  | jac_DCBackground self => DCBackground.jacobian self x kwargs
  | jac_GaussianBackground self => GaussianBackground.jacobian self x kwargs
  | jac_GaussianRing_global_center self =>
      GaussianRing.global_center_jacobian self x kwargs
  | jac_SyntheticDiskLattice self => SyntheticDiskLattice.jacobian self x kwargs
  | jac_SyntheticDiskMoire self => SyntheticDiskMoire.jacobian self x kwargs
  end.

(** [self.params] of the object a Jacobian function is bound to. *)
Definition params_of (f : jacobian_function) : dict Param.t :=
  match f with
  | jac_BaseModel self | jac_DCBackground self | jac_GaussianBackground self
  | jac_GaussianRing_global_center self | jac_SyntheticDiskMoire self =>
      WPFModelPrototype.params self
  | jac_SyntheticDiskLattice self => SyntheticDiskLattice.params self
  end.

(** A computation on a Jacobian that keeps its shape and changes no column
    outside [cols], whether it returns or raises. *)
Definition writes_only {A} (cols : nat -> Prop)
    (m : inplace np.jacobian_array A) : Prop :=
  forall J J' o,
    m J = (J', o) ->
    List.length J' = List.length J
    /\ (forall c column, nth_error J c = Some column ->
          exists column', nth_error J' c = Some column'
                          /\ List.length column' = List.length column
                          /\ (~ cols c -> column' = column)).

(** What a list of column updates adds to the entry [(p, c)]: [values[p]]
    for an update of column [c], nothing for another column. *)
Definition one_column (col : nat) (values : list R) (c p : nat) : R :=
  if Nat.eqb c col then nth p values 0 else 0.

(** A computation that, on every Jacobian of shape [(npix, ncols)], returns
    normally, keeps the shape and adds [delta c p] to the entry [(p, c)]. *)
Definition adds_entries (npix ncols : nat)
    (m : inplace np.jacobian_array unit) (delta : nat -> nat -> R) : Prop :=
  forall J,
    jac_shape npix ncols J ->
    exists J',
      m J = (J', Ok tt)
      /\ jac_shape npix ncols J'
      /\ forall c p, col_entry J' c p = col_entry J c p + delta c p.

(** The Gaussian blob the Gaussian background adds at the pixel (X, Y), in
    the form the forward function computes it: the squared distance is the
    square of a square root. *)
Definition gaussian_pixel (sigma level x0 y0 X Y : R) : R :=
  level * exp (distance X Y x0 y0 ^ 2 / (-2 * sigma ^ 2)).

(** [GaussianBackground(WPF, sigma=2, intensity=1)] sharing the engine's
    centre, after the engine assigned the offsets 0..3. *)
Definition example_gaussian : WPFModelPrototype.t :=
  let p v i := Param.mk v NegInf PosInf (Some i) in
  WPFModelPrototype.mk "Gaussian Background"
    [("sigma", p 2 2%nat); ("intensity", p 1 3%nat);
     ("x center", p 0 0%nat); ("y center", p 0 1%nat)]%string
    4 true BACKGROUND.


(** An engine whose coordinate model registers no centre. *)
Definition centerless_engine : WPF :=
  mk_WPF (WPFModelPrototype.mk "Globals" [] 0 true DUMMY) example_context.

(** ** The Jacobian of the disk lattice, entry by entry *)

(** The column a parameter was assigned, when it was assigned one. *)
Definition offset_of (params : dict Param.t) (key : string) : nat :=
  match column_of params key with
  | Ok c => c
  | Raise _ => 0%nat
  end.

(** The parameters a disk lattice reads from the parameter vector, with the
    values they have there. *)
Definition lattice_values (self : SyntheticDiskLattice.t) (x : list R)
    (x0 y0 ux uy vx vy radius width : R) (intensity : Z * Z -> R) : Prop :=
  let params := SyntheticDiskLattice.params self in
  param_value params x "x center" = Ok x0
  /\ param_value params x "y center" = Ok y0
  /\ param_value params x "ux" = Ok ux
  /\ param_value params x "uy" = Ok uy
  /\ param_value params x "vx" = Ok vx
  /\ param_value params x "vy" = Ok vy
  /\ (if SyntheticDiskLattice.refine_radius self
      then param_value params x "disk radius"
      else Ok (SyntheticDiskLattice.disk_radius self)) = Ok radius
  /\ (if SyntheticDiskLattice.refine_width self
      then param_value params x "edge width"
      else Ok (SyntheticDiskLattice.disk_width self)) = Ok width
  /\ (forall u v,
         In (u, v) (combine (SyntheticDiskLattice.u_inds self)
                            (SyntheticDiskLattice.v_inds self)) ->
         param_value params x (intensity_key u v) = Ok (intensity (u, v))).

(** No two parameters of a dict share an offset. *)
Definition distinct_offsets (params : dict Param.t) : Prop :=
  NoDup (map (fun entry => Param.offset (snd entry)) params).

(** [v] in column [col], nothing in the other columns. *)
Definition pick (c col : nat) (v : R) : R := if Nat.eqb c col then v else 0.

(** What one pass of the Jacobian loop, for the peak [uv], adds to column
    [c] at a pixel with mesh coordinates [(X, Y)]: the source's expressions
    [dx], [dy], [dI], [dR] and [dW], each in the column of its parameter. *)
Definition jacobian_peak_entry (self : SyntheticDiskLattice.t)
    (x0 y0 ux uy vx vy radius width : R) (intensity : Z * Z -> R)
    (X Y : R) (uv : Z * Z) (c : nat) : R :=
  let params := SyntheticDiskLattice.params self in
  let x_pos := fst (peak_center x0 y0 ux uy vx vy uv) in
  let y_pos := snd (peak_center x0 y0 ux uy vx vy uv) in
  let disk_intensity := intensity uv in
  let r := np.maximum (5 / 10) (distance X Y x0 y0) in
  let dx := SyntheticDiskLattice.dx disk_intensity radius width x_pos y_pos
                                    X Y r in
  let dy := SyntheticDiskLattice.dy disk_intensity radius width x_pos y_pos
                                    X Y r in
  pick c (offset_of params "x center") (disk_intensity * dx)
  + (pick c (offset_of params "y center") (disk_intensity * dy)
  + (pick c (offset_of params "ux") (disk_intensity * IZR (fst uv) * dx)
  + (pick c (offset_of params "uy") (disk_intensity * IZR (fst uv) * dy)
  + (pick c (offset_of params "vx") (disk_intensity * IZR (snd uv) * dx)
  + (pick c (offset_of params "vy") (disk_intensity * IZR (snd uv) * dy)
  + (pick c (offset_of params (intensity_key (fst uv) (snd uv)))
          (SyntheticDiskLattice.dI radius width x_pos y_pos X Y)
  + ((if SyntheticDiskLattice.refine_radius self
      then pick c (offset_of params "disk radius")
             (SyntheticDiskLattice.dR disk_intensity radius width
                                      x_pos y_pos X Y)
      else 0)
  + (if SyntheticDiskLattice.refine_width self
     then pick c (offset_of params "edge width")
            (SyntheticDiskLattice.dW disk_intensity radius width
                                     x_pos y_pos X Y)
     else 0)))))))).

(** A disk lattice with the single peak (0, 0) that refines its disk radius
    1 and its edge width 4, after the engine assigned the offsets 0..8. *)
Definition example_refined_lattice : SyntheticDiskLattice.t :=
  let p v i := Param.mk v NegInf PosInf (Some i) in
  SyntheticDiskLattice.mk
    (WPFModelPrototype.mk "Synthetic Disk Lattice"
       [("x center", p 0 0%nat); ("y center", p 0 1%nat);
        ("ux", p 1 2%nat); ("uy", p 0 3%nat);
        ("vx", p 0 4%nat); ("vy", p 1 5%nat);
        ("[0,0] Intensity", p 2 6%nat);
        ("disk radius", p 1 7%nat); ("edge width", p 4 8%nat)]%string
       9 true LATTICE)
    1 4 [0%Z] [0%Z] true true.

(** Its parameter vector with the pattern centre at [(t, 0)], unit lattice
    vectors, peak intensity 2, disk radius 1 and edge width 4. *)
Definition example_refined_vector (t : R) : list R :=
  [t; 0; 1; 0; 0; 1; 2; 1; 4].

(** ** The parameters of the kernel lattices *)

(** The Phase parameter the coherent lattice creates for a peak:
    [Parameter(0.0, 0.0, 0.0)] for the direct beam and
    [Parameter(0.01, -np.pi, np.pi)] for every other peak. *)
Definition phase_parameter (uv : Z * Z) : Param.t :=
  if Z.eqb (fst uv) 0 && Z.eqb (snd uv) 0 then clamped_phase
  else Param.mk (1 / 100) (Finite (- PI)) (Finite PI) None.

(** The peaks a kernel lattice retains: the pruning rule around the
    engine's pattern centre. *)
Definition kernel_peaks (wpf : WPF) (ux uy vx vy : R) (u_max v_max : Z)
    (exclude_indices : list (Z * Z)) : list (Z * Z) :=
  let sd := wpf_static_data wpf in
  filter (survives exclude_indices (Q_Nx sd) (Q_Ny sd)
                   (global_x0 sd) (global_y0 sd) ux uy vx vy)
         (index_grid u_max v_max).

(** ** What the kernel lattices add *)

(** The amount the incoherent lattice adds at the pixel with flat index
    [p], for positional arguments [args]. *)
Definition incoherent_gain (self : KernelDiskLattice.t) (args : list R)
    (p : nat) : R :=
  Rsum (map (fun iuv : nat * (Z * Z) =>
               let '(i, (u, v)) := iuv in
               (nth (i + 6) args 0
                * shifted_magnitude (KernelDiskLattice.probe_kernelFT self)
                    (KernelDiskLattice.xqArray self)
                    (KernelDiskLattice.yqArray self)
                    (nth 0 args 0 + IZR u * nth 2 args 0
                     + IZR v * nth 4 args 0)
                    (nth 1 args 0 + IZR u * nth 3 args 0
                     + IZR v * nth 5 args 0) p) ^ 2)
            (enumerate_peaks (KernelDiskLattice.u_inds self)
                             (KernelDiskLattice.v_inds self))).

(** The complex amplitude the coherent lattice adds to [localDP] at the
    pixel [p] for the peak with running index [i]. *)
Definition coherent_amplitude (self : ComplexOverlapKernelDiskLattice.t)
    (args : list R) (p : nat) (iuv : nat * (Z * Z)) : complex :=
  let '(i, (u, v)) := iuv in
  Cx.mul
    (Cx.mul (Cx.of_real (nth (2 * i + 6) args 0))
            (Cx.exp (Cx.j (nth (2 * i + 7) args 0))))
    (Cx.of_real
       (shifted_magnitude (ComplexOverlapKernelDiskLattice.probe_kernelFT self)
          (ComplexOverlapKernelDiskLattice.xqArray self)
          (ComplexOverlapKernelDiskLattice.yqArray self)
          (nth 0 args 0 + IZR u * nth 2 args 0 + IZR v * nth 4 args 0)
          (nth 1 args 0 + IZR u * nth 3 args 0 + IZR v * nth 5 args 0) p)).

(** The amount the coherent lattice adds at the pixel [p]. *)
Definition coherent_gain (self : ComplexOverlapKernelDiskLattice.t)
    (args : list R) (p : nat) : R :=
  Cx.abs (Cx.sum (map (coherent_amplitude self args p)
                      (enumerate_peaks
                         (ComplexOverlapKernelDiskLattice.u_inds self)
                         (ComplexOverlapKernelDiskLattice.v_inds self)))) ^ 2.

(** The positional arguments of the coherent lattice with every phase
    advanced by [phi]: the six geometry values are kept, and of every
    following pair (Intensity, Phase) the second is shifted. *)
Fixpoint shift_pairs (phi : R) (pairs : list R) : list R :=
  match pairs with
  | a :: ph :: rest => a :: (ph + phi) :: shift_pairs phi rest
  | _ => pairs
  end.

Definition shift_phases (phi : R) (args : list R) : list R :=
  firstn 6 args ++ shift_pairs phi (skipn 6 args).

(** The sample frequency [np.fft.fftfreq(n)[i]]: [i / n] in the first
    half, [(i - n) / n] in the second. *)
Definition sample_frequency (n i : nat) : R :=
  (if Nat.ltb i ((n - 1) / 2 + 1) then INR i else INR i - INR n) / INR n.
(** * Properties *)

(** ** Parameter construction *)

Lemma Param_init_num (v : R) (lo hi : option R) :
  Param.__init__ (Num v) lo hi =
  Ok (Param.mk v (match lo with Some l => Finite l | None => NegInf end)
               (match hi with Some u => Finite u | None => PosInf end) None).
Proof. reflexivity. Qed.

(** C8, as the code has it: [Parameter.__init__] does not compare the
    bounds.  Whatever the bounds are, also when the lower one exceeds the
    upper one, construction succeeds and stores them unchanged; a
    (value, tolerance) pair with a negative tolerance likewise yields a lower
    bound above the upper bound. *)
Theorem Parameter_init_stores_bounds_unchecked :
  (forall v lo hi : R,
      Param.__init__ (Num v) (Some lo) (Some hi)
      = Ok (Param.mk v (Finite lo) (Finite hi) None))
  /\ (forall (v lo hi : R) (lo' hi' : option R),
      Param.__init__ (Seq [v; lo; hi]) lo' hi'
      = Ok (Param.mk v (Finite lo) (Finite hi) None))
  /\ (forall (v tol : R) (lo' hi' : option R),
      Param.__init__ (Seq [v; tol]) lo' hi'
      = Ok (Param.mk v (Finite (v - tol)) (Finite (v + tol)) None)).
Proof. repeat split; reflexivity. Qed.

(** C8 fails on the code: with lower bound 1 and upper bound -1 the
    constructor returns a Parameter instead of raising. *)
Lemma Parameter_init_inverted_bounds_accepted :
  1 > -1 /\
  Param.__init__ (Num 0) (Some 1) (Some (-1))
  = Ok (Param.mk 0 (Finite 1) (Finite (-1)) None).
Proof. split; [lra | reflexivity]. Qed.

(** ** The global coordinate model *)

(** C10: a [_BaseModel] owns exactly the parameters "x center" and
    "y center", reports [hasJacobian] as true, and both its forward and its
    Jacobian function return normally and leave the array they are given
    unchanged, for every parameter vector. *)
Theorem BaseModel_is_noop (x0 y0 : init_arg) (name : string)
    (self : WPFModelPrototype.t) :
  _BaseModel.__init__ x0 y0 name = Ok self ->
  WPFModelPrototype.hasJacobian self = true
  /\ keys (WPFModelPrototype.params self) = ["x center"; "y center"]%string
  /\ WPFModelPrototype.nParams self = 2%nat
  /\ WPFModelPrototype.model_type self = DUMMY
  /\ (forall x kwargs DP, _BaseModel.func self x kwargs DP = (DP, Ok tt))
  /\ (forall x kwargs J, _BaseModel.jacobian self x kwargs J = (J, Ok tt)).
Proof.
  unfold _BaseModel.__init__, rbind.
  destruct (Param.__init__ x0 None None) as [px|e]; [|discriminate].
  destruct (Param.__init__ y0 None None) as [py|e]; [|discriminate].
  intros H. injection H as <-.
  repeat split.
Qed.

Lemma BaseModel_is_noop_witness :
  exists self,
    _BaseModel.__init__ (Num 64) (Num 64) "Globals" = Ok self
    /\ WPFModelPrototype.hasJacobian self = true
    /\ keys (WPFModelPrototype.params self) = ["x center"; "y center"]%string.
Proof.
  eexists. split; [reflexivity|].
  pose proof (BaseModel_is_noop (Num 64) (Num 64) "Globals" _ eq_refl) as H.
  split; [exact (proj1 H) | exact (proj1 (proj2 H))].
Defined.

(** ** Stepping through the monads *)

Lemma bind_lift_ok {S A B} (a : A) (k : A -> inplace S B) (s : S) :
  bind (lift (Ok a)) k s = k a s.
Proof. reflexivity. Qed.

Lemma bind_lift_raise {S A B} (e : exn) (k : A -> inplace S B) (s : S) :
  bind (lift (Raise e : result A)) k s = (s, Raise e).
Proof. reflexivity. Qed.

Lemma bind_lift {S A B} (r : result A) (k : A -> inplace S B) (s : S) :
  bind (lift r) k s =
  match r with Ok a => k a s | Raise e => (s, Raise e) end.
Proof. destruct r; reflexivity. Qed.

Lemma for_each_app {S A} (xs ys : list A) (body : A -> inplace S unit) (s : S) :
  for_each (xs ++ ys) body s = bind (for_each xs body) (fun _ => for_each ys body) s.
Proof.
  revert s. induction xs as [|a xs IH]; intros s; simpl.
  - reflexivity.
  - unfold bind in *. destruct (body a s) as [s' [[]|e]]; [|reflexivity].
    apply IH.
Qed.

(** ** The Gaussian ring *)

(** The constructor registers the level under the key "intensity"; no key
    "level" exists. *)
Lemma GaussianRing_init_keys wpf radius sigma intensity global_center x0 y0
    name self :
  GaussianRing.__init__ wpf radius sigma intensity global_center x0 y0 name
  = Ok self ->
  keys (WPFModelPrototype.params self)
  = ["radius"; "sigma"; "intensity"; "x center"; "y center"]%string
  /\ WPFModelPrototype.hasJacobian self = false.
Proof.
  unfold GaussianRing.__init__, rbind.
  repeat match goal with
         | |- context [match ?r with Ok _ => _ | Raise _ => _ end] =>
             destruct r; try discriminate
         end.
  intros H; injection H as <-. split; reflexivity.
Qed.

Lemma getitem_absent {V} (d : dict V) (k : string) :
  ~ In k (keys d) -> getitem d k = Raise (KeyError k).
Proof.
  induction d as [|[k' v] d IH]; simpl; intros H; [reflexivity|].
  destruct (String.eqb_spec k' k) as [->|_]; [tauto|].
  apply IH. tauto.
Qed.

(** C7 fails on the code.  Whatever the ring object, the parameter vector
    and the context are, the Gaussian ring's forward function and its
    Jacobian function raise and leave the array untouched, and the [func]
    the class inherits raises NotImplementedError.  On a ring whose
    parameter names are those its constructor creates, and whose radius and
    sigma are readable, the exception of both functions is
    KeyError('level'). *)
Theorem GaussianRing_functions_always_raise (self : WPFModelPrototype.t)
    (x : list R) (kwargs : static_data) :
  (forall DP, exists e,
      GaussianRing.global_center_func self x kwargs DP = (DP, Raise e))
  /\ (forall J, exists e,
      GaussianRing.global_center_jacobian self x kwargs J = (J, Raise e))
  /\ (forall DP,
      call_forward (func_of (GaussianRing_obj self)) x kwargs DP
      = (DP, Raise NotImplementedError))
  /\ (keys (WPFModelPrototype.params self)
      = ["radius"; "sigma"; "intensity"; "x center"; "y center"]%string ->
      forall radius sigma,
      param_value (WPFModelPrototype.params self) x "radius" = Ok radius ->
      param_value (WPFModelPrototype.params self) x "sigma" = Ok sigma ->
      (forall DP, GaussianRing.global_center_func self x kwargs DP
                  = (DP, Raise (KeyError "level")))
      /\ (forall J, GaussianRing.global_center_jacobian self x kwargs J
                    = (J, Raise (KeyError "level")))).
Proof.
  split; [|split; [|split]].
  - intros DP. unfold GaussianRing.global_center_func.
    do 3 (rewrite bind_lift; destruct (param_value _ _ _); eauto).
    rewrite bind_lift. cbn. eauto.
  - intros J. unfold GaussianRing.global_center_jacobian.
    do 5 (rewrite bind_lift; destruct (param_value _ _ _); eauto).
    rewrite bind_lift. cbn. eauto.
  - reflexivity.
  - intros Hkeys radius sigma Hr Hs.
    assert (Hlevel : param_value (WPFModelPrototype.params self) x "level"
                     = Raise (KeyError "level")).
    { unfold param_value. rewrite getitem_absent; [reflexivity|].
      rewrite Hkeys. simpl. intuition discriminate. }
    split; intros s.
    + unfold GaussianRing.global_center_func.
      rewrite bind_lift, Hr, bind_lift, Hs, bind_lift, Hlevel. reflexivity.
    + unfold GaussianRing.global_center_jacobian.
      rewrite bind_lift, Hr, bind_lift, Hs, bind_lift, Hlevel. reflexivity.
Qed.

(** The ring [GaussianRing(WPF, radius=10, sigma=2, intensity=1)] after the
    engine assigned the offsets 0..4, on the 1x1 pattern [[0.]] with
    parameter vector (64, 64, 10, 2, 1): the forward function raises
    KeyError('level'). *)
Lemma GaussianRing_functions_always_raise_witness :
  GaussianRing.global_center_func example_ring [64; 64; 10; 2; 1]
    example_context (one_pixel 0)
  = (one_pixel 0, Raise (KeyError "level")).
Proof.
  exact (proj1 (proj2 (proj2 (proj2
           (GaussianRing_functions_always_raise example_ring
              [64; 64; 10; 2; 1] example_context)))
           eq_refl 10 2 eq_refl eq_refl) (one_pixel 0)).
Defined.

(** ** What the forward functions add *)

Section Additivity.

Import np.

Lemma zip_with_length {A B C} (f : A -> B -> C) xs ys :
  List.length (zip_with f xs ys) = Nat.min (List.length xs) (List.length ys).
Proof.
  revert ys; induction xs as [|a xs IH]; intros [|b ys]; simpl; auto.
Qed.

Lemma zip_with_zeros (xs : list R) (n : nat) :
  List.length xs = n -> zip_with Rplus xs (repeat 0 n) = xs.
Proof.
  revert n; induction xs as [|a xs IH]; intros [|n] H; simpl in *;
    try discriminate; auto.
  rewrite Rplus_0_r, IH by lia. reflexivity.
Qed.

Lemma zip_with_scalar (xs : list R) (v : R) (n : nat) :
  List.length xs = n -> map (fun t => t + v) xs = zip_with Rplus xs (repeat v n).
Proof.
  revert n; induction xs as [|a xs IH]; intros [|n] H; simpl in *;
    try discriminate; auto.
  rewrite (IH n) by lia. reflexivity.
Qed.

Lemma zip_with_assoc (xs c c' : list R) :
  zip_with Rplus (zip_with Rplus xs c) c'
  = zip_with Rplus xs (zip_with Rplus c c').
Proof.
  revert c c'; induction xs as [|a xs IH]; intros [|b c] [|b' c']; simpl; auto.
  rewrite Rplus_assoc, IH. reflexivity.
Qed.

Lemma padd_padd DP c c' :
  padd (padd DP c) c' = padd DP (zip_with Rplus c c').
Proof. unfold padd; simpl. rewrite zip_with_assoc. reflexivity. Qed.

Lemma padd_zeros DP n :
  List.length (ravel DP) = n -> padd DP (repeat 0 n) = DP.
Proof.
  intros H. destruct DP as [sh cells]. unfold padd; simpl in *.
  rewrite zip_with_zeros by assumption. reflexivity.
Qed.

Lemma padd_same_size DP1 DP2 c :
  shape DP1 = shape DP2 ->
  List.length (ravel DP1) = List.length (ravel DP2) ->
  shape (padd DP1 c) = shape (padd DP2 c)
  /\ List.length (ravel (padd DP1 c)) = List.length (ravel (padd DP2 c)).
Proof.
  intros Hs Hl. unfold padd; simpl. rewrite !zip_with_length, Hl. auto.
Qed.

Lemma same_contribution_lift {A} (r : result A) : same_contribution (lift r).
Proof.
  intros DP1 DP2 Hs Hl. exists (repeat 0 (List.length (ravel DP1))), r.
  unfold lift. rewrite padd_zeros by reflexivity.
  rewrite padd_zeros by (symmetry; exact Hl). auto.
Qed.

Lemma same_contribution_ret {A} (a : A) : same_contribution (ret a).
Proof. exact (same_contribution_lift (Ok a)). Qed.

Lemma same_contribution_bind {A B} (m : inplace (ndarray R) A)
    (k : A -> inplace (ndarray R) B) :
  same_contribution m -> (forall a, same_contribution (k a)) ->
  same_contribution (bind m k).
Proof.
  intros Hm Hk DP1 DP2 Hs Hl.
  destruct (Hm DP1 DP2 Hs Hl) as (c & o & E1 & E2).
  unfold bind. rewrite E1, E2. destruct o as [a|e].
  - destruct (padd_same_size DP1 DP2 c Hs Hl) as [Hs' Hl'].
    destruct (Hk a _ _ Hs' Hl') as (c' & o' & E1' & E2').
    exists (zip_with Rplus c c'), o'.
    rewrite E1', E2', !padd_padd. auto.
  - exists c, (Raise e). auto.
Qed.

Lemma same_contribution_for_each {A} (items : list A)
    (body : A -> inplace (ndarray R) unit) :
  (forall a, same_contribution (body a)) ->
  same_contribution (for_each items body).
Proof.
  intros Hb. induction items as [|a items IH]; simpl.
  - apply same_contribution_ret.
  - apply same_contribution_bind; auto.
Qed.

Lemma same_contribution_iadd_scalar (v : R) :
  same_contribution (iadd_scalar v).
Proof.
  intros DP1 DP2 Hs Hl. exists (repeat v (List.length (ravel DP1))), (Ok tt).
  unfold iadd_scalar, amap, padd.
  rewrite (zip_with_scalar (ravel DP1) v _ eq_refl).
  rewrite (zip_with_scalar (ravel DP2) v _ (eq_sym Hl)). auto.
Qed.

Lemma same_contribution_iadd (c : ndarray R) : same_contribution (iadd c).
Proof.
  intros DP1 DP2 Hs Hl. unfold iadd, azip. rewrite <- Hs.
  destruct (shape_eqb (shape DP1) (shape c)).
  - exists (ravel c), (Ok tt). unfold padd. rewrite <- Hs. auto.
  - exists (repeat 0 (List.length (ravel DP1))), (Raise ValueError).
    rewrite padd_zeros by reflexivity.
    rewrite padd_zeros by (symmetry; exact Hl). auto.
Qed.

Lemma zeros_like_same_size {B} (z : B) (DP1 DP2 : ndarray R) :
  shape DP1 = shape DP2 ->
  List.length (ravel DP1) = List.length (ravel DP2) ->
  zeros_like z DP1 = zeros_like z DP2.
Proof.
  intros Hs Hl. unfold zeros_like, amap. rewrite Hs. f_equal.
  rewrite !map_const, Hl. reflexivity.
Qed.

End Additivity.

Create HintDb same_contribution.

#[local] Hint Resolve same_contribution_lift same_contribution_ret
  same_contribution_iadd same_contribution_iadd_scalar : same_contribution.

Ltac same_contribution_steps :=
  repeat first
    [ apply same_contribution_bind; [ | intros ? ]
    | apply same_contribution_for_each; intros ?
    | solve [ auto with same_contribution ] ].

(** Every forward function of the file adds the same contribution to two
    arrays of one shape and size, for every parameter vector and context. *)
Lemma call_forward_same_contribution (f : forward_function) (x : list R)
    (kwargs : static_data) : same_contribution (call_forward f x kwargs).
Proof.
  assert (Hcomplex : forall self args,
             same_contribution (ComplexOverlapKernelDiskLattice.local_center_func
                         self args kwargs)).
  { intros self args. unfold ComplexOverlapKernelDiskLattice.local_center_func.
    do 6 (apply same_contribution_bind; [apply same_contribution_lift | intros ?]).
    intros DP1 DP2 Hs Hl.
    unfold bind at 1 2. unfold with_local.
    rewrite (zeros_like_same_size Cx.zero DP1 DP2 Hs Hl).
    destruct (for_each _ _ (np.zeros_like Cx.zero DP2)) as [l [[]|e]].
    - apply same_contribution_iadd; assumption.
    - apply (same_contribution_lift (Raise e : result unit)); assumption. }
  assert (Hkernel : forall self args,
             same_contribution (KernelDiskLattice.local_center_func self args kwargs)).
  { intros self args. unfold KernelDiskLattice.local_center_func.
    do 6 (apply same_contribution_bind; [apply same_contribution_lift | intros ?]).
    apply same_contribution_for_each. intros [i [u v]].
    unfold KernelDiskLattice.local_peak. same_contribution_steps. }
  destruct f; simpl.
  - apply same_contribution_lift.
  - apply same_contribution_ret.
  - unfold DCBackground.func. same_contribution_steps.
  - unfold GaussianBackground.func. same_contribution_steps.
  - unfold GaussianRing.global_center_func. same_contribution_steps.
  - unfold SyntheticDiskLattice.func.
    do 8 (apply same_contribution_bind; [apply same_contribution_lift | intros ?]).
    apply same_contribution_for_each. intros [u v].
    unfold SyntheticDiskLattice.func_peak. same_contribution_steps.
  - apply same_contribution_ret.
  - apply Hcomplex.
  - apply Hcomplex.
  - apply Hkernel.
  - apply Hkernel.
Qed.

(** The same, for a whole composition: the engine's loop over the
    registered components. *)
Lemma evaluate_onto_same_contribution (components : list model) (x : list R)
    (kwargs : static_data) :
  same_contribution (evaluate_onto components x kwargs).
Proof.
  unfold evaluate_onto. apply same_contribution_for_each.
  intros m. apply call_forward_same_contribution.
Qed.

Lemma zip_with_through_zeros (xs zs c : list R) :
  Forall (fun z => z = 0) zs -> List.length xs = List.length zs ->
  np.zip_with Rplus xs (np.zip_with Rplus zs c) = np.zip_with Rplus xs c.
Proof.
  intros Hz. revert xs c.
  induction Hz as [|z zs Hz0 Hz IH]; intros [|a xs] [|b c] Hl; simpl in *;
    try discriminate; auto.
  subst z. rewrite Rplus_0_l, IH by lia. reflexivity.
Qed.

(** Evaluating the union of two groups of components on a zero pattern gives
    the pixel-wise sum of evaluating each group alone on it. *)
Lemma evaluate_union_is_sum (group1 group2 : list model) (x : list R)
    (kwargs : static_data) (zeros P1 P2 : ndarray R) :
  Forall (fun z => z = 0) (ravel zeros) ->
  evaluate_onto group1 x kwargs zeros = (P1, Ok tt) ->
  evaluate_onto group2 x kwargs zeros = (P2, Ok tt) ->
  List.length (ravel P1) = List.length (ravel zeros) ->
  evaluate_onto (group1 ++ group2) x kwargs zeros
  = (padd P1 (ravel P2), Ok tt).
Proof.
  intros Hz E1 E2 Hl. unfold evaluate_onto in *.
  rewrite for_each_app. unfold bind. rewrite E1.
  assert (Hs : shape P1 = shape zeros).
  { destruct (evaluate_onto_same_contribution group1 x kwargs zeros zeros eq_refl eq_refl)
      as (c & o & E & _).
    unfold evaluate_onto in E. rewrite E1 in E. injection E as -> _.
    reflexivity. }
  destruct (evaluate_onto_same_contribution group2 x kwargs P1 zeros Hs Hl)
    as (c & o & Ea & Eb).
  unfold evaluate_onto in Ea, Eb. rewrite Ea. rewrite E2 in Eb.
  injection Eb as -> <-. f_equal. unfold padd at 1 2. simpl.
  rewrite zip_with_through_zeros by assumption. reflexivity.
Qed.

(** ** The disk lattice: forward function *)

Section DiskLatticeForward.

Import np.

Lemma shape_eqb_refl s : shape_eqb s s = true.
Proof. unfold shape_eqb. rewrite !Nat.eqb_refl. reflexivity. Qed.

Lemma shape_eqb_eq s t : s = t -> shape_eqb s t = true.
Proof. intros ->. apply shape_eqb_refl. Qed.

Lemma nth_error_zip_with {A B C} (f : A -> B -> C) xs ys p a b :
  nth_error xs p = Some a -> nth_error ys p = Some b ->
  nth_error (zip_with f xs ys) p = Some (f a b).
Proof.
  revert ys p; induction xs as [|a' xs IH]; intros [|b' ys] [|p] Ha Hb;
    simpl in *; try discriminate.
  - congruence.
  - eauto.
Qed.

Variables (self : SyntheticDiskLattice.t) (x : list R) (sd : static_data).
Variables (x0 y0 ux uy vx vy radius width : R).

Let term (X Y : R) (peak : Z * Z * R) : R :=
  let c := peak_center x0 y0 ux uy vx vy (fst peak) in
  sigmoid_disk (snd peak) radius width (distance X Y (fst c) (snd c)).

Lemma func_peak_adds (DP : ndarray R) (u v : Z) (intensity : R) :
  param_value (SyntheticDiskLattice.params self) x (intensity_key u v)
  = Ok intensity ->
  shape (xArray sd) = shape (yArray sd) ->
  shape DP = shape (xArray sd) ->
  SyntheticDiskLattice.func_peak self x sd x0 y0 ux uy vx vy radius width
                                 (u, v) DP
  = (padd DP (zip_with (fun X Y => term X Y (u, v, intensity))
                       (ravel (xArray sd)) (ravel (yArray sd))),
     Ok tt).
Proof.
  intros HI Hxy HDP. unfold SyntheticDiskLattice.func_peak.
  rewrite bind_lift, HI. unfold azip.
  rewrite (shape_eqb_eq _ _ Hxy). rewrite bind_lift.
  unfold iadd, azip. simpl. rewrite (shape_eqb_eq _ _ HDP).
  reflexivity.
Qed.

Lemma for_each_peak_adds (peaks : list (Z * Z)) (intensities : list R) :
  Forall2 (fun uv intensity =>
             param_value (SyntheticDiskLattice.params self) x
                         (intensity_key (fst uv) (snd uv)) = Ok intensity)
          peaks intensities ->
  shape (xArray sd) = shape (yArray sd) ->
  forall DP, shape DP = shape (xArray sd) ->
  exists DP',
    for_each peaks
      (SyntheticDiskLattice.func_peak self x sd x0 y0 ux uy vx vy radius width)
      DP = (DP', Ok tt)
    /\ shape DP' = shape DP
    /\ forall p X Y d,
        nth_error (ravel (xArray sd)) p = Some X ->
        nth_error (ravel (yArray sd)) p = Some Y ->
        nth_error (ravel DP) p = Some d ->
        nth_error (ravel DP') p
        = Some (d + Rsum (map (term X Y) (combine peaks intensities))).
Proof.
  intros HF Hxy. induction HF as [|[u v] intensity peaks intensities HI HF IH];
    intros DP HDP.
  - exists DP. repeat split. intros p X Y d _ _ Hd. simpl.
    rewrite Rplus_0_r. exact Hd.
  - simpl in HI. cbn [for_each]. unfold bind at 1.
    rewrite (func_peak_adds DP u v intensity HI Hxy HDP).
    destruct (IH (padd DP (zip_with (fun X Y => term X Y (u, v, intensity))
                             (ravel (xArray sd)) (ravel (yArray sd)))) HDP)
      as (DP' & E & Hs & Hp).
    exists DP'. split; [exact E|]. split; [exact Hs|].
    intros p X Y d HX HY Hd. simpl combine. simpl map. simpl Rsum.
    rewrite <- Rplus_assoc. apply Hp; try assumption.
    unfold padd. simpl ravel.
    apply nth_error_zip_with; [exact Hd|].
    apply (nth_error_zip_with (fun X Y => term X Y (u, v, intensity)));
      assumption.
Qed.

End DiskLatticeForward.

Lemma sigmoid_disk_at_radius (intensity radius width : R) :
  sigmoid_disk intensity radius width radius = intensity / 2.
Proof.
  unfold sigmoid_disk.
  replace (4 * (radius - radius) / width) with 0
    by (unfold Rdiv; rewrite Rminus_diag, Rmult_0_r, Rmult_0_l; reflexivity).
  rewrite Rmin_left by lra. rewrite exp_0.
  replace (1 + 1) with 2 by lra. reflexivity.
Qed.

(** C4: when the parameters of a disk lattice are readable from the
    parameter vector and the meshes and the accumulator have one shape, the
    forward function returns normally and, at every pixel (X, Y), has added
    the sum over the retained peaks of
    intensity / (1 + exp(min(4 (r - radius) / width, 20))),
    r being the Euclidean distance of the pixel from the peak's center
    center + u (ux, uy) + v (vx, vy); the exponent is capped at 20 before
    exponentiation, and a peak at distance r = radius contributes exactly
    intensity / 2 (for a non-zero width). *)
Theorem disk_lattice_forward_is_sigmoid_sum
    (self : SyntheticDiskLattice.t) (x : list R) (sd : static_data)
    (DP : ndarray R) (x0 y0 ux uy vx vy radius width : R)
    (intensities : list R) :
  let params := SyntheticDiskLattice.params self in
  let peaks := combine (SyntheticDiskLattice.u_inds self)
                       (SyntheticDiskLattice.v_inds self) in
  param_value params x "x center" = Ok x0 ->
  param_value params x "y center" = Ok y0 ->
  param_value params x "ux" = Ok ux ->
  param_value params x "uy" = Ok uy ->
  param_value params x "vx" = Ok vx ->
  param_value params x "vy" = Ok vy ->
  (if SyntheticDiskLattice.refine_radius self
   then param_value params x "disk radius"
   else Ok (SyntheticDiskLattice.disk_radius self)) = Ok radius ->
  (if SyntheticDiskLattice.refine_width self
   then param_value params x "edge width"
   else Ok (SyntheticDiskLattice.disk_width self)) = Ok width ->
  Forall2 (fun uv intensity =>
             param_value params x (intensity_key (fst uv) (snd uv))
             = Ok intensity)
          peaks intensities ->
  shape (xArray sd) = shape (yArray sd) ->
  shape DP = shape (xArray sd) ->
  exists DP',
    SyntheticDiskLattice.func self x sd DP = (DP', Ok tt)
    /\ shape DP' = shape DP
    /\ (forall p X Y d,
         nth_error (ravel (xArray sd)) p = Some X ->
         nth_error (ravel (yArray sd)) p = Some Y ->
         nth_error (ravel DP) p = Some d ->
         nth_error (ravel DP') p
         = Some (d + Rsum (map (fun peak : Z * Z * R =>
                    let (uv, intensity) := peak in
                    let (u, v) := uv in
                    intensity
                    / (1 + exp (Rmin
                         (4 * (sqrt ((X - (x0 + IZR u * ux + IZR v * vx)) ^ 2
                                     + (Y - (y0 + IZR u * uy + IZR v * vy)) ^ 2)
                               - radius) / width)
                         20)))
                  (combine peaks intensities))))
    /\ (forall intensity r,
         width <> 0 -> r = radius ->
         intensity / (1 + exp (Rmin (4 * (r - radius) / width) 20))
         = intensity / 2).
Proof.
  intros params peaks H1 H2 H3 H4 H5 H6 HR HW HF Hxy HDP.
  unfold SyntheticDiskLattice.func. fold params.
  rewrite bind_lift, H1, bind_lift, H2, bind_lift, H3, bind_lift, H4,
    bind_lift, H5, bind_lift, H6, bind_lift, HR, bind_lift, HW.
  cbv beta iota. fold peaks.
  destruct (for_each_peak_adds self x sd x0 y0 ux uy vx vy radius width
              peaks intensities HF Hxy DP HDP) as (DP' & E & Hs & Hp).
  exists DP'. split; [exact E|]. split; [exact Hs|]. split.
  - intros p X Y d HX HY Hd. rewrite (Hp p X Y d HX HY Hd).
    f_equal. f_equal. f_equal. apply map_ext. intros [[u v] intensity]. reflexivity.
  - intros intensity r _ ->. apply sigmoid_disk_at_radius.
Qed.

Lemma example_key : intensity_key 0 0 = "[0,0] Intensity"%string.
Proof. reflexivity. Qed.

Lemma disk_lattice_forward_is_sigmoid_sum_witness :
  exists DP',
    SyntheticDiskLattice.func example_lattice (example_vector 0) example_mesh
      (mk_ndarray (2, 1)%nat [0; 0]) = (DP', Ok tt)
    /\ shape DP' = (2, 1)%nat.
Proof.
  destruct (disk_lattice_forward_is_sigmoid_sum example_lattice
              (example_vector 0) example_mesh (mk_ndarray (2, 1)%nat [0; 0])
              0 0 1 0 0 1 1 4 [2]
              eq_refl eq_refl eq_refl eq_refl eq_refl eq_refl eq_refl eq_refl
              (Forall2_cons (0%Z, 0%Z) 2 eq_refl (Forall2_nil _))
              eq_refl eq_refl)
    as (DP' & E & Hs & _).
  exists DP'. split; [exact E | exact Hs].
Defined.

(** ** The kernel lattices *)

Section KernelLattices.

Import np.

Lemma grid_length {A} (M N : nat) (f : nat -> nat -> A) :
  List.length (fft.grid M N f) = (M * N)%nat.
Proof.
  unfold fft.grid. generalize 0%nat at 2. 
  induction M as [|M IH]; intros start; simpl; [reflexivity|].
  rewrite length_app, length_map, length_seq, IH. reflexivity.
Qed.

Lemma shifted_shape pFT xq yq x y :
  shape (shifted pFT xq yq x y) = shape pFT.
Proof. reflexivity. Qed.

Lemma shifted_length pFT xq yq x y :
  List.length (ravel (shifted pFT xq yq x y))
  = (fst (shape pFT) * snd (shape pFT))%nat.
Proof. unfold shifted, fft.ifft2; simpl. apply grid_length. Qed.

Lemma shifted_kernel_ok pFT xq yq x y :
  shape xq = shape yq -> shape pFT = shape xq ->
  shifted_kernel pFT xq yq x y = Ok (shifted pFT xq yq x y).
Proof.
  intros Hq Hp. unfold shifted_kernel, azip, rbind.
  rewrite (shape_eqb_eq _ _ Hq). simpl.
  rewrite (shape_eqb_eq _ _ Hp). reflexivity.
Qed.

Lemma nth_error_nth_some {A} (xs : list A) p d :
  (p < List.length xs)%nat -> nth_error xs p = Some (nth p xs d).
Proof. intros H. apply nth_error_nth'. exact H. Qed.

Lemma getindex_nth (args : list R) i :
  (i < List.length args)%nat -> getindex args i = Ok (nth i args 0).
Proof.
  intros H. unfold getindex. rewrite (nth_error_nth_some args i 0 H).
  reflexivity.
Qed.

Lemma in_enumerate_bound (us vs : list Z) i uv :
  In (i, uv) (enumerate_peaks us vs) ->
  (i < List.length (combine us vs))%nat.
Proof.
  unfold enumerate_peaks. intros H.
  pose proof (in_combine_l _ _ _ _ H) as Hi. apply in_seq in Hi.
  assert (Hl : (List.length (combine us vs) <= List.length us)%nat)
    by (rewrite length_combine; lia).
  (* the index is also bounded by the length of the zipped list *)
  assert (Hc : forall (n : nat) (l : list (Z * Z)) s,
             In (i, uv) (combine (seq s n) l) ->
             (i < s + List.length l)%nat).
  { clear. intros n. induction n as [|n IH]; intros [|a l] s H; simpl in *;
      try contradiction.
    destruct H as [H|H]; [injection H as <- _; lia|].
    apply IH in H. lia. }
  apply Hc in H. lia.
Qed.

(** The loop of the incoherent lattice adds, per peak, the square of
    (argument i+6 times the magnitude of the shifted kernel). *)
Lemma kernel_loop_adds (self : KernelDiskLattice.t) (args : list R)
    (x0 y0 ux uy vx vy : R) (peaks : list (nat * (Z * Z))) :
  let pFT := KernelDiskLattice.probe_kernelFT self in
  let xq := KernelDiskLattice.xqArray self in
  let yq := KernelDiskLattice.yqArray self in
  let mag (iuv : nat * (Z * Z)) p :=
    let c := peak_center x0 y0 ux uy vx vy (snd iuv) in
    shifted_magnitude pFT xq yq (fst c) (snd c) p in
  shape xq = shape yq -> shape pFT = shape xq ->
  (forall i uv, In (i, uv) peaks -> (i + 6 < List.length args)%nat) ->
  forall DP, shape DP = shape pFT -> well_formed DP ->
  exists DP',
    for_each peaks (KernelDiskLattice.local_peak self args x0 y0 ux uy vx vy)
             DP = (DP', Ok tt)
    /\ shape DP' = shape DP /\ well_formed DP'
    /\ forall p d,
        nth_error (ravel DP) p = Some d ->
        nth_error (ravel DP') p
        = Some (d + Rsum (map (fun iuv =>
                   (nth (fst iuv + 6) args 0 * mag iuv p) ^ 2) peaks)).
Proof.
  intros pFT xq yq mag Hq Hp.
  induction peaks as [|[i [u v]] peaks IH]; intros Hargs DP HDP Hwf.
  - exists DP. repeat split; auto. intros p d Hd. simpl.
    rewrite Rplus_0_r. exact Hd.
  - cbn [for_each]. unfold bind at 1.
    unfold KernelDiskLattice.local_peak at 1.
    rewrite bind_lift, getindex_nth by (eapply Hargs; left; reflexivity).
    rewrite bind_lift. fold pFT xq yq.
    rewrite (shifted_kernel_ok pFT xq yq _ _ Hq Hp).
    unfold iadd, azip. cbn [amap shape].
    rewrite shifted_shape, (shape_eqb_eq _ _ HDP).
    match goal with
    | |- context [for_each peaks _ ?D] => destruct (IH (fun i uv H => Hargs i uv (or_intror H)) D) as (DP' & E & Hs & Hwf' & Hpix)
    end.
    + exact HDP.
    + unfold well_formed in *. cbn [ravel shape amap].
      rewrite zip_with_length, length_map, shifted_length, <- HDP, Hwf.
      apply Nat.min_id.
    + exists DP'. split; [exact E|]. split; [exact Hs|]. split; [exact Hwf'|].
      intros p d Hd. cbn [map Rsum fold_right]. fold (Rsum (map (fun iuv => (nth (fst iuv + 6) args 0 * mag iuv p) ^ 2) peaks)).
      rewrite <- Rplus_assoc. apply Hpix. cbn [ravel amap].
      assert (Hlt : (p < List.length (ravel DP))%nat)
        by (apply nth_error_Some; congruence).
      apply nth_error_zip_with; [exact Hd|].
      rewrite nth_error_map.
      rewrite (nth_error_nth_some _ p Cx.zero).
      * reflexivity.
      * rewrite shifted_length, <- HDP, <- Hwf. exact Hlt.
Qed.

End KernelLattices.

Lemma Cx_exp_j_0 (t : R) : t = 0 -> Cx.exp (Cx.j t) = (1, 0).
Proof.
  intros ->. unfold Cx.exp, Cx.j. simpl. rewrite exp_0, cos_0, sin_0.
  f_equal; lra.
Qed.

(** On the 1x1 pattern the shifted kernel is the kernel itself, wherever
    the peak is. *)
Lemma shifted_one_pixel (x y : R) :
  shifted (mk_ndarray (1, 1)%nat [(1, 0)]) (one_pixel 0) (one_pixel 0) x y
  = mk_ndarray (1, 1)%nat [(1, 0)].
Proof.
  unfold shifted, fft.ifft2, fft.grid, fft.dft_sum, fft.cell. simpl.
  rewrite !Cx_exp_j_0 by (unfold Rdiv; ring).
  unfold Cx.scale, Cx.mul, Cx.add, Cx.zero. simpl.
  do 3 f_equal; field.
Qed.

Lemma shifted_magnitude_one_pixel (x y : R) :
  shifted_magnitude (mk_ndarray (1, 1)%nat [(1, 0)]) (one_pixel 0)
                    (one_pixel 0) x y 0 = 1.
Proof.
  unfold shifted_magnitude. rewrite shifted_one_pixel. simpl.
  unfold Cx.abs. simpl. replace (1 * (1 * 1) + 0 * (0 * 1)) with 1 by ring.
  apply sqrt_1.
Qed.

Lemma enumerate_peaks_bound us vs (args : list R) k :
  (k + List.length (combine us vs) <= List.length args)%nat ->
  forall i uv, In (i, uv) (enumerate_peaks us vs) ->
               (i + k < List.length args)%nat.
Proof.
  intros H i uv Hin. apply in_enumerate_bound in Hin. lia.
Qed.

(** C2, as the code has it: the incoherent kernel lattice squares the
    product of the peak's Intensity argument and the magnitude of the
    shifted kernel.  When the positional arguments cover the six geometry
    values and one Intensity per retained peak, and the kernel transform,
    the frequency meshes and the accumulator have one shape, the forward
    function returns normally and has added, at every pixel, the sum over
    the retained peaks of intensity_peak^2 * |shifted_kernel|^2. *)
Theorem incoherent_lattice_adds_squared_amplitudes
    (self : KernelDiskLattice.t) (args : list R) (kwargs : static_data)
    (DP : ndarray R) :
  let pFT := KernelDiskLattice.probe_kernelFT self in
  let xq := KernelDiskLattice.xqArray self in
  let yq := KernelDiskLattice.yqArray self in
  let peaks := enumerate_peaks (KernelDiskLattice.u_inds self)
                               (KernelDiskLattice.v_inds self) in
  let x0 := nth 0 args 0 in let y0 := nth 1 args 0 in
  let ux := nth 2 args 0 in let uy := nth 3 args 0 in
  let vx := nth 4 args 0 in let vy := nth 5 args 0 in
  shape xq = shape yq -> shape pFT = shape xq ->
  shape DP = shape pFT -> well_formed DP ->
  (6 + List.length (combine (KernelDiskLattice.u_inds self)
                            (KernelDiskLattice.v_inds self))
   <= List.length args)%nat ->
  exists DP',
    KernelDiskLattice.local_center_func self args kwargs DP = (DP', Ok tt)
    /\ shape DP' = shape DP
    /\ forall p d,
        nth_error (ravel DP) p = Some d ->
        nth_error (ravel DP') p
        = Some (d + Rsum (map (fun iuv : nat * (Z * Z) =>
                   let '(i, (u, v)) := iuv in
                   nth (i + 6) args 0 ^ 2
                   * shifted_magnitude pFT xq yq
                       (x0 + IZR u * ux + IZR v * vx)
                       (y0 + IZR u * uy + IZR v * vy) p ^ 2)
                 peaks)).
Proof.
  intros pFT xq yq peaks x0 y0 ux uy vx vy Hq Hp HDP Hwf Hlen.
  unfold KernelDiskLattice.local_center_func.
  rewrite bind_lift, getindex_nth by lia.
  rewrite bind_lift, getindex_nth by lia.
  rewrite bind_lift, getindex_nth by lia.
  rewrite bind_lift, getindex_nth by lia.
  rewrite bind_lift, getindex_nth by lia.
  rewrite bind_lift, getindex_nth by lia.
  fold x0 y0 ux uy vx vy. fold (enumerate_peaks (KernelDiskLattice.u_inds self)
                                  (KernelDiskLattice.v_inds self)).
  fold peaks.
  destruct (kernel_loop_adds self args x0 y0 ux uy vx vy peaks Hq Hp
              (enumerate_peaks_bound _ _ args 6%nat Hlen)
              DP HDP Hwf) as (DP' & E & Hs & _ & Hpix).
  exists DP'. split; [exact E|]. split; [exact Hs|].
  intros p d Hd. rewrite (Hpix p d Hd). f_equal. f_equal. f_equal.
  apply map_ext. intros [i [u v]]. unfold peak_center. cbv zeta.
  cbn [fst snd]. unfold pFT, xq, yq. ring.
Qed.

Lemma incoherent_lattice_adds_squared_amplitudes_witness :
  exists DP',
    KernelDiskLattice.local_center_func example_kernel_lattice
      [0; 0; 1; 0; 0; 1; 2] example_context (one_pixel 0) = (DP', Ok tt)
    /\ nth_error (ravel DP') 0 = Some 4.
Proof.
  destruct (incoherent_lattice_adds_squared_amplitudes example_kernel_lattice
              [0; 0; 1; 0; 0; 1; 2] example_context (one_pixel 0)
              eq_refl eq_refl eq_refl eq_refl
              (le_n 7)) as (DP' & E & _ & Hpix).
  exists DP'. split; [exact E|].
  rewrite (Hpix 0%nat 0 eq_refl). cbn [map enumerate_peaks combine seq
    example_kernel_lattice KernelDiskLattice.u_inds KernelDiskLattice.v_inds
    KernelDiskLattice.probe_kernelFT KernelDiskLattice.xqArray
    KernelDiskLattice.yqArray List.length Rsum fold_right Nat.add nth].
  rewrite shifted_magnitude_one_pixel. f_equal. ring.
Defined.

(** C2 fails on the code: with the single peak (0, 0), Intensity 2 and a
    kernel of magnitude 1, the claimed contribution
    intensity * |shifted_kernel|^2 is 2, but the forward function adds 4. *)
Lemma incoherent_lattice_intensity_not_linear :
  exists DP',
    KernelDiskLattice.local_center_func example_kernel_lattice
      [0; 0; 1; 0; 0; 1; 2] example_context (one_pixel 0) = (DP', Ok tt)
    /\ nth_error (ravel DP') 0 = Some 4
    /\ 0 + Rsum [2 * shifted_magnitude
                       (KernelDiskLattice.probe_kernelFT example_kernel_lattice)
                       (KernelDiskLattice.xqArray example_kernel_lattice)
                       (KernelDiskLattice.yqArray example_kernel_lattice)
                       0 0 0 ^ 2] = 2
    /\ 4 <> 2.
Proof.
  destruct (kernel_loop_adds example_kernel_lattice [0; 0; 1; 0; 0; 1; 2]
              0 0 1 0 0 1 [(0%nat, (0%Z, 0%Z))] eq_refl eq_refl) 
    with (DP := one_pixel 0) as (DP' & E & _ & _ & Hpix).
  - intros i uv [H|[]]. injection H as <- _. simpl. lia.
  - reflexivity.
  - reflexivity.
  - exists DP'. split; [exact E|]. split; [|split].
    + rewrite (Hpix 0%nat 0 eq_refl).
      cbn [map Rsum fold_right fst snd peak_center nth Nat.add
           example_kernel_lattice KernelDiskLattice.probe_kernelFT
           KernelDiskLattice.xqArray KernelDiskLattice.yqArray].
      rewrite shifted_magnitude_one_pixel. f_equal. ring.
    + cbn [example_kernel_lattice KernelDiskLattice.probe_kernelFT
           KernelDiskLattice.xqArray KernelDiskLattice.yqArray].
      rewrite shifted_magnitude_one_pixel. simpl. ring.
    + lra.
Qed.

Section CoherentLattice.

Import np.

Lemma Cx_add_assoc (a b c : complex) :
  Cx.add (Cx.add a b) c = Cx.add a (Cx.add b c).
Proof. unfold Cx.add; simpl. f_equal; ring. Qed.

Lemma Cx_add_zero_r (a : complex) : Cx.add a Cx.zero = a.
Proof. destruct a. unfold Cx.add, Cx.zero; simpl. f_equal; ring. Qed.

Lemma Cx_add_zero_l (a : complex) : Cx.add Cx.zero a = a.
Proof. destruct a. unfold Cx.add, Cx.zero; simpl. f_equal; ring. Qed.

Lemma Cx_abs_sq (z : complex) : Cx.abs z ^ 2 = fst z ^ 2 + snd z ^ 2.
Proof.
  unfold Cx.abs. rewrite <- Rsqr_pow2. apply Rsqr_sqrt.
  pose proof (pow2_ge_0 (fst z)). pose proof (pow2_ge_0 (snd z)). lra.
Qed.

Variables (self : ComplexOverlapKernelDiskLattice.t) (args : list R).
Variables (x0 y0 ux uy vx vy : R).

Let pFT := ComplexOverlapKernelDiskLattice.probe_kernelFT self.
Let xq := ComplexOverlapKernelDiskLattice.xqArray self.
Let yq := ComplexOverlapKernelDiskLattice.yqArray self.

(** the complex amplitude one peak adds to [localDP] at pixel [p] *)
Let amplitude (p : nat) (iuv : nat * (Z * Z)) : complex :=
  let c := peak_center x0 y0 ux uy vx vy (snd iuv) in
  Cx.mul (Cx.mul (Cx.of_real (nth (2 * fst iuv + 6) args 0))
                 (Cx.exp (Cx.j (nth (2 * fst iuv + 7) args 0))))
         (Cx.of_real (shifted_magnitude pFT xq yq (fst c) (snd c) p)).

Lemma coherent_loop_adds (peaks : list (nat * (Z * Z))) :
  shape xq = shape yq -> shape pFT = shape xq ->
  (forall i uv, In (i, uv) peaks -> (2 * i + 7 < List.length args)%nat) ->
  forall localDP : ndarray complex,
    shape localDP = shape pFT -> well_formed localDP ->
    exists localDP',
      for_each peaks
        (ComplexOverlapKernelDiskLattice.local_peak self args
           x0 y0 ux uy vx vy) localDP = (localDP', Ok tt)
      /\ shape localDP' = shape localDP /\ well_formed localDP'
      /\ forall p z,
          nth_error (ravel localDP) p = Some z ->
          nth_error (ravel localDP') p
          = Some (Cx.add z (Cx.sum (map (amplitude p) peaks))).
Proof.
  intros Hq Hp.
  induction peaks as [|[i [u v]] peaks IH]; intros Hargs L HL Hwf.
  - exists L. repeat split; auto. intros p z Hz. simpl.
    rewrite Cx_add_zero_r. exact Hz.
  - cbn [for_each]. unfold bind at 1.
    unfold ComplexOverlapKernelDiskLattice.local_peak at 1.
    assert (Hi : (2 * i + 7 < List.length args)%nat)
      by (eapply Hargs; left; reflexivity).
    rewrite bind_lift, getindex_nth by lia.
    rewrite bind_lift, getindex_nth by lia.
    rewrite bind_lift. fold pFT xq yq.
    rewrite (shifted_kernel_ok pFT xq yq _ _ Hq Hp).
    unfold iadd_complex, azip. cbn [amap shape].
    rewrite shifted_shape, (shape_eqb_eq _ _ HL).
    match goal with
    | |- context [for_each peaks _ ?D] =>
        destruct (IH (fun i uv H => Hargs i uv (or_intror H)) D)
          as (L' & E & Hs & Hwf' & Hpix)
    end.
    + exact HL.
    + unfold well_formed in *. cbn [ravel shape amap].
      rewrite zip_with_length, length_map, shifted_length, <- HL, Hwf.
      apply Nat.min_id.
    + exists L'. split; [exact E|]. split; [exact Hs|]. split; [exact Hwf'|].
      intros p z Hz. cbn [map Cx.sum fold_right].
      fold (Cx.sum (map (amplitude p) peaks)).
      rewrite <- Cx_add_assoc. apply Hpix. cbn [ravel amap].
      assert (Hlt : (p < List.length (ravel L))%nat)
        by (apply nth_error_Some; congruence).
      apply nth_error_zip_with; [exact Hz|].
      rewrite nth_error_map.
      rewrite (nth_error_nth_some _ p Cx.zero).
      * reflexivity.
      * rewrite shifted_length, <- HL, <- Hwf. exact Hlt.
Qed.

End CoherentLattice.

(** C3, as the code has it: in the coherent kernel lattice each retained
    peak contributes the complex amplitude
    intensity_peak * exp(i phase_peak) * |shifted_kernel|, the Intensity
    argument itself and not its square root; the amplitudes of all peaks are
    summed in the complex domain and the magnitude of the sum is squared
    once to form the contribution that is added.  This holds when the
    positional arguments cover the six geometry values and an Intensity and
    a Phase per retained peak, and the kernel transform, the frequency
    meshes and the accumulator have one shape. *)
Theorem coherent_lattice_sums_amplitudes_then_squares
    (self : ComplexOverlapKernelDiskLattice.t) (args : list R)
    (kwargs : static_data) (DP : ndarray R) :
  let pFT := ComplexOverlapKernelDiskLattice.probe_kernelFT self in
  let xq := ComplexOverlapKernelDiskLattice.xqArray self in
  let yq := ComplexOverlapKernelDiskLattice.yqArray self in
  let peaks := enumerate_peaks (ComplexOverlapKernelDiskLattice.u_inds self)
                               (ComplexOverlapKernelDiskLattice.v_inds self) in
  let x0 := nth 0 args 0 in let y0 := nth 1 args 0 in
  let ux := nth 2 args 0 in let uy := nth 3 args 0 in
  let vx := nth 4 args 0 in let vy := nth 5 args 0 in
  shape xq = shape yq -> shape pFT = shape xq ->
  shape DP = shape pFT -> well_formed DP ->
  (6 + 2 * List.length (combine (ComplexOverlapKernelDiskLattice.u_inds self)
                                (ComplexOverlapKernelDiskLattice.v_inds self))
   <= List.length args)%nat ->
  exists DP',
    ComplexOverlapKernelDiskLattice.local_center_func self args kwargs DP
    = (DP', Ok tt)
    /\ shape DP' = shape DP
    /\ forall p d,
        nth_error (ravel DP) p = Some d ->
        nth_error (ravel DP') p
        = Some (d + Cx.abs (Cx.sum (map (fun iuv : nat * (Z * Z) =>
                   let '(i, (u, v)) := iuv in
                   Cx.mul
                     (Cx.mul (Cx.of_real (nth (2 * i + 6) args 0))
                             (Cx.exp (Cx.j (nth (2 * i + 7) args 0))))
                     (Cx.of_real
                        (shifted_magnitude pFT xq yq
                           (x0 + IZR u * ux + IZR v * vx)
                           (y0 + IZR u * uy + IZR v * vy) p)))
                 peaks)) ^ 2).
Proof.
  intros pFT xq yq peaks x0 y0 ux uy vx vy Hq Hp HDP Hwf Hlen.
  unfold ComplexOverlapKernelDiskLattice.local_center_func.
  rewrite bind_lift, getindex_nth by lia.
  rewrite bind_lift, getindex_nth by lia.
  rewrite bind_lift, getindex_nth by lia.
  rewrite bind_lift, getindex_nth by lia.
  rewrite bind_lift, getindex_nth by lia.
  rewrite bind_lift, getindex_nth by lia.
  fold x0 y0 ux uy vx vy.
  fold (enumerate_peaks (ComplexOverlapKernelDiskLattice.u_inds self)
          (ComplexOverlapKernelDiskLattice.v_inds self)).
  fold peaks.
  assert (Hb : forall i uv, In (i, uv) peaks ->
                            (2 * i + 7 < List.length args)%nat).
  { intros i uv Hin. apply in_enumerate_bound in Hin. lia. }
  destruct (coherent_loop_adds self args x0 y0 ux uy vx vy peaks Hq Hp Hb
              (np.zeros_like Cx.zero DP)) as (L & E & Hs & HwfL & Hpix).
  { exact HDP. }
  { unfold well_formed, np.zeros_like, np.amap. cbn [ravel shape].
    rewrite length_map. exact Hwf. }
  unfold bind at 1. unfold with_local. rewrite E.
  unfold np.iadd, np.azip. cbn [np.amap shape].
  assert (HsL : shape DP = shape L) by (rewrite Hs; reflexivity).
  rewrite (shape_eqb_eq _ _ HsL).
  eexists. split; [reflexivity|]. split; [reflexivity|].
  intros p d Hd. cbn [ravel].
  assert (Hlt : (p < List.length (ravel DP))%nat)
    by (apply nth_error_Some; congruence).
  assert (Hz : nth_error (ravel (np.zeros_like Cx.zero DP)) p = Some Cx.zero).
  { unfold np.zeros_like, np.amap. cbn [ravel].
    rewrite nth_error_map, Hd. reflexivity. }
  apply nth_error_zip_with; [exact Hd|].
  cbn [ravel np.amap].
  rewrite nth_error_map, (Hpix p _ Hz), Cx_add_zero_l. cbn [option_map].
  f_equal. f_equal. f_equal. f_equal. apply map_ext.
  intros [i [u v]]. reflexivity.
Qed.

Lemma coherent_lattice_sums_amplitudes_then_squares_witness :
  exists DP',
    ComplexOverlapKernelDiskLattice.local_center_func example_coherent_lattice
      [0; 0; 1; 0; 0; 1; 4; 0] example_context (one_pixel 0) = (DP', Ok tt)
    /\ shape DP' = (1, 1)%nat.
Proof.
  destruct (coherent_lattice_sums_amplitudes_then_squares
              example_coherent_lattice [0; 0; 1; 0; 0; 1; 4; 0]
              example_context (one_pixel 0)
              eq_refl eq_refl eq_refl eq_refl (le_n 8)) as (DP' & E & Hs & _).
  exists DP'. split; [exact E | exact Hs].
Defined.

(** C3 fails on the code: with the single peak (0, 0), Intensity 4, phase 0
    and a kernel of magnitude 1, the claimed amplitude
    intensity^(1/2) * exp(i phase) * |shifted_kernel| has squared magnitude
    4, but the forward function adds 16. *)
Lemma coherent_lattice_intensity_not_rooted :
  exists DP',
    ComplexOverlapKernelDiskLattice.local_center_func example_coherent_lattice
      [0; 0; 1; 0; 0; 1; 4; 0] example_context (one_pixel 0) = (DP', Ok tt)
    /\ nth_error (ravel DP') 0 = Some 16
    /\ 0 + Cx.abs (Cx.sum
             [Cx.mul (Cx.mul (Cx.of_real (sqrt 4)) (Cx.exp (Cx.j 0)))
                (Cx.of_real
                   (shifted_magnitude
                      (ComplexOverlapKernelDiskLattice.probe_kernelFT
                         example_coherent_lattice)
                      (ComplexOverlapKernelDiskLattice.xqArray
                         example_coherent_lattice)
                      (ComplexOverlapKernelDiskLattice.yqArray
                         example_coherent_lattice)
                      0 0 0))]) ^ 2 = 4
    /\ 16 <> 4.
Proof.
  destruct (coherent_loop_adds example_coherent_lattice
              [0; 0; 1; 0; 0; 1; 4; 0] 0 0 1 0 0 1
              [(0%nat, (0%Z, 0%Z))] eq_refl eq_refl)
    with (localDP := np.zeros_like Cx.zero (one_pixel 0))
    as (L & E & Hs & _ & Hpix).
  - intros i uv [H|[]]. injection H as <- _. simpl. lia.
  - reflexivity.
  - reflexivity.
  - specialize (Hpix 0%nat Cx.zero eq_refl).
    cbn [map Cx.sum fold_right fst snd peak_center nth Nat.add Nat.mul
         example_coherent_lattice
         ComplexOverlapKernelDiskLattice.probe_kernelFT
         ComplexOverlapKernelDiskLattice.xqArray
         ComplexOverlapKernelDiskLattice.yqArray] in Hpix.
    rewrite shifted_magnitude_one_pixel, Cx_exp_j_0 in Hpix by reflexivity.
    eexists. split; [|split; [|split]].
    + unfold ComplexOverlapKernelDiskLattice.local_center_func.
      do 6 (rewrite bind_lift; cbn [getindex nth_error]).
      unfold bind at 1. unfold with_local.
      cbn [example_coherent_lattice ComplexOverlapKernelDiskLattice.u_inds
           ComplexOverlapKernelDiskLattice.v_inds List.length seq combine].
      cbn [example_coherent_lattice] in E. rewrite E.
      unfold np.iadd, np.azip. cbn [np.amap shape]. rewrite Hs.
      cbn [np.zeros_like np.amap shape one_pixel np.shape_eqb fst snd
           Nat.eqb andb].
      reflexivity.
    + cbn [ravel one_pixel np.zip_with]. 
      destruct L as [sh cells]. cbn [ravel map] in *.
      destruct cells as [|c cells]; [discriminate|].
      cbn [nth_error map np.zip_with] in *. injection Hpix as ->.
      cbn [ravel np.amap map].
      f_equal. rewrite Cx_abs_sq. unfold Cx.add, Cx.mul, Cx.of_real, Cx.zero.
      cbn [fst snd]. ring.
    + cbn [example_coherent_lattice
           ComplexOverlapKernelDiskLattice.probe_kernelFT
           ComplexOverlapKernelDiskLattice.xqArray
           ComplexOverlapKernelDiskLattice.yqArray].
      rewrite shifted_magnitude_one_pixel, Cx_exp_j_0 by reflexivity.
      rewrite Cx_abs_sq. unfold Cx.sum, Cx.add, Cx.mul, Cx.of_real, Cx.zero.
      cbn [fst snd fold_right].
      replace ((sqrt 4 * 1 - 0 * 0) * 1 - (sqrt 4 * 0 + 0 * 1) * 0 + 0)
        with (sqrt 4) by ring.
      replace ((sqrt 4 * 1 - 0 * 0) * 0 + (sqrt 4 * 0 + 0 * 1) * 1 + 0)
        with 0 by ring.
      rewrite <- Rsqr_pow2, Rsqr_sqrt by lra. ring.
    + lra.
Qed.

(** ** Parameter names of the peaks *)

Section PeakKeys.

Local Open Scope string_scope.

Lemma uint_chars (d : Decimal.uint) :
  all_chars numeral_char (NilEmpty.string_of_uint d) = true.
Proof. induction d; simpl; auto. Qed.

Lemma str_chars (z : Z) : all_chars numeral_char (str z) = true.
Proof.
  unfold str.
  assert (H : forall d, all_chars numeral_char (NilZero.string_of_uint d) = true).
  { intros d. destruct d; try apply uint_chars. reflexivity. }
  destruct (Z.to_int z); simpl; auto.
Qed.

Lemma str_nonempty (z : Z) : exists a rest, str z = String a rest.
Proof.
  unfold str. destruct z as [|p|p]; simpl.
  - eauto.
  - destruct (Pos.to_uint p); simpl; eauto.
  - eauto.
Qed.

Lemma str_inj (z z' : Z) : str z = str z' -> z = z'.
Proof.
  unfold str. intros H. apply DecimalZ.to_int_inj.
  assert (Hn : forall w, Z.to_int w <> Decimal.Pos Decimal.Nil
                         /\ Z.to_int w <> Decimal.Neg Decimal.Nil).
  { intros [|p|p]; simpl; split; try discriminate;
      intros E; injection E as E; exact (DecimalPos.Unsigned.to_uint_nonnil p E). }
  destruct (Hn z) as [H1 H2], (Hn z') as [H1' H2'].
  pose proof (NilZero.isi _ H1 H2) as E. rewrite H in E.
  rewrite (NilZero.isi _ H1' H2') in E. congruence.
Qed.

Lemma all_chars_weaken (P Q : ascii -> bool) (s : string) :
  (forall a, P a = true -> Q a = true) ->
  all_chars P s = true -> all_chars Q s = true.
Proof.
  intros HPQ. induction s as [|a s IH]; simpl; auto.
  intros H. apply andb_prop in H as [Ha Hs]. rewrite (HPQ a Ha), IH; auto.
Qed.

(** Two strings cut at the first occurrence of a separator agree part by
    part. *)
Lemma append_cut (c : ascii) (s1 s2 r1 r2 : string) :
  all_chars (fun a => negb (Ascii.eqb a c)) s1 = true ->
  all_chars (fun a => negb (Ascii.eqb a c)) s2 = true ->
  s1 ++ String c r1 = s2 ++ String c r2 -> s1 = s2 /\ r1 = r2.
Proof.
  revert s2. induction s1 as [|a s1 IH]; intros [|b s2] H1 H2 E; simpl in *.
  - injection E as ->. auto.
  - injection E as <- _. apply andb_prop in H2 as [H2 _].
    rewrite Ascii.eqb_refl in H2. discriminate.
  - injection E as -> _. apply andb_prop in H1 as [H1 _].
    rewrite Ascii.eqb_refl in H1. discriminate.
  - injection E as -> E. apply andb_prop in H1 as [_ H1].
    apply andb_prop in H2 as [_ H2].
    destruct (IH s2 H1 H2 E) as [-> ->]. auto.
Qed.

Lemma str_avoids (c : ascii) (z : Z) :
  numeral_char c = false ->
  all_chars (fun a => negb (Ascii.eqb a c)) (str z) = true.
Proof.
  intros Hc. apply (all_chars_weaken numeral_char); [|apply str_chars].
  intros a Ha. destruct (Ascii.eqb_spec a c) as [->|]; [congruence|reflexivity].
Qed.

Lemma intensity_key_inj (u v u' v' : Z) :
  intensity_key u v = intensity_key u' v' -> u = u' /\ v = v'.
Proof.
  unfold intensity_key. simpl. intros E. injection E as E.
  apply (append_cut ",") in E; try (apply str_avoids; reflexivity).
  destruct E as [Eu E].
  apply (append_cut "]") in E; try (apply str_avoids; reflexivity).
  destruct E as [Ev _]. split; apply str_inj; assumption.
Qed.

Lemma phase_key_inj (u v u' v' : Z) :
  phase_key u v = phase_key u' v' -> u = u' /\ v = v'.
Proof.
  unfold phase_key. simpl. intros E. injection E as E.
  apply (append_cut ",") in E; try (apply str_avoids; reflexivity).
  destruct E as [Eu E]. injection E as E.
  apply (append_cut "]") in E; try (apply str_avoids; reflexivity).
  destruct E as [Ev _]. split; apply str_inj; assumption.
Qed.

Lemma intensity_key_not_phase_key (u v u' v' : Z) :
  intensity_key u v <> phase_key u' v'.
Proof.
  unfold intensity_key, phase_key. simpl. intros E. injection E as E.
  apply (append_cut ",") in E; try (apply str_avoids; reflexivity).
  destruct E as [_ E].
  destruct (str_nonempty v) as (a & rest & Hv).
  pose proof (str_chars v) as Hc. rewrite Hv in *. simpl in E, Hc.
  injection E as -> _. discriminate.
Qed.

(** The keys of the peaks all start with a bracket. *)
Lemma intensity_key_head (u v : Z) :
  exists rest, intensity_key u v = String "[" rest.
Proof. unfold intensity_key. simpl. eauto. Qed.

Lemma phase_key_head (u v : Z) :
  exists rest, phase_key u v = String "[" rest.
Proof. unfold phase_key. simpl. eauto. Qed.

End PeakKeys.

(** ** Dict updates *)

Lemma getitem_setitem_same {V} (d : dict V) (k : string) (v : V) :
  getitem (setitem d k v) k = Ok v.
Proof.
  induction d as [|[k' v'] d IH]; simpl.
  - rewrite String.eqb_refl. reflexivity.
  - destruct (String.eqb_spec k' k) as [->|Hne]; simpl.
    + rewrite String.eqb_refl. reflexivity.
    + destruct (String.eqb_spec k' k); [contradiction|exact IH].
Qed.

Lemma getitem_setitem_other {V} (d : dict V) (k k' : string) (v : V) :
  k <> k' -> getitem (setitem d k v) k' = getitem d k'.
Proof.
  intros Hne. induction d as [|[k0 v0] d IH]; simpl.
  - destruct (String.eqb_spec k k'); [contradiction|reflexivity].
  - destruct (String.eqb_spec k0 k) as [->|Hk]; simpl.
    + destruct (String.eqb_spec k k'); [contradiction|reflexivity].
    + rewrite IH. reflexivity.
Qed.

Lemma setitem_new {V} (d : dict V) (k : string) (v : V) :
  ~ In k (keys d) -> setitem d k v = d ++ [(k, v)].
Proof.
  induction d as [|[k' v'] d IH]; simpl; intros H; [reflexivity|].
  destruct (String.eqb_spec k' k) as [->|_]; [tauto|].
  rewrite IH by tauto. reflexivity.
Qed.

Lemma outside_false (Qx Qy : nat) (x y : R) :
  0 <= x <= INR Qx -> 0 <= y <= INR Qy -> outside Qx Qy x y = false.
Proof.
  intros Hx Hy. unfold outside, Rgtb, Rltb.
  repeat destruct (Rlt_dec _ _); try lra; reflexivity.
Qed.

Lemma outside_true (Qx Qy : nat) (x y : R) :
  x < 0 \/ x > INR Qx \/ y < 0 \/ y > INR Qy -> outside Qx Qy x y = true.
Proof.
  intros H. unfold outside, Rgtb, Rltb.
  repeat destruct (Rlt_dec _ _); try reflexivity; lra.
Qed.

Lemma in_kept_cons {A B} (a : A) (b : B) (xs : list A) (ys : list B)
    (d : bool) (mask : list bool) (q : A * B) :
  In q (combine (select_kept (a :: xs) (d :: mask))
                (select_kept (b :: ys) (d :: mask))) ->
  (d = false /\ q = (a, b))
  \/ In q (combine (select_kept xs mask) (select_kept ys mask)).
Proof.
  simpl. destruct d; simpl; [tauto|]. intros [H|H]; auto.
Qed.

(** ** The coherent kernel lattice: construction *)

Lemma coherent_prune_loop_phase (wpf : WPF) (exclude_indices : list (Z * Z))
    (intensity_0 : R) (grid : list (Z * Z)) :
  forall params params' mask,
    ComplexOverlapKernelDiskLattice.prune_loop wpf exclude_indices
      intensity_0 grid params = Ok (params', mask) ->
    (getitem params (phase_key 0 0) = Ok clamped_phase ->
     getitem params' (phase_key 0 0) = Ok clamped_phase)
    /\ (In (0%Z, 0%Z) (combine (select_kept (map fst grid) mask)
                               (select_kept (map snd grid) mask)) ->
        getitem params' (phase_key 0 0) = Ok clamped_phase).
Proof.
  induction grid as [|[u v] grid IH]; intros params params' mask H.
  - simpl in H. injection H as <- <-. simpl. tauto.
  - simpl in H. unfold rbind in H.
    destruct (getitem params "ux"); [|discriminate].
    destruct (getitem params "vx"); [|discriminate].
    destruct (getitem params "uy"); [|discriminate].
    destruct (getitem params "vy"); [|discriminate].
    assert (Hkept : forall ph,
               (ph = if (u =? 0)%Z && (v =? 0)%Z then clamped_phase
                     else Param.mk (1 / 100) (Finite (- PI)) (Finite PI) None) ->
               (getitem params (phase_key 0 0) = Ok clamped_phase
                \/ (u, v) = (0%Z, 0%Z)) ->
               getitem (setitem (setitem params (intensity_key u v)
                                   (Param.mk intensity_0 NegInf PosInf None))
                                (phase_key u v) ph) (phase_key 0 0)
               = Ok clamped_phase).
    { intros ph Hph Hor.
      destruct (String.eqb_spec (phase_key u v) (phase_key 0 0)) as [E|Hne].
      - rewrite E, getitem_setitem_same.
        apply phase_key_inj in E as [-> ->]. rewrite Hph. reflexivity.
      - rewrite getitem_setitem_other by exact Hne.
        rewrite getitem_setitem_other by apply intensity_key_not_phase_key.
        destruct Hor as [Hg|E]; [exact Hg|].
        injection E as -> ->. contradiction. }
    destruct (excluded exclude_indices u v);
      [|destruct (outside _ _ _ _);
        [|destruct ((u =? 0)%Z && (v =? 0)%Z) eqn:Ez]]; simpl in H;
      match type of H with
      | context [ComplexOverlapKernelDiskLattice.prune_loop ?w ?e ?i ?g ?p] =>
          destruct (ComplexOverlapKernelDiskLattice.prune_loop w e i g p)
            as [[ps m]|] eqn:Etail; [|discriminate]
      end;
      simpl in H; injection H as <- <-;
      destruct (IH _ _ _ Etail) as [Hpres Hin]; split; intros Hyp;
      try (apply in_kept_cons in Hyp as [[Hd _]|Hyp]; [discriminate|]);
      auto.
    + apply in_kept_cons in Hyp as [[_ Hq]|Hyp]; [|auto].
      apply Hpres, Hkept; auto.
    + apply in_kept_cons in Hyp as [[_ Hq]|Hyp]; [|auto].
      apply Hpres, Hkept; auto.
Qed.

(** C9: in every coherent kernel lattice whose peak (0, 0) survives the
    pruning, the parameter "[0, 0] Phase" exists and was constructed as
    Parameter(0.0, 0.0, 0.0): initial value, lower bound and upper bound
    are all 0. *)
Theorem coherent_lattice_direct_beam_phase_is_clamped
    (wpf : WPF) (probe_kernel : ndarray R) (ux uy vx vy : R)
    (u_max v_max : Z) (intensity_0 : R) (exclude_indices : list (Z * Z))
    (name : string) (self : ComplexOverlapKernelDiskLattice.t) :
  ComplexOverlapKernelDiskLattice.__init__ wpf probe_kernel ux uy vx vy
    u_max v_max intensity_0 exclude_indices name = Ok self ->
  In (0%Z, 0%Z) (combine (ComplexOverlapKernelDiskLattice.u_inds self)
                         (ComplexOverlapKernelDiskLattice.v_inds self)) ->
  exists phase,
    getitem (WPFModelPrototype.params
               (ComplexOverlapKernelDiskLattice.base self))
            "[0, 0] Phase" = Ok phase
    /\ Param.lower_bound phase = Finite 0
    /\ Param.upper_bound phase = Finite 0
    /\ Param.initial_value phase = 0.
Proof.
  unfold ComplexOverlapKernelDiskLattice.__init__, rbind.
  destruct (kernel_lattice_setup _ _ _ _ _ _ _ _) as [setup|]; [|discriminate].
  destruct (ComplexOverlapKernelDiskLattice.prune_loop _ _ _ _ _)
    as [[params mask]|] eqn:Eloop; [|discriminate].
  intros H Hin. injection H as <-. simpl in *.
  apply coherent_prune_loop_phase in Eloop as [_ Hkept].
  exists clamped_phase. split; [|repeat split].
  exact (Hkept Hin).
Qed.

Lemma example_coherent_init :
  exists self,
    ComplexOverlapKernelDiskLattice.__init__ example_engine (one_pixel 1)
      1 0 0 1 0 0 1 [] "Complex Overlapped Disk Lattice" = Ok self
    /\ ComplexOverlapKernelDiskLattice.u_inds self = [0%Z]
    /\ ComplexOverlapKernelDiskLattice.v_inds self = [0%Z].
Proof.
  assert (Hgrid : mgrid 0 0 = Ok [(0, 0)]%Z) by reflexivity.
  unfold ComplexOverlapKernelDiskLattice.__init__, kernel_lattice_setup.
  rewrite Hgrid. cbn.
  rewrite outside_false by (simpl; lra).
  cbn. eexists. split; [reflexivity|]. split; reflexivity.
Qed.

Lemma coherent_lattice_direct_beam_phase_is_clamped_witness :
  exists self phase,
    ComplexOverlapKernelDiskLattice.__init__ example_engine (one_pixel 1)
      1 0 0 1 0 0 1 [] "Complex Overlapped Disk Lattice" = Ok self
    /\ getitem (WPFModelPrototype.params
                  (ComplexOverlapKernelDiskLattice.base self))
               "[0, 0] Phase" = Ok phase
    /\ Param.lower_bound phase = Finite 0
    /\ Param.upper_bound phase = Finite 0.
Proof.
  destruct example_coherent_init as (self & Hinit & Hu & Hv).
  destruct (coherent_lattice_direct_beam_phase_is_clamped _ _ _ _ _ _ _ _ _ _
              _ self Hinit) as (phase & Hget & Hlo & Hhi & _).
  - rewrite Hu, Hv. left. reflexivity.
  - exists self, phase. auto.
Defined.

(** ** The disk lattice: construction *)

Section DiskLatticeInit.

Lemma NoDup_list_prod {A B} (xs : list A) (ys : list B) :
  NoDup xs -> NoDup ys -> NoDup (list_prod xs ys).
Proof.
  intros Hx Hy. induction Hx as [|a xs Ha Hx IH]; simpl; [constructor|].
  apply NoDup_app; [| exact IH |].
  - apply Injective_map_NoDup; [|exact Hy].
    intros b b' E. congruence.
  - intros [a' b] Hin Hin'. apply in_map_iff in Hin as (b' & E & _).
    injection E as <- <-. apply in_prod_iff in Hin' as [Hin' _]. contradiction.
Qed.

Lemma NoDup_zrange (lo hi : Z) : NoDup (zrange lo hi).
Proof.
  unfold zrange. apply Injective_map_NoDup; [|apply seq_NoDup].
  intros i j E. lia.
Qed.

Lemma NoDup_index_grid (u_max v_max : Z) : NoDup (index_grid u_max v_max).
Proof. apply NoDup_list_prod; apply NoDup_zrange. Qed.

Lemma mgrid_ok (u_max v_max : Z) :
  (0 <= u_max)%Z -> (0 <= v_max)%Z ->
  mgrid u_max v_max = Ok (index_grid u_max v_max).
Proof.
  intros Hu Hv. unfold mgrid.
  destruct (Z.ltb_spec u_max 0); [lia|].
  destruct (Z.ltb_spec v_max 0); [lia|]. reflexivity.
Qed.

Lemma mgrid_negative (u_max v_max : Z) :
  (u_max < 0 \/ v_max < 0)%Z -> mgrid u_max v_max = Raise ValueError.
Proof.
  intros H. unfold mgrid.
  destruct (Z.ltb_spec u_max 0); [reflexivity|].
  destruct (Z.ltb_spec v_max 0); [reflexivity|]. lia.
Qed.

Lemma mgrid_cases (u_max v_max : Z) :
  ((0 <= u_max)%Z /\ (0 <= v_max)%Z
   /\ mgrid u_max v_max = Ok (index_grid u_max v_max))
  \/ ((u_max < 0 \/ v_max < 0)%Z /\ mgrid u_max v_max = Raise ValueError).
Proof.
  destruct (Z.ltb_spec u_max 0) as [Hu|Hu].
  - right. split; [lia|]. apply mgrid_negative. lia.
  - destruct (Z.ltb_spec v_max 0) as [Hv|Hv].
    + right. split; [lia|]. apply mgrid_negative. lia.
    + left. split; [exact Hu|]. split; [exact Hv|]. apply mgrid_ok; lia.
Qed.

Lemma select_kept_filter {A B} (f : A -> B) (keep : A -> bool)
    (grid : list A) :
  select_kept (map f grid) (map (fun a => negb (keep a)) grid)
  = map f (filter keep grid).
Proof.
  induction grid as [|a grid IH]; simpl; [reflexivity|].
  destruct (keep a); simpl; rewrite IH; reflexivity.
Qed.

Lemma combine_fst_snd {A B} (l : list (A * B)) :
  combine (map fst l) (map snd l) = l.
Proof.
  induction l as [|[a b] l IH]; simpl; [reflexivity|]. rewrite IH. reflexivity.
Qed.

Lemma keys_app {V} (d d' : dict V) : keys (d ++ d') = keys d ++ keys d'.
Proof. unfold keys. apply map_app. Qed.

Variables (x0 y0 : R) (Q_Nx Q_Ny : nat) (exclude_indices : list (Z * Z)).
Variables (intensity_0 : R) (pux puy pvx pvy : Param.t).

Let keep : Z * Z -> bool :=
  survives exclude_indices Q_Nx Q_Ny x0 y0
    (Param.initial_value pux) (Param.initial_value puy)
    (Param.initial_value pvx) (Param.initial_value pvy).

Let entry (uv : Z * Z) : string * Param.t :=
  (intensity_key (fst uv) (snd uv), free_parameter intensity_0).

Lemma disk_prune_loop_spec (grid : list (Z * Z)) :
  NoDup grid ->
  forall params,
    getitem params "ux" = Ok pux -> getitem params "uy" = Ok puy ->
    getitem params "vx" = Ok pvx -> getitem params "vy" = Ok pvy ->
    (forall uv, In uv grid ->
                ~ In (intensity_key (fst uv) (snd uv)) (keys params)) ->
    SyntheticDiskLattice.prune_loop x0 y0 Q_Nx Q_Ny exclude_indices
      intensity_0 grid params
    = Ok (params ++ map entry (filter keep grid),
          map (fun uv => negb (keep uv)) grid).
Proof.
  intros Hnd. induction Hnd as [|[u v] grid Hnotin Hnd IH];
    intros params Hux Huy Hvx Hvy Hfresh.
  - simpl. rewrite app_nil_r. reflexivity.
  - cbn [SyntheticDiskLattice.prune_loop]. rewrite Hux, Hvx, Huy, Hvy.
    cbn [rbind]. cbn [filter map].
    assert (Hk : keep (u, v)
                 = negb (excluded exclude_indices u v)
                   && negb (outside Q_Nx Q_Ny
                              (x0 + IZR u * Param.initial_value pux
                                  + IZR v * Param.initial_value pvx)
                              (y0 + IZR u * Param.initial_value puy
                                  + IZR v * Param.initial_value pvy)))
      by reflexivity.
    destruct (excluded exclude_indices u v); cbn [negb andb] in Hk.
    { rewrite Hk. cbn [negb rbind fst snd]. rewrite IH; auto.
      intros uv Hin. apply Hfresh. right. exact Hin. }
    destruct (outside Q_Nx Q_Ny _ _); cbn [negb andb] in Hk.
    { rewrite Hk. cbn [negb rbind fst snd]. rewrite IH; auto.
      intros uv Hin. apply Hfresh. right. exact Hin. }
    rewrite Hk. cbn [negb map].
    assert (Hother : forall k, (forall a b, k <> intensity_key a b) ->
              getitem (setitem params (intensity_key u v)
                               (free_parameter intensity_0)) k
              = getitem params k).
    { intros k Hne. apply getitem_setitem_other. intros E.
      exact (Hne _ _ (eq_sym E)). }
    assert (Hlit : forall k rest c, k = String c rest -> c <> "["%char ->
                                    forall a b, k <> intensity_key a b).
    { intros k rest c -> Hc a b E.
      destruct (intensity_key_head a b) as [r Hr]. rewrite Hr in E.
      injection E as E _. contradiction. }
    change (Param.__init__ (Num intensity_0) None None)
      with (Ok (free_parameter intensity_0)).
    cbn [rbind fst snd].
    rewrite IH.
    + cbn [rbind fst snd].
      rewrite setitem_new by (apply (Hfresh (u, v)); left; reflexivity).
      rewrite <- app_assoc. reflexivity.
    + rewrite Hother; [exact Hux|]. eapply Hlit; [reflexivity|discriminate].
    + rewrite Hother; [exact Huy|]. eapply Hlit; [reflexivity|discriminate].
    + rewrite Hother; [exact Hvx|]. eapply Hlit; [reflexivity|discriminate].
    + rewrite Hother; [exact Hvy|]. eapply Hlit; [reflexivity|discriminate].
    + intros [u' v'] Hin.
      rewrite setitem_new by (apply (Hfresh (u, v)); left; reflexivity).
      rewrite keys_app, in_app_iff. cbn [keys map fst snd In].
      intros [H|[H|[]]].
      * apply (Hfresh (u', v')); [right; exact Hin | exact H].
      * apply intensity_key_inj in H as [-> ->]. contradiction.
Qed.

End DiskLatticeInit.

Lemma include_loop_spec (intensity_0 : R) (listed : list (Z * Z)) :
  forall params,
  exists params',
    SyntheticDiskLattice.include_loop intensity_0 listed params = Ok params'
    /\ (forall k, getitem params k = Ok (free_parameter intensity_0) ->
                  getitem params' k = Ok (free_parameter intensity_0))
    /\ (forall uv, In uv listed ->
                   getitem params' (intensity_key (fst uv) (snd uv))
                   = Ok (free_parameter intensity_0)).
Proof.
  induction listed as [|[u v] listed IH]; intros params.
  - exists params. simpl. repeat split; auto. intros uv [].
  - cbn [SyntheticDiskLattice.include_loop rbind Param.__init__
         Param.set_params fst snd].
    destruct (IH (setitem params (intensity_key u v)
                          (free_parameter intensity_0)))
      as (params' & E & Hpres & Hin).
    exists params'. split; [exact E|]. split.
    + intros k Hk. apply Hpres.
      destruct (String.eqb_spec (intensity_key u v) k) as [<-|Hne].
      * apply getitem_setitem_same.
      * rewrite getitem_setitem_other by exact Hne. exact Hk.
    + intros uv [<-|Huv]; [|auto]. apply Hpres. cbn [fst snd].
      apply getitem_setitem_same.
Qed.

Lemma literal_not_intensity_key (k rest : string) (c : ascii) (u v : Z) :
  k = String c rest -> c <> "["%char -> k <> intensity_key u v.
Proof.
  intros -> Hc E. destruct (intensity_key_head u v) as [r Hr].
  rewrite Hr in E. injection E as E _. contradiction.
Qed.

(** The part of the constructor after the peaks are known: the optional
    radius and width parameters are appended. *)
Lemma refine_keys_appended (params : dict Param.t) (peaks : list (Z * Z))
    (disk_radius disk_width : R) (refine_radius refine_width : bool)
    (fixed : list string) :
  keys params
  = fixed ++ map (fun uv => intensity_key (fst uv) (snd uv)) peaks ->
  ~ In "disk radius"%string fixed -> ~ In "edge width"%string fixed ->
  let params1 := if refine_radius
                 then setitem params "disk radius" (free_parameter disk_radius)
                 else params in
  let params2 := if refine_width
                 then setitem params1 "edge width" (free_parameter disk_width)
                 else params1 in
  keys params2
  = fixed ++ map (fun uv => intensity_key (fst uv) (snd uv)) peaks
    ++ (if refine_radius then ["disk radius"%string] else [])
    ++ (if refine_width then ["edge width"%string] else []).
Proof.
  intros Hkeys Hr Hw.
  assert (Hfresh : forall k rest c, k = String c rest -> c <> "["%char ->
                     ~ In k fixed -> ~ In k (keys params)).
  { intros k rest c Hk Hc Hfix Hin. rewrite Hkeys in Hin.
    apply in_app_iff in Hin as [Hin|Hin]; [contradiction|].
    apply in_map_iff in Hin as ([u v] & E & _).
    exact (literal_not_intensity_key k rest c u v Hk Hc (eq_sym E)). }
  assert (Hr' : ~ In "disk radius"%string (keys params))
    by (eapply Hfresh; [reflexivity|discriminate|exact Hr]).
  assert (Hw' : ~ In "edge width"%string (keys params))
    by (eapply Hfresh; [reflexivity|discriminate|exact Hw]).
  assert (Hw'' : ~ In "edge width"%string
                    (keys (params ++ [("disk radius"%string,
                                       free_parameter disk_radius)]))).
  { rewrite keys_app, in_app_iff. cbn [keys map fst In].
    intros [H|[H|[]]]; [contradiction|discriminate]. }
  destruct refine_radius, refine_width; cbn zeta.
  - rewrite (setitem_new params) by exact Hr'.
    rewrite setitem_new by exact Hw''.
    rewrite !keys_app, Hkeys, <- !app_assoc. reflexivity.
  - rewrite (setitem_new params) by exact Hr'.
    rewrite keys_app, Hkeys, <- !app_assoc. reflexivity.
  - rewrite (setitem_new params) by exact Hw'.
    rewrite keys_app, Hkeys, <- !app_assoc. reflexivity.
  - rewrite Hkeys, app_nil_r. reflexivity.
Qed.

(** C6, as the code has it.  When the peaks are generated from the ranges,
    a pair (u, v) of the grid is dropped exactly when it is in the exclusion
    list or its predicted centre, computed from the initial values, falls
    outside [0, Q_Nx] x [0, Q_Ny]; the retained index arrays list the
    survivors in grid order, the Intensity parameter names follow the six
    geometry names in the same order, one per survivor, and a pair that is
    not retained has no Intensity parameter.  When an
    explicit inclusion list is given, no pair is dropped: the index arrays
    are the list itself and every listed pair has an Intensity parameter,
    whatever the exclusion list and the bounds are. *)
Theorem disk_lattice_retained_peaks
    (wpf : WPF) (ux uy vx vy disk_radius disk_width : R) (u_max v_max : Z)
    (intensity_0 : R) (refine_radius refine_width global_center : bool)
    (x0 y0 : R) (exclude_indices : list (Z * Z))
    (include_indices : option (list (Z * Z))) (name : string)
    (self : SyntheticDiskLattice.t) :
  SyntheticDiskLattice.__init__ wpf ux uy vx vy disk_radius disk_width
    u_max v_max intensity_0 refine_radius refine_width global_center x0 y0
    exclude_indices include_indices name = Ok self ->
  let params := SyntheticDiskLattice.params self in
  let peaks := combine (SyntheticDiskLattice.u_inds self)
                       (SyntheticDiskLattice.v_inds self) in
  match include_indices with
  | None =>
      exists xc yc,
        getitem params "x center" = Ok xc
        /\ getitem params "y center" = Ok yc
        /\ peaks = filter (survives exclude_indices
                             (Q_Nx (wpf_static_data wpf))
                             (Q_Ny (wpf_static_data wpf))
                             (Param.initial_value xc) (Param.initial_value yc)
                             ux uy vx vy)
                          (index_grid u_max v_max)
        /\ NoDup peaks
        /\ keys params
           = ["x center"; "y center"; "ux"; "uy"; "vx"; "vy"]%string
             ++ map (fun uv => intensity_key (fst uv) (snd uv)) peaks
             ++ (if refine_radius then ["disk radius"%string] else [])
             ++ (if refine_width then ["edge width"%string] else [])
        /\ (forall u v, ~ In (u, v) peaks ->
                        getitem params (intensity_key u v)
                        = Raise (KeyError (intensity_key u v)))
  | Some listed =>
      peaks = listed
      /\ forall uv, In uv listed ->
                    getitem params (intensity_key (fst uv) (snd uv))
                    = Ok (free_parameter intensity_0)
  end.
Proof.
  unfold SyntheticDiskLattice.__init__.
  set (centers := if global_center then _ else _).
  assert (Hc : forall ps, centers = Ok ps ->
             exists xc yc, ps = [("x center"%string, xc);
                                 ("y center"%string, yc)]).
  { subst centers. intros ps. destruct global_center; cbn [rbind].
    - destruct (getitem _ "x center") as [xc|]; [|discriminate].
      destruct (getitem _ "y center") as [yc|]; [|discriminate].
      cbn. intros H; injection H as <-. eauto.
    - cbn. intros H; injection H as <-. eauto. }
  destruct centers as [ps|]; [|discriminate].
  destruct (Hc ps eq_refl) as (xc & yc & ->). clear Hc.
  cbn [rbind getitem setitem String.eqb Ascii.eqb Bool.eqb Param.__init__
       Param.set_params].
  set (six := [("x center"%string, xc); ("y center"%string, yc);
               ("ux"%string, _); ("uy"%string, _);
               ("vx"%string, _); ("vy"%string, _)]).
  destruct include_indices as [listed|].
  - (* an explicit inclusion list *)
    destruct (include_loop_spec intensity_0 listed six)
      as (params' & E & _ & Hin).
    rewrite E. cbn [rbind].
    destruct listed as [|first listed]; [discriminate|].
    set (all := first :: listed) in *.
    assert (Hget : forall k uv, In uv all ->
               (forall a b, k <> intensity_key a b) ->
               forall p, getitem (setitem params' k p)
                           (intensity_key (fst uv) (snd uv))
                         = Ok (free_parameter intensity_0)).
    { intros k uv Huv Hk p. rewrite getitem_setitem_other by apply Hk.
      apply Hin, Huv. }
    assert (Hr : forall a b, "disk radius"%string <> intensity_key a b)
      by (intros a b; eapply literal_not_intensity_key;
          [reflexivity|discriminate]).
    assert (Hw : forall a b, "edge width"%string <> intensity_key a b)
      by (intros a b; eapply literal_not_intensity_key;
          [reflexivity|discriminate]).
    destruct refine_radius, refine_width; cbn [rbind];
      intros H; injection H as <-;
      cbn [SyntheticDiskLattice.params SyntheticDiskLattice.base
           SyntheticDiskLattice.u_inds SyntheticDiskLattice.v_inds
           WPFModelPrototype.__init__ WPFModelPrototype.params];
      (split; [exact (combine_fst_snd all)|]); intros uv Huv.
    + rewrite getitem_setitem_other by apply Hw. apply Hget; assumption.
    + apply Hget; assumption.
    + apply Hget; assumption.
    + apply Hin, Huv.
  - (* the generated grid *)
    destruct (mgrid_cases u_max v_max) as [(_ & _ & ->)|[_ ->]];
      [|discriminate].
    cbn [rbind].
    rewrite (disk_prune_loop_spec _ _ _ _ _ _
               (free_parameter ux) (free_parameter uy)
               (free_parameter vx) (free_parameter vy)
               (index_grid u_max v_max) (NoDup_index_grid u_max v_max) six);
      try reflexivity.
    2:{ intros [u v] _ Hin. cbn [keys map fst six In] in Hin.
        repeat (destruct Hin as [Hin|Hin];
                [ revert Hin; eapply literal_not_intensity_key;
                  [reflexivity|discriminate] | ]).
        exact Hin. }
    cbn [rbind fst snd free_parameter Param.initial_value].
    rewrite !select_kept_filter.
    set (kept := filter _ (index_grid u_max v_max)).
    pose proof (refine_keys_appended
                  (six ++ map (fun uv => (intensity_key (fst uv) (snd uv),
                                          free_parameter intensity_0)) kept)
                  kept disk_radius disk_width refine_radius refine_width
                  ["x center"; "y center"; "ux"; "uy"; "vx"; "vy"]%string)
      as Hkeys.
    cbn zeta in Hkeys.
    assert (Hleft : forall tail k v,
               getitem six k = Ok v -> getitem (six ++ tail) k = Ok v).
    { intros tail k v. generalize six. intros d.
      induction d as [|[k' v'] d IHd]; simpl; [discriminate|].
      destruct (String.eqb k' k); auto. }
    assert (Hnd : NoDup kept) by (apply NoDup_filter, NoDup_index_grid).
    assert (Hk : keys (six ++ map (fun uv => (intensity_key (fst uv) (snd uv),
                                             free_parameter intensity_0)) kept)
                 = ["x center"; "y center"; "ux"; "uy"; "vx"; "vy"]%string
                   ++ map (fun uv => intensity_key (fst uv) (snd uv)) kept).
    { rewrite keys_app. unfold keys at 2. rewrite map_map. reflexivity. }
    specialize (Hkeys Hk).
    assert (Hr : ~ In "disk radius"%string
                   ["x center"; "y center"; "ux"; "uy"; "vx"; "vy"]%string)
      by (cbn [In]; intuition discriminate).
    assert (Hw : ~ In "edge width"%string
                   ["x center"; "y center"; "ux"; "uy"; "vx"; "vy"]%string)
      by (cbn [In]; intuition discriminate).
    specialize (Hkeys Hr Hw).
    assert (Habs : forall u v, ~ In (u, v) kept ->
               ~ In (intensity_key u v)
                    (["x center"; "y center"; "ux"; "uy"; "vx"; "vy"]%string
                     ++ map (fun uv => intensity_key (fst uv) (snd uv)) kept
                     ++ (if refine_radius then ["disk radius"%string] else [])
                     ++ (if refine_width then ["edge width"%string] else []))).
    { intros u v Hout. rewrite !in_app_iff.
      intros [Hin|[Hin|[Hin|Hin]]].
      - cbn [In] in Hin.
        repeat (destruct Hin as [Hin|Hin];
                [ revert Hin; eapply literal_not_intensity_key;
                  [reflexivity|discriminate] | ]).
        exact Hin.
      - apply in_map_iff in Hin as ([u' v'] & E & Hin).
        cbn [fst snd] in E.
        apply intensity_key_inj in E as [E1 E2]. subst u' v'. contradiction.
      - destruct refine_radius; [|exact Hin]. destruct Hin as [Hin|[]].
        revert Hin. eapply literal_not_intensity_key;
          [reflexivity|discriminate].
      - destruct refine_width; [|exact Hin]. destruct Hin as [Hin|[]].
        revert Hin. eapply literal_not_intensity_key;
          [reflexivity|discriminate]. }
    intros H. exists xc, yc.
    destruct refine_radius, refine_width; cbn [rbind] in H;
      injection H as <-;
      cbn [SyntheticDiskLattice.params SyntheticDiskLattice.base
           SyntheticDiskLattice.u_inds SyntheticDiskLattice.v_inds
           WPFModelPrototype.__init__ WPFModelPrototype.params];
      rewrite combine_fst_snd;
      rewrite ?getitem_setitem_other by discriminate;
      (split; [apply Hleft; reflexivity|]);
      (split; [apply Hleft; reflexivity|]);
      (split; [reflexivity|]); (split; [exact Hnd|]);
      (split; [exact Hkeys|]);
      intros u v Hout; apply getitem_absent; intros Hin;
      apply (Habs u v Hout); rewrite <- Hkeys; exact Hin.
Qed.

Lemma example_lattice_init :
  exists self,
    SyntheticDiskLattice.__init__ example_engine 1 0 0 1 1 4 1 0 2
      false false false 0 0 [] None "Synthetic Disk Lattice" = Ok self.
Proof.
  unfold SyntheticDiskLattice.__init__.
  cbn [rbind getitem setitem String.eqb Ascii.eqb Bool.eqb Param.__init__
       Param.set_params].
  rewrite (mgrid_ok 1 0) by lia. cbn [rbind].
  rewrite (disk_prune_loop_spec _ _ _ _ _ _
             (free_parameter 1) (free_parameter 0)
             (free_parameter 0) (free_parameter 1)
             (index_grid 1 0) (NoDup_index_grid 1 0)); try reflexivity.
  - cbn [rbind]. eexists. reflexivity.
  - intros [u v] _ Hin. cbn [keys map fst In] in Hin.
    repeat (destruct Hin as [Hin|Hin];
            [ revert Hin; eapply literal_not_intensity_key;
              [reflexivity|discriminate] | ]).
    exact Hin.
Qed.

Lemma disk_lattice_retained_peaks_witness :
  exists self,
    SyntheticDiskLattice.__init__ example_engine 1 0 0 1 1 4 1 0 2
      false false false 0 0 [] None "Synthetic Disk Lattice" = Ok self
    /\ exists xc yc,
        getitem (SyntheticDiskLattice.params self) "x center" = Ok xc
        /\ getitem (SyntheticDiskLattice.params self) "y center" = Ok yc
        /\ combine (SyntheticDiskLattice.u_inds self)
                   (SyntheticDiskLattice.v_inds self)
           = filter (survives [] 1 1 (Param.initial_value xc)
                              (Param.initial_value yc) 1 0 0 1)
                    (index_grid 1 0).
Proof.
  destruct example_lattice_init as [self Hinit].
  exists self. split; [exact Hinit|].
  destruct (disk_lattice_retained_peaks _ _ _ _ _ _ _ _ _ _ _ _ _ _ _ _ _ _
              self Hinit) as (xc & yc & Hx & Hy & Hpeaks & _).
  exists xc, yc. split; [exact Hx|]. split; [exact Hy|exact Hpeaks].
Defined.

(** On the 1x1 pattern with unit lattice vectors, of the generated peaks
    (-1, 0), (0, 0), (1, 0) the first lies outside and is dropped. *)
Example pruning_on_one_pixel :
  filter (survives [] 1 1 0 0 1 0 0 1) (index_grid 1 0) = [(0, 0); (1, 0)]%Z.
Proof.
  assert (Hgrid : index_grid 1 0 = [(-1, 0); (0, 0); (1, 0)]%Z) by reflexivity.
  rewrite Hgrid. cbn [filter]. unfold survives. cbn [excluded existsb negb
    andb fst snd].
  rewrite outside_true by (left; lra).
  rewrite !outside_false by (cbn [INR]; lra).
  reflexivity.
Qed.

(** C6 fails on the code for an explicit inclusion list: the pair (0, 0) is
    in the exclusion list and the predicted centre (5, 5) of the pair (5, 5)
    is outside the 1x1 pattern, yet both pairs are retained and both own an
    Intensity parameter. *)
Lemma disk_lattice_inclusion_list_is_not_pruned :
  excluded [(0, 0)%Z] 0 0 = true
  /\ outside 1 1 (0 + IZR 5 * 1 + IZR 5 * 0) (0 + IZR 5 * 0 + IZR 5 * 1) = true
  /\ exists self,
      SyntheticDiskLattice.__init__ example_engine 1 0 0 1 1 4 1 1 2
        false false true 0 0 [(0, 0)%Z] (Some [(0, 0); (5, 5)]%Z)
        "Synthetic Disk Lattice" = Ok self
      /\ SyntheticDiskLattice.u_inds self = [0; 5]%Z
      /\ SyntheticDiskLattice.v_inds self = [0; 5]%Z
      /\ keys (SyntheticDiskLattice.params self)
         = ["x center"; "y center"; "ux"; "uy"; "vx"; "vy";
            "[0,0] Intensity"; "[5,5] Intensity"]%string.
Proof.
  split; [reflexivity|].
  split; [apply outside_true; right; left; cbn [INR]; lra|].
  eexists. split; [reflexivity|]. repeat split.
Qed.

(** ** The disk lattice: Jacobian *)

Section JacobianExample.

Import SyntheticDiskLattice.

Lemma Rltb_true (a b : R) : a < b -> Rltb a b = true.
Proof. intros H. unfold Rltb. destruct (Rlt_dec a b); [reflexivity|lra]. Qed.

Lemma Rltb_false (a b : R) : ~ a < b -> Rltb a b = false.
Proof. intros H. unfold Rltb. destruct (Rlt_dec a b); [lra|reflexivity]. Qed.

Lemma sqrt_unit (a : R) : a = 1 -> sqrt a = 1.
Proof. intros ->. apply sqrt_1. Qed.

(** At the pixel (1, 0) of a unit disk centred at the origin:
    r_disk = 1, the mask is on and top_exp = exp(0) = 1. *)
Lemma example_r_disk (xp yp : R) :
  xp = 0 -> yp = 0 -> r_disk xp yp 1 0 = 1.
Proof.
  intros -> ->. unfold r_disk, np.maximum.
  rewrite sqrt_unit by ring. apply Rmax_right. lra.
Qed.

Lemma example_top_exp (xp yp : R) :
  xp = 0 -> yp = 0 -> top_exp 1 4 xp yp 1 0 = 1.
Proof.
  intros Hx Hy. unfold top_exp, mask.
  rewrite (example_r_disk xp yp Hx Hy), Rltb_true by lra.
  replace (4 * (1 * 1 - 1) / 4) with 0 by field.
  rewrite exp_0. ring.
Qed.

Lemma example_dx (xp yp r : R) :
  xp = 0 -> yp = 0 -> r = 1 -> dx 2 1 4 xp yp 1 0 r = 1 / 2.
Proof.
  intros Hx Hy ->. unfold dx. rewrite (example_top_exp xp yp Hx Hy).
  subst xp. field.
Qed.

Lemma example_jacobian_entry :
  exists J',
    jacobian example_lattice (example_vector 0) example_mesh
             (zero_jacobian 2 7) = (J', Ok tt)
    /\ analytic_center_entry = 1.
Proof.
  unfold analytic_center_entry, jacobian. cbn.
  eexists. split; [reflexivity|].
  rewrite example_dx; try ring.
  - lra.
  - unfold np.maximum. rewrite sqrt_unit by ring. apply Rmax_right. lra.
Qed.

Lemma forward_pixel_closed_form (t : R) :
  forward_pixel t
  = 0 + 2 / (1 + exp (Rmin (4 * (sqrt ((1 - t) ^ 2) - 1) / 4) 20)).
Proof.
  unfold forward_pixel, func. cbn. unfold np.minimum.
  match goal with
  | |- 0 + 2 / (1 + exp (Rmin (4 * (sqrt ?a - 1) / 4) 20)) = _ =>
      replace a with ((1 - t) * ((1 - t) * 1)) by ring
  end.
  reflexivity.
Qed.

Lemma forward_pixel_near_zero (t : R) :
  -1 < t < 1 -> 0 + 2 / (1 + exp (- t)) = forward_pixel t.
Proof.
  intros Ht. rewrite forward_pixel_closed_form.
  rewrite sqrt_pow2 by lra.
  replace (4 * (1 - t - 1) / 4) with (- t) by field.
  rewrite Rmin_left by lra. reflexivity.
Qed.

Lemma logistic_derivative :
  derivable_pt_lim (fun t => 0 + 2 / (1 + exp (- t))) 0 (1 / 2).
Proof.
  assert (H1 : derivable_pt_lim (comp exp (- id)) 0 (exp ((- id)%F 0) * -1)).
  { apply derivable_pt_lim_comp.
    - apply derivable_pt_lim_opp, derivable_pt_lim_id.
    - apply derivable_pt_lim_exp. }
  assert (H2 : derivable_pt_lim (fct_cte 1 + comp exp (- id))%F 0
                 (0 + exp ((- id)%F 0) * -1)).
  { apply derivable_pt_lim_plus; [apply derivable_pt_lim_const | exact H1]. }
  assert (Hval : (fct_cte 1 + comp exp (- id))%F 0 = 2).
  { unfold plus_fct, fct_cte, comp, opp_fct, id. rewrite Ropp_0, exp_0. ring. }
  assert (H3 : derivable_pt_lim (fct_cte 2 / (fct_cte 1 + comp exp (- id)))%F
                 0 (1 / 2)).
  { replace (1 / 2)
      with ((0 * (fct_cte 1 + comp exp (- id))%F 0
             - (0 + exp ((- id)%F 0) * -1) * fct_cte 2 0)
            / Rsqr ((fct_cte 1 + comp exp (- id))%F 0)).
    - apply derivable_pt_lim_div.
      + apply derivable_pt_lim_const.
      + exact H2.
      + rewrite Hval. lra.
    - rewrite Hval. unfold opp_fct, id, fct_cte, Rsqr.
      rewrite Ropp_0, exp_0. field. }
  apply (derivable_pt_lim_ext _ _ _ _ (fun z => eq_sym (Rplus_0_l _)) H3).
Qed.

(** The partial derivative of the forward contribution at the pixel (1, 0)
    with respect to the x centre is 1/2. *)
Lemma forward_pixel_derivative : derivable_pt_lim forward_pixel 0 (1 / 2).
Proof.
  apply (derivable_pt_lim_locally_ext
           (fun t => 0 + 2 / (1 + exp (- t))) forward_pixel 0 (-1) 1).
  - lra.
  - exact forward_pixel_near_zero.
  - exact logistic_derivative.
Qed.

End JacobianExample.

(** C5 fails on the code.  For the disk lattice with the single peak (0, 0),
    disk radius 1, edge width 4 and intensity 2, centred at the origin, the
    Jacobian function returns normally; at the pixel (1, 0) the partial
    derivative of the forward contribution with respect to the x centre is
    1/2, but the x-centre column of the analytic Jacobian holds 1: the
    column is the derivative multiplied once more by the intensity. *)
Theorem disk_lattice_center_column_is_not_the_derivative :
  (exists J',
      SyntheticDiskLattice.jacobian example_lattice (example_vector 0)
        example_mesh (zero_jacobian 2 7) = (J', Ok tt))
  /\ analytic_center_entry = 1
  /\ derivable_pt_lim forward_pixel 0 (1 / 2)
  /\ ~ derivable_pt_lim forward_pixel 0 analytic_center_entry.
Proof.
  destruct example_jacobian_entry as (J' & Hrun & Hentry).
  split; [exists J'; exact Hrun|]. split; [exact Hentry|].
  split; [exact forward_pixel_derivative|].
  rewrite Hentry. intros H.
  pose proof (uniqueness_limite _ _ _ _ forward_pixel_derivative H). lra.
Qed.

(** ** Additivity with every cell kept *)

Section CellsKept.

Import np.

Lemma shape_eqb_true (s t : nat * nat) : shape_eqb s t = true -> s = t.
Proof.
  destruct s as [a b], t as [c d]. unfold shape_eqb. cbn [fst snd].
  intros H. apply andb_prop in H as [H1 H2].
  apply Nat.eqb_eq in H1, H2. congruence.
Qed.

Lemma well_formed_same_length {T U} (a : ndarray T) (b : ndarray U) :
  shape a = shape b -> well_formed a -> well_formed b ->
  List.length (ravel a) = List.length (ravel b).
Proof. unfold well_formed. intros -> -> ->. reflexivity. Qed.

Lemma amap_well_formed {T U} (f : T -> U) (a : ndarray T) :
  well_formed a -> well_formed (amap f a).
Proof.
  unfold well_formed, amap. cbn [shape ravel]. rewrite length_map. auto.
Qed.

Lemma azip_well_formed {T U V} (f : T -> U -> V) (a : ndarray T)
    (b : ndarray U) (r : ndarray V) :
  azip f a b = Ok r -> well_formed a -> well_formed b -> well_formed r.
Proof.
  unfold azip. destruct (shape_eqb (shape a) (shape b)) eqn:E; [|discriminate].
  apply shape_eqb_true in E. intros H Ha Hb. injection H as <-.
  unfold well_formed. cbn [shape ravel].
  rewrite zip_with_length, <- (well_formed_same_length a b E Ha Hb).
  rewrite Nat.min_id. exact Ha.
Qed.

Lemma padd_well_formed (DP : ndarray R) (c : list R) :
  well_formed DP -> List.length c = List.length (ravel DP) ->
  well_formed (padd DP c)
  /\ List.length (ravel (padd DP c)) = List.length (ravel DP).
Proof.
  intros Hwf Hc. unfold well_formed, padd in *. cbn [shape ravel].
  rewrite zip_with_length, Hc, Nat.min_id. auto.
Qed.

Lemma padd_cell (DP : ndarray R) (c : list R) (p : nat) (d : R) :
  List.length c = List.length (ravel DP) ->
  nth_error (ravel DP) p = Some d ->
  nth_error (ravel (padd DP c)) p = Some (d + nth p c 0).
Proof.
  intros Hc Hd. unfold padd. cbn [ravel].
  apply nth_error_zip_with; [exact Hd|].
  apply nth_error_nth_some. rewrite Hc. apply nth_error_Some. congruence.
Qed.

Lemma additive_lift {A} (r : result A) : additive (lift r).
Proof.
  intros DP1 DP2 Hs W1 W2.
  exists (repeat 0 (List.length (ravel DP1))), r.
  split; [apply repeat_length|]. unfold lift.
  rewrite padd_zeros by reflexivity.
  rewrite padd_zeros
    by (symmetry; apply well_formed_same_length; assumption).
  auto.
Qed.

Lemma additive_bind {A B} (m : inplace (ndarray R) A)
    (k : A -> inplace (ndarray R) B) :
  additive m -> (forall a, additive (k a)) -> additive (bind m k).
Proof.
  intros Hm Hk DP1 DP2 Hs W1 W2.
  destruct (Hm DP1 DP2 Hs W1 W2) as (c & o & Hc & E1 & E2).
  unfold bind. rewrite E1, E2. destruct o as [a|e].
  - assert (Hc2 : List.length c = List.length (ravel DP2))
      by (rewrite Hc; apply well_formed_same_length; assumption).
    destruct (padd_well_formed DP1 c W1 Hc) as [W1' L1].
    destruct (padd_well_formed DP2 c W2 Hc2) as [W2' L2].
    assert (Hs' : shape (padd DP1 c) = shape (padd DP2 c)) by exact Hs.
    destruct (Hk a _ _ Hs' W1' W2') as (c' & o' & Hc' & E1' & E2').
    exists (zip_with Rplus c c'), o'.
    rewrite E1', E2', !padd_padd. split; [|auto].
    rewrite zip_with_length, Hc', L1, Hc. apply Nat.min_id.
  - exists c, (Raise e). auto.
Qed.

Lemma additive_lift_bind {A B} (r : result A)
    (k : A -> inplace (ndarray R) B) :
  (forall a, r = Ok a -> additive (k a)) -> additive (bind (lift r) k).
Proof.
  intros Hk. destruct r as [a|e].
  - intros DP1 DP2 Hs W1 W2. rewrite !bind_lift.
    exact (Hk a eq_refl DP1 DP2 Hs W1 W2).
  - intros DP1 DP2 Hs W1 W2. rewrite !bind_lift.
    exact (additive_lift (Raise e : result B) DP1 DP2 Hs W1 W2).
Qed.

Lemma additive_for_each {A} (items : list A)
    (body : A -> inplace (ndarray R) unit) :
  (forall a, additive (body a)) -> additive (for_each items body).
Proof.
  intros Hb. induction items as [|a items IH]; simpl.
  - exact (additive_lift (Ok tt)).
  - apply additive_bind; auto.
Qed.

Lemma additive_iadd_scalar (v : R) : additive (iadd_scalar v).
Proof.
  intros DP1 DP2 Hs W1 W2.
  exists (repeat v (List.length (ravel DP1))), (Ok tt).
  split; [apply repeat_length|].
  unfold iadd_scalar, amap, padd.
  rewrite (zip_with_scalar (ravel DP1) v _ eq_refl).
  rewrite (zip_with_scalar (ravel DP2) v (List.length (ravel DP1)))
    by (symmetry; apply well_formed_same_length; assumption).
  auto.
Qed.

Lemma additive_iadd (c : ndarray R) : well_formed c -> additive (iadd c).
Proof.
  intros Wc DP1 DP2 Hs W1 W2. unfold iadd, azip. rewrite <- Hs.
  destruct (shape_eqb (shape DP1) (shape c)) eqn:E.
  - apply shape_eqb_true in E.
    exists (ravel c), (Ok tt). unfold padd. rewrite <- Hs.
    split; [|auto]. symmetry. apply well_formed_same_length; assumption.
  - exists (repeat 0 (List.length (ravel DP1))), (Raise ValueError).
    split; [apply repeat_length|].
    rewrite padd_zeros by reflexivity.
    rewrite padd_zeros
      by (symmetry; apply well_formed_same_length; assumption).
    auto.
Qed.

(** *** Arrays that stay well formed *)

Lemma keeps_cells_lift {T A} (r : result A) :
  keeps_cells (lift r : inplace (ndarray T) A).
Proof. intros a a' o Hwf H. injection H as <- _. auto. Qed.

Lemma keeps_cells_bind {T A B} (m : inplace (ndarray T) A)
    (k : A -> inplace (ndarray T) B) :
  keeps_cells m -> (forall a, keeps_cells (k a)) -> keeps_cells (bind m k).
Proof.
  intros Hm Hk a a' o Hwf. unfold bind.
  destruct (m a) as [a1 [v|e]] eqn:E.
  - destruct (Hm a a1 _ Hwf E) as [Hs1 Hw1]. intros H.
    destruct (Hk v a1 a' o Hw1 H) as [Hs2 Hw2].
    split; [congruence|exact Hw2].
  - intros H. injection H as <- _. exact (Hm a a1 _ Hwf E).
Qed.

Lemma keeps_cells_for_each {T A} (items : list A)
    (body : A -> inplace (ndarray T) unit) :
  (forall a, keeps_cells (body a)) -> keeps_cells (for_each items body).
Proof.
  intros Hb. induction items as [|a items IH]; simpl.
  - exact (keeps_cells_lift (Ok tt)).
  - apply keeps_cells_bind; auto.
Qed.

Lemma keeps_cells_iadd_complex (c : ndarray complex) :
  well_formed c -> keeps_cells (iadd_complex c).
Proof.
  intros Wc a a' o Hwf. unfold iadd_complex, azip.
  destruct (shape_eqb (shape a) (shape c)) eqn:E.
  - apply shape_eqb_true in E. intros H. injection H as <- _.
    split; [reflexivity|]. unfold well_formed. cbn [shape ravel].
    rewrite zip_with_length, <- (well_formed_same_length a c E Hwf Wc).
    rewrite Nat.min_id. exact Hwf.
  - intros H. injection H as <- _. auto.
Qed.

Lemma shifted_kernel_well_formed pFT xq yq x y (k : ndarray complex) :
  shifted_kernel pFT xq yq x y = Ok k -> well_formed k.
Proof.
  unfold shifted_kernel, rbind.
  destruct (azip _ xq yq) as [ramp|]; [|discriminate].
  destruct (azip Cx.mul pFT _) as [sh|]; [|discriminate].
  intros H. injection H as <-. unfold well_formed, fft.ifft2.
  cbn [shape ravel]. apply grid_length.
Qed.

Lemma get_distance_well_formed (sd : static_data) (x : list R)
    (xc yc : Param.t) (r : ndarray R) :
  well_formed (xArray sd) -> well_formed (yArray sd) ->
  _get_distance sd x xc yc = Ok r -> well_formed r.
Proof.
  intros Wx Wy. unfold _get_distance, rbind.
  destruct (value_at x xc); [|discriminate].
  destruct (value_at x yc); [|discriminate].
  intros H. exact (azip_well_formed _ _ _ _ H Wx Wy).
Qed.

End CellsKept.

(** Every forward function of the file is additive, for every parameter
    vector and every context whose meshes are well formed. *)
Lemma call_forward_additive (f : forward_function) (x : list R)
    (kwargs : static_data) :
  well_formed (xArray kwargs) -> well_formed (yArray kwargs) ->
  additive (call_forward f x kwargs).
Proof.
  intros Wx Wy.
  assert (Hcomplex : forall self args,
             additive (ComplexOverlapKernelDiskLattice.local_center_func
                         self args kwargs)).
  { intros self args. unfold ComplexOverlapKernelDiskLattice.local_center_func.
    do 6 (apply additive_lift_bind; intros ? _).
    intros DP1 DP2 Hs W1 W2.
    unfold bind at 1 2. unfold with_local.
    rewrite (zeros_like_same_size Cx.zero DP1 DP2 Hs
               (well_formed_same_length DP1 DP2 Hs W1 W2)).
    destruct (for_each _ _ (np.zeros_like Cx.zero DP2)) as [l [[]|e]] eqn:E.
    - apply additive_iadd; try assumption.
      apply amap_well_formed.
      refine (proj2 (keeps_cells_for_each _ _ _ _ _ _ _ E)).
      + intros [i [u v]].
        unfold ComplexOverlapKernelDiskLattice.local_peak.
        apply keeps_cells_bind; [apply keeps_cells_lift|intros amplitude].
        apply keeps_cells_bind; [apply keeps_cells_lift|intros phase].
        intros acc acc' out Wa. rewrite bind_lift.
        destruct (shifted_kernel _ _ _ _ _) as [k|e'] eqn:Ek.
        * apply keeps_cells_iadd_complex; [|exact Wa].
          apply amap_well_formed.
          exact (shifted_kernel_well_formed _ _ _ _ _ _ Ek).
        * intros H. injection H as <- _. auto.
      + apply amap_well_formed. exact W2.
    - apply (additive_lift (Raise e : result unit)); assumption. }
  assert (Hkernel : forall self args,
             additive (KernelDiskLattice.local_center_func self args kwargs)).
  { intros self args. unfold KernelDiskLattice.local_center_func.
    do 6 (apply additive_lift_bind; intros ? _).
    apply additive_for_each. intros [i [u v]].
    unfold KernelDiskLattice.local_peak.
    apply additive_lift_bind; intros intensity _.
    apply additive_lift_bind; intros k Ek.
    apply additive_iadd, amap_well_formed.
    exact (shifted_kernel_well_formed _ _ _ _ _ _ Ek). }
  destruct f; simpl.
  - apply additive_lift.
  - exact (additive_lift (Ok tt)).
  - unfold DCBackground.func.
    apply additive_lift_bind; intros level _. apply additive_iadd_scalar.
  - unfold GaussianBackground.func.
    do 4 (apply additive_lift_bind; intros ? _).
    apply additive_lift_bind; intros r Er.
    apply additive_iadd, amap_well_formed.
    exact (get_distance_well_formed _ _ _ _ _ Wx Wy Er).
  - unfold GaussianRing.global_center_func.
    do 3 (apply additive_lift_bind; intros ? _).
    apply additive_lift_bind; intros engine Hengine.
    unfold global_name in Hengine.
    destruct (existsb _ _); discriminate.
  - unfold SyntheticDiskLattice.func.
    do 8 (apply additive_lift_bind; intros ? _).
    apply additive_for_each. intros [u v].
    unfold SyntheticDiskLattice.func_peak.
    apply additive_lift_bind; intros intensity _.
    apply additive_lift_bind; intros disk Edisk.
    apply additive_iadd.
    exact (azip_well_formed _ _ _ _ Edisk Wx Wy).
  - exact (additive_lift (Ok tt)).
  - apply Hcomplex.
  - apply Hcomplex.
  - apply Hkernel.
  - apply Hkernel.
Qed.

(** C1: every forward function of the file only adds into the accumulator.
    For each of them, each parameter vector, each context whose coordinate
    meshes have as many cells as their shape says, and each pair of
    accumulator patterns of one shape with as many cells as that shape
    says, the call ends with the same outcome on both and has added one and
    the same contribution [c] to both.  [c] has one entry per cell and does
    not depend on what the accumulator held; the array the call leaves has
    every cell of the accumulator, and each cell holds what it held plus
    the entry of [c] at its place. *)
Theorem forward_functions_only_add (f : forward_function) (x : list R)
    (kwargs : static_data) (DP1 DP2 : ndarray R) :
  well_formed (xArray kwargs) -> well_formed (yArray kwargs) ->
  shape DP1 = shape DP2 ->
  well_formed DP1 -> well_formed DP2 ->
  exists (c : list R) (o : result unit) (DP1' DP2' : ndarray R),
    call_forward f x kwargs DP1 = (DP1', o)
    /\ call_forward f x kwargs DP2 = (DP2', o)
    /\ List.length c = List.length (ravel DP1)
    /\ shape DP1' = shape DP1 /\ shape DP2' = shape DP2
    /\ List.length (ravel DP1') = List.length (ravel DP1)
    /\ List.length (ravel DP2') = List.length (ravel DP2)
    /\ (forall p d, nth_error (ravel DP1) p = Some d ->
                    nth_error (ravel DP1') p = Some (d + nth p c 0))
    /\ (forall p d, nth_error (ravel DP2) p = Some d ->
                    nth_error (ravel DP2') p = Some (d + nth p c 0)).
Proof.
  intros Wx Wy Hs W1 W2.
  destruct (call_forward_additive f x kwargs Wx Wy DP1 DP2 Hs W1 W2)
    as (c & o & Hc & E1 & E2).
  assert (Hc2 : List.length c = List.length (ravel DP2)).
  { rewrite Hc. unfold well_formed in W1, W2. rewrite W1, W2, Hs.
    reflexivity. }
  exists c, o, (padd DP1 c), (padd DP2 c).
  split; [exact E1|]. split; [exact E2|]. split; [exact Hc|].
  split; [reflexivity|]. split; [reflexivity|].
  split; [exact (proj2 (padd_well_formed DP1 c W1 Hc))|].
  split; [exact (proj2 (padd_well_formed DP2 c W2 Hc2))|].
  split; intros p d Hd; apply padd_cell; assumption.
Qed.

Lemma forward_functions_only_add_witness :
  exists (c : list R) (o : result unit) (DP1' DP2' : ndarray R),
    call_forward (fwd_DCBackground example_dc) [0; 0; 1] example_context
                 (one_pixel 0) = (DP1', o)
    /\ call_forward (fwd_DCBackground example_dc) [0; 0; 1] example_context
                    (one_pixel 5) = (DP2', o)
    /\ nth_error (ravel DP1') 0 = Some (0 + nth 0 c 0)
    /\ nth_error (ravel DP2') 0 = Some (5 + nth 0 c 0).
Proof.
  destruct (forward_functions_only_add (fwd_DCBackground example_dc)
              [0; 0; 1] example_context (one_pixel 0) (one_pixel 5)
              eq_refl eq_refl eq_refl eq_refl eq_refl)
    as (c & o & DP1' & DP2' & E1 & E2 & _ & _ & _ & _ & _ & H1 & H2).
  exists c, o, DP1', DP2'.
  split; [exact E1|]. split; [exact E2|].
  split; [exact (H1 0%nat 0 eq_refl)|exact (H2 0%nat 5 eq_refl)].
Defined.

(** * Further properties of the code *)

(** ** Parameter *)

Lemma Parameter_offset_is_placeholder (arg : init_arg)
    (lo hi : option R) (p : Param.t) :
  Param.__init__ arg lo hi = Ok p -> Param.offset p = None.
Proof.
  unfold Param.__init__, rbind. destruct arg as [v|items].
  - cbn. intros H; injection H as <-. reflexivity.
  - destruct items as [|a [|b [|c [|d items]]]]; cbn; intros H;
      try discriminate; injection H as <-; reflexivity.
Qed.

(** X1: [Parameter(v)] without bounds is unbounded on both sides; one bound
    may be given alone; a sequence whose length is neither 2 nor 3 raises
    TypeError; and whatever the arguments, a constructed Parameter carries
    the placeholder offset. *)
Theorem Parameter_init_forms :
  (forall v, Param.__init__ (Num v) None None
             = Ok (Param.mk v NegInf PosInf None))
  /\ (forall v lo, Param.__init__ (Num v) (Some lo) None
                   = Ok (Param.mk v (Finite lo) PosInf None))
  /\ (forall v hi, Param.__init__ (Num v) None (Some hi)
                   = Ok (Param.mk v NegInf (Finite hi) None))
  /\ (forall items lo hi,
         List.length items <> 2%nat -> List.length items <> 3%nat ->
         Param.__init__ (Seq items) lo hi = Raise TypeError)
  /\ (forall arg lo hi p,
         Param.__init__ arg lo hi = Ok p -> Param.offset p = None).
Proof.
  repeat split.
  - intros items lo hi H2 H3.
    destruct items as [|a [|b [|c [|d items]]]]; simpl in *;
      try reflexivity; contradiction.
  - intros arg lo hi p. unfold Param.__init__, rbind.
    destruct arg as [v|items].
    + cbn. intros H; injection H as <-. reflexivity.
    + destruct items as [|a [|b [|c [|d items]]]]; cbn; intros H;
        try discriminate; injection H as <-; reflexivity.
Qed.

Lemma Parameter_init_forms_witness :
  Param.__init__ (Seq [1]) None None = Raise TypeError.
Proof.
  apply (proj1 (proj2 (proj2 (proj2 Parameter_init_forms)))); simpl; lia.
Defined.

(** ** Invariants of the forward functions *)

Lemma call_forward_keeps_shape (f : forward_function) (x : list R)
    (kwargs : static_data) (DP DP' : ndarray R) (o : result unit) :
  call_forward f x kwargs DP = (DP', o) ->
  shape DP' = shape DP
  /\ (List.length (ravel DP') <= List.length (ravel DP))%nat.
Proof.
  intros H.
  destruct (call_forward_same_contribution f x kwargs DP DP eq_refl eq_refl)
    as (c & o' & E & _).
  rewrite E in H. injection H as <- _. unfold padd; simpl.
  rewrite zip_with_length. split; [reflexivity|lia].
Qed.

(** X2: on a well-formed accumulator (as many cells as its shape says) and
    with well-formed coordinate meshes, no forward function changes the
    shape of the accumulator or its number of cells, whether it returns or
    raises: the array it leaves has the same shape, exactly as many cells,
    and is well formed again. *)
Theorem forward_functions_keep_shape (f : forward_function) (x : list R)
    (kwargs : static_data) (DP DP' : ndarray R) (o : result unit) :
  well_formed (xArray kwargs) -> well_formed (yArray kwargs) ->
  well_formed DP ->
  call_forward f x kwargs DP = (DP', o) ->
  shape DP' = shape DP
  /\ List.length (ravel DP') = List.length (ravel DP)
  /\ well_formed DP'.
Proof.
  intros Wx Wy W H.
  destruct (call_forward_additive f x kwargs Wx Wy DP DP eq_refl W W)
    as (c & o' & Hc & E & _).
  rewrite E in H. injection H as <- _.
  destruct (padd_well_formed DP c W Hc) as [W' L].
  split; [reflexivity|]. split; [exact L|exact W'].
Qed.

Lemma forward_functions_keep_shape_witness :
  shape (fst (call_forward (fwd_DCBackground example_dc) [0; 0; 1]
                example_context (one_pixel 0))) = (1, 1)%nat
  /\ List.length
       (ravel (fst (call_forward (fwd_DCBackground example_dc) [0; 0; 1]
                      example_context (one_pixel 0)))) = 1%nat.
Proof.
  destruct (forward_functions_keep_shape (fwd_DCBackground example_dc)
              [0; 0; 1] example_context (one_pixel 0) _ _
              eq_refl eq_refl eq_refl eq_refl) as (Hs & Hl & _).
  split; [exact Hs|exact Hl].
Defined.

Lemma zip_with_swap (xs a b : list R) :
  np.zip_with Rplus (np.zip_with Rplus xs a) b
  = np.zip_with Rplus (np.zip_with Rplus xs b) a.
Proof.
  revert a b; induction xs as [|v xs IH]; intros [|a0 a] [|b0 b]; simpl;
    try reflexivity.
  rewrite IH. f_equal. ring.
Qed.

(** X3: two forward functions that both succeed on an accumulator can be
    applied in either order: the second call succeeds as well and both
    orders leave the same array. *)
Theorem forward_functions_commute (f g : forward_function) (x : list R)
    (kwargs : static_data) (DP D1 D2 : ndarray R) :
  call_forward f x kwargs DP = (D1, Ok tt) ->
  call_forward g x kwargs DP = (D2, Ok tt) ->
  List.length (ravel D1) = List.length (ravel DP) ->
  List.length (ravel D2) = List.length (ravel DP) ->
  exists D,
    call_forward g x kwargs D1 = (D, Ok tt)
    /\ call_forward f x kwargs D2 = (D, Ok tt).
Proof.
  intros Hf Hg H1 H2.
  assert (Hs1 : shape DP = shape D1)
    by (symmetry; exact (proj1 (call_forward_keeps_shape _ _ _ _ _ _ Hf))).
  assert (Hs2 : shape DP = shape D2)
    by (symmetry; exact (proj1 (call_forward_keeps_shape _ _ _ _ _ _ Hg))).
  destruct (call_forward_same_contribution g x kwargs DP D1 Hs1 (eq_sym H1))
    as (cg & outg & Eg & Eg1).
  destruct (call_forward_same_contribution f x kwargs DP D2 Hs2 (eq_sym H2))
    as (cf & outf & Ef & Ef2).
  rewrite Hg in Eg. injection Eg as -> <-.
  rewrite Hf in Ef. injection Ef as -> <-.
  exists (padd (padd DP cf) cg). split; [exact Eg1|].
  rewrite Ef2. f_equal. unfold padd; simpl. rewrite zip_with_swap.
  reflexivity.
Qed.

Lemma forward_functions_commute_witness :
  exists D,
    call_forward (fwd_BaseModel example_dc) [0; 0; 1] example_context
      (mk_ndarray (1, 1)%nat [0 + 1]) = (D, Ok tt)
    /\ call_forward (fwd_DCBackground example_dc) [0; 0; 1] example_context
         (one_pixel 0) = (D, Ok tt).
Proof.
  exact (forward_functions_commute (fwd_DCBackground example_dc)
           (fwd_BaseModel example_dc) [0; 0; 1] example_context
           (one_pixel 0) _ _ eq_refl eq_refl eq_refl eq_refl).
Defined.

(** ** All-or-nothing updates *)

Lemma aon_lift_bind {S A B} (r : result A) (k : A -> inplace S B) :
  (forall a, all_or_nothing (k a)) -> all_or_nothing (bind (lift r) k).
Proof.
  intros Hk s s' e. rewrite bind_lift. destruct r as [a|e'].
  - apply Hk.
  - intros H; injection H as <- _. reflexivity.
Qed.

Lemma aon_lift {S A} (r : result A) : all_or_nothing (lift r : inplace S A).
Proof. intros s s' e H. injection H as <- _. reflexivity. Qed.

Lemma aon_iadd (c : ndarray R) : all_or_nothing (np.iadd c).
Proof.
  intros s s' e. unfold np.iadd.
  destruct (np.azip Rplus s c); intros H; [discriminate|].
  injection H as <- _. reflexivity.
Qed.

Lemma aon_iadd_scalar (v : R) : all_or_nothing (np.iadd_scalar v).
Proof. intros s s' e H. discriminate. Qed.

(** X4: a forward function that updates the accumulator in a single
    statement is all-or-nothing: when it raises, the accumulator is exactly
    as it was.  This covers every forward function except the loops of the
    disk lattice and of the incoherent kernel lattice. *)
Theorem single_update_forward_is_all_or_nothing (f : forward_function)
    (x : list R) (kwargs : static_data) (DP DP' : ndarray R) (e : exn) :
  updates_once f = true ->
  call_forward f x kwargs DP = (DP', Raise e) ->
  DP' = DP.
Proof.
  intros Hf. revert DP DP' e.
  change (all_or_nothing (call_forward f x kwargs)).
  assert (Hcomplex : forall self args,
             all_or_nothing (ComplexOverlapKernelDiskLattice.local_center_func
                               self args kwargs)).
  { intros self args. unfold ComplexOverlapKernelDiskLattice.local_center_func.
    do 6 (apply aon_lift_bind; intros ?).
    intros s s' e. unfold bind at 1. unfold with_local.
    destruct (for_each _ _ _) as [l [[]|e']].
    - apply aon_iadd.
    - intros H; injection H as <- _. reflexivity. }
  destruct f; try discriminate Hf; simpl.
  - apply aon_lift.
  - apply aon_lift.
  - unfold DCBackground.func. apply aon_lift_bind; intros ?.
    apply aon_iadd_scalar.
  - unfold GaussianBackground.func.
    do 5 (apply aon_lift_bind; intros ?). apply aon_iadd.
  - unfold GaussianRing.global_center_func.
    do 7 (apply aon_lift_bind; intros ?). apply aon_iadd.
  - apply aon_lift.
  - apply Hcomplex.
  - apply Hcomplex.
Qed.

Lemma single_update_forward_is_all_or_nothing_witness :
  fst (call_forward (fwd_GaussianRing_global_center example_ring)
         [64; 64; 10; 2; 1] example_context (one_pixel 0)) = one_pixel 0.
Proof.
  exact (single_update_forward_is_all_or_nothing
           (fwd_GaussianRing_global_center example_ring) [64; 64; 10; 2; 1]
           example_context (one_pixel 0) _ (KeyError "level")
           eq_refl eq_refl).
Defined.

(** ** The structure a disk lattice is constructed with *)

Lemma setitem_fresh_literal (params : dict Param.t) (fixed : list string)
    (peaks : list (Z * Z)) (k rest : string) (c : ascii) (v : Param.t) :
  keys params
  = fixed ++ map (fun uv => intensity_key (fst uv) (snd uv)) peaks ->
  k = String c rest -> c <> "["%char -> ~ In k fixed ->
  setitem params k v = params ++ [(k, v)].
Proof.
  intros Hkeys Hk Hc Hfix. apply setitem_new. rewrite Hkeys, in_app_iff.
  intros [Hin|Hin]; [contradiction|].
  apply in_map_iff in Hin as ([u w] & E & _).
  exact (literal_not_intensity_key k rest c u w Hk Hc (eq_sym E)).
Qed.

(** The object the constructor returns when the peaks are generated from
    the ranges: the six geometry parameters, one free Intensity parameter
    per surviving peak in grid order, then the optional radius and width
    parameters. *)
Lemma disk_lattice_init_structure
    (wpf : WPF) (ux uy vx vy disk_radius disk_width : R) (u_max v_max : Z)
    (intensity_0 : R) (refine_radius refine_width global_center : bool)
    (x0 y0 : R) (exclude_indices : list (Z * Z)) (name : string)
    (self : SyntheticDiskLattice.t) :
  SyntheticDiskLattice.__init__ wpf ux uy vx vy disk_radius disk_width
    u_max v_max intensity_0 refine_radius refine_width global_center x0 y0
    exclude_indices None name = Ok self ->
  exists xc yc,
    (if global_center
     then getitem (WPFModelPrototype.params (coordinate_model wpf))
                  "x center" = Ok xc
          /\ getitem (WPFModelPrototype.params (coordinate_model wpf))
                     "y center" = Ok yc
     else xc = free_parameter x0 /\ yc = free_parameter y0)
    /\ let kept := filter (survives exclude_indices
                             (Q_Nx (wpf_static_data wpf))
                             (Q_Ny (wpf_static_data wpf))
                             (Param.initial_value xc) (Param.initial_value yc)
                             ux uy vx vy)
                          (index_grid u_max v_max) in
       self
       = SyntheticDiskLattice.mk
           (WPFModelPrototype.__init__ cls_SyntheticDiskLattice name
              ([("x center", xc); ("y center", yc);
                ("ux", free_parameter ux); ("uy", free_parameter uy);
                ("vx", free_parameter vx); ("vy", free_parameter vy)]%string
               ++ map (fun uv => (intensity_key (fst uv) (snd uv),
                                  free_parameter intensity_0)) kept
               ++ (if refine_radius
                   then [("disk radius"%string, free_parameter disk_radius)]
                   else [])
               ++ (if refine_width
                   then [("edge width"%string, free_parameter disk_width)]
                   else []))
              LATTICE)
           disk_radius disk_width (map fst kept) (map snd kept)
           refine_radius refine_width.
Proof.
  unfold SyntheticDiskLattice.__init__.
  set (centers := if global_center then _ else _).
  assert (Hc : forall ps, centers = Ok ps ->
             exists xc yc,
               ps = [("x center"%string, xc); ("y center"%string, yc)]
               /\ (if global_center
                   then getitem (WPFModelPrototype.params
                                   (coordinate_model wpf)) "x center" = Ok xc
                        /\ getitem (WPFModelPrototype.params
                                      (coordinate_model wpf)) "y center"
                           = Ok yc
                   else xc = free_parameter x0 /\ yc = free_parameter y0)).
  { subst centers. intros ps. destruct global_center; cbn [rbind].
    - destruct (getitem _ "x center") as [xc|]; [|discriminate].
      destruct (getitem _ "y center") as [yc|]; [|discriminate].
      cbn. intros H; injection H as <-. eauto.
    - cbn. intros H; injection H as <-. eauto. }
  destruct centers as [ps|]; [|discriminate].
  destruct (Hc ps eq_refl) as (xc & yc & -> & Hcenter). clear Hc.
  destruct (mgrid_cases u_max v_max) as [(_ & _ & ->)|[_ ->]];
    [|discriminate].
  cbn [rbind getitem setitem String.eqb Ascii.eqb Bool.eqb Param.__init__
       Param.set_params].
  change (Param.mk ux NegInf PosInf None) with (free_parameter ux).
  change (Param.mk uy NegInf PosInf None) with (free_parameter uy).
  change (Param.mk vx NegInf PosInf None) with (free_parameter vx).
  change (Param.mk vy NegInf PosInf None) with (free_parameter vy).
  set (six := [("x center"%string, xc); ("y center"%string, yc);
               ("ux"%string, _); ("uy"%string, _);
               ("vx"%string, _); ("vy"%string, _)]).
  rewrite (disk_prune_loop_spec _ _ _ _ _ _
             (free_parameter ux) (free_parameter uy)
             (free_parameter vx) (free_parameter vy)
             (index_grid u_max v_max) (NoDup_index_grid u_max v_max) six);
    try reflexivity.
  2:{ intros [u v] _ Hin. cbn [keys map fst six In] in Hin.
      repeat (destruct Hin as [Hin|Hin];
              [ revert Hin; eapply literal_not_intensity_key;
                [reflexivity|discriminate] | ]).
      exact Hin. }
  cbn [rbind fst snd free_parameter Param.initial_value].
  rewrite !select_kept_filter.
  set (kept := filter _ (index_grid u_max v_max)).
  set (entries := map (fun uv => (intensity_key (fst uv) (snd uv), _)) kept).
  assert (Hk : keys (six ++ entries)
               = ["x center"; "y center"; "ux"; "uy"; "vx"; "vy"]%string
                 ++ map (fun uv => intensity_key (fst uv) (snd uv)) kept).
  { rewrite keys_app. unfold keys at 2, entries. rewrite map_map.
    reflexivity. }
  assert (Hr : setitem (six ++ entries) "disk radius"
                       (Param.mk disk_radius NegInf PosInf None)
               = (six ++ entries)
                 ++ [("disk radius"%string,
                      Param.mk disk_radius NegInf PosInf None)]).
  { eapply setitem_fresh_literal; [exact Hk|reflexivity|discriminate|].
    cbn [In]; intuition discriminate. }
  assert (Hw : forall base fixed,
             keys base
             = fixed ++ map (fun uv => intensity_key (fst uv) (snd uv)) kept ->
             ~ In "edge width"%string fixed ->
             setitem base "edge width"
                     (Param.mk disk_width NegInf PosInf None)
             = base ++ [("edge width"%string,
                         Param.mk disk_width NegInf PosInf None)]).
  { intros base fixed Hb Hf.
    eapply setitem_fresh_literal; [exact Hb|reflexivity|discriminate|exact Hf]. }
  intros H. exists xc, yc. split; [exact Hcenter|]. cbv zeta.
  fold kept.
  assert (Hw2 : setitem ((six ++ entries)
                         ++ [("disk radius"%string,
                              Param.mk disk_radius NegInf PosInf None)])
                        "edge width" (Param.mk disk_width NegInf PosInf None)
                = ((six ++ entries)
                   ++ [("disk radius"%string,
                        Param.mk disk_radius NegInf PosInf None)])
                  ++ [("edge width"%string,
                       Param.mk disk_width NegInf PosInf None)]).
  { apply setitem_new. rewrite keys_app, Hk, !in_app_iff.
    cbn [keys map fst In].
    intros [[Hin|Hin]|[Hin|[]]]; try discriminate.
    - intuition discriminate.
    - apply in_map_iff in Hin as ([u w] & E & _). symmetry in E. revert E.
      eapply literal_not_intensity_key; [reflexivity|discriminate]. }
  assert (Hassoc : forall tail1 tail2 : dict Param.t,
             ((six ++ entries) ++ tail1) ++ tail2
             = six ++ entries ++ tail1 ++ tail2)
    by (intros; rewrite <- !app_assoc; reflexivity).
  destruct refine_radius, refine_width; cbn [rbind] in H.
  - rewrite Hr, Hw2, Hassoc in H. injection H as <-. reflexivity.
  - rewrite Hr, <- (app_nil_r (_ ++ [_])), Hassoc in H.
    injection H as <-. reflexivity.
  - rewrite (Hw _ _ Hk), <- app_assoc in H by (cbn [In]; intuition discriminate).
    injection H as <-. reflexivity.
  - injection H as <-. rewrite !app_nil_r. reflexivity.
Qed.

(** ** Components before the engine assigned offsets *)

Lemma value_at_fresh (x : list R) (p : Param.t) :
  Param.offset p = None -> value_at x p = Raise IndexError.
Proof. unfold value_at. intros ->. reflexivity. Qed.

Lemma value_at_error (x : list R) (p : Param.t) (e : exn) :
  value_at x p = Raise e -> e = IndexError.
Proof.
  unfold value_at, getindex. destruct (Param.offset p) as [i|].
  - destruct (nth_error x i); [discriminate|]. congruence.
  - congruence.
Qed.

(** X5: a component evaluated as constructed, before offsets are assigned,
    raises IndexError and leaves the array untouched: the constant
    background (forward and Jacobian), the Gaussian background and the disk
    lattice built from the ranges. *)
Theorem fresh_components_raise_IndexError :
  (forall background_value name self,
      DCBackground.__init__ background_value name = Ok self ->
      forall x kwargs,
        (forall DP, DCBackground.func self x kwargs DP
                    = (DP, Raise IndexError))
        /\ (forall J, DCBackground.jacobian self x kwargs J
                      = (J, Raise IndexError)))
  /\ (forall wpf sigma intensity global_center x0 y0 name self,
      GaussianBackground.__init__ wpf sigma intensity global_center x0 y0 name
      = Ok self ->
      forall x kwargs DP,
        GaussianBackground.func self x kwargs DP = (DP, Raise IndexError))
  /\ (forall wpf ux uy vx vy disk_radius disk_width u_max v_max intensity_0
             refine_radius refine_width global_center x0 y0 exclude_indices
             name self,
      SyntheticDiskLattice.__init__ wpf ux uy vx vy disk_radius disk_width
        u_max v_max intensity_0 refine_radius refine_width global_center
        x0 y0 exclude_indices None name = Ok self ->
      forall x static_data DP,
        SyntheticDiskLattice.func self x static_data DP
        = (DP, Raise IndexError)).
Proof.
  split; [|split].
  - intros bv name self. unfold DCBackground.__init__, rbind.
    destruct (Param.__init__ bv None None) as [p|] eqn:Ep; [|discriminate].
    intros H; injection H as <-. intros x kwargs.
    pose proof (Parameter_offset_is_placeholder _ _ _ _ Ep) as Hoff.
    split; intros s.
    + unfold DCBackground.func, param_value. cbn.
      rewrite value_at_fresh by exact Hoff. reflexivity.
    + unfold DCBackground.jacobian, column_of. cbn. rewrite Hoff. reflexivity.
  - intros wpf sigma intensity gc x0 y0 name self.
    unfold GaussianBackground.__init__, rbind.
    destruct (Param.__init__ sigma None None) as [ps|] eqn:Es; [|discriminate].
    destruct (Param.__init__ intensity None None) as [pi|]; [|discriminate].
    pose proof (Parameter_offset_is_placeholder _ _ _ _ Es) as Hoff.
    assert (Hsigma : forall ps4 x,
               (exists xc yc,
                   ps4 = [("sigma"%string, ps); ("intensity"%string, pi);
                          ("x center"%string, xc); ("y center"%string, yc)]) ->
               param_value ps4 x "sigma" = Raise IndexError).
    { intros ps4 x (xc & yc & ->). unfold param_value. cbn.
      apply value_at_fresh, Hoff. }
    destruct gc.
    + destruct (getitem _ "x center") as [xc|]; [|discriminate].
      destruct (getitem _ "y center") as [yc|]; [|discriminate].
      intros H; injection H as <-. intros x kwargs DP.
      unfold GaussianBackground.func. rewrite bind_lift.
      cbn [WPFModelPrototype.params WPFModelPrototype.__init__].
      rewrite Hsigma; [reflexivity|]. cbn. eauto.
    + destruct (Param.__init__ x0 None None) as [xc|]; [|discriminate].
      destruct (Param.__init__ y0 None None) as [yc|]; [|discriminate].
      intros H; injection H as <-. intros x kwargs DP.
      unfold GaussianBackground.func. rewrite bind_lift.
      cbn [WPFModelPrototype.params WPFModelPrototype.__init__].
      rewrite Hsigma; [reflexivity|]. cbn. eauto.
  - intros wpf ux uy vx vy disk_radius disk_width u_max v_max intensity_0
           refine_radius refine_width gc x0 y0 excl name self Hinit
           x sd DP.
    destruct (disk_lattice_init_structure _ _ _ _ _ _ _ _ _ _ _ _ _ _ _ _ _
                self Hinit) as (xc & yc & _ & Hself).
    cbv zeta in Hself. subst self.
    unfold SyntheticDiskLattice.func, param_value, SyntheticDiskLattice.params.
    cbn [SyntheticDiskLattice.base WPFModelPrototype.__init__
         WPFModelPrototype.params app getitem String.eqb Ascii.eqb Bool.eqb
         rbind].
    rewrite bind_lift.
    destruct (value_at x xc) as [vx0|e] eqn:Evx;
      [|rewrite (value_at_error _ _ _ Evx); reflexivity].
    rewrite bind_lift.
    destruct (value_at x yc) as [vy0|e] eqn:Evy;
      [|rewrite (value_at_error _ _ _ Evy); reflexivity].
    rewrite bind_lift. reflexivity.
Qed.

Lemma fresh_components_raise_IndexError_witness :
  exists self,
    DCBackground.__init__ (Num 1) "DC Background" = Ok self
    /\ DCBackground.func self [0; 0; 1] example_context (one_pixel 0)
       = (one_pixel 0, Raise IndexError).
Proof.
  eexists. split; [reflexivity|].
  exact (proj1 (proj1 fresh_components_raise_IndexError (Num 1)
                  "DC Background"%string _ eq_refl [0; 0; 1] example_context)
               (one_pixel 0)).
Defined.

(** ** Constructing a disk lattice *)

Lemma in_zrange (lo hi z : Z) : In z (zrange lo hi) <-> (lo <= z < hi)%Z.
Proof.
  unfold zrange. rewrite in_map_iff. split.
  - intros (i & <- & Hi). apply in_seq in Hi. lia.
  - intros H. exists (Z.to_nat (z - lo)). split; [lia|].
    apply in_seq. lia.
Qed.

Lemma in_index_grid (u_max v_max u v : Z) :
  In (u, v) (index_grid u_max v_max)
  <-> (- u_max <= u <= u_max)%Z /\ (- v_max <= v <= v_max)%Z.
Proof.
  unfold index_grid. rewrite in_prod_iff, !in_zrange. lia.
Qed.

(** X6: outcomes of the constructor of the disk lattice.  With its own
    centre and the peaks generated from the ranges it returns an object
    whenever neither maximum index is negative, and raises the ValueError
    of [np.mgrid] as soon as one of them is; with its own centre and an
    empty inclusion list it raises IndexError; with the shared centre it
    raises the KeyError of an x centre the coordinate model lacks. *)
Theorem disk_lattice_init_outcomes
    (wpf : WPF) (ux uy vx vy disk_radius disk_width : R) (u_max v_max : Z)
    (intensity_0 : R) (refine_radius refine_width : bool) (x0 y0 : R)
    (exclude_indices : list (Z * Z)) (name : string) :
  ((0 <= u_max)%Z -> (0 <= v_max)%Z ->
   exists self,
     SyntheticDiskLattice.__init__ wpf ux uy vx vy disk_radius disk_width
       u_max v_max intensity_0 refine_radius refine_width false x0 y0
       exclude_indices None name = Ok self)
  /\ ((u_max < 0 \/ v_max < 0)%Z ->
      SyntheticDiskLattice.__init__ wpf ux uy vx vy disk_radius disk_width
        u_max v_max intensity_0 refine_radius refine_width false x0 y0
        exclude_indices None name = Raise ValueError)
  /\ SyntheticDiskLattice.__init__ wpf ux uy vx vy disk_radius disk_width
       u_max v_max intensity_0 refine_radius refine_width false x0 y0
       exclude_indices (Some []) name = Raise IndexError
  /\ (forall include_indices e,
         getitem (WPFModelPrototype.params (coordinate_model wpf)) "x center"
         = Raise e ->
         SyntheticDiskLattice.__init__ wpf ux uy vx vy disk_radius disk_width
           u_max v_max intensity_0 refine_radius refine_width true x0 y0
           exclude_indices include_indices name = Raise e).
Proof.
  split; [|split; [|split]].
  - intros Hu Hv. unfold SyntheticDiskLattice.__init__.
    rewrite (mgrid_ok u_max v_max Hu Hv).
    cbn [rbind getitem setitem String.eqb Ascii.eqb Bool.eqb Param.__init__
         Param.set_params].
    rewrite (disk_prune_loop_spec _ _ _ _ _ _
               (free_parameter ux) (free_parameter uy)
               (free_parameter vx) (free_parameter vy)
               (index_grid u_max v_max) (NoDup_index_grid u_max v_max));
      try reflexivity.
    + cbn [rbind]. destruct refine_radius, refine_width; cbn [rbind];
        eexists; reflexivity.
    + intros [u v] _ Hin. cbn [keys map fst In] in Hin.
      repeat (destruct Hin as [Hin|Hin];
              [ revert Hin; eapply literal_not_intensity_key;
                [reflexivity|discriminate] | ]).
      exact Hin.
  - intros Hneg. unfold SyntheticDiskLattice.__init__.
    rewrite (mgrid_negative u_max v_max Hneg). reflexivity.
  - reflexivity.
  - intros include_indices e He. unfold SyntheticDiskLattice.__init__.
    rewrite He. reflexivity.
Qed.

Lemma disk_lattice_init_outcomes_witness :
  (exists self,
      SyntheticDiskLattice.__init__ example_engine 1 0 0 1 1 4 1 0 2
        false false false 0 0 [] None "Synthetic Disk Lattice" = Ok self)
  /\ SyntheticDiskLattice.__init__ example_engine 1 0 0 1 1 4 (-1) 0 2
       false false false 0 0 [] None "Synthetic Disk Lattice"
     = Raise ValueError
  /\ SyntheticDiskLattice.__init__ centerless_engine 1 0 0 1 1 4 1 0 2
       false false true 0 0 [] None "Synthetic Disk Lattice"
     = Raise (KeyError "x center").
Proof.
  split; [|split].
  - apply (proj1 (disk_lattice_init_outcomes example_engine
                    1 0 0 1 1 4 1 0 2 false false 0 0 []
                    "Synthetic Disk Lattice")); lia.
  - apply (proj1 (proj2 (disk_lattice_init_outcomes example_engine
                           1 0 0 1 1 4 (-1) 0 2 false false 0 0 []
                           "Synthetic Disk Lattice"))); lia.
  - exact (proj2 (proj2 (proj2 (disk_lattice_init_outcomes centerless_engine
                                  1 0 0 1 1 4 1 0 2 false false 0 0 []
                                  "Synthetic Disk Lattice")))
             None (KeyError "x center") eq_refl).
Defined.

(** X7: a disk lattice built from the ranges has a Jacobian, is tagged
    LATTICE, keeps the radius and width it was given, and counts
    6 + (number of retained peaks) + (1 per refined quantity) parameters;
    its index arrays have one length, every retained index lies in the
    requested ranges, and every Intensity parameter is an unbounded
    Parameter with the initial intensity. *)
Theorem disk_lattice_init_bookkeeping
    (wpf : WPF) (ux uy vx vy disk_radius disk_width : R) (u_max v_max : Z)
    (intensity_0 : R) (refine_radius refine_width global_center : bool)
    (x0 y0 : R) (exclude_indices : list (Z * Z)) (name : string)
    (self : SyntheticDiskLattice.t) :
  SyntheticDiskLattice.__init__ wpf ux uy vx vy disk_radius disk_width
    u_max v_max intensity_0 refine_radius refine_width global_center x0 y0
    exclude_indices None name = Ok self ->
  let base := SyntheticDiskLattice.base self in
  let peaks := combine (SyntheticDiskLattice.u_inds self)
                       (SyntheticDiskLattice.v_inds self) in
  WPFModelPrototype.hasJacobian base = true
  /\ WPFModelPrototype.model_type base = LATTICE
  /\ SyntheticDiskLattice.disk_radius self = disk_radius
  /\ SyntheticDiskLattice.disk_width self = disk_width
  /\ List.length (SyntheticDiskLattice.u_inds self)
     = List.length (SyntheticDiskLattice.v_inds self)
  /\ WPFModelPrototype.nParams base
     = (6 + List.length peaks + (if refine_radius then 1 else 0)
        + (if refine_width then 1 else 0))%nat
  /\ (forall u v, In (u, v) peaks ->
                  (- u_max <= u <= u_max)%Z /\ (- v_max <= v <= v_max)%Z)
  /\ (forall u v, In (u, v) peaks ->
                  getitem (WPFModelPrototype.params base) (intensity_key u v)
                  = Ok (free_parameter intensity_0)).
Proof.
  intros Hinit.
  destruct (disk_lattice_init_structure _ _ _ _ _ _ _ _ _ _ _ _ _ _ _ _ _
              self Hinit) as (xc & yc & _ & Hself).
  cbv zeta in Hself. subst self.
  set (kept := filter _ (index_grid u_max v_max)).
  cbn [SyntheticDiskLattice.base SyntheticDiskLattice.u_inds
       SyntheticDiskLattice.v_inds SyntheticDiskLattice.disk_radius
       SyntheticDiskLattice.disk_width WPFModelPrototype.__init__
       WPFModelPrototype.hasJacobian WPFModelPrototype.model_type
       WPFModelPrototype.nParams WPFModelPrototype.params defines_jacobian].
  rewrite combine_fst_snd.
  repeat split.
  - rewrite !length_map. reflexivity.
  - unfold keys. rewrite length_map, !length_app, length_map.
    destruct refine_radius, refine_width; simpl; lia.
  - apply filter_In in H as [H _]. apply in_index_grid in H. lia.
  - apply filter_In in H as [H _]. apply in_index_grid in H. lia.
  - apply filter_In in H as [H _]. apply in_index_grid in H. lia.
  - apply filter_In in H as [H _]. apply in_index_grid in H. lia.
  - intros u v Hin.
    assert (Hnd : NoDup kept) by (apply NoDup_filter, NoDup_index_grid).
    clear -Hin. 
    set (tail := _ ++ _).
    cbn [app getitem].
    repeat (match goal with
            | |- context [String.eqb ?k (intensity_key u v)] =>
                destruct (String.eqb_spec k (intensity_key u v)) as [E|_];
                [ exfalso; revert E; eapply literal_not_intensity_key;
                  [reflexivity|discriminate] | ]
            end).
    subst tail. induction kept as [|[u' v'] kept IH]; [contradiction|].
    cbn [map app getitem fst snd].
    destruct (String.eqb_spec (intensity_key u' v') (intensity_key u v))
      as [E|Hne]; [reflexivity|].
    destruct Hin as [Hin|Hin]; [injection Hin as -> ->; contradiction|].
    apply IH, Hin.
Qed.

Lemma disk_lattice_init_bookkeeping_witness :
  exists self,
    SyntheticDiskLattice.__init__ example_engine 1 0 0 1 1 4 1 0 2
      false false false 0 0 [] None "Synthetic Disk Lattice" = Ok self
    /\ WPFModelPrototype.nParams (SyntheticDiskLattice.base self)
       = (6 + List.length (combine (SyntheticDiskLattice.u_inds self)
                                   (SyntheticDiskLattice.v_inds self))
          + 0 + 0)%nat.
Proof.
  destruct example_lattice_init as [self Hinit].
  exists self. split; [exact Hinit|].
  exact (proj1 (proj2 (proj2 (proj2 (proj2 (proj2
           (disk_lattice_init_bookkeeping _ _ _ _ _ _ _ _ _ _ _ _ _ _ _ _ _
              self Hinit))))))).
Defined.

(** ** Jacobian functions: what they may write *)

Section JacobianFrame.

Import np.

Lemma update_nth_length {A} (i : nat) (f : A -> A) (xs : list A) :
  List.length (update_nth i f xs) = List.length xs.
Proof.
  revert i; induction xs as [|a xs IH]; intros [|i]; simpl; auto.
Qed.

Lemma nth_error_update_nth {A} (i c : nat) (f : A -> A) (xs : list A) :
  nth_error (update_nth i f xs) c
  = if Nat.eqb c i then option_map f (nth_error xs c) else nth_error xs c.
Proof.
  revert i c; induction xs as [|a xs IH]; intros [|i] [|c]; simpl; auto.
  - destruct (Nat.eqb c i); reflexivity.
Qed.

Variable cols : nat -> Prop.

Lemma writes_only_lift {A} (r : result A) : writes_only cols (lift r).
Proof.
  intros J J' o H. injection H as <- _. split; [reflexivity|].
  intros c column Hc. exists column. auto.
Qed.

Lemma writes_only_bind {A B} (m : inplace jacobian_array A)
    (k : A -> inplace jacobian_array B) :
  writes_only cols m -> (forall a, writes_only cols (k a)) ->
  writes_only cols (bind m k).
Proof.
  intros Hm Hk J J' o. unfold bind.
  destruct (m J) as [J1 [a|e]] eqn:E1.
  - intros E2. destruct (Hm _ _ _ E1) as [Hl1 Hc1].
    destruct (Hk a _ _ _ E2) as [Hl2 Hc2].
    split; [congruence|]. intros c column Hc.
    destruct (Hc1 c column Hc) as (col1 & Hn1 & Hlen1 & Hsame1).
    destruct (Hc2 c col1 Hn1) as (col2 & Hn2 & Hlen2 & Hsame2).
    exists col2. split; [exact Hn2|]. split; [congruence|].
    intros Hnot. rewrite (Hsame2 Hnot). exact (Hsame1 Hnot).
  - intros H. injection H as <- <-.
    destruct (Hm _ _ _ E1) as [Hl1 Hc1]. split; [exact Hl1|exact Hc1].
Qed.

Lemma writes_only_lift_bind {A B} (r : result A)
    (k : A -> inplace jacobian_array B) :
  (forall a, r = Ok a -> writes_only cols (k a)) ->
  writes_only cols (bind (lift r) k).
Proof.
  intros Hk J J' o. rewrite bind_lift. destruct r as [a|e].
  - apply Hk. reflexivity.
  - apply (writes_only_lift (Raise e : result B)).
Qed.

Lemma writes_only_for_each {A} (items : list A)
    (body : A -> inplace jacobian_array unit) :
  (forall a, writes_only cols (body a)) ->
  writes_only cols (for_each items body).
Proof.
  intros Hb. induction items as [|a items IH]; simpl.
  - apply (writes_only_lift (Ok tt)).
  - apply writes_only_bind; auto.
Qed.

Lemma writes_only_update (col : nat) (f : list R -> list R)
    (J : jacobian_array) :
  cols col -> (forall column, List.length (f column) = List.length column) ->
  List.length (update_nth col f J) = List.length J
  /\ (forall c column, nth_error J c = Some column ->
        exists column', nth_error (update_nth col f J) c = Some column'
                        /\ List.length column' = List.length column
                        /\ (~ cols c -> column' = column)).
Proof.
  intros Hcol Hf. split; [apply update_nth_length|].
  intros c column Hc. rewrite nth_error_update_nth, Hc.
  destruct (Nat.eqb_spec c col) as [->|Hne]; simpl.
  - exists (f column). split; [reflexivity|]. split; [apply Hf|].
    intros Hnot. contradiction.
  - exists column. auto.
Qed.

Lemma writes_only_iadd_column (col : nat) (values : result (list R)) :
  cols col -> writes_only cols (iadd_column col values).
Proof.
  intros Hcol J J' o. unfold iadd_column.
  destruct (nth_error J col) as [column|] eqn:Ecol.
  - destruct values as [values|e].
    + destruct (Nat.eqb_spec (List.length values) (List.length column))
        as [Hlen|Hlen].
      * intros H. injection H as <- _.
        (* only the fetched column is replaced, by one of its length *)
        split; [apply update_nth_length|].
        intros c col0 Hc. rewrite nth_error_update_nth, Hc.
        destruct (Nat.eqb_spec c col) as [->|Hne]; simpl.
        -- eexists. split; [reflexivity|]. split.
           ++ rewrite zip_with_length. rewrite Ecol in Hc.
              injection Hc as <-. lia.
           ++ intros Hnot. contradiction.
        -- exists col0. auto.
      * apply (writes_only_lift (Raise ValueError : result unit)).
    + apply (writes_only_lift (Raise e : result unit)).
  - apply (writes_only_lift (Raise IndexError : result unit)).
Qed.

Lemma writes_only_set_column (col : nat) (v : R) :
  cols col -> writes_only cols (set_column col v).
Proof.
  intros Hcol J J' o. unfold set_column.
  destruct (nth_error J col) as [column|] eqn:Ecol.
  - intros H. injection H as <- _.
    apply writes_only_update; [exact Hcol|]. intros. apply length_map.
  - apply (writes_only_lift (Raise IndexError : result unit)).
Qed.

End JacobianFrame.

Lemma column_of_owned (params : dict Param.t) (key : string) (c : nat) :
  column_of params key = Ok c -> owns_column params c.
Proof.
  unfold column_of, rbind.
  destruct (getitem params key) as [p|] eqn:Ep; [|discriminate].
  destruct (Param.offset p) as [i|] eqn:Eo; [|discriminate].
  intros H. injection H as <-. exists key, p. auto.
Qed.

(** Advance through the body of a Jacobian function: a lookup that is not a
    column lookup is skipped over, a column lookup yields an owned column,
    and an update of an owned column is allowed. *)
Ltac frame_steps params :=
  repeat first
    [ apply writes_only_bind;
      [ apply writes_only_iadd_column; eapply (column_of_owned params);
        eassumption | intros _ ]
    | apply writes_only_iadd_column; eapply (column_of_owned params);
      eassumption
    | apply writes_only_lift_bind; intros ? ?
    | progress cbv zeta ].

(** X8: a Jacobian function writes only into the columns its own parameters
    were assigned.  Whether it returns or raises, the Jacobian keeps its
    number of columns, every column keeps its length, and every column that
    is not the offset of one of the model's parameters is left exactly as it
    was. *)
Theorem jacobian_functions_write_own_columns (f : jacobian_function)
    (x : list R) (kwargs : static_data) (J J' : np.jacobian_array)
    (o : result unit) :
  call_jacobian f x kwargs J = (J', o) ->
  List.length J' = List.length J
  /\ (forall c column, nth_error J c = Some column ->
        exists column', nth_error J' c = Some column'
                        /\ List.length column' = List.length column
                        /\ (~ owns_column (params_of f) c -> column' = column)).
Proof.
  revert J J' o.
  change (writes_only (owns_column (params_of f)) (call_jacobian f x kwargs)).
  destruct f; simpl.
  - apply (writes_only_lift _ (Ok tt)).
  - unfold DCBackground.jacobian.
    apply writes_only_lift_bind; intros col Hcol.
    apply writes_only_set_column. exact (column_of_owned _ _ _ Hcol).
  - unfold GaussianBackground.jacobian.
    frame_steps (WPFModelPrototype.params self).
  - unfold GaussianRing.global_center_jacobian.
    do 9 (apply writes_only_lift_bind; intros ? ?).
    apply writes_only_lift_bind; intros col Hcol.
    apply writes_only_bind;
      [apply writes_only_iadd_column; exact (column_of_owned _ _ _ Hcol)|].
    intros _. apply writes_only_lift_bind. intros parans Hp.
    discriminate Hp.
  - unfold SyntheticDiskLattice.jacobian.
    do 11 (apply writes_only_lift_bind; intros ? ?).
    apply writes_only_for_each. intros [u v].
    unfold SyntheticDiskLattice.jacobian_peak.
    do 3 (apply writes_only_lift_bind; intros ? ?).
    frame_steps (SyntheticDiskLattice.params self).
    apply writes_only_bind.
    + destruct (SyntheticDiskLattice.refine_radius self).
      * frame_steps (SyntheticDiskLattice.params self).
      * apply (writes_only_lift _ (Ok tt)).
    + intros _. destruct (SyntheticDiskLattice.refine_width self).
      * frame_steps (SyntheticDiskLattice.params self).
      * apply (writes_only_lift _ (Ok tt)).
  - apply (writes_only_lift _ (Ok tt)).
Qed.

Lemma jacobian_functions_write_own_columns_witness :
  List.length (fst (call_jacobian (jac_DCBackground example_dc) [0; 0; 1]
                      example_context (zero_jacobian 1 3))) = 3%nat.
Proof.
  exact (proj1 (jacobian_functions_write_own_columns
                  (jac_DCBackground example_dc) [0; 0; 1] example_context
                  (zero_jacobian 1 3) _ _ eq_refl)).
Defined.

(** ** Jacobian functions: what they add *)

Section JacobianEntries.

Import np.

Variables (npix ncols : nat).

Lemma nth_zip_with_plus (xs ys : list R) (p : nat) :
  List.length xs = List.length ys ->
  nth p (zip_with Rplus xs ys) 0 = nth p xs 0 + nth p ys 0.
Proof.
  revert ys p; induction xs as [|a xs IH]; intros [|b ys] [|p] H;
    simpl in *; try discriminate; try lra.
  apply IH. lia.
Qed.

Lemma nth_update_nth (i c : nat) (f : list R -> list R)
    (J : jacobian_array) :
  nth c (update_nth i f J) []
  = if Nat.eqb c i && Nat.ltb c (List.length J) then f (nth c J [])
    else nth c J [].
Proof.
  revert i c; induction J as [|a J IH]; intros i c.
  - assert (H : Nat.ltb c 0 = false) by (apply Nat.ltb_ge; lia).
    cbn [List.length]. rewrite H, andb_false_r.
    destruct i, c; reflexivity.
  - destruct i as [|i], c as [|c]; cbn [update_nth nth]; try reflexivity.
    rewrite IH. reflexivity.
Qed.

Lemma jac_shape_column (J : jacobian_array) (c : nat) :
  jac_shape npix ncols J -> (c < ncols)%nat ->
  exists column, nth_error J c = Some column
                 /\ nth c J [] = column /\ List.length column = npix.
Proof.
  intros [Hn Hall] Hc.
  destruct (nth_error J c) as [column|] eqn:E.
  - exists column. split; [reflexivity|]. split.
    + apply nth_error_nth with (d := []) in E. exact E.
    + rewrite Forall_forall in Hall. apply Hall.
      eapply nth_error_In; eassumption.
  - apply nth_error_None in E. lia.
Qed.

Lemma adds_iadd_column (col : nat) (values : list R) :
  (col < ncols)%nat -> List.length values = npix ->
  adds_entries npix ncols (iadd_column col (Ok values))
               (one_column col values).
Proof.
  intros Hcol Hlen J HJ.
  destruct (jac_shape_column J col HJ Hcol) as (column & Hn & Hnth & Hl).
  unfold iadd_column. rewrite Hn, Hlen, Hl, Nat.eqb_refl.
  eexists. split; [reflexivity|]. split.
  - destruct HJ as [Hm Hall]. split; [rewrite update_nth_length; exact Hm|].
    apply Forall_forall. intros column' Hin.
    apply In_nth_error in Hin as [c Hc].
    rewrite nth_error_update_nth in Hc.
    rewrite Forall_forall in Hall.
    destruct (Nat.eqb c col).
    + destruct (nth_error J c) as [c0|] eqn:E0; [|discriminate].
      simpl in Hc. injection Hc as <-. rewrite zip_with_length, Hlen.
      rewrite (Hall c0) by (eapply nth_error_In; eassumption). lia.
    + apply Hall. eapply nth_error_In; eassumption.
  - intros c p. unfold col_entry, one_column. rewrite nth_update_nth.
    destruct (Nat.eqb_spec c col) as [->|Hne]; simpl.
    + destruct HJ as [Hm _].
      assert (Hlt : Nat.ltb col (List.length J) = true)
        by (apply Nat.ltb_lt; lia).
      rewrite Hlt, Hnth. apply nth_zip_with_plus. congruence.
    + lra.
Qed.

Lemma adds_ret : adds_entries npix ncols (ret tt) (fun _ _ => 0).
Proof.
  intros J HJ. exists J. split; [reflexivity|]. split; [exact HJ|].
  intros c p. lra.
Qed.

Lemma adds_bind (m k : inplace jacobian_array unit)
    (d1 d2 : nat -> nat -> R) :
  adds_entries npix ncols m d1 -> adds_entries npix ncols k d2 ->
  adds_entries npix ncols (bind m (fun _ => k))
               (fun c p => d1 c p + d2 c p).
Proof.
  intros Hm Hk J HJ.
  destruct (Hm J HJ) as (J1 & E1 & HJ1 & Hd1).
  destruct (Hk J1 HJ1) as (J2 & E2 & HJ2 & Hd2).
  exists J2. unfold bind. rewrite E1. split; [exact E2|].
  split; [exact HJ2|]. intros c p. rewrite Hd2, Hd1. ring.
Qed.

Lemma adds_ext (m : inplace jacobian_array unit) (d d' : nat -> nat -> R) :
  (forall c p, d c p = d' c p) ->
  adds_entries npix ncols m d -> adds_entries npix ncols m d'.
Proof.
  intros Hext Hm J HJ. destruct (Hm J HJ) as (J' & E & HJ' & Hd).
  exists J'. split; [exact E|]. split; [exact HJ'|].
  intros c p. rewrite Hd, Hext. reflexivity.
Qed.

Lemma adds_for_each {A} (items : list A)
    (body : A -> inplace jacobian_array unit) (d : A -> nat -> nat -> R) :
  (forall a, In a items -> adds_entries npix ncols (body a) (d a)) ->
  adds_entries npix ncols (for_each items body)
               (fun c p => Rsum (map (fun a => d a c p) items)).
Proof.
  induction items as [|a items IH]; intros Hb.
  - apply adds_ret.
  - cbn [for_each]. eapply adds_ext; [|apply adds_bind].
    + intros c p. cbn [map Rsum fold_right]. reflexivity.
    + apply Hb. left. reflexivity.
    + apply IH. intros a' Ha'. apply Hb. right. exact Ha'.
Qed.

Lemma adds_lift_ok {A} (a : A) (k : A -> inplace jacobian_array unit)
    (d : nat -> nat -> R) :
  adds_entries npix ncols (k a) d ->
  adds_entries npix ncols (bind (lift (Ok a)) k) d.
Proof. intros H. exact H. Qed.

End JacobianEntries.

(** ** The constant background *)

Lemma update_nth_const_twice (c : nat) (v : R) (J : np.jacobian_array) :
  np.update_nth c (map (fun _ => v)) (np.update_nth c (map (fun _ => v)) J)
  = np.update_nth c (map (fun _ => v)) J.
Proof.
  revert c; induction J as [|a J IH]; intros [|c]; simpl; auto.
  - rewrite map_map. reflexivity.
  - rewrite IH. reflexivity.
Qed.

(** X9: the constant background adds its level to every pixel, and its
    Jacobian function overwrites its own column with ones instead of
    accumulating into it.  With the level readable, the forward function
    returns normally and every pixel has grown by exactly the level; with
    the column in range, the Jacobian function returns normally, the column
    is 1 at every pixel whatever it held, the other columns are unchanged,
    and a second call changes nothing. *)
Theorem DCBackground_level_and_ones (self : WPFModelPrototype.t)
    (x : list R) (kwargs : static_data) (level : R) (c npix ncols : nat) :
  param_value (WPFModelPrototype.params self) x "DC Level" = Ok level ->
  column_of (WPFModelPrototype.params self) "DC Level" = Ok c ->
  (c < ncols)%nat ->
  (forall DP, exists DP',
      DCBackground.func self x kwargs DP = (DP', Ok tt)
      /\ shape DP' = shape DP
      /\ List.length (ravel DP') = List.length (ravel DP)
      /\ forall p d, nth_error (ravel DP) p = Some d ->
                     nth_error (ravel DP') p = Some (d + level))
  /\ (forall J, jac_shape npix ncols J -> exists J',
      DCBackground.jacobian self x kwargs J = (J', Ok tt)
      /\ jac_shape npix ncols J'
      /\ (forall p, (p < npix)%nat -> col_entry J' c p = 1)
      /\ (forall c' p, c' <> c -> col_entry J' c' p = col_entry J c' p)
      /\ DCBackground.jacobian self x kwargs J' = (J', Ok tt)).
Proof.
  intros Hlevel Hcol Hc. split.
  - intros DP. unfold DCBackground.func. rewrite bind_lift, Hlevel.
    eexists. split; [reflexivity|]. cbn [np.amap shape ravel].
    split; [reflexivity|]. split; [apply length_map|].
    intros p d Hd. rewrite nth_error_map, Hd. reflexivity.
  - intros J HJ. unfold DCBackground.jacobian. rewrite bind_lift, Hcol.
    destruct (jac_shape_column npix ncols J c HJ Hc)
      as (column & Hn & Hnth & Hl).
    unfold np.set_column. rewrite Hn.
    eexists. split; [reflexivity|].
    assert (Hlt : Nat.ltb c (List.length J) = true)
      by (destruct HJ as [Hm _]; apply Nat.ltb_lt; lia).
    split; [|split; [|split]].
    + destruct HJ as [Hm Hall]. split; [rewrite update_nth_length; exact Hm|].
      apply Forall_forall. intros column' Hin.
      apply In_nth_error in Hin as [c' Hc'].
      rewrite nth_error_update_nth in Hc'. rewrite Forall_forall in Hall.
      destruct (Nat.eqb c' c).
      * destruct (nth_error J c') as [c0|] eqn:E0; [|discriminate].
        simpl in Hc'. injection Hc' as <-. rewrite length_map.
        apply Hall. eapply nth_error_In; eassumption.
      * apply Hall. eapply nth_error_In; eassumption.
    + intros p Hp. unfold col_entry. rewrite nth_update_nth, Nat.eqb_refl, Hlt.
      cbn [andb]. rewrite Hnth.
      rewrite (nth_indep _ 0 ((fun _ => 1) 0)) by (rewrite length_map; lia).
      exact (map_nth (fun _ : R => 1) column 0 p).
    + intros c' p Hne. unfold col_entry. rewrite nth_update_nth.
      destruct (Nat.eqb_spec c' c); [contradiction|reflexivity].
    + rewrite bind_lift. cbv beta iota.
      rewrite nth_error_update_nth, Nat.eqb_refl, Hn. cbn [option_map].
      rewrite update_nth_const_twice. reflexivity.
Qed.

Lemma DCBackground_level_and_ones_witness :
  exists DP',
    DCBackground.func example_dc [0; 0; 1] example_context (one_pixel 0)
    = (DP', Ok tt)
    /\ shape DP' = (1, 1)%nat.
Proof.
  destruct (proj1 (DCBackground_level_and_ones example_dc [0; 0; 1]
                     example_context 1 2 1 3 eq_refl eq_refl
                     (le_n 3)) (one_pixel 0)) as (DP' & E & Hs & _).
  exists DP'. split; [exact E|exact Hs].
Defined.

(** ** Derivatives of functions written as terms *)

Section Derivation.

Variables (f g : R -> R) (x l1 l2 : R).

Lemma dlim_const (c : R) : derivable_pt_lim (fun _ => c) x 0.
Proof. exact (derivable_pt_lim_const c x). Qed.

Lemma dlim_id : derivable_pt_lim (fun t => t) x 1.
Proof. exact (derivable_pt_lim_id x). Qed.

Lemma dlim_plus :
  derivable_pt_lim f x l1 -> derivable_pt_lim g x l2 ->
  derivable_pt_lim (fun t => f t + g t) x (l1 + l2).
Proof. exact (derivable_pt_lim_plus f g x l1 l2). Qed.

Lemma dlim_minus :
  derivable_pt_lim f x l1 -> derivable_pt_lim g x l2 ->
  derivable_pt_lim (fun t => f t - g t) x (l1 - l2).
Proof. exact (derivable_pt_lim_minus f g x l1 l2). Qed.

Lemma dlim_mult :
  derivable_pt_lim f x l1 -> derivable_pt_lim g x l2 ->
  derivable_pt_lim (fun t => f t * g t) x (l1 * g x + f x * l2).
Proof. exact (derivable_pt_lim_mult f g x l1 l2). Qed.

Lemma dlim_div :
  derivable_pt_lim f x l1 -> derivable_pt_lim g x l2 -> g x <> 0 ->
  derivable_pt_lim (fun t => f t / g t) x
                   ((l1 * g x - l2 * f x) / Rsqr (g x)).
Proof. exact (derivable_pt_lim_div f g x l1 l2). Qed.

Lemma dlim_exp :
  derivable_pt_lim f x l1 ->
  derivable_pt_lim (fun t => exp (f t)) x (exp (f x) * l1).
Proof.
  intros H.
  exact (derivable_pt_lim_comp f exp x l1 (exp (f x)) H
           (derivable_pt_lim_exp (f x))).
Qed.

Lemma dlim_pow (n : nat) :
  derivable_pt_lim f x l1 ->
  derivable_pt_lim (fun t => f t ^ n) x (INR n * f x ^ pred n * l1).
Proof.
  intros H.
  exact (derivable_pt_lim_comp f (fun y => y ^ n) x l1 _ H
           (derivable_pt_lim_pow (f x) n)).
Qed.

Lemma dlim_opp :
  derivable_pt_lim f x l1 -> derivable_pt_lim (fun t => - f t) x (- l1).
Proof. exact (derivable_pt_lim_opp f x l1). Qed.

Lemma dlim_eq (l : R) :
  derivable_pt_lim f x l1 -> l1 = l -> derivable_pt_lim f x l.
Proof. intros H <-. exact H. Qed.

End Derivation.

(** Differentiate a term built from constants, the variable, sums,
    differences, products, quotients, powers and the exponential. *)
Ltac differentiate :=
  repeat first
    [ apply dlim_const
    | apply dlim_id
    | apply dlim_exp
    | apply dlim_pow
    | apply dlim_div
    | apply dlim_minus
    | apply dlim_opp
    | apply dlim_plus
    | apply dlim_mult ].

Lemma distance_sq (X Y cx cy : R) :
  distance X Y cx cy ^ 2 = (X - cx) ^ 2 + (Y - cy) ^ 2.
Proof.
  unfold distance. apply pow2_sqrt.
  pose proof (pow2_ge_0 (X - cx)). pose proof (pow2_ge_0 (Y - cy)). lra.
Qed.

(** ** The Gaussian background *)

(** X10: the constructor of the Gaussian background registers sigma,
    intensity, x center and y center, in this order.  With a shared centre
    the two centre entries are the engine's own centre Parameters, and
    construction raises the KeyError of a centre the engine lacks; with a
    local centre they are fresh Parameters built from x0 and y0. *)
Theorem GaussianBackground_init_center
    (wpf : WPF) (sigma intensity x0 y0 : init_arg) (global_center : bool)
    (name : string) :
  let globals := WPFModelPrototype.params (coordinate_model wpf) in
  (forall self,
      GaussianBackground.__init__ wpf sigma intensity global_center x0 y0 name
      = Ok self ->
      let params := WPFModelPrototype.params self in
      keys params = ["sigma"; "intensity"; "x center"; "y center"]%string
      /\ WPFModelPrototype.nParams self = 4%nat
      /\ WPFModelPrototype.hasJacobian self = true
      /\ WPFModelPrototype.model_type self = BACKGROUND
      /\ getitem params "x center"
         = (if global_center then getitem globals "x center"
            else Param.__init__ x0 None None)
      /\ getitem params "y center"
         = (if global_center then getitem globals "y center"
            else Param.__init__ y0 None None))
  /\ (forall ps pi e,
         Param.__init__ sigma None None = Ok ps ->
         Param.__init__ intensity None None = Ok pi ->
         global_center = true ->
         getitem globals "x center" = Raise e ->
         GaussianBackground.__init__ wpf sigma intensity global_center
           x0 y0 name = Raise e).
Proof.
  intros globals. split.
  - intros self. unfold GaussianBackground.__init__, rbind. fold globals.
    destruct (Param.__init__ sigma None None) as [ps|]; [|discriminate].
    destruct (Param.__init__ intensity None None) as [pi|]; [|discriminate].
    destruct global_center.
    + destruct (getitem globals "x center") as [xc|]; [|discriminate].
      destruct (getitem globals "y center") as [yc|]; [|discriminate].
      intros H; injection H as <-. repeat split.
    + destruct (Param.__init__ x0 None None) as [xc|]; [|discriminate].
      destruct (Param.__init__ y0 None None) as [yc|]; [|discriminate].
      intros H; injection H as <-. repeat split.
  - intros ps pi e Hs Hi -> He. unfold GaussianBackground.__init__, rbind.
    fold globals. rewrite Hs, Hi, He. reflexivity.
Qed.

Lemma GaussianBackground_init_center_witness :
  exists self,
    GaussianBackground.__init__ example_engine (Num 2) (Num 1) true
      (Num 0) (Num 0) "Gaussian Background" = Ok self
    /\ keys (WPFModelPrototype.params self)
       = ["sigma"; "intensity"; "x center"; "y center"]%string.
Proof.
  eexists. split; [reflexivity|].
  exact (proj1 (proj1 (GaussianBackground_init_center example_engine
                         (Num 2) (Num 1) (Num 0) (Num 0) true
                         "Gaussian Background") _ eq_refl)).
Defined.

Section GaussianBackgroundRun.

Import np.

Variables (self : WPFModelPrototype.t) (x : list R) (kwargs : static_data).
Variables (sigma level x0 y0 : R) (xc yc : Param.t).

Let params := WPFModelPrototype.params self.

Hypothesis Hsigma : param_value params x "sigma" = Ok sigma.
Hypothesis Hlevel : param_value params x "intensity" = Ok level.
Hypothesis Hxc : getitem params "x center" = Ok xc.
Hypothesis Hyc : getitem params "y center" = Ok yc.
Hypothesis Hx0 : value_at x xc = Ok x0.
Hypothesis Hy0 : value_at x yc = Ok y0.
Hypothesis Hshape : shape (xArray kwargs) = shape (yArray kwargs).

Lemma gaussian_distance :
  _get_distance kwargs x xc yc
  = Ok (mk_ndarray (shape (xArray kwargs))
          (zip_with (fun X Y => distance X Y x0 y0)
                    (ravel (xArray kwargs)) (ravel (yArray kwargs)))).
Proof.
  unfold _get_distance. rewrite Hx0, Hy0. cbn [rbind]. unfold azip.
  rewrite (shape_eqb_eq _ _ Hshape). reflexivity.
Qed.

Lemma gaussian_func_run (DP : ndarray R) :
  shape DP = shape (xArray kwargs) ->
  GaussianBackground.func self x kwargs DP
  = (padd DP (zip_with (fun X Y => gaussian_pixel sigma level x0 y0 X Y)
                       (ravel (xArray kwargs)) (ravel (yArray kwargs))),
     Ok tt).
Proof.
  intros HDP. unfold GaussianBackground.func. fold params.
  rewrite bind_lift, Hsigma, bind_lift, Hlevel, bind_lift, Hxc, bind_lift, Hyc,
    bind_lift, gaussian_distance.
  unfold iadd, azip. cbn [amap shape ravel].
  rewrite (shape_eqb_eq _ _ HDP). unfold padd. do 2 f_equal.
  f_equal. clear. generalize (ravel (yArray kwargs)).
  induction (ravel (xArray kwargs)) as [|X xs IH]; intros [|Y ys]; simpl;
    try reflexivity.
  rewrite IH. reflexivity.
Qed.

Variables (npix ncols cx cy cs ci : nat).

Hypothesis Hcx : column_of params "x center" = Ok cx.
Hypothesis Hcy : column_of params "y center" = Ok cy.
Hypothesis Hcs : column_of params "sigma" = Ok cs.
Hypothesis Hci : column_of params "intensity" = Ok ci.
Hypothesis Hcols : (cx < ncols /\ cy < ncols /\ cs < ncols /\ ci < ncols)%nat.
Hypothesis Hxs : List.length (ravel (xArray kwargs)) = npix.
Hypothesis Hys : List.length (ravel (yArray kwargs)) = npix.

Let xs := ravel (xArray kwargs).
Let ys := ravel (yArray kwargs).
Let rs := zip_with (fun X Y => distance X Y x0 y0) xs ys.
Let es := map (fun r => exp (r ^ 2 / (-2 * sigma ^ 2))) rs.

Lemma azip_ok {A B C} (f : A -> B -> C) (a : ndarray A) (b : ndarray B) :
  shape a = shape b ->
  azip f a b = Ok (mk_ndarray (shape a) (zip_with f (ravel a) (ravel b))).
Proof. intros H. unfold azip. rewrite (shape_eqb_eq _ _ H). reflexivity. Qed.

Lemma adds_lift_bind {A} (r : result A) (a : A)
    (k : A -> inplace jacobian_array unit) (d : nat -> nat -> R) :
  r = Ok a -> adds_entries npix ncols (k a) d ->
  adds_entries npix ncols (bind (lift r) k) d.
Proof. intros ->. apply adds_lift_ok. Qed.

Lemma gaussian_jacobian_adds :
  adds_entries npix ncols (GaussianBackground.jacobian self x kwargs)
    (fun c p =>
       one_column cx (zip_with (fun X e => level * (X - x0) * e / sigma ^ 2)
                               xs es) c p
       + (one_column cy (zip_with (fun Y e => level * (Y - y0) * e / sigma ^ 2)
                                  ys es) c p
          + (one_column cs (map (fun r => level * r ^ 2
                                          * exp (r ^ 2 / (-2 * sigma ^ 2))
                                          / sigma ^ 3) rs) c p
             + one_column ci es c p))).
Proof.
  destruct Hcols as (Hx & Hy & Hs & Hi).
  assert (Hrs : List.length rs = npix)
    by (unfold rs, xs, ys; rewrite zip_with_length, Hxs, Hys; apply Nat.min_id).
  assert (Hes : List.length es = npix)
    by (unfold es; rewrite length_map; exact Hrs).
  unfold GaussianBackground.jacobian. fold params. cbv zeta.
  eapply adds_lift_bind; [exact Hsigma|].
  eapply adds_lift_bind; [exact Hlevel|].
  eapply adds_lift_bind;
    [unfold param_value; rewrite Hxc; exact Hx0|].
  eapply adds_lift_bind;
    [unfold param_value; rewrite Hyc; exact Hy0|].
  eapply adds_lift_bind; [exact Hxc|].
  eapply adds_lift_bind; [exact Hyc|].
  eapply adds_lift_bind; [apply gaussian_distance|].
  eapply adds_lift_bind; [exact Hcx|].
  cbn [amap shape ravel].
  rewrite (azip_ok _ (xArray kwargs)) by reflexivity.
  rewrite (azip_ok _ (yArray kwargs)) by (symmetry; exact Hshape).
  cbn [flat ravel].
  apply adds_bind.
  { apply adds_iadd_column; [exact Hx|].
    fold xs ys rs es. rewrite zip_with_length. fold xs in Hxs. lia. }
  eapply adds_lift_bind; [exact Hcy|].
  apply adds_bind.
  { apply adds_iadd_column; [exact Hy|].
    fold xs ys rs es. rewrite zip_with_length. fold ys in Hys. lia. }
  eapply adds_lift_bind; [exact Hcs|].
  apply adds_bind.
  { apply adds_iadd_column; [exact Hs|]. rewrite length_map. exact Hrs. }
  eapply adds_lift_bind; [exact Hci|].
  apply adds_iadd_column; [exact Hi|exact Hes].
Qed.

End GaussianBackgroundRun.

Lemma pow2_pos (s : R) : s <> 0 -> 0 < s ^ 2.
Proof.
  intros Hs. rewrite <- Rsqr_pow2. apply Rsqr_pos_lt. exact Hs.
Qed.

Lemma gaussian_pixel_bounds (sigma level x0 y0 X Y : R) :
  sigma <> 0 -> 0 <= level ->
  0 <= gaussian_pixel sigma level x0 y0 X Y <= level.
Proof.
  intros Hs Hl. unfold gaussian_pixel. rewrite distance_sq.
  set (q := ((X - x0) ^ 2 + (Y - y0) ^ 2) / (-2 * sigma ^ 2)).
  assert (Hq : q <= 0).
  { unfold q, Rdiv.
    pose proof (pow2_ge_0 (X - x0)). pose proof (pow2_ge_0 (Y - y0)).
    assert (Hneg : / (-2 * sigma ^ 2) < 0).
    { apply Rinv_lt_0_compat. pose proof (pow2_pos sigma Hs). lra. }
    nra. }
  pose proof (exp_pos q) as Hpos.
  assert (Hle : exp q <= 1).
  { destruct (Rle_lt_or_eq_dec _ _ Hq) as [Hlt| ->].
    - left. rewrite <- exp_0. apply exp_increasing. exact Hlt.
    - rewrite exp_0. lra. }
  nra.
Qed.

(** X11: with sigma, intensity and the centre readable, a non-zero sigma
    and the meshes and the accumulator of one shape, the forward function
    of the Gaussian background returns normally and adds
    level * exp(r^2 / (-2 sigma^2)) at every pixel, r being the distance
    from the centre.  The pixel at the centre gains exactly the level, and
    for a non-negative level every pixel gains between 0 and the level. *)
Theorem GaussianBackground_func_adds_gaussian
    (self : WPFModelPrototype.t) (x : list R) (kwargs : static_data)
    (DP : ndarray R) (sigma level x0 y0 : R) (xc yc : Param.t) :
  let params := WPFModelPrototype.params self in
  param_value params x "sigma" = Ok sigma ->
  param_value params x "intensity" = Ok level ->
  getitem params "x center" = Ok xc -> getitem params "y center" = Ok yc ->
  value_at x xc = Ok x0 -> value_at x yc = Ok y0 ->
  shape (xArray kwargs) = shape (yArray kwargs) ->
  shape DP = shape (xArray kwargs) ->
  sigma <> 0 ->
  exists DP',
    GaussianBackground.func self x kwargs DP = (DP', Ok tt)
    /\ shape DP' = shape DP
    /\ (forall p X Y d,
          nth_error (ravel (xArray kwargs)) p = Some X ->
          nth_error (ravel (yArray kwargs)) p = Some Y ->
          nth_error (ravel DP) p = Some d ->
          exists gain,
            nth_error (ravel DP') p = Some (d + gain)
            /\ gain = level * exp (((X - x0) ^ 2 + (Y - y0) ^ 2)
                                   / (-2 * sigma ^ 2))
            /\ (X = x0 -> Y = y0 -> gain = level)
            /\ (0 <= level -> 0 <= gain <= level)).
Proof.
  intros params Hs Hl Hxc Hyc Hx0 Hy0 Hshape HDP Hsigma.
  rewrite (gaussian_func_run self x kwargs sigma level x0 y0 xc yc
             Hs Hl Hxc Hyc Hx0 Hy0 Hshape DP HDP).
  eexists. split; [reflexivity|]. split; [reflexivity|].
  intros p X Y d HX HY Hd.
  exists (gaussian_pixel sigma level x0 y0 X Y). split; [|split; [|split]].
  - unfold padd. cbn [ravel]. apply nth_error_zip_with; [exact Hd|].
    apply (nth_error_zip_with
             (fun X Y => gaussian_pixel sigma level x0 y0 X Y)); assumption.
  - unfold gaussian_pixel. rewrite distance_sq. reflexivity.
  - intros -> ->. unfold gaussian_pixel. rewrite distance_sq.
    replace (((x0 - x0) ^ 2 + (y0 - y0) ^ 2) / (-2 * sigma ^ 2)) with 0
      by (unfold Rdiv; ring).
    rewrite exp_0. ring.
  - apply gaussian_pixel_bounds. exact Hsigma.
Qed.

Lemma GaussianBackground_func_adds_gaussian_witness :
  exists DP',
    GaussianBackground.func example_gaussian [0; 0; 2; 1] example_context
      (one_pixel 0) = (DP', Ok tt)
    /\ nth_error (ravel DP') 0 = Some (0 + 1).
Proof.
  destruct (GaussianBackground_func_adds_gaussian example_gaussian
              [0; 0; 2; 1] example_context (one_pixel 0) 2 1 0 0
              (Param.mk 0 NegInf PosInf (Some 0%nat))
              (Param.mk 0 NegInf PosInf (Some 1%nat))
              eq_refl eq_refl eq_refl eq_refl eq_refl eq_refl eq_refl eq_refl)
    as (DP' & Hrun & _ & Hpix); [lra|].
  exists DP'. split; [exact Hrun|].
  destruct (Hpix 0%nat 0 0 0 eq_refl eq_refl eq_refl)
    as (gain & Hnth & _ & Hcentre & _).
  rewrite Hnth. f_equal. f_equal. apply Hcentre; reflexivity.
Defined.

Section GaussianGradient.

Variables (sigma level x0 y0 X Y : R).
Hypothesis Hsigma : sigma <> 0.

Let e := exp (distance X Y x0 y0 ^ 2 / (-2 * sigma ^ 2)).

Lemma gaussian_scale_nonzero : -2 * sigma ^ 2 <> 0.
Proof. pose proof (pow2_pos sigma Hsigma). lra. Qed.

Lemma gaussian_d_x0 :
  derivable_pt_lim (fun t => gaussian_pixel sigma level t y0 X Y) x0
                   (level * (X - x0) * e / sigma ^ 2).
Proof.
  apply (derivable_pt_lim_ext
           (fun t => level * exp (((X - t) ^ 2 + (Y - y0) ^ 2)
                                  / (-2 * sigma ^ 2)))).
  { intros t. unfold gaussian_pixel. rewrite distance_sq. reflexivity. }
  eapply dlim_eq.
  - differentiate. apply gaussian_scale_nonzero.
  - unfold e. rewrite distance_sq. unfold Rsqr. simpl. field. exact Hsigma.
Qed.

Lemma gaussian_d_y0 :
  derivable_pt_lim (fun t => gaussian_pixel sigma level x0 t X Y) y0
                   (level * (Y - y0) * e / sigma ^ 2).
Proof.
  apply (derivable_pt_lim_ext
           (fun t => level * exp (((X - x0) ^ 2 + (Y - t) ^ 2)
                                  / (-2 * sigma ^ 2)))).
  { intros t. unfold gaussian_pixel. rewrite distance_sq. reflexivity. }
  eapply dlim_eq.
  - differentiate. apply gaussian_scale_nonzero.
  - unfold e. rewrite distance_sq. unfold Rsqr. simpl. field. exact Hsigma.
Qed.

Lemma gaussian_d_sigma :
  derivable_pt_lim (fun t => gaussian_pixel t level x0 y0 X Y) sigma
                   (level * distance X Y x0 y0 ^ 2 * e / sigma ^ 3).
Proof.
  unfold gaussian_pixel. eapply dlim_eq.
  - differentiate. apply gaussian_scale_nonzero.
  - unfold e, Rsqr. simpl. field. exact Hsigma.
Qed.

Lemma gaussian_d_level :
  derivable_pt_lim (fun t => gaussian_pixel sigma t x0 y0 X Y) level e.
Proof.
  unfold gaussian_pixel. eapply dlim_eq.
  - differentiate.
  - unfold e. ring.
Qed.

End GaussianGradient.

Lemma nth_zip_with_at {A B} (f : A -> B -> R) xs ys p a b :
  nth_error xs p = Some a -> nth_error ys p = Some b ->
  nth p (np.zip_with f xs ys) 0 = f a b.
Proof.
  intros Ha Hb. apply nth_error_nth.
  apply nth_error_zip_with; assumption.
Qed.

Lemma one_column_same (col : nat) (values : list R) (p : nat) :
  one_column col values col p = nth p values 0.
Proof. unfold one_column. rewrite Nat.eqb_refl. reflexivity. Qed.

Lemma one_column_other (col c : nat) (values : list R) (p : nat) :
  c <> col -> one_column col values c p = 0.
Proof.
  intros H. unfold one_column.
  destruct (Nat.eqb_spec c col); [contradiction|reflexivity].
Qed.

(** X12: the analytic Jacobian of the Gaussian background is the gradient of
    its forward function.  With the four parameters readable at pairwise
    distinct columns of the Jacobian, a non-zero sigma and meshes of the
    Jacobian's height, the forward function adds [gaussian_pixel] at every
    pixel, the Jacobian function returns normally, and at every pixel what
    it has added to the columns of the x centre, the y centre, sigma and the
    intensity is the partial derivative of that pixel value with respect to
    that parameter. *)
Theorem GaussianBackground_jacobian_is_gradient
    (self : WPFModelPrototype.t) (x : list R) (kwargs : static_data)
    (sigma level x0 y0 : R) (xc yc : Param.t)
    (npix ncols cx cy cs ci : nat) (J : np.jacobian_array) :
  let params := WPFModelPrototype.params self in
  param_value params x "sigma" = Ok sigma ->
  param_value params x "intensity" = Ok level ->
  getitem params "x center" = Ok xc -> getitem params "y center" = Ok yc ->
  value_at x xc = Ok x0 -> value_at x yc = Ok y0 ->
  shape (xArray kwargs) = shape (yArray kwargs) ->
  column_of params "x center" = Ok cx ->
  column_of params "y center" = Ok cy ->
  column_of params "sigma" = Ok cs ->
  column_of params "intensity" = Ok ci ->
  (cx < ncols /\ cy < ncols /\ cs < ncols /\ ci < ncols)%nat ->
  NoDup [cx; cy; cs; ci] ->
  List.length (ravel (xArray kwargs)) = npix ->
  List.length (ravel (yArray kwargs)) = npix ->
  sigma <> 0 ->
  jac_shape npix ncols J ->
  (forall DP, shape DP = shape (xArray kwargs) ->
      GaussianBackground.func self x kwargs DP
      = (padd DP (np.zip_with (gaussian_pixel sigma level x0 y0)
                    (ravel (xArray kwargs)) (ravel (yArray kwargs))), Ok tt))
  /\ exists J',
    GaussianBackground.jacobian self x kwargs J = (J', Ok tt)
    /\ jac_shape npix ncols J'
    /\ forall p X Y,
        nth_error (ravel (xArray kwargs)) p = Some X ->
        nth_error (ravel (yArray kwargs)) p = Some Y ->
        derivable_pt_lim (fun t => gaussian_pixel sigma level t y0 X Y) x0
                         (col_entry J' cx p - col_entry J cx p)
        /\ derivable_pt_lim (fun t => gaussian_pixel sigma level x0 t X Y) y0
                            (col_entry J' cy p - col_entry J cy p)
        /\ derivable_pt_lim (fun t => gaussian_pixel t level x0 y0 X Y) sigma
                            (col_entry J' cs p - col_entry J cs p)
        /\ derivable_pt_lim (fun t => gaussian_pixel sigma t x0 y0 X Y) level
                            (col_entry J' ci p - col_entry J ci p).
Proof.
  intros params Hs Hl Hxc Hyc Hx0 Hy0 Hshape Hcx Hcy Hcs Hci Hcols Hnd
         Hxs Hys Hsig HJ.
  split.
  { intros DP HDP.
    exact (gaussian_func_run self x kwargs sigma level x0 y0 xc yc
             Hs Hl Hxc Hyc Hx0 Hy0 Hshape DP HDP). }
  destruct (gaussian_jacobian_adds self x kwargs sigma level x0 y0 xc yc
              Hs Hl Hxc Hyc Hx0 Hy0 Hshape npix ncols cx cy cs ci
              Hcx Hcy Hcs Hci Hcols Hxs Hys J HJ) as (J' & E & HJ' & Hd).
  exists J'. split; [exact E|]. split; [exact HJ'|].
  intros p X Y HX HY.
  assert (Hne : cx <> cy /\ cx <> cs /\ cx <> ci /\ cy <> cs /\ cy <> ci
                /\ cs <> ci).
  { inversion Hnd as [|? ? H1 Hnd1]; subst.
    inversion Hnd1 as [|? ? H2 Hnd2]; subst.
    inversion Hnd2 as [|? ? H3 _]; subst.
    cbn [In] in H1, H2, H3. repeat split; intros ->; tauto. }
  destruct Hne as (N1 & N2 & N3 & N4 & N5 & N6).
  assert (Hr : nth_error (np.zip_with (fun X Y => distance X Y x0 y0)
                            (ravel (xArray kwargs)) (ravel (yArray kwargs))) p
               = Some (distance X Y x0 y0))
    by (apply (nth_error_zip_with (fun X Y => distance X Y x0 y0));
        assumption).
  assert (He : nth_error (map (fun r => exp (r ^ 2 / (-2 * sigma ^ 2)))
                 (np.zip_with (fun X Y => distance X Y x0 y0)
                    (ravel (xArray kwargs)) (ravel (yArray kwargs)))) p
               = Some (exp (distance X Y x0 y0 ^ 2 / (-2 * sigma ^ 2))))
    by (rewrite nth_error_map, Hr; reflexivity).
  repeat split.
  - rewrite Hd, one_column_same, !one_column_other by auto.
    rewrite (nth_zip_with_at _ _ _ p X _ HX He).
    eapply dlim_eq; [apply gaussian_d_x0; exact Hsig|ring].
  - rewrite Hd, one_column_same, !one_column_other by auto.
    rewrite (nth_zip_with_at _ _ _ p Y _ HY He).
    eapply dlim_eq; [apply gaussian_d_y0; exact Hsig|ring].
  - rewrite Hd, one_column_same, !one_column_other by auto.
    rewrite (nth_error_nth _ _ 0
               (eq_trans (nth_error_map _ _ _) (f_equal _ Hr))).
    eapply dlim_eq; [apply gaussian_d_sigma; exact Hsig|cbn [option_map]; ring].
  - rewrite Hd, one_column_same, !one_column_other by auto.
    rewrite (nth_error_nth _ _ 0 He).
    eapply dlim_eq; [apply gaussian_d_level|ring].
Qed.

Lemma GaussianBackground_jacobian_is_gradient_witness :
  exists J',
    GaussianBackground.jacobian example_gaussian [0; 0; 2; 1] example_context
      [[0]; [0]; [0]; [0]] = (J', Ok tt)
    /\ derivable_pt_lim (fun t => gaussian_pixel 2 t 0 0 0 0) 1
                        (col_entry J' 3 0 - 0).
Proof.
  destruct (GaussianBackground_jacobian_is_gradient example_gaussian
              [0; 0; 2; 1] example_context 2 1 0 0
              (Param.mk 0 NegInf PosInf (Some 0%nat))
              (Param.mk 0 NegInf PosInf (Some 1%nat))
              1 4 0 1 2 3 [[0]; [0]; [0]; [0]]
              eq_refl eq_refl eq_refl eq_refl eq_refl eq_refl eq_refl
              eq_refl eq_refl eq_refl eq_refl)
    as (_ & J' & Hrun & _ & Hgrad).
  - lia.
  - repeat constructor; cbn [In]; intuition discriminate.
  - reflexivity.
  - reflexivity.
  - lra.
  - split; [reflexivity|repeat constructor].
  - exists J'. split; [exact Hrun|].
    exact (proj2 (proj2 (proj2 (Hgrad 0%nat 0 0 eq_refl eq_refl)))).
Defined.

(** ** The Jacobian of the disk lattice *)

Lemma param_value_column (params : dict Param.t) (x : list R) (key : string)
    (v : R) :
  param_value params x key = Ok v ->
  column_of params key = Ok (offset_of params key)
  /\ (offset_of params key < List.length x)%nat
  /\ exists p, getitem params key = Ok p /\ value_at x p = Ok v
               /\ Param.offset p = Some (offset_of params key).
Proof.
  unfold param_value, offset_of, column_of, value_at, rbind.
  destruct (getitem params key) as [p|e]; [|discriminate].
  destruct (Param.offset p) as [i|] eqn:Ei; [|discriminate].
  unfold getindex. destruct (nth_error x i) as [a|] eqn:E; [|discriminate].
  intros H. split; [reflexivity|]. split.
  - apply nth_error_Some. congruence.
  - exists p. rewrite Ei. unfold getindex. rewrite E. auto.
Qed.

Section DiskLatticeJacobianRun.

Import np.

Variables (self : SyntheticDiskLattice.t) (x : list R) (sd : static_data).
Variables (x0 y0 ux uy vx vy radius width : R) (intensity : Z * Z -> R).
Variables (npix ncols : nat).

Let params := SyntheticDiskLattice.params self.
Let peaks := combine (SyntheticDiskLattice.u_inds self)
                     (SyntheticDiskLattice.v_inds self).

Hypothesis Hvalues :
  lattice_values self x x0 y0 ux uy vx vy radius width intensity.
Hypothesis Hx : List.length x = ncols.
Hypothesis Hshape : shape (xArray sd) = shape (yArray sd).
Hypothesis Hxs : List.length (ravel (xArray sd)) = npix.
Hypothesis Hys : List.length (ravel (yArray sd)) = npix.

Let xs := ravel (xArray sd).
Let ys := ravel (yArray sd).
Let rs := map (maximum (5 / 10))
              (zip_with (fun X Y => distance X Y x0 y0) xs ys).
Let pixels := zip_with pair (zip_with pair xs ys) rs.

Lemma lattice_pixels_length : List.length pixels = npix.
Proof.
  unfold pixels, rs. rewrite !zip_with_length, length_map, zip_with_length.
  fold xs in Hxs. fold ys in Hys. lia.
Qed.

Lemma lattice_coords_length : List.length (zip_with pair xs ys) = npix.
Proof.
  rewrite zip_with_length. fold xs in Hxs. fold ys in Hys. lia.
Qed.

Lemma lattice_pixel_at (p : nat) (X Y : R) :
  nth_error xs p = Some X -> nth_error ys p = Some Y ->
  nth_error (zip_with pair xs ys) p = Some (X, Y)
  /\ nth_error pixels p
     = Some (X, Y, maximum (5 / 10) (distance X Y x0 y0)).
Proof.
  intros HX HY.
  assert (Hc : nth_error (zip_with pair xs ys) p = Some (X, Y))
    by (apply nth_error_zip_with; assumption).
  split; [exact Hc|].
  unfold pixels. apply nth_error_zip_with; [exact Hc|].
  unfold rs. rewrite nth_error_map.
  rewrite (nth_error_zip_with (fun X Y => distance X Y x0 y0) xs ys p X Y HX HY).
  reflexivity.
Qed.

(** What one pass of the loop adds, column by column. *)
Let delta (uv : Z * Z) (c p : nat) : R :=
  let x_pos := fst (peak_center x0 y0 ux uy vx vy uv) in
  let y_pos := snd (peak_center x0 y0 ux uy vx vy uv) in
  let I := intensity uv in
  let dxs := map (fun px : R * R * R =>
                    SyntheticDiskLattice.dx I radius width x_pos y_pos
                      (fst (fst px)) (snd (fst px)) (snd px)) pixels in
  let dys := map (fun px : R * R * R =>
                    SyntheticDiskLattice.dy I radius width x_pos y_pos
                      (fst (fst px)) (snd (fst px)) (snd px)) pixels in
  one_column (offset_of params "x center") (map (fun d => I * d) dxs) c p
  + (one_column (offset_of params "y center") (map (fun d => I * d) dys) c p
  + (one_column (offset_of params "ux")
                (map (fun d => I * IZR (fst uv) * d) dxs) c p
  + (one_column (offset_of params "uy")
                (map (fun d => I * IZR (fst uv) * d) dys) c p
  + (one_column (offset_of params "vx")
                (map (fun d => I * IZR (snd uv) * d) dxs) c p
  + (one_column (offset_of params "vy")
                (map (fun d => I * IZR (snd uv) * d) dys) c p
  + (one_column (offset_of params (intensity_key (fst uv) (snd uv)))
                (map (fun c : R * R =>
                        SyntheticDiskLattice.dI radius width x_pos y_pos
                                                (fst c) (snd c))
                     (zip_with pair xs ys)) c p
  + ((if SyntheticDiskLattice.refine_radius self
      then one_column (offset_of params "disk radius")
             (map (fun c : R * R =>
                     SyntheticDiskLattice.dR I radius width x_pos y_pos
                                             (fst c) (snd c))
                  (zip_with pair xs ys)) c p
      else 0)
  + (if SyntheticDiskLattice.refine_width self
     then one_column (offset_of params "edge width")
            (map (fun c : R * R =>
                    SyntheticDiskLattice.dW I radius width x_pos y_pos
                                            (fst c) (snd c))
                 (zip_with pair xs ys)) c p
     else 0)))))))).

Lemma adds_column_of (key : string) (v : R) (values : list R)
    (k : inplace jacobian_array unit) (d : nat -> nat -> R) :
  param_value params x key = Ok v ->
  List.length values = npix ->
  adds_entries npix ncols k d ->
  adds_entries npix ncols
    (bind (lift (column_of params key))
          (fun col => bind (iadd_column col (Ok values)) (fun _ => k)))
    (fun c p => one_column (offset_of params key) values c p + d c p).
Proof.
  intros Hv Hl Hk.
  destruct (param_value_column params x key v Hv) as (Hc & Hlt & _).
  eapply adds_lift_bind; [exact Hc|].
  apply adds_bind; [|exact Hk].
  apply adds_iadd_column; [lia|exact Hl].
Qed.

Lemma adds_column_last (key : string) (v : R) (values : list R) :
  param_value params x key = Ok v ->
  List.length values = npix ->
  adds_entries npix ncols
    (bind (lift (column_of params key))
          (fun col => iadd_column col (Ok values)))
    (one_column (offset_of params key) values).
Proof.
  intros Hv Hl.
  destruct (param_value_column params x key v Hv) as (Hc & Hlt & _).
  eapply adds_lift_bind; [exact Hc|].
  apply adds_iadd_column; [lia|exact Hl].
Qed.

Lemma jacobian_peak_adds (r : ndarray R) (uv : Z * Z) :
  In uv peaks ->
  r = mk_ndarray (shape (xArray sd)) rs ->
  adds_entries npix ncols
    (SyntheticDiskLattice.jacobian_peak self x sd x0 y0 ux uy vx vy r
                                        radius width uv)
    (delta uv).
Proof.
  intros Hin ->. destruct uv as [u v].
  destruct Hvalues as (V1 & V2 & V3 & V4 & V5 & V6 & VR & VW & VI).
  fold params in V1, V2, V3, V4, V5, V6, VR, VW, VI. fold peaks in VI.
  pose proof lattice_pixels_length as Hpl.
  pose proof lattice_coords_length as Hcl.
  unfold SyntheticDiskLattice.jacobian_peak. fold params. cbv zeta.
  eapply adds_lift_bind; [exact (VI u v Hin)|].
  rewrite (azip_ok _ (xArray sd)) by exact Hshape.
  eapply adds_lift_bind; [reflexivity|].
  rewrite azip_ok by reflexivity.
  eapply adds_lift_bind; [reflexivity|].
  cbn [ravel shape]. fold xs ys pixels.
  unfold delta. cbn [fst snd peak_center].
  eapply adds_column_of; [exact V1|rewrite !length_map; exact Hpl|].
  eapply adds_column_of; [exact V2|rewrite !length_map; exact Hpl|].
  eapply adds_column_of; [exact V3|rewrite !length_map; exact Hpl|].
  eapply adds_column_of; [exact V4|rewrite !length_map; exact Hpl|].
  eapply adds_column_of; [exact V5|rewrite !length_map; exact Hpl|].
  eapply adds_column_of; [exact V6|rewrite !length_map; exact Hpl|].
  eapply adds_column_of;
    [exact (VI u v Hin)|rewrite !length_map; exact Hcl|].
  apply adds_bind.
  - destruct (SyntheticDiskLattice.refine_radius self).
    + eapply adds_column_last; [exact VR|rewrite !length_map; exact Hcl].
    + apply adds_ret.
  - destruct (SyntheticDiskLattice.refine_width self).
    + eapply adds_column_last; [exact VW|rewrite !length_map; exact Hcl].
    + apply adds_ret.
Qed.


Lemma one_column_at {A} (col : nat) (f : A -> R) (items : list A)
    (c p : nat) (a : A) :
  nth_error items p = Some a ->
  one_column col (map f items) c p = pick c col (f a).
Proof.
  intros H. unfold one_column, pick. destruct (Nat.eqb c col); [|reflexivity].
  apply nth_error_nth. rewrite nth_error_map, H. reflexivity.
Qed.

Lemma delta_at_pixel (uv : Z * Z) (c p : nat) (X Y : R) :
  nth_error xs p = Some X -> nth_error ys p = Some Y ->
  delta uv c p
  = jacobian_peak_entry self x0 y0 ux uy vx vy radius width intensity
                        X Y uv c.
Proof.
  intros HX HY. destruct (lattice_pixel_at p X Y HX HY) as [Hc Hp].
  unfold delta, jacobian_peak_entry. cbv zeta. fold params.
  rewrite !map_map.
  rewrite !(one_column_at _ _ pixels c p _ Hp).
  rewrite (one_column_at _ _ (zip_with pair xs ys) c p _ Hc).
  cbn [fst snd]. do 7 f_equal.
  f_equal.
  - destruct (SyntheticDiskLattice.refine_radius self); [|reflexivity].
    rewrite (one_column_at _ _ (zip_with pair xs ys) c p _ Hc). reflexivity.
  - destruct (SyntheticDiskLattice.refine_width self); [|reflexivity].
    rewrite (one_column_at _ _ (zip_with pair xs ys) c p _ Hc). reflexivity.
Qed.

Lemma disk_lattice_jacobian_run (J : jacobian_array) :
  jac_shape npix ncols J ->
  exists J',
    SyntheticDiskLattice.jacobian self x sd J = (J', Ok tt)
    /\ jac_shape npix ncols J'
    /\ forall c p X Y,
        nth_error xs p = Some X -> nth_error ys p = Some Y ->
        col_entry J' c p
        = col_entry J c p
          + Rsum (map (fun uv =>
                         jacobian_peak_entry self x0 y0 ux uy vx vy radius
                                             width intensity X Y uv c)
                      peaks).
Proof.
  intros HJ.
  assert (Hrun : adds_entries npix ncols
                   (SyntheticDiskLattice.jacobian self x sd)
                   (fun c p => Rsum (map (fun uv => delta uv c p) peaks))).
  { destruct Hvalues as (V1 & V2 & V3 & V4 & V5 & V6 & VR & VW & VI).
    fold params in V1, V2, V3, V4, V5, V6, VR, VW.
    destruct (param_value_column params x _ _ V1)
      as (_ & _ & xc & Hxc & Hx0 & _).
    destruct (param_value_column params x _ _ V2)
      as (_ & _ & yc & Hyc & Hy0 & _).
    unfold SyntheticDiskLattice.jacobian. fold params.
    eapply adds_lift_bind; [exact V1|].
    eapply adds_lift_bind; [exact V2|].
    eapply adds_lift_bind; [exact V3|].
    eapply adds_lift_bind; [exact V4|].
    eapply adds_lift_bind; [exact V5|].
    eapply adds_lift_bind; [exact V6|].
    eapply adds_lift_bind; [exact Hxc|].
    eapply adds_lift_bind; [exact Hyc|].
    eapply adds_lift_bind;
      [exact (gaussian_distance x sd x0 y0 xc yc Hx0 Hy0 Hshape)|].
    eapply adds_lift_bind; [exact VR|].
    eapply adds_lift_bind; [exact VW|].
    cbv zeta. fold peaks.
    apply adds_for_each. intros uv Hin.
    apply jacobian_peak_adds; [exact Hin|reflexivity]. }
  destruct (Hrun J HJ) as (J' & E & HJ' & Hd).
  exists J'. split; [exact E|]. split; [exact HJ'|].
  intros c p X Y HX HY. rewrite Hd. f_equal. f_equal.
  apply map_ext. intros uv. apply delta_at_pixel; assumption.
Qed.

End DiskLatticeJacobianRun.

(** *** The expressions of one pass, inside and outside the mask *)

Section PeakExpressions.

Import SyntheticDiskLattice.

Variables (I radius width xp yp X Y : R).

Lemma mask_off :
  2 * radius <= distance X Y xp yp -> top_exp radius width xp yp X Y = 0.
Proof.
  intros H. unfold top_exp, mask, r_disk, np.maximum.
  fold (distance X Y xp yp). rewrite Rltb_false; [ring|].
  pose proof (Rmax_r (5 / 10) (distance X Y xp yp)). lra.
Qed.

Lemma mask_off_entries (r : R) :
  2 * radius <= distance X Y xp yp ->
  dx I radius width xp yp X Y r = 0 /\ dy I radius width xp yp X Y r = 0
  /\ dI radius width xp yp X Y = 0 /\ dR I radius width xp yp X Y = 0
  /\ dW I radius width xp yp X Y = 0.
Proof.
  intros H. pose proof (mask_off H) as Ht.
  unfold dx, dy, dI, dR, dW. rewrite Ht.
  unfold mask, r_disk, np.maximum. fold (distance X Y xp yp).
  rewrite Rltb_false
    by (pose proof (Rmax_r (5 / 10) (distance X Y xp yp)); lra).
  unfold Rdiv. repeat split; ring.
Qed.

Lemma mask_on :
  5 / 10 <= distance X Y xp yp < 2 * radius ->
  r_disk xp yp X Y = distance X Y xp yp
  /\ mask radius xp yp X Y = 1
  /\ top_exp radius width xp yp X Y
     = exp (4 * (distance X Y xp yp - radius) / width).
Proof.
  intros H.
  assert (Hr : r_disk xp yp X Y = distance X Y xp yp).
  { unfold r_disk, np.maximum. fold (distance X Y xp yp).
    apply Rmax_right. lra. }
  assert (Hm : mask radius xp yp X Y = 1).
  { unfold mask. rewrite Hr, Rltb_true by lra. reflexivity. }
  split; [exact Hr|]. split; [exact Hm|].
  unfold top_exp. rewrite Hm, Hr, !Rmult_1_l. reflexivity.
Qed.

End PeakExpressions.

(** *** Derivatives of the disk profile *)

Lemma one_plus_exp_nonzero (a : R) : 1 + exp a <> 0.
Proof. pose proof (exp_pos a). lra. Qed.

Lemma sigmoid_d_intensity (I radius width rho : R) :
  derivable_pt_lim (fun t => sigmoid_disk t radius width rho) I
    (1 / (1 + exp (Rmin (4 * (rho - radius) / width) 20))).
Proof.
  unfold sigmoid_disk.
  eapply dlim_eq.
  - apply dlim_div; [apply dlim_id|apply dlim_const|apply one_plus_exp_nonzero].
  - unfold Rsqr. field. apply one_plus_exp_nonzero.
Qed.

(** Below its cap the clamped exponent is, near the point, the exponent. *)
Lemma dlim_clamped (g F : R -> R) (x l : R) :
  continuity_pt g x -> g x < 20 ->
  derivable_pt_lim (fun t => F (g t)) x l ->
  derivable_pt_lim (fun t => F (Rmin (g t) 20)) x l.
Proof.
  intros Hc Hlt Hd.
  destruct (Hc (20 - g x)) as (alp & Halp & Hnear); [lra|].
  apply (derivable_pt_lim_locally_ext (fun t => F (g t)) _ x
           (x - alp) (x + alp)); [lra| |exact Hd].
  intros z Hz. f_equal. symmetry. apply Rmin_left.
  destruct (Req_dec x z) as [<-|Hne]; [lra|].
  assert (Hdist : Rabs (g z - g x) < 20 - g x).
  { apply (Hnear z). split.
    - split; [exact I|exact Hne].
    - simpl. unfold Rdist. apply Rabs_def1; lra. }
  apply Rabs_def2 in Hdist. lra.
Qed.

Lemma sigmoid_d_radius (I radius width rho : R) :
  width <> 0 -> 4 * (rho - radius) / width < 20 ->
  derivable_pt_lim (fun t => sigmoid_disk I t width rho) radius
    (4 * I * exp (4 * (rho - radius) / width)
     / (width * (1 + exp (4 * (rho - radius) / width)) ^ 2)).
Proof.
  intros Hw Hlt. unfold sigmoid_disk.
  apply (dlim_clamped (fun t => 4 * (rho - t) / width)
                      (fun a => I / (1 + exp a))).
  - apply derivable_continuous_pt.
    exists (4 * (0 - 1) / width).
    eapply dlim_eq; [differentiate; exact Hw|unfold Rsqr; field; exact Hw].
  - exact Hlt.
  - eapply dlim_eq.
    + differentiate; try exact Hw. apply one_plus_exp_nonzero.
    + unfold Rsqr. field. split; [apply one_plus_exp_nonzero|exact Hw].
Qed.

Lemma sigmoid_d_width (I radius width rho : R) :
  width <> 0 -> 4 * (rho - radius) / width < 20 ->
  derivable_pt_lim (fun t => sigmoid_disk I radius t rho) width
    (4 * I * exp (4 * (rho - radius) / width) * (rho - radius)
     / (width ^ 2 * (1 + exp (4 * (rho - radius) / width)) ^ 2)).
Proof.
  intros Hw Hlt. unfold sigmoid_disk.
  apply (dlim_clamped (fun t => 4 * (rho - radius) / t)
                      (fun a => I / (1 + exp a))).
  - apply derivable_continuous_pt.
    exists (- (4 * (rho - radius)) / width ^ 2).
    eapply dlim_eq; [differentiate; exact Hw|unfold Rsqr; field; exact Hw].
  - exact Hlt.
  - eapply dlim_eq.
    + differentiate; try exact Hw. apply one_plus_exp_nonzero.
    + unfold Rsqr. field. split; [apply one_plus_exp_nonzero|exact Hw].
Qed.

(** *** Columns of distinct parameters *)

Lemma getitem_In {V} (d : dict V) (k : string) (v : V) :
  getitem d k = Ok v -> In (k, v) d.
Proof.
  induction d as [|[k' v'] d IH]; simpl; [discriminate|].
  destruct (String.eqb_spec k' k) as [->|_].
  - intros H; injection H as ->. left. reflexivity.
  - intros H. right. apply IH, H.
Qed.

Lemma NoDup_map_injective {A B} (f : A -> B) (l : list A) (a b : A) :
  NoDup (map f l) -> In a l -> In b l -> f a = f b -> a = b.
Proof.
  induction l as [|c l IH]; simpl; intros Hnd Ha Hb E; [contradiction|].
  inversion Hnd as [|? ? Hnotin Hnd']; subst.
  destruct Ha as [->|Ha], Hb as [->|Hb]; try reflexivity.
  - exfalso. apply Hnotin. rewrite E. apply in_map, Hb.
  - exfalso. apply Hnotin. rewrite <- E. apply in_map, Ha.
  - apply IH; assumption.
Qed.

Lemma offsets_differ (params : dict Param.t) (x : list R) (k1 k2 : string)
    (v1 v2 : R) :
  distinct_offsets params ->
  param_value params x k1 = Ok v1 -> param_value params x k2 = Ok v2 ->
  k1 <> k2 -> offset_of params k1 <> offset_of params k2.
Proof.
  intros Hnd H1 H2 Hne E.
  destruct (param_value_column params x k1 v1 H1)
    as (_ & _ & p1 & G1 & _ & O1).
  destruct (param_value_column params x k2 v2 H2)
    as (_ & _ & p2 & G2 & _ & O2).
  apply getitem_In in G1, G2.
  assert (Eq : (k1, p1) = (k2, p2)).
  { apply (NoDup_map_injective (fun entry => Param.offset (snd entry))
             params _ _ Hnd G1 G2).
    simpl. rewrite O1, O2, E. reflexivity. }
  injection Eq as Ek _. contradiction.
Qed.

Lemma pick_same (c : nat) (v : R) : pick c c v = v.
Proof. unfold pick. rewrite Nat.eqb_refl. reflexivity. Qed.

Lemma pick_other (c col : nat) (v : R) : c <> col -> pick c col v = 0.
Proof.
  intros H. unfold pick. destruct (Nat.eqb_spec c col); [contradiction|].
  reflexivity.
Qed.

Lemma pick_zero (c col : nat) : pick c col 0 = 0.
Proof. unfold pick. destruct (Nat.eqb c col); reflexivity. Qed.

Lemma Rsum_zero {A} (f : A -> R) (items : list A) :
  (forall a, In a items -> f a = 0) -> Rsum (map f items) = 0.
Proof.
  induction items as [|a items IH]; intros H; [reflexivity|].
  cbn [map Rsum fold_right]. fold (Rsum (map f items)).
  rewrite (H a) by (left; reflexivity).
  rewrite IH by (intros b Hb; apply H; right; exact Hb). ring.
Qed.

Lemma Rsum_single {A} (f : A -> R) (items : list A) (a : A) :
  NoDup items -> In a items ->
  (forall b, In b items -> b <> a -> f b = 0) ->
  Rsum (map f items) = f a.
Proof.
  induction items as [|c items IH]; intros Hnd Hin H; [contradiction|].
  inversion Hnd as [|? ? Hnotin Hnd']; subst.
  cbn [map Rsum fold_right]. fold (Rsum (map f items)).
  destruct Hin as [->|Hin].
  - rewrite Rsum_zero; [ring|].
    intros b Hb. apply H; [right; exact Hb|].
    intros ->. contradiction.
  - rewrite (H c) by (try (left; reflexivity); intros ->; contradiction).
    rewrite IH; [ring|exact Hnd'|exact Hin|].
    intros b Hb. apply H. right. exact Hb.
Qed.

Lemma Rsum_map_ext {A} (f g : A -> R) (items : list A) :
  (forall a, In a items -> f a = g a) ->
  Rsum (map f items) = Rsum (map g items).
Proof.
  intros H. f_equal. apply map_ext_in. exact H.
Qed.

(** X13: beyond twice the disk radius the Jacobian of the disk lattice is
    cut off.  With its parameters readable, a non-zero edge width, a
    parameter vector as long as the Jacobian is wide and meshes as long as
    it is high, the Jacobian
    function returns normally and keeps the shape; and at a pixel that lies
    at least twice the disk radius away from the centre of every retained
    peak it changes no column at all. *)
Theorem disk_lattice_jacobian_cut_off
    (self : SyntheticDiskLattice.t) (x : list R) (sd : static_data)
    (x0 y0 ux uy vx vy radius width : R) (intensity : Z * Z -> R)
    (npix ncols : nat) (J : np.jacobian_array) :
  let peaks := combine (SyntheticDiskLattice.u_inds self)
                       (SyntheticDiskLattice.v_inds self) in
  lattice_values self x x0 y0 ux uy vx vy radius width intensity ->
  List.length x = ncols ->
  shape (xArray sd) = shape (yArray sd) ->
  List.length (ravel (xArray sd)) = npix ->
  List.length (ravel (yArray sd)) = npix ->
  width <> 0 ->
  jac_shape npix ncols J ->
  exists J',
    SyntheticDiskLattice.jacobian self x sd J = (J', Ok tt)
    /\ jac_shape npix ncols J'
    /\ forall p X Y,
        nth_error (ravel (xArray sd)) p = Some X ->
        nth_error (ravel (yArray sd)) p = Some Y ->
        (forall uv, In uv peaks ->
            2 * radius <= distance X Y
                            (fst (peak_center x0 y0 ux uy vx vy uv))
                            (snd (peak_center x0 y0 ux uy vx vy uv))) ->
        forall c, col_entry J' c p = col_entry J c p.
Proof.
  intros peaks Hv Hx Hshape Hxs Hys _ HJ.
  destruct (disk_lattice_jacobian_run self x sd x0 y0 ux uy vx vy radius
              width intensity npix ncols Hv Hx Hshape Hxs Hys J HJ)
    as (J' & E & HJ' & Hd).
  exists J'. split; [exact E|]. split; [exact HJ'|].
  intros p X Y HX HY Hfar c. rewrite (Hd c p X Y HX HY).
  fold peaks. rewrite Rsum_zero; [ring|].
  intros uv Hin. unfold jacobian_peak_entry. cbv zeta.
  destruct (mask_off_entries (intensity uv) radius width _ _ X Y
              (np.maximum (5 / 10) (distance X Y x0 y0)) (Hfar uv Hin))
    as (-> & -> & -> & -> & ->).
  rewrite !Rmult_0_r, !pick_zero.
  destruct (SyntheticDiskLattice.refine_radius self),
           (SyntheticDiskLattice.refine_width self); ring.
Qed.

(** *** Which passes reach which column *)

Ltac key_differs :=
  first
    [ discriminate
    | eapply literal_not_intensity_key; [reflexivity|discriminate]
    | let E := fresh in
      intros E; symmetry in E; revert E;
      eapply literal_not_intensity_key; [reflexivity|discriminate] ].

Ltac settle_picks Hnd :=
  repeat match goal with
    | |- context [pick ?c ?c ?v] => rewrite (pick_same c v)
    | |- context [pick ?c ?col ?v] =>
        rewrite (pick_other c col v)
          by (eapply (offsets_differ _ _ _ _ _ _ Hnd);
              [eassumption|eassumption|key_differs])
    end.

Ltac other_column Hnd :=
  apply pick_other;
  eapply (offsets_differ _ _ _ _ _ _ Hnd); [eassumption|eassumption|key_differs].

Lemma pick_if_other (b : bool) (c col : nat) (v : R) :
  (b = true -> c <> col) -> (if b then pick c col v else 0) = 0.
Proof.
  destruct b; [|reflexivity]. intros H. apply pick_other, H. reflexivity.
Qed.

Section DiskLatticeColumns.

Variables (self : SyntheticDiskLattice.t) (x : list R).
Variables (x0 y0 ux uy vx vy radius width : R) (intensity : Z * Z -> R).

Let params := SyntheticDiskLattice.params self.
Let peaks := combine (SyntheticDiskLattice.u_inds self)
                     (SyntheticDiskLattice.v_inds self).

Hypothesis Hvalues :
  lattice_values self x x0 y0 ux uy vx vy radius width intensity.
Hypothesis Hdistinct : distinct_offsets params.

Variables (X Y : R).

Let entry := jacobian_peak_entry self x0 y0 ux uy vx vy radius width
                                 intensity X Y.

(** In the column of a peak's intensity only that peak's pass writes, and
    it writes [dI]. *)
Lemma entry_intensity_column (u v : Z) (uv : Z * Z) :
  In (u, v) peaks -> In uv peaks ->
  entry uv (offset_of params (intensity_key u v))
  = if Z.eqb (fst uv) u && Z.eqb (snd uv) v
    then SyntheticDiskLattice.dI radius width
           (fst (peak_center x0 y0 ux uy vx vy uv))
           (snd (peak_center x0 y0 ux uy vx vy uv)) X Y
    else 0.
Proof.
  intros Hin Hin'. destruct uv as [u' v'].
  destruct Hvalues as (V1 & V2 & V3 & V4 & V5 & V6 & VR & VW & VI).
  fold params in V1, V2, V3, V4, V5, V6, VR, VW, VI. fold peaks in VI.
  pose proof (VI u v Hin) as K. pose proof (VI u' v' Hin') as K'.
  unfold entry, jacobian_peak_entry. cbv zeta. fold params. cbn [fst snd].
  rewrite (pick_other _ (offset_of params "x center"))
    by (eapply (offsets_differ _ _ _ _ _ _ Hdistinct);
        [eassumption|eassumption|key_differs]).
  rewrite (pick_other _ (offset_of params "y center"))
    by (eapply (offsets_differ _ _ _ _ _ _ Hdistinct);
        [eassumption|eassumption|key_differs]).
  rewrite (pick_other _ (offset_of params "ux"))
    by (eapply (offsets_differ _ _ _ _ _ _ Hdistinct);
        [eassumption|eassumption|key_differs]).
  rewrite (pick_other _ (offset_of params "uy"))
    by (eapply (offsets_differ _ _ _ _ _ _ Hdistinct);
        [eassumption|eassumption|key_differs]).
  rewrite (pick_other _ (offset_of params "vx"))
    by (eapply (offsets_differ _ _ _ _ _ _ Hdistinct);
        [eassumption|eassumption|key_differs]).
  rewrite (pick_other _ (offset_of params "vy"))
    by (eapply (offsets_differ _ _ _ _ _ _ Hdistinct);
        [eassumption|eassumption|key_differs]).
  rewrite !pick_if_other
    by (intros Hb; try rewrite Hb in VR; try rewrite Hb in VW;
        eapply (offsets_differ _ _ _ _ _ _ Hdistinct);
        [eassumption|eassumption|key_differs]).
  destruct (Z.eqb_spec u' u) as [->|Hu]; [destruct (Z.eqb_spec v' v) as [->|Hv]|];
    cbn [andb].
  - rewrite pick_same. ring.
  - rewrite pick_other; [ring|].
    eapply (offsets_differ _ _ _ _ _ _ Hdistinct); [eassumption|eassumption|].
    intros E. apply intensity_key_inj in E. destruct E; congruence.
  - rewrite pick_other; [ring|].
    eapply (offsets_differ _ _ _ _ _ _ Hdistinct); [eassumption|eassumption|].
    intros E. apply intensity_key_inj in E. destruct E; congruence.
Qed.

(** The columns of the disk radius and of the edge width collect [dR] and
    [dW] of every pass. *)
Lemma entry_radius_column (uv : Z * Z) :
  SyntheticDiskLattice.refine_radius self = true -> In uv peaks ->
  entry uv (offset_of params "disk radius")
  = SyntheticDiskLattice.dR (intensity uv) radius width
      (fst (peak_center x0 y0 ux uy vx vy uv))
      (snd (peak_center x0 y0 ux uy vx vy uv)) X Y.
Proof.
  intros Hb Hin. destruct uv as [u v].
  destruct Hvalues as (V1 & V2 & V3 & V4 & V5 & V6 & VR & VW & VI).
  fold params in V1, V2, V3, V4, V5, V6, VR, VW, VI. fold peaks in VI.
  pose proof (VI u v Hin) as K. rewrite Hb in VR.
  unfold entry, jacobian_peak_entry. cbv zeta. fold params. rewrite Hb.
  rewrite pick_if_other
    by (intros Hw; rewrite Hw in VW;
        eapply (offsets_differ _ _ _ _ _ _ Hdistinct);
        [eassumption|eassumption|key_differs]).
  settle_picks Hdistinct. cbn [fst snd]. ring.
Qed.

Lemma entry_width_column (uv : Z * Z) :
  SyntheticDiskLattice.refine_width self = true -> In uv peaks ->
  entry uv (offset_of params "edge width")
  = SyntheticDiskLattice.dW (intensity uv) radius width
      (fst (peak_center x0 y0 ux uy vx vy uv))
      (snd (peak_center x0 y0 ux uy vx vy uv)) X Y.
Proof.
  intros Hb Hin. destruct uv as [u v].
  destruct Hvalues as (V1 & V2 & V3 & V4 & V5 & V6 & VR & VW & VI).
  fold params in V1, V2, V3, V4, V5, V6, VR, VW, VI. fold peaks in VI.
  pose proof (VI u v Hin) as K. rewrite Hb in VW.
  unfold entry, jacobian_peak_entry. cbv zeta. fold params. rewrite Hb.
  rewrite pick_if_other
    by (intros Hr; rewrite Hr in VR;
        eapply (offsets_differ _ _ _ _ _ _ Hdistinct);
        [eassumption|eassumption|key_differs]).
  settle_picks Hdistinct. cbn [fst snd]. ring.
Qed.

(** The six columns of the centre and of the lattice vectors: the pass of
    peak [(u, v)] adds to the columns of [ux] and [vx] what it adds to the
    column of the x centre, multiplied by [u] and by [v]; likewise in y. *)
Lemma entry_vector_columns (uv : Z * Z) :
  In uv peaks ->
  entry uv (offset_of params "ux")
  = IZR (fst uv) * entry uv (offset_of params "x center")
  /\ entry uv (offset_of params "vx")
     = IZR (snd uv) * entry uv (offset_of params "x center")
  /\ entry uv (offset_of params "uy")
     = IZR (fst uv) * entry uv (offset_of params "y center")
  /\ entry uv (offset_of params "vy")
     = IZR (snd uv) * entry uv (offset_of params "y center").
Proof.
  intros Hin. destruct uv as [u v].
  destruct Hvalues as (V1 & V2 & V3 & V4 & V5 & V6 & VR & VW & VI).
  fold params in V1, V2, V3, V4, V5, V6, VR, VW, VI. fold peaks in VI.
  pose proof (VI u v Hin) as K.
  unfold entry, jacobian_peak_entry. cbv zeta. fold params.
  rewrite !pick_if_other
    by (intros Hb; try rewrite Hb in VR; try rewrite Hb in VW;
        eapply (offsets_differ _ _ _ _ _ _ Hdistinct);
        [eassumption|eassumption|key_differs]).
  settle_picks Hdistinct. cbn [fst snd]. repeat split; ring.
Qed.

(** The columns of the centre: the pass of a peak adds the peak's intensity
    times [dx], respectively [dy]. *)
Lemma entry_center_columns (uv : Z * Z) :
  In uv peaks ->
  let r := np.maximum (5 / 10) (distance X Y x0 y0) in
  entry uv (offset_of params "x center")
  = intensity uv
    * SyntheticDiskLattice.dx (intensity uv) radius width
        (fst (peak_center x0 y0 ux uy vx vy uv))
        (snd (peak_center x0 y0 ux uy vx vy uv)) X Y r
  /\ entry uv (offset_of params "y center")
     = intensity uv
       * SyntheticDiskLattice.dy (intensity uv) radius width
           (fst (peak_center x0 y0 ux uy vx vy uv))
           (snd (peak_center x0 y0 ux uy vx vy uv)) X Y r.
Proof.
  intros Hin r. destruct uv as [u v].
  destruct Hvalues as (V1 & V2 & V3 & V4 & V5 & V6 & VR & VW & VI).
  fold params in V1, V2, V3, V4, V5, V6, VR, VW, VI. fold peaks in VI.
  pose proof (VI u v Hin) as K.
  unfold entry, jacobian_peak_entry. cbv zeta. fold params. subst r.
  rewrite !pick_if_other
    by (intros Hb; try rewrite Hb in VR; try rewrite Hb in VW;
        eapply (offsets_differ _ _ _ _ _ _ Hdistinct);
        [eassumption|eassumption|key_differs]).
  settle_picks Hdistinct. cbn [fst snd]. split; ring.
Qed.

End DiskLatticeColumns.

Lemma Forall2_map_self {A B} (P : A -> B -> Prop) (f : A -> B)
    (items : list A) :
  (forall a, In a items -> P a (f a)) -> Forall2 P items (map f items).
Proof.
  induction items as [|a items IH]; intros H; constructor.
  - apply H. left. reflexivity.
  - apply IH. intros b Hb. apply H. right. exact Hb.
Qed.

(** X14: the intensity column of the disk lattice.  With the parameters
    readable at pairwise distinct offsets and no peak listed twice, the
    Jacobian function returns normally, and what it adds to the column of
    the intensity of a retained peak at a pixel is: nothing, when the pixel
    is at least twice the disk radius away from the peak's centre; and the
    partial derivative of the peak's disk profile with respect to its
    intensity, when the pixel is at least half a pixel and less than twice
    the disk radius away and the exponent is below the cap of the forward
    function. *)
Theorem disk_lattice_jacobian_intensity_column
    (self : SyntheticDiskLattice.t) (x : list R) (sd : static_data)
    (x0 y0 ux uy vx vy radius width : R) (intensity : Z * Z -> R)
    (npix ncols : nat) (J : np.jacobian_array) (u v : Z) :
  let params := SyntheticDiskLattice.params self in
  let peaks := combine (SyntheticDiskLattice.u_inds self)
                       (SyntheticDiskLattice.v_inds self) in
  let col := offset_of params (intensity_key u v) in
  lattice_values self x x0 y0 ux uy vx vy radius width intensity ->
  distinct_offsets params ->
  NoDup peaks -> In (u, v) peaks ->
  List.length x = ncols ->
  shape (xArray sd) = shape (yArray sd) ->
  List.length (ravel (xArray sd)) = npix ->
  List.length (ravel (yArray sd)) = npix ->
  width <> 0 ->
  jac_shape npix ncols J ->
  exists J',
    SyntheticDiskLattice.jacobian self x sd J = (J', Ok tt)
    /\ forall p X Y,
        nth_error (ravel (xArray sd)) p = Some X ->
        nth_error (ravel (yArray sd)) p = Some Y ->
        let rho := distance X Y (x0 + IZR u * ux + IZR v * vx)
                                (y0 + IZR u * uy + IZR v * vy) in
        (2 * radius <= rho -> col_entry J' col p = col_entry J col p)
        /\ (5 / 10 <= rho < 2 * radius ->
            4 * (rho - radius) / width <= 20 ->
            derivable_pt_lim (fun t => sigmoid_disk t radius width rho)
                             (intensity (u, v))
                             (col_entry J' col p - col_entry J col p)).
Proof.
  intros params peaks col Hv Hnd Hpeaks Hin Hx Hshape Hxs Hys Hw HJ.
  destruct (disk_lattice_jacobian_run self x sd x0 y0 ux uy vx vy radius
              width intensity npix ncols Hv Hx Hshape Hxs Hys J HJ)
    as (J' & E & _ & Hd).
  exists J'. split; [exact E|].
  intros p X Y HX HY rho.
  assert (Hcol : col_entry J' col p
                 = col_entry J col p
                   + SyntheticDiskLattice.dI radius width
                       (x0 + IZR u * ux + IZR v * vx)
                       (y0 + IZR u * uy + IZR v * vy) X Y).
  { rewrite (Hd col p X Y HX HY). f_equal. fold peaks.
    rewrite (Rsum_single _ peaks (u, v) Hpeaks Hin).
    - unfold col, params.
      rewrite (entry_intensity_column self x x0 y0 ux uy vx vy radius width
                 intensity Hv Hnd X Y u v (u, v) Hin Hin).
      cbn [fst snd]. rewrite !Z.eqb_refl. reflexivity.
    - intros [u' v'] Hin' Hne. unfold col, params.
      rewrite (entry_intensity_column self x x0 y0 ux uy vx vy radius width
                 intensity Hv Hnd X Y u v (u', v') Hin Hin').
      cbn [fst snd].
      destruct (Z.eqb_spec u' u) as [->|_]; [|reflexivity].
      destruct (Z.eqb_spec v' v) as [->|_]; [|reflexivity].
      contradiction Hne. reflexivity. }
  split.
  - intros Hfar. rewrite Hcol.
    destruct (mask_off_entries 0 radius width _ _ X Y 0 Hfar)
      as (_ & _ & -> & _). ring.
  - intros Hnear Hcap.
    destruct (mask_on radius width _ _ X Y Hnear) as (_ & Hm & Ht).
    eapply dlim_eq; [apply sigmoid_d_intensity|].
    rewrite Hcol. unfold SyntheticDiskLattice.dI. rewrite Hm, Ht.
    fold rho. rewrite Rmin_left by exact Hcap. ring.
Qed.

(** X15: the columns of the disk radius and of the edge width.  At a pixel
    that, for every retained peak within twice the disk radius, is at least
    half a pixel away from the peak's centre and has its exponent below the
    cap, what the Jacobian function adds to the column of a refined radius
    (of a refined width) is the sum, over the retained peaks, of the partial
    derivative of the peak's disk profile with respect to the radius (the
    width) for the peaks within twice the disk radius, and of nothing for
    the others. *)
Theorem disk_lattice_jacobian_shape_columns
    (self : SyntheticDiskLattice.t) (x : list R) (sd : static_data)
    (x0 y0 ux uy vx vy radius width : R) (intensity : Z * Z -> R)
    (npix ncols : nat) (J : np.jacobian_array) :
  let params := SyntheticDiskLattice.params self in
  let peaks := combine (SyntheticDiskLattice.u_inds self)
                       (SyntheticDiskLattice.v_inds self) in
  let rho X Y uv := distance X Y (fst (peak_center x0 y0 ux uy vx vy uv))
                                 (snd (peak_center x0 y0 ux uy vx vy uv)) in
  lattice_values self x x0 y0 ux uy vx vy radius width intensity ->
  distinct_offsets params ->
  List.length x = ncols ->
  shape (xArray sd) = shape (yArray sd) ->
  List.length (ravel (xArray sd)) = npix ->
  List.length (ravel (yArray sd)) = npix ->
  width <> 0 ->
  jac_shape npix ncols J ->
  exists J',
    SyntheticDiskLattice.jacobian self x sd J = (J', Ok tt)
    /\ forall p X Y,
        nth_error (ravel (xArray sd)) p = Some X ->
        nth_error (ravel (yArray sd)) p = Some Y ->
        (forall uv, In uv peaks -> rho X Y uv < 2 * radius ->
                    5 / 10 <= rho X Y uv
                    /\ 4 * (rho X Y uv - radius) / width < 20) ->
        (SyntheticDiskLattice.refine_radius self = true ->
         exists ds,
           Forall2 (fun uv d =>
                      (rho X Y uv < 2 * radius ->
                       derivable_pt_lim
                         (fun t => sigmoid_disk (intensity uv) t width
                                                (rho X Y uv)) radius d)
                      /\ (2 * radius <= rho X Y uv -> d = 0))
                   peaks ds
           /\ col_entry J' (offset_of params "disk radius") p
              - col_entry J (offset_of params "disk radius") p = Rsum ds)
        /\ (SyntheticDiskLattice.refine_width self = true ->
            exists ds,
              Forall2 (fun uv d =>
                         (rho X Y uv < 2 * radius ->
                          derivable_pt_lim
                            (fun t => sigmoid_disk (intensity uv) radius t
                                                   (rho X Y uv)) width d)
                         /\ (2 * radius <= rho X Y uv -> d = 0))
                      peaks ds
              /\ col_entry J' (offset_of params "edge width") p
                 - col_entry J (offset_of params "edge width") p = Rsum ds).
Proof.
  intros params peaks rho Hv Hnd Hx Hshape Hxs Hys Hw HJ.
  destruct (disk_lattice_jacobian_run self x sd x0 y0 ux uy vx vy radius
              width intensity npix ncols Hv Hx Hshape Hxs Hys J HJ)
    as (J' & E & _ & Hd).
  exists J'. split; [exact E|].
  intros p X Y HX HY Hpix. subst rho. cbv beta in Hpix |- *.
  split; intros Hb.
  - exists (map (fun uv => SyntheticDiskLattice.dR (intensity uv) radius width
                     (fst (peak_center x0 y0 ux uy vx vy uv))
                     (snd (peak_center x0 y0 ux uy vx vy uv)) X Y) peaks).
    split.
    + apply Forall2_map_self. intros uv Hin. split.
      * intros Hlt. destruct (Hpix uv Hin Hlt) as [Hhalf Hcap].
        destruct (mask_on radius width _ _ X Y (conj Hhalf Hlt))
          as (_ & _ & Ht).
        eapply dlim_eq; [apply sigmoid_d_radius; [exact Hw|exact Hcap]|].
        unfold SyntheticDiskLattice.dR. rewrite Ht. reflexivity.
      * intros Hfar.
        destruct (mask_off_entries (intensity uv) radius width _ _ X Y 0 Hfar)
          as (_ & _ & _ & -> & _). reflexivity.
    + rewrite (Hd _ p X Y HX HY). fold peaks.
      rewrite (Rsum_map_ext _
                 (fun uv => SyntheticDiskLattice.dR (intensity uv) radius width
                     (fst (peak_center x0 y0 ux uy vx vy uv))
                     (snd (peak_center x0 y0 ux uy vx vy uv)) X Y) peaks).
      * ring.
      * intros uv Hin. unfold params.
        apply (entry_radius_column self x x0 y0 ux uy vx vy radius width
                 intensity Hv Hnd X Y uv Hb Hin).
  - exists (map (fun uv => SyntheticDiskLattice.dW (intensity uv) radius width
                     (fst (peak_center x0 y0 ux uy vx vy uv))
                     (snd (peak_center x0 y0 ux uy vx vy uv)) X Y) peaks).
    split.
    + apply Forall2_map_self. intros uv Hin. split.
      * intros Hlt. destruct (Hpix uv Hin Hlt) as [Hhalf Hcap].
        destruct (mask_on radius width _ _ X Y (conj Hhalf Hlt))
          as (Hr & _ & Ht).
        eapply dlim_eq; [apply sigmoid_d_width; [exact Hw|exact Hcap]|].
        unfold SyntheticDiskLattice.dW. rewrite Ht, Hr. unfold Rdiv. ring.
      * intros Hfar.
        destruct (mask_off_entries (intensity uv) radius width _ _ X Y 0 Hfar)
          as (_ & _ & _ & _ & ->). reflexivity.
    + rewrite (Hd _ p X Y HX HY). fold peaks.
      rewrite (Rsum_map_ext _
                 (fun uv => SyntheticDiskLattice.dW (intensity uv) radius width
                     (fst (peak_center x0 y0 ux uy vx vy uv))
                     (snd (peak_center x0 y0 ux uy vx vy uv)) X Y) peaks).
      * ring.
      * intros uv Hin. unfold params.
        apply (entry_width_column self x x0 y0 ux uy vx vy radius width
                 intensity Hv Hnd X Y uv Hb Hin).
Qed.

(** X16: the columns of the centre and of the lattice vectors.  With the
    parameters readable at pairwise distinct offsets and a non-zero edge
    width, at every pixel (X, Y) what the Jacobian function adds to the
    column of the x centre is the sum, over the retained peaks, of the
    peak's intensity times the peak's [dx] of the code, taken at the
    peak's position and with the distance to the pattern centre clamped
    from below at one half; what it adds to the columns of ux and vx is the
    sum of these very terms, each multiplied by the peak's index u,
    respectively v; likewise, with [dy], for the y centre, uy and vy. *)
Theorem disk_lattice_jacobian_vector_columns
    (self : SyntheticDiskLattice.t) (x : list R) (sd : static_data)
    (x0 y0 ux uy vx vy radius width : R) (intensity : Z * Z -> R)
    (npix ncols : nat) (J : np.jacobian_array) :
  let params := SyntheticDiskLattice.params self in
  let peaks := combine (SyntheticDiskLattice.u_inds self)
                       (SyntheticDiskLattice.v_inds self) in
  lattice_values self x x0 y0 ux uy vx vy radius width intensity ->
  distinct_offsets params ->
  List.length x = ncols ->
  shape (xArray sd) = shape (yArray sd) ->
  List.length (ravel (xArray sd)) = npix ->
  List.length (ravel (yArray sd)) = npix ->
  width <> 0 ->
  jac_shape npix ncols J ->
  exists J',
    SyntheticDiskLattice.jacobian self x sd J = (J', Ok tt)
    /\ forall p X Y,
        nth_error (ravel (xArray sd)) p = Some X ->
        nth_error (ravel (yArray sd)) p = Some Y ->
        let gain key := col_entry J' (offset_of params key) p
                        - col_entry J (offset_of params key) p in
        let r := np.maximum (5 / 10) (distance X Y x0 y0) in
        let term_x uv :=
          intensity uv
          * SyntheticDiskLattice.dx (intensity uv) radius width
              (fst (peak_center x0 y0 ux uy vx vy uv))
              (snd (peak_center x0 y0 ux uy vx vy uv)) X Y r in
        let term_y uv :=
          intensity uv
          * SyntheticDiskLattice.dy (intensity uv) radius width
              (fst (peak_center x0 y0 ux uy vx vy uv))
              (snd (peak_center x0 y0 ux uy vx vy uv)) X Y r in
        gain "x center"%string = Rsum (map term_x peaks)
        /\ gain "ux"%string
           = Rsum (map (fun uv => IZR (fst uv) * term_x uv) peaks)
        /\ gain "vx"%string
           = Rsum (map (fun uv => IZR (snd uv) * term_x uv) peaks)
        /\ gain "y center"%string = Rsum (map term_y peaks)
        /\ gain "uy"%string
           = Rsum (map (fun uv => IZR (fst uv) * term_y uv) peaks)
        /\ gain "vy"%string
           = Rsum (map (fun uv => IZR (snd uv) * term_y uv) peaks).
Proof.
  intros params peaks Hv Hnd Hx Hshape Hxs Hys _ HJ.
  destruct (disk_lattice_jacobian_run self x sd x0 y0 ux uy vx vy radius
              width intensity npix ncols Hv Hx Hshape Hxs Hys J HJ)
    as (J' & E & _ & Hd).
  exists J'. split; [exact E|].
  intros p X Y HX HY gain r term_x term_y.
  set (entry := jacobian_peak_entry self x0 y0 ux uy vx vy radius width
                                    intensity X Y).
  assert (Hgain : forall key,
             gain key = Rsum (map (fun uv => entry uv (offset_of params key))
                                  peaks)).
  { intros key. unfold gain. rewrite (Hd _ p X Y HX HY). fold peaks entry.
    ring. }
  assert (Hcen : forall uv, In uv peaks ->
             entry uv (offset_of params "x center") = term_x uv
             /\ entry uv (offset_of params "y center") = term_y uv).
  { intros uv Hin.
    exact (entry_center_columns self x x0 y0 ux uy vx vy radius width
             intensity Hv Hnd X Y uv Hin). }
  assert (Hvec : forall uv, In uv peaks ->
             entry uv (offset_of params "ux")
             = IZR (fst uv) * entry uv (offset_of params "x center")
             /\ entry uv (offset_of params "vx")
                = IZR (snd uv) * entry uv (offset_of params "x center")
             /\ entry uv (offset_of params "uy")
                = IZR (fst uv) * entry uv (offset_of params "y center")
             /\ entry uv (offset_of params "vy")
                = IZR (snd uv) * entry uv (offset_of params "y center")).
  { intros uv Hin.
    exact (entry_vector_columns self x x0 y0 ux uy vx vy radius width
             intensity Hv Hnd X Y uv Hin). }
  rewrite !Hgain.
  repeat split; apply Rsum_map_ext; intros uv Hin;
    destruct (Hcen uv Hin) as [Hcx Hcy];
    destruct (Hvec uv Hin) as (Vux & Vvx & Vuy & Vvy);
    rewrite <- ?Hcx, <- ?Hcy; assumption || reflexivity.
Qed.

(** *** The forward function never vanishes *)

Lemma sigmoid_disk_bounds (I radius width rho : R) :
  0 <= I ->
  I / (1 + exp 20) <= sigmoid_disk I radius width rho <= I.
Proof.
  intros HI. unfold sigmoid_disk.
  set (a := Rmin (4 * (rho - radius) / width) 20).
  assert (Ha : a <= 20) by apply Rmin_r.
  pose proof (exp_pos a) as Hpos.
  assert (Hle : exp a <= exp 20).
  { destruct (Rle_lt_or_eq_dec _ _ Ha) as [Hlt| ->]; [|lra].
    left. apply exp_increasing. exact Hlt. }
  split.
  - unfold Rdiv. apply Rmult_le_compat_l; [exact HI|].
    apply Rinv_le_contravar; lra.
  - apply (Rmult_le_reg_r (1 + exp a)); [lra|].
    unfold Rdiv. rewrite Rmult_assoc, Rinv_l by lra. nra.
Qed.

(** X17: a disk of the forward function never vanishes.  With the
    parameters of a disk lattice readable, non-negative intensities, a
    non-zero edge width and the meshes and the accumulator of one shape, the
    forward function returns normally and every pixel, however far from the
    peaks, gains at least the total intensity divided by 1 + exp(20), and at
    most the total intensity. *)
Theorem disk_lattice_forward_bounds
    (self : SyntheticDiskLattice.t) (x : list R) (sd : static_data)
    (DP : ndarray R) (x0 y0 ux uy vx vy radius width : R)
    (intensity : Z * Z -> R) :
  let peaks := combine (SyntheticDiskLattice.u_inds self)
                       (SyntheticDiskLattice.v_inds self) in
  lattice_values self x x0 y0 ux uy vx vy radius width intensity ->
  (forall uv, In uv peaks -> 0 <= intensity uv) ->
  width <> 0 ->
  shape (xArray sd) = shape (yArray sd) ->
  shape DP = shape (xArray sd) ->
  exists DP',
    SyntheticDiskLattice.func self x sd DP = (DP', Ok tt)
    /\ forall p X Y d,
        nth_error (ravel (xArray sd)) p = Some X ->
        nth_error (ravel (yArray sd)) p = Some Y ->
        nth_error (ravel DP) p = Some d ->
        exists gain,
          nth_error (ravel DP') p = Some (d + gain)
          /\ Rsum (map intensity peaks) / (1 + exp 20) <= gain
             <= Rsum (map intensity peaks).
Proof.
  intros peaks Hv Hpos _ Hxy HDP.
  destruct Hv as (V1 & V2 & V3 & V4 & V5 & V6 & VR & VW & VI).
  fold peaks in VI.
  unfold SyntheticDiskLattice.func.
  rewrite bind_lift, V1, bind_lift, V2, bind_lift, V3, bind_lift, V4,
    bind_lift, V5, bind_lift, V6, bind_lift, VR, bind_lift, VW.
  cbv beta iota. fold peaks.
  assert (HF : Forall2 (fun uv I =>
                          param_value (SyntheticDiskLattice.params self) x
                            (intensity_key (fst uv) (snd uv)) = Ok I)
                       peaks (map intensity peaks)).
  { apply Forall2_map_self. intros [u v] Hin. apply VI, Hin. }
  destruct (for_each_peak_adds self x sd x0 y0 ux uy vx vy radius width
              peaks (map intensity peaks) HF Hxy DP HDP)
    as (DP' & E & _ & Hp).
  exists DP'. split; [exact E|].
  intros p X Y d HX HY Hd. eexists. split; [exact (Hp p X Y d HX HY Hd)|].
  clear -Hpos.
  induction peaks as [|uv peaks IH].
  - cbn. unfold Rdiv. rewrite Rmult_0_l. lra.
  - cbn [map combine Rsum fold_right fst snd].
    fold (Rsum (map intensity peaks)).
    match goal with
    | |- _ <= ?t + fold_right Rplus 0 ?l <= _ =>
        change (fold_right Rplus 0 l) with (Rsum l)
    end.
    pose proof (sigmoid_disk_bounds (intensity uv) radius width
                  (distance X Y (fst (peak_center x0 y0 ux uy vx vy uv))
                                (snd (peak_center x0 y0 ux uy vx vy uv)))
                  (Hpos uv (or_introl eq_refl))) as Hb.
    assert (IH' := IH (fun uv' Hin => Hpos uv' (or_intror Hin))).
    unfold Rdiv in *. lra.
Qed.

(** *** The refined example lattice *)

Lemma example_refined_values (t : R) :
  lattice_values example_refined_lattice (example_refined_vector t)
                 t 0 1 0 0 1 1 4 (fun _ => 2).
Proof.
  repeat split.
  intros u v [H|[]]. injection H as <- <-. reflexivity.
Qed.

Lemma example_refined_offsets :
  distinct_offsets (SyntheticDiskLattice.params example_refined_lattice).
Proof.
  unfold distinct_offsets. cbn.
  repeat constructor; cbn; intuition discriminate.
Qed.

Lemma example_zero_jacobian : jac_shape 2 9 (zero_jacobian 2 9).
Proof. split; [reflexivity|repeat constructor]. Qed.

Lemma example_peak_distance (t : R) :
  distance 0 0 (fst (peak_center t 0 1 0 0 1 (0%Z, 0%Z)))
               (snd (peak_center t 0 1 0 0 1 (0%Z, 0%Z)))
  = Rabs t.
Proof.
  unfold distance, peak_center. cbn [fst snd].
  replace ((0 - (t + 0 * 1 + 0 * 0)) ^ 2 + (0 - (0 + 0 * 0 + 0 * 1)) ^ 2)
    with (Rsqr t) by (unfold Rsqr; ring).
  apply sqrt_Rsqr_abs.
Qed.

Lemma disk_lattice_jacobian_cut_off_witness :
  exists J',
    SyntheticDiskLattice.jacobian example_refined_lattice
      (example_refined_vector 5) example_mesh (zero_jacobian 2 9)
    = (J', Ok tt)
    /\ col_entry J' 0 0 = col_entry (zero_jacobian 2 9) 0 0.
Proof.
  destruct (disk_lattice_jacobian_cut_off example_refined_lattice
              (example_refined_vector 5) example_mesh 5 0 1 0 0 1 1 4
              (fun _ => 2) 2 9 (zero_jacobian 2 9)
              (example_refined_values 5) eq_refl eq_refl eq_refl eq_refl)
    as (J' & Hrun & _ & Hcut).
  - lra.
  - exact example_zero_jacobian.
  - exists J'. split; [exact Hrun|].
    apply (Hcut 0%nat 0 0 eq_refl eq_refl).
    intros uv [<-|[]]. rewrite example_peak_distance.
    rewrite Rabs_right by lra. lra.
Defined.

Lemma example_unit_distance :
  distance 1 0 (0 + IZR 0 * 1 + IZR 0 * 0) (0 + IZR 0 * 0 + IZR 0 * 1) = 1.
Proof. unfold distance. apply sqrt_unit. ring. Qed.

Lemma disk_lattice_jacobian_intensity_column_witness :
  exists J',
    SyntheticDiskLattice.jacobian example_refined_lattice
      (example_refined_vector 0) example_mesh (zero_jacobian 2 9)
    = (J', Ok tt)
    /\ derivable_pt_lim
         (fun t => sigmoid_disk t 1 4
                     (distance 1 0 (0 + IZR 0 * 1 + IZR 0 * 0)
                                   (0 + IZR 0 * 0 + IZR 0 * 1)))
         2 (col_entry J' 6 1 - col_entry (zero_jacobian 2 9) 6 1).
Proof.
  destruct (disk_lattice_jacobian_intensity_column example_refined_lattice
              (example_refined_vector 0) example_mesh 0 0 1 0 0 1 1 4
              (fun _ => 2) 2 9 (zero_jacobian 2 9) 0 0
              (example_refined_values 0) example_refined_offsets)
    as (J' & Hrun & Hcol); try reflexivity.
  - repeat constructor. intros [].
  - left. reflexivity.
  - lra.
  - exact example_zero_jacobian.
  - exists J'. split; [exact Hrun|].
    apply (Hcol 1%nat 1 0 eq_refl eq_refl); rewrite example_unit_distance; lra.
Defined.

Lemma disk_lattice_jacobian_shape_columns_witness :
  exists J' ds,
    SyntheticDiskLattice.jacobian example_refined_lattice
      (example_refined_vector 0) example_mesh (zero_jacobian 2 9)
    = (J', Ok tt)
    /\ col_entry J' 7 1 - col_entry (zero_jacobian 2 9) 7 1 = Rsum ds.
Proof.
  destruct (disk_lattice_jacobian_shape_columns example_refined_lattice
              (example_refined_vector 0) example_mesh 0 0 1 0 0 1 1 4
              (fun _ => 2) 2 9 (zero_jacobian 2 9)
              (example_refined_values 0) example_refined_offsets)
    as (J' & Hrun & Hcol); try reflexivity.
  - lra.
  - exact example_zero_jacobian.
  - destruct (Hcol 1%nat 1 0 eq_refl eq_refl) as [Hradius _].
    + intros uv [<-|[]] _. cbn [peak_center fst snd].
      rewrite example_unit_distance. lra.
    + destruct (Hradius eq_refl) as (ds & _ & Hsum).
      exists J', ds. split; [exact Hrun|exact Hsum].
Defined.

Lemma disk_lattice_jacobian_vector_columns_witness :
  exists J',
    SyntheticDiskLattice.jacobian example_refined_lattice
      (example_refined_vector 0) example_mesh (zero_jacobian 2 9)
    = (J', Ok tt)
    /\ col_entry J' 0 1 - col_entry (zero_jacobian 2 9) 0 1
       = Rsum [2 * SyntheticDiskLattice.dx 2 1 4
                     (fst (peak_center 0 0 1 0 0 1 (0, 0)%Z))
                     (snd (peak_center 0 0 1 0 0 1 (0, 0)%Z)) 1 0
                     (np.maximum (5 / 10) (distance 1 0 0 0))]
    /\ col_entry J' 2 1 - col_entry (zero_jacobian 2 9) 2 1
       = Rsum [IZR 0
               * (2 * SyntheticDiskLattice.dx 2 1 4
                        (fst (peak_center 0 0 1 0 0 1 (0, 0)%Z))
                        (snd (peak_center 0 0 1 0 0 1 (0, 0)%Z)) 1 0
                        (np.maximum (5 / 10) (distance 1 0 0 0)))].
Proof.
  destruct (disk_lattice_jacobian_vector_columns example_refined_lattice
              (example_refined_vector 0) example_mesh 0 0 1 0 0 1 1 4
              (fun _ => 2) 2 9 (zero_jacobian 2 9)
              (example_refined_values 0) example_refined_offsets
              eq_refl eq_refl eq_refl eq_refl)
    as (J' & Hrun & Hcol); [lra|exact example_zero_jacobian|].
  destruct (Hcol 1%nat 1 0 eq_refl eq_refl) as (Hx & Hux & _).
  exists J'. split; [exact Hrun|]. split; [exact Hx|exact Hux].
Defined.

Lemma disk_lattice_forward_bounds_witness :
  exists DP' gain,
    SyntheticDiskLattice.func example_refined_lattice
      (example_refined_vector 0) example_mesh (mk_ndarray (2, 1)%nat [0; 0])
    = (DP', Ok tt)
    /\ nth_error (ravel DP') 1 = Some (0 + gain)
    /\ Rsum [2] / (1 + exp 20) <= gain <= Rsum [2].
Proof.
  destruct (disk_lattice_forward_bounds example_refined_lattice
              (example_refined_vector 0) example_mesh
              (mk_ndarray (2, 1)%nat [0; 0]) 0 0 1 0 0 1 1 4 (fun _ => 2)
              (example_refined_values 0))
    as (DP' & Hrun & Hpix); try reflexivity.
  - intros uv _. lra.
  - lra.
  - destruct (Hpix 1%nat 1 0 0 eq_refl eq_refl eq_refl)
      as (gain & Hnth & Hbounds).
    exists DP', gain. split; [exact Hrun|]. split; [exact Hnth|exact Hbounds].
Defined.

(** ** Constructing the kernel lattices *)

Lemma kernel_prune_loop_as_disk (wpf : WPF) (exclude_indices : list (Z * Z))
    (intensity_0 : R) (grid : list (Z * Z)) :
  forall params,
    KernelDiskLattice.prune_loop wpf exclude_indices intensity_0 grid params
    = SyntheticDiskLattice.prune_loop
        (global_x0 (wpf_static_data wpf)) (global_y0 (wpf_static_data wpf))
        (Q_Nx (wpf_static_data wpf)) (Q_Ny (wpf_static_data wpf))
        exclude_indices intensity_0 grid params.
Proof.
  induction grid as [|[u v] grid IH]; intros params; [reflexivity|].
  cbn [KernelDiskLattice.prune_loop SyntheticDiskLattice.prune_loop].
  cbv zeta. unfold rbind.
  destruct (getitem params "ux"); [|reflexivity].
  destruct (getitem params "vx"); [|reflexivity].
  destruct (getitem params "uy"); [|reflexivity].
  destruct (getitem params "vy"); [|reflexivity].
  destruct (excluded exclude_indices u v); [rewrite IH; reflexivity|].
  destruct (outside _ _ _ _); [rewrite IH; reflexivity|].
  destruct (Param.__init__ (Num intensity_0) None None); [|reflexivity].
  rewrite IH. reflexivity.
Qed.

Lemma kernel_setup_negative (wpf : WPF) (probe_kernel : ndarray R)
    (ux uy vx vy : R) (u_max v_max : Z) :
  (u_max < 0 \/ v_max < 0)%Z ->
  kernel_lattice_setup wpf probe_kernel ux uy vx vy u_max v_max
  = Raise ValueError.
Proof.
  intros H. unfold kernel_lattice_setup.
  rewrite (mgrid_negative u_max v_max H). reflexivity.
Qed.

Lemma kernel_setup_zero (wpf : WPF) (probe_kernel : ndarray R)
    (ux uy vx vy : R) (u_max v_max : Z) :
  (0 <= u_max)%Z -> (0 <= v_max)%Z ->
  (Q_Nx (wpf_static_data wpf) = 0 \/ Q_Ny (wpf_static_data wpf) = 0)%nat ->
  kernel_lattice_setup wpf probe_kernel ux uy vx vy u_max v_max
  = Raise ZeroDivisionError.
Proof.
  intros Hu Hv H. unfold kernel_lattice_setup.
  rewrite (mgrid_ok u_max v_max Hu Hv).
  cbn [Param.__init__ Param.set_params rbind].
  destruct (Q_Ny (wpf_static_data wpf)) as [|ny]; [reflexivity|].
  destruct H as [H|H]; [|discriminate].
  rewrite H. reflexivity.
Qed.

Lemma kernel_setup_ok (wpf : WPF) (probe_kernel : ndarray R)
    (ux uy vx vy : R) (u_max v_max : Z) :
  (0 <= u_max)%Z -> (0 <= v_max)%Z ->
  (0 < Q_Nx (wpf_static_data wpf))%nat ->
  (0 < Q_Ny (wpf_static_data wpf))%nat ->
  exists setup,
    kernel_lattice_setup wpf probe_kernel ux uy vx vy u_max v_max = Ok setup
    /\ ks_params setup
       = [("ux", free_parameter ux); ("uy", free_parameter uy);
          ("vx", free_parameter vx); ("vy", free_parameter vy)]%string
    /\ ks_grid setup = index_grid u_max v_max
    /\ shape (ks_probe_kernelFT setup) = shape probe_kernel
    /\ shape (ks_xqArray setup)
       = (Q_Nx (wpf_static_data wpf), Q_Ny (wpf_static_data wpf))
    /\ shape (ks_yqArray setup)
       = (Q_Nx (wpf_static_data wpf), Q_Ny (wpf_static_data wpf)).
Proof.
  intros Hu Hv Hx Hy. unfold kernel_lattice_setup.
  rewrite (mgrid_ok u_max v_max Hu Hv).
  cbn [Param.__init__ Param.set_params rbind].
  destruct (Q_Ny (wpf_static_data wpf)) as [|ny]; [lia|].
  destruct (Q_Nx (wpf_static_data wpf)) as [|nx]; [lia|].
  unfold fft.fftfreq. cbn [rbind].
  eexists. split; [reflexivity|]. repeat split.
Qed.

Lemma fresh_lattice_vector_keys (u v : Z) :
  ~ In (intensity_key u v) ["ux"; "uy"; "vx"; "vy"]%string.
Proof.
  cbn [In].
  intros [H|[H|[H|[H|[]]]]]; revert H;
    eapply literal_not_intensity_key; first [reflexivity|discriminate].
Qed.

(** X18: the constructor of the incoherent kernel lattice, for a non-empty
    probe kernel.  It raises the ValueError of [np.mgrid] when a maximum
    index is negative.  With both maxima non-negative it raises
    ZeroDivisionError when the pattern has no rows or no columns, and
    otherwise returns an object: the retained peaks are the generated pairs
    that are not excluded and whose predicted centre, around the engine's
    pattern centre, lies inside the pattern; the parameters are the four
    lattice-vector components followed by one Intensity per retained peak,
    in order; the object has no Jacobian; and the frequency meshes have the
    shape of the pattern. *)
Theorem kernel_lattice_init_outcomes
    (wpf : WPF) (probe_kernel : ndarray R) (ux uy vx vy : R)
    (u_max v_max : Z) (intensity_0 : R) (exclude_indices : list (Z * Z))
    (name : string) :
  let sd := wpf_static_data wpf in
  let kept := kernel_peaks wpf ux uy vx vy u_max v_max exclude_indices in
  (0 < fst (shape probe_kernel))%nat -> (0 < snd (shape probe_kernel))%nat ->
  ((u_max < 0 \/ v_max < 0)%Z ->
   KernelDiskLattice.__init__ wpf probe_kernel ux uy vx vy u_max v_max
     intensity_0 exclude_indices name = Raise ValueError)
  /\ ((0 <= u_max)%Z -> (0 <= v_max)%Z ->
      (Q_Nx sd = 0 \/ Q_Ny sd = 0)%nat ->
      KernelDiskLattice.__init__ wpf probe_kernel ux uy vx vy u_max v_max
        intensity_0 exclude_indices name = Raise ZeroDivisionError)
  /\ ((0 <= u_max)%Z -> (0 <= v_max)%Z ->
      (0 < Q_Nx sd)%nat -> (0 < Q_Ny sd)%nat ->
      exists self,
        KernelDiskLattice.__init__ wpf probe_kernel ux uy vx vy u_max v_max
          intensity_0 exclude_indices name = Ok self
        /\ combine (KernelDiskLattice.u_inds self)
                   (KernelDiskLattice.v_inds self) = kept
        /\ WPFModelPrototype.params (KernelDiskLattice.base self)
           = [("ux", free_parameter ux); ("uy", free_parameter uy);
              ("vx", free_parameter vx); ("vy", free_parameter vy)]%string
             ++ map (fun uv => (intensity_key (fst uv) (snd uv),
                                free_parameter intensity_0)) kept
        /\ WPFModelPrototype.nParams (KernelDiskLattice.base self)
           = (4 + List.length kept)%nat
        /\ WPFModelPrototype.hasJacobian (KernelDiskLattice.base self) = false
        /\ WPFModelPrototype.model_type (KernelDiskLattice.base self)
           = LATTICE
        /\ shape (KernelDiskLattice.probe_kernelFT self) = shape probe_kernel
        /\ shape (KernelDiskLattice.xqArray self) = (Q_Nx sd, Q_Ny sd)
        /\ shape (KernelDiskLattice.yqArray self) = (Q_Nx sd, Q_Ny sd)).
Proof.
  intros sd kept _ _. split; [|split].
  - intros H. unfold KernelDiskLattice.__init__.
    rewrite (kernel_setup_negative wpf probe_kernel ux uy vx vy u_max v_max H).
    reflexivity.
  - intros Hu Hv H. unfold KernelDiskLattice.__init__.
    rewrite (kernel_setup_zero wpf probe_kernel ux uy vx vy u_max v_max
               Hu Hv H).
    reflexivity.
  - intros Hu Hv Hx Hy.
    destruct (kernel_setup_ok wpf probe_kernel ux uy vx vy u_max v_max
                Hu Hv Hx Hy)
      as (setup & E & Hparams & Hgrid & HFT & Hxq & Hyq).
    unfold KernelDiskLattice.__init__. rewrite E. cbn [rbind].
    rewrite Hparams, Hgrid, kernel_prune_loop_as_disk.
    rewrite (disk_prune_loop_spec _ _ _ _ _ _
               (free_parameter ux) (free_parameter uy)
               (free_parameter vx) (free_parameter vy)
               (index_grid u_max v_max) (NoDup_index_grid u_max v_max));
      try reflexivity.
    + cbn [rbind fst snd]. eexists. split; [reflexivity|].
      cbn [KernelDiskLattice.u_inds KernelDiskLattice.v_inds
           KernelDiskLattice.base KernelDiskLattice.probe_kernelFT
           KernelDiskLattice.xqArray KernelDiskLattice.yqArray
           WPFModelPrototype.__init__ WPFModelPrototype.params
           WPFModelPrototype.nParams WPFModelPrototype.hasJacobian
           WPFModelPrototype.model_type defines_jacobian].
      rewrite !select_kept_filter, combine_fst_snd.
      cbn [free_parameter Param.initial_value].
      fold sd. fold (kernel_peaks wpf ux uy vx vy u_max v_max exclude_indices).
      fold kept.
      split; [reflexivity|]. split; [reflexivity|]. split.
      { unfold keys. rewrite length_map, length_app, length_map. reflexivity. }
      repeat split; assumption.
    + intros [u v] _. apply fresh_lattice_vector_keys.
Qed.

Lemma kernel_lattice_init_outcomes_witness :
  (exists self,
      KernelDiskLattice.__init__ example_engine (one_pixel 1) 1 0 0 1 1 0 1 []
        "Custom Kernel Disk Lattice" = Ok self
      /\ combine (KernelDiskLattice.u_inds self)
                 (KernelDiskLattice.v_inds self)
         = kernel_peaks example_engine 1 0 0 1 1 0 [])
  /\ KernelDiskLattice.__init__ example_engine (one_pixel 1) 1 0 0 1 1 (-1) 1
       [] "Custom Kernel Disk Lattice" = Raise ValueError.
Proof.
  split.
  - destruct (proj2 (proj2 (kernel_lattice_init_outcomes example_engine
                              (one_pixel 1) 1 0 0 1 1 0 1 []
                              "Custom Kernel Disk Lattice"
                              (le_n 1) (le_n 1)))
                    ltac:(lia) ltac:(lia) (le_n 1) (le_n 1))
      as (self & Hinit & Hpeaks & _).
    exists self. split; [exact Hinit|exact Hpeaks].
  - apply (proj1 (kernel_lattice_init_outcomes example_engine
                    (one_pixel 1) 1 0 0 1 1 (-1) 1 []
                    "Custom Kernel Disk Lattice" (le_n 1) (le_n 1))).
    lia.
Defined.

Lemma literal_not_phase_key (k rest : string) (c : ascii) (u v : Z) :
  k = String c rest -> c <> "["%char -> k <> phase_key u v.
Proof.
  intros -> Hc E. destruct (phase_key_head u v) as [r Hr].
  rewrite Hr in E. injection E as E _. contradiction.
Qed.

Section CoherentLatticeInit.

Variables (wpf : WPF) (exclude_indices : list (Z * Z)) (intensity_0 : R).
Variables (pux puy pvx pvy : Param.t).

Let sd := wpf_static_data wpf.

Let keep : Z * Z -> bool :=
  survives exclude_indices (Q_Nx sd) (Q_Ny sd) (global_x0 sd) (global_y0 sd)
    (Param.initial_value pux) (Param.initial_value puy)
    (Param.initial_value pvx) (Param.initial_value pvy).

Let entries (uv : Z * Z) : list (string * Param.t) :=
  [(intensity_key (fst uv) (snd uv), free_parameter intensity_0);
   (phase_key (fst uv) (snd uv), phase_parameter uv)].

Lemma coherent_prune_loop_spec (grid : list (Z * Z)) :
  NoDup grid ->
  forall params,
    getitem params "ux" = Ok pux -> getitem params "uy" = Ok puy ->
    getitem params "vx" = Ok pvx -> getitem params "vy" = Ok pvy ->
    (forall uv, In uv grid ->
                ~ In (intensity_key (fst uv) (snd uv)) (keys params)
                /\ ~ In (phase_key (fst uv) (snd uv)) (keys params)) ->
    ComplexOverlapKernelDiskLattice.prune_loop wpf exclude_indices
      intensity_0 grid params
    = Ok (params ++ flat_map entries (filter keep grid),
          map (fun uv => negb (keep uv)) grid).
Proof.
  intros Hnd. induction Hnd as [|[u v] grid Hnotin Hnd IH];
    intros params Hux Huy Hvx Hvy Hfresh.
  - simpl. rewrite app_nil_r. reflexivity.
  - cbn [ComplexOverlapKernelDiskLattice.prune_loop]. cbv zeta.
    rewrite Hux, Hvx, Huy, Hvy. cbn [rbind]. cbn [filter map].
    assert (Hk : keep (u, v)
                 = negb (excluded exclude_indices u v)
                   && negb (outside (Q_Nx sd) (Q_Ny sd)
                              (global_x0 sd + IZR u * Param.initial_value pux
                                 + IZR v * Param.initial_value pvx)
                              (global_y0 sd + IZR u * Param.initial_value puy
                                 + IZR v * Param.initial_value pvy)))
      by reflexivity.
    fold sd.
    destruct (excluded exclude_indices u v); cbn [negb andb] in Hk.
    { rewrite Hk. cbn [negb rbind fst snd]. rewrite IH; auto.
      intros uv Hin. apply Hfresh. right. exact Hin. }
    destruct (outside (Q_Nx sd) (Q_Ny sd) _ _); cbn [negb andb] in Hk.
    { rewrite Hk. cbn [negb rbind fst snd]. rewrite IH; auto.
      intros uv Hin. apply Hfresh. right. exact Hin. }
    rewrite Hk. cbn [negb map flat_map].
    destruct (Hfresh (u, v) (or_introl eq_refl)) as [HfI HfP].
    cbn [fst snd] in HfI, HfP.
    change (Param.__init__ (Num intensity_0) None None)
      with (Ok (free_parameter intensity_0)).
    assert (Hph : (if (u =? 0)%Z && (v =? 0)%Z
                   then Param.__init__ (Seq [0; 0; 0]) None None
                   else Param.__init__ (Seq [1 / 100; - PI; PI]) None None)
                  = Ok (phase_parameter (u, v))).
    { unfold phase_parameter. cbn [fst snd].
      destruct ((u =? 0)%Z && (v =? 0)%Z); reflexivity. }
    cbn [rbind]. rewrite Hph. cbn [rbind fst snd].
    assert (Hset : setitem (setitem params (intensity_key u v)
                                    (free_parameter intensity_0))
                           (phase_key u v) (phase_parameter (u, v))
                   = params ++ entries (u, v)).
    { rewrite (setitem_new params) by exact HfI.
      rewrite setitem_new.
      - rewrite <- app_assoc. reflexivity.
      - rewrite keys_app, in_app_iff. cbn [keys map fst In].
        intros [H|[H|[]]]; [exact (HfP H)|].
        exact (intensity_key_not_phase_key _ _ _ _ H). }
    rewrite Hset.
    assert (Hother : forall k,
               (forall a b, k <> intensity_key a b) ->
               (forall a b, k <> phase_key a b) ->
               getitem (params ++ entries (u, v)) k = getitem params k).
    { intros k HnI HnP. rewrite <- Hset.
      rewrite getitem_setitem_other
        by (intros E; exact (HnP _ _ (eq_sym E))).
      apply getitem_setitem_other. intros E. exact (HnI _ _ (eq_sym E)). }
    rewrite IH.
    + cbn [rbind fst snd]. rewrite <- app_assoc. reflexivity.
    + rewrite Hother; [exact Hux| |]; intros a b;
        [eapply literal_not_intensity_key|eapply literal_not_phase_key];
        first [reflexivity|discriminate].
    + rewrite Hother; [exact Huy| |]; intros a b;
        [eapply literal_not_intensity_key|eapply literal_not_phase_key];
        first [reflexivity|discriminate].
    + rewrite Hother; [exact Hvx| |]; intros a b;
        [eapply literal_not_intensity_key|eapply literal_not_phase_key];
        first [reflexivity|discriminate].
    + rewrite Hother; [exact Hvy| |]; intros a b;
        [eapply literal_not_intensity_key|eapply literal_not_phase_key];
        first [reflexivity|discriminate].
    + intros [u' v'] Hin.
      destruct (Hfresh (u', v') (or_intror Hin)) as [HI HP].
      cbn [fst snd] in HI, HP |- *.
      rewrite keys_app, !in_app_iff. cbn [entries keys map fst snd In].
      split.
      * intros [H|[H|[H|[]]]].
        -- exact (HI H).
        -- apply intensity_key_inj in H as [-> ->]. contradiction.
        -- symmetry in H. exact (intensity_key_not_phase_key _ _ _ _ H).
      * intros [H|[H|[H|[]]]].
        -- exact (HP H).
        -- exact (intensity_key_not_phase_key _ _ _ _ H).
        -- apply phase_key_inj in H as [-> ->]. contradiction.
Qed.

End CoherentLatticeInit.

Lemma getitem_app_fresh {V} (d d' : dict V) (k : string) :
  ~ In k (keys d) -> getitem (d ++ d') k = getitem d' k.
Proof.
  induction d as [|[k' v'] d IH]; intros H; [reflexivity|].
  cbn [app getitem]. cbn [keys map fst In] in H.
  destruct (String.eqb_spec k' k) as [->|_]; [tauto|].
  apply IH. tauto.
Qed.

Lemma getitem_phase_entries (intensity_0 : R) (kept : list (Z * Z))
    (u v : Z) :
  In (u, v) kept ->
  getitem (flat_map (fun uv =>
             [(intensity_key (fst uv) (snd uv), free_parameter intensity_0);
              (phase_key (fst uv) (snd uv), phase_parameter uv)]) kept)
          (phase_key u v)
  = Ok (phase_parameter (u, v)).
Proof.
  induction kept as [|[u' v'] kept IH]; intros Hin; [contradiction|].
  cbn [flat_map app getitem fst snd].
  destruct (String.eqb_spec (intensity_key u' v') (phase_key u v)) as [E|_];
    [exfalso; exact (intensity_key_not_phase_key _ _ _ _ E)|].
  destruct (String.eqb_spec (phase_key u' v') (phase_key u v)) as [E|Hne].
  - apply phase_key_inj in E as [-> ->]. reflexivity.
  - destruct Hin as [Hin|Hin]; [injection Hin as -> ->; contradiction|].
    apply IH, Hin.
Qed.

(** X19: the constructor of the coherent kernel lattice, for a non-empty
    probe kernel.  It raises the ValueError of [np.mgrid] when a maximum
    index is negative.  With both maxima non-negative it raises
    ZeroDivisionError when the pattern has no rows or no columns, and
    otherwise returns an object that retains the same peaks as the
    incoherent lattice, has no Jacobian, and registers the four
    lattice-vector components followed, for every retained peak in order,
    by its Intensity and then its Phase, so that it counts 4 + 2 n
    parameters; the Phase of every retained peak other than the direct beam
    is Parameter(0.01, -pi, pi). *)
Theorem coherent_lattice_init_outcomes
    (wpf : WPF) (probe_kernel : ndarray R) (ux uy vx vy : R)
    (u_max v_max : Z) (intensity_0 : R) (exclude_indices : list (Z * Z))
    (name : string) :
  let sd := wpf_static_data wpf in
  let kept := kernel_peaks wpf ux uy vx vy u_max v_max exclude_indices in
  (0 < fst (shape probe_kernel))%nat -> (0 < snd (shape probe_kernel))%nat ->
  ((u_max < 0 \/ v_max < 0)%Z ->
   ComplexOverlapKernelDiskLattice.__init__ wpf probe_kernel ux uy vx vy
     u_max v_max intensity_0 exclude_indices name = Raise ValueError)
  /\ ((0 <= u_max)%Z -> (0 <= v_max)%Z ->
      (Q_Nx sd = 0 \/ Q_Ny sd = 0)%nat ->
      ComplexOverlapKernelDiskLattice.__init__ wpf probe_kernel ux uy vx vy
        u_max v_max intensity_0 exclude_indices name
      = Raise ZeroDivisionError)
  /\ ((0 <= u_max)%Z -> (0 <= v_max)%Z ->
      (0 < Q_Nx sd)%nat -> (0 < Q_Ny sd)%nat ->
      exists self,
        let base := ComplexOverlapKernelDiskLattice.base self in
        ComplexOverlapKernelDiskLattice.__init__ wpf probe_kernel ux uy vx vy
          u_max v_max intensity_0 exclude_indices name = Ok self
        /\ combine (ComplexOverlapKernelDiskLattice.u_inds self)
                   (ComplexOverlapKernelDiskLattice.v_inds self) = kept
        /\ keys (WPFModelPrototype.params base)
           = ["ux"; "uy"; "vx"; "vy"]%string
             ++ flat_map (fun uv => [intensity_key (fst uv) (snd uv);
                                     phase_key (fst uv) (snd uv)]) kept
        /\ WPFModelPrototype.nParams base = (4 + 2 * List.length kept)%nat
        /\ WPFModelPrototype.hasJacobian base = false
        /\ (forall u v, In (u, v) kept ->
              getitem (WPFModelPrototype.params base) (phase_key u v)
              = Ok (phase_parameter (u, v)))
        /\ (forall u v, In (u, v) kept -> (u, v) <> (0, 0)%Z ->
              getitem (WPFModelPrototype.params base) (phase_key u v)
              = Ok (Param.mk (1 / 100) (Finite (- PI)) (Finite PI) None))).
Proof.
  intros sd kept _ _. split; [|split].
  - intros H. unfold ComplexOverlapKernelDiskLattice.__init__.
    rewrite (kernel_setup_negative wpf probe_kernel ux uy vx vy u_max v_max H).
    reflexivity.
  - intros Hu Hv H. unfold ComplexOverlapKernelDiskLattice.__init__.
    rewrite (kernel_setup_zero wpf probe_kernel ux uy vx vy u_max v_max
               Hu Hv H).
    reflexivity.
  - intros Hu Hv Hx Hy.
    destruct (kernel_setup_ok wpf probe_kernel ux uy vx vy u_max v_max
                Hu Hv Hx Hy)
      as (setup & E & Hparams & Hgrid & HFT & Hxq & Hyq).
    unfold ComplexOverlapKernelDiskLattice.__init__. rewrite E. cbn [rbind].
    rewrite Hparams, Hgrid.
    rewrite (coherent_prune_loop_spec wpf exclude_indices intensity_0
               (free_parameter ux) (free_parameter uy)
               (free_parameter vx) (free_parameter vy)
               (index_grid u_max v_max) (NoDup_index_grid u_max v_max));
      try reflexivity.
    + cbn [rbind fst snd]. eexists. cbv zeta. split; [reflexivity|].
      cbn [ComplexOverlapKernelDiskLattice.u_inds
           ComplexOverlapKernelDiskLattice.v_inds
           ComplexOverlapKernelDiskLattice.base
           WPFModelPrototype.__init__ WPFModelPrototype.params
           WPFModelPrototype.nParams WPFModelPrototype.hasJacobian
           defines_jacobian].
      rewrite !select_kept_filter, combine_fst_snd.
      cbn [free_parameter Param.initial_value].
      fold sd. fold (kernel_peaks wpf ux uy vx vy u_max v_max exclude_indices).
      fold kept.
      assert (Hkeys : keys ([("ux", free_parameter ux);
                             ("uy", free_parameter uy);
                             ("vx", free_parameter vx);
                             ("vy", free_parameter vy)]%string
                            ++ flat_map (fun uv =>
                                 [(intensity_key (fst uv) (snd uv),
                                   free_parameter intensity_0);
                                  (phase_key (fst uv) (snd uv),
                                   phase_parameter uv)]) kept)
                      = ["ux"; "uy"; "vx"; "vy"]%string
                        ++ flat_map (fun uv =>
                             [intensity_key (fst uv) (snd uv);
                              phase_key (fst uv) (snd uv)]) kept).
      { rewrite keys_app. f_equal. clear.
        induction kept as [|uv kept IH]; [reflexivity|].
        cbn [flat_map app keys map fst]. unfold keys in IH. rewrite IH.
        reflexivity. }
      assert (Hphase : forall u v, In (u, v) kept ->
                 getitem ([("ux", free_parameter ux);
                           ("uy", free_parameter uy);
                           ("vx", free_parameter vx);
                           ("vy", free_parameter vy)]%string
                          ++ flat_map (fun uv =>
                               [(intensity_key (fst uv) (snd uv),
                                 free_parameter intensity_0);
                                (phase_key (fst uv) (snd uv),
                                 phase_parameter uv)]) kept)
                         (phase_key u v)
                 = Ok (phase_parameter (u, v))).
      { intros u v Hin. rewrite getitem_app_fresh.
        - apply getitem_phase_entries, Hin.
        - cbn [keys map fst In].
          intros [H|[H|[H|[H|[]]]]]; revert H;
            eapply literal_not_phase_key; first [reflexivity|discriminate]. }
      split; [reflexivity|]. split; [exact Hkeys|]. split.
      { transitivity
          (List.length (["ux"; "uy"; "vx"; "vy"]%string
                        ++ flat_map (fun uv =>
                             [intensity_key (fst uv) (snd uv);
                              phase_key (fst uv) (snd uv)]) kept));
          [f_equal; exact Hkeys|].
        rewrite length_app. cbn [List.length]. f_equal. clear.
        induction kept as [|uv kept IH]; [reflexivity|].
        cbn [flat_map app List.length]. rewrite IH. lia. }
      split; [reflexivity|]. split; [exact Hphase|].
      intros u v Hin Hne. etransitivity; [exact (Hphase u v Hin)|].
      unfold phase_parameter. cbn [fst snd].
      destruct (Z.eqb_spec u 0) as [->|_]; [|reflexivity].
      destruct (Z.eqb_spec v 0) as [->|_]; [|reflexivity].
      contradiction Hne. reflexivity.
    + intros [u v] _. cbn [fst snd keys map In]. split.
      * intros [H|[H|[H|[H|[]]]]]; revert H;
          eapply literal_not_intensity_key; first [reflexivity|discriminate].
      * intros [H|[H|[H|[H|[]]]]]; revert H;
          eapply literal_not_phase_key; first [reflexivity|discriminate].
Qed.

Lemma coherent_lattice_init_outcomes_witness :
  (exists self,
      ComplexOverlapKernelDiskLattice.__init__ example_engine (one_pixel 1)
        1 0 0 1 1 0 1 [] "Complex Overlapped Disk Lattice" = Ok self
      /\ WPFModelPrototype.nParams
           (ComplexOverlapKernelDiskLattice.base self)
         = (4 + 2 * List.length
                      (kernel_peaks example_engine 1 0 0 1 1 0 []))%nat)
  /\ ComplexOverlapKernelDiskLattice.__init__ example_engine (one_pixel 1)
       1 0 0 1 1 (-1) 1 [] "Complex Overlapped Disk Lattice"
     = Raise ValueError.
Proof.
  split.
  - destruct (proj2 (proj2 (coherent_lattice_init_outcomes example_engine
                              (one_pixel 1) 1 0 0 1 1 0 1 []
                              "Complex Overlapped Disk Lattice"
                              (le_n 1) (le_n 1)))
                    ltac:(lia) ltac:(lia) (le_n 1) (le_n 1))
      as (self & Hinit & _ & _ & Hn & _).
    exists self. split; [exact Hinit|exact Hn].
  - apply (proj1 (coherent_lattice_init_outcomes example_engine
                    (one_pixel 1) 1 0 0 1 1 (-1) 1 []
                    "Complex Overlapped Disk Lattice" (le_n 1) (le_n 1))).
    lia.
Defined.

(** ** Running the kernel lattices *)

Lemma padd_of_pixels (DP DP' : ndarray R) (g : nat -> R) :
  shape DP' = shape DP ->
  List.length (ravel DP') = List.length (ravel DP) ->
  (forall p d, nth_error (ravel DP) p = Some d ->
               nth_error (ravel DP') p = Some (d + g p)) ->
  DP' = padd DP (map g (seq 0 (List.length (ravel DP)))).
Proof.
  intros Hs Hl Hp. destruct DP' as [s' r']. cbn [shape ravel] in *.
  unfold padd. f_equal; [exact Hs|].
  apply nth_error_ext. intros p.
  destruct (nth_error (ravel DP) p) as [d|] eqn:Ed.
  - rewrite (Hp p d Ed). symmetry.
    apply nth_error_zip_with; [exact Ed|].
    assert (Hlt : (p < List.length (ravel DP))%nat)
      by (apply nth_error_Some; congruence).
    rewrite nth_error_map, (nth_error_nth_some _ p 0%nat)
      by (rewrite length_seq; exact Hlt).
    rewrite seq_nth by exact Hlt. reflexivity.
  - apply nth_error_None in Ed.
    transitivity (@None R).
    + apply nth_error_None. lia.
    + symmetry. apply nth_error_None. rewrite zip_with_length. lia.
Qed.

Lemma incoherent_run (self : KernelDiskLattice.t) (args : list R)
    (kwargs : static_data) (DP : ndarray R) :
  shape (KernelDiskLattice.xqArray self)
  = shape (KernelDiskLattice.yqArray self) ->
  shape (KernelDiskLattice.probe_kernelFT self)
  = shape (KernelDiskLattice.xqArray self) ->
  shape DP = shape (KernelDiskLattice.probe_kernelFT self) ->
  well_formed DP ->
  (6 + List.length (combine (KernelDiskLattice.u_inds self)
                            (KernelDiskLattice.v_inds self))
   <= List.length args)%nat ->
  KernelDiskLattice.local_center_func self args kwargs DP
  = (padd DP (map (incoherent_gain self args)
                  (seq 0 (List.length (ravel DP)))), Ok tt).
Proof.
  intros Hq Hp HDP Hwf Hlen.
  unfold KernelDiskLattice.local_center_func.
  rewrite bind_lift, getindex_nth by lia.
  rewrite bind_lift, getindex_nth by lia.
  rewrite bind_lift, getindex_nth by lia.
  rewrite bind_lift, getindex_nth by lia.
  rewrite bind_lift, getindex_nth by lia.
  rewrite bind_lift, getindex_nth by lia.
  fold (enumerate_peaks (KernelDiskLattice.u_inds self)
                        (KernelDiskLattice.v_inds self)).
  destruct (kernel_loop_adds self args (nth 0 args 0) (nth 1 args 0)
              (nth 2 args 0) (nth 3 args 0) (nth 4 args 0) (nth 5 args 0)
              (enumerate_peaks (KernelDiskLattice.u_inds self)
                               (KernelDiskLattice.v_inds self)) Hq Hp
              (enumerate_peaks_bound _ _ args 6%nat Hlen)
              DP HDP Hwf) as (DP' & E & Hs & Hwf' & Hpix).
  rewrite E. f_equal.
  apply padd_of_pixels; [exact Hs| |].
  - unfold well_formed in *. rewrite Hwf', Hs, Hwf. reflexivity.
  - intros p d Hd. rewrite (Hpix p d Hd). unfold incoherent_gain.
    do 3 f_equal. apply map_ext. intros [i [u v]]. reflexivity.
Qed.

Lemma coherent_run (self : ComplexOverlapKernelDiskLattice.t)
    (args : list R) (kwargs : static_data) (DP : ndarray R) :
  shape (ComplexOverlapKernelDiskLattice.xqArray self)
  = shape (ComplexOverlapKernelDiskLattice.yqArray self) ->
  shape (ComplexOverlapKernelDiskLattice.probe_kernelFT self)
  = shape (ComplexOverlapKernelDiskLattice.xqArray self) ->
  shape DP = shape (ComplexOverlapKernelDiskLattice.probe_kernelFT self) ->
  well_formed DP ->
  (6 + 2 * List.length (combine (ComplexOverlapKernelDiskLattice.u_inds self)
                                (ComplexOverlapKernelDiskLattice.v_inds self))
   <= List.length args)%nat ->
  ComplexOverlapKernelDiskLattice.local_center_func self args kwargs DP
  = (padd DP (map (coherent_gain self args)
                  (seq 0 (List.length (ravel DP)))), Ok tt).
Proof.
  intros Hq Hp HDP Hwf Hlen.
  unfold ComplexOverlapKernelDiskLattice.local_center_func.
  rewrite bind_lift, getindex_nth by lia.
  rewrite bind_lift, getindex_nth by lia.
  rewrite bind_lift, getindex_nth by lia.
  rewrite bind_lift, getindex_nth by lia.
  rewrite bind_lift, getindex_nth by lia.
  rewrite bind_lift, getindex_nth by lia.
  fold (enumerate_peaks (ComplexOverlapKernelDiskLattice.u_inds self)
          (ComplexOverlapKernelDiskLattice.v_inds self)).
  set (peaks := enumerate_peaks (ComplexOverlapKernelDiskLattice.u_inds self)
                  (ComplexOverlapKernelDiskLattice.v_inds self)).
  assert (Hb : forall i uv, In (i, uv) peaks ->
                            (2 * i + 7 < List.length args)%nat).
  { intros i uv Hin. apply in_enumerate_bound in Hin. lia. }
  destruct (coherent_loop_adds self args (nth 0 args 0) (nth 1 args 0)
              (nth 2 args 0) (nth 3 args 0) (nth 4 args 0) (nth 5 args 0)
              peaks Hq Hp Hb (np.zeros_like Cx.zero DP))
    as (L & E & Hs & HwfL & Hpix).
  { exact HDP. }
  { unfold well_formed, np.zeros_like, np.amap. cbn [ravel shape].
    rewrite length_map. exact Hwf. }
  unfold bind at 1. unfold with_local. rewrite E.
  unfold np.iadd, np.azip. cbn [np.amap shape].
  assert (HsL : shape DP = shape L) by (rewrite Hs; reflexivity).
  rewrite (shape_eqb_eq _ _ HsL). f_equal.
  apply padd_of_pixels; [reflexivity| |].
  - cbn [ravel np.amap]. rewrite zip_with_length, length_map.
    unfold well_formed in *. rewrite HwfL, <- HsL, <- Hwf. apply Nat.min_id.
  - intros p d Hd. cbn [ravel].
    assert (Hz : nth_error (ravel (np.zeros_like Cx.zero DP)) p
                 = Some Cx.zero).
    { unfold np.zeros_like, np.amap. cbn [ravel].
      rewrite nth_error_map, Hd. reflexivity. }
    apply nth_error_zip_with; [exact Hd|]. cbn [ravel np.amap].
    rewrite nth_error_map, (Hpix p _ Hz), Cx_add_zero_l. cbn [option_map].
    unfold coherent_gain. fold peaks. do 4 f_equal. apply map_ext.
    intros [i [u v]]. reflexivity.
Qed.

(** *** Rearranging the positional arguments *)

Lemma nth_head_kept {A} (n k : nat) (l r : list A) (d : A) :
  (k < n)%nat -> (n <= List.length l)%nat ->
  nth k (firstn n l ++ r) d = nth k l d.
Proof.
  intros Hk Hn. rewrite app_nth1 by (rewrite length_firstn; lia).
  revert k l Hk Hn. induction n as [|n IH]; intros k l Hk Hn; [lia|].
  destruct l as [|a l]; [simpl in Hn; lia|].
  destruct k as [|k]; [reflexivity|].
  cbn [firstn nth]. apply IH; simpl in Hn; lia.
Qed.

Lemma nth_tail_moved {A} (n i : nat) (l r : list A) (d : A) :
  (n <= List.length l)%nat ->
  nth (i + n) (firstn n l ++ r) d = nth i r d.
Proof.
  intros Hn. rewrite app_nth2 by (rewrite length_firstn; lia).
  rewrite length_firstn. f_equal. lia.
Qed.

Lemma nth_of_skipn {A} (n i : nat) (l : list A) (d : A) :
  nth i (skipn n l) d = nth (i + n) l d.
Proof.
  revert l. induction n as [|n IH]; intros l.
  - rewrite Nat.add_0_r. reflexivity.
  - destruct l as [|a l].
    + destruct i; reflexivity.
    + cbn [skipn]. rewrite IH. rewrite Nat.add_succ_r. reflexivity.
Qed.

Lemma nth_map_opp (i : nat) (l : list R) :
  nth i (map Ropp l) 0 = - nth i l 0.
Proof.
  rewrite <- (map_nth Ropp l 0 i). f_equal. lra.
Qed.

Lemma shift_pairs_length (phi : R) (pairs : list R) :
  List.length (shift_pairs phi pairs) = List.length pairs.
Proof.
  revert pairs.
  assert (H : forall n pairs, (List.length pairs <= n)%nat ->
                List.length (shift_pairs phi pairs) = List.length pairs).
  { induction n as [|n IH]; intros [|a [|ph rest]] Hn; try reflexivity.
    - simpl in Hn. lia.
    - cbn [shift_pairs List.length]. rewrite IH; [reflexivity|].
      simpl in Hn. lia. }
  intros pairs. apply (H (List.length pairs)). lia.
Qed.

Lemma shift_pairs_nth (phi : R) (i : nat) :
  forall pairs,
    nth (2 * i) (shift_pairs phi pairs) 0 = nth (2 * i) pairs 0
    /\ ((2 * i + 1 < List.length pairs)%nat ->
        nth (2 * i + 1) (shift_pairs phi pairs) 0
        = nth (2 * i + 1) pairs 0 + phi).
Proof.
  induction i as [|i IH]; intros [|a [|ph rest]]; cbn [shift_pairs].
  - split; [reflexivity|]. simpl. lia.
  - split; [reflexivity|]. simpl. lia.
  - split; reflexivity.
  - split; [reflexivity|]. simpl. lia.
  - split; [reflexivity|]. simpl. lia.
  - replace (2 * S i)%nat with (S (S (2 * i))) by lia.
    replace (S (S (2 * i)) + 1)%nat with (S (S (2 * i + 1))) by lia.
    cbn [nth List.length]. destruct (IH rest) as [H0 H1].
    split; [exact H0|]. intros Hlt. apply H1. lia.
Qed.

Lemma shift_phases_length (phi : R) (args : list R) :
  List.length (shift_phases phi args) = List.length args.
Proof.
  unfold shift_phases. rewrite length_app, shift_pairs_length.
  rewrite <- length_app, firstn_skipn. reflexivity.
Qed.

Lemma shift_phases_nth (phi : R) (args : list R) :
  (6 <= List.length args)%nat ->
  (forall k, (k < 6)%nat -> nth k (shift_phases phi args) 0 = nth k args 0)
  /\ (forall i, nth (2 * i + 6) (shift_phases phi args) 0
                = nth (2 * i + 6) args 0)
  /\ (forall i, (2 * i + 7 < List.length args)%nat ->
                nth (2 * i + 7) (shift_phases phi args) 0
                = nth (2 * i + 7) args 0 + phi).
Proof.
  intros Hlen. unfold shift_phases. split; [|split].
  - intros k Hk. apply nth_head_kept; assumption.
  - intros i. rewrite nth_tail_moved by exact Hlen.
    rewrite (proj1 (shift_pairs_nth phi i _)). apply nth_of_skipn.
  - intros i Hi. replace (2 * i + 7)%nat with (2 * i + 1 + 6)%nat by lia.
    rewrite nth_tail_moved by exact Hlen.
    rewrite (proj2 (shift_pairs_nth phi i _))
      by (rewrite length_skipn; lia).
    rewrite nth_of_skipn. reflexivity.
Qed.

(** *** Complex arithmetic *)

Lemma Cx_mul_shift (a m theta phi : R) :
  Cx.mul (Cx.mul (Cx.of_real a) (Cx.exp (Cx.j (theta + phi))))
         (Cx.of_real m)
  = Cx.mul (Cx.exp (Cx.j phi))
      (Cx.mul (Cx.mul (Cx.of_real a) (Cx.exp (Cx.j theta))) (Cx.of_real m)).
Proof.
  unfold Cx.mul, Cx.of_real, Cx.exp, Cx.j. cbn [fst snd].
  rewrite cos_plus, sin_plus, exp_0. f_equal; ring.
Qed.

Lemma Cx_sum_mul (w : complex) (zs : list complex) :
  Cx.sum (map (Cx.mul w) zs) = Cx.mul w (Cx.sum zs).
Proof.
  induction zs as [|z zs IH].
  - unfold Cx.sum, Cx.mul, Cx.zero. cbn. f_equal; ring.
  - cbn [map Cx.sum fold_right]. fold (Cx.sum (map (Cx.mul w) zs)).
    fold (Cx.sum zs). rewrite IH.
    unfold Cx.mul, Cx.add. cbn [fst snd]. f_equal; ring.
Qed.

Lemma Cx_abs_rotation (phi : R) (z : complex) :
  Cx.abs (Cx.mul (Cx.exp (Cx.j phi)) z) ^ 2 = Cx.abs z ^ 2.
Proof.
  rewrite !Cx_abs_sq. unfold Cx.mul, Cx.exp, Cx.j. cbn [fst snd].
  rewrite exp_0. pose proof (sin2_cos2 phi) as H. unfold Rsqr in H.
  replace ((1 * cos phi * fst z - 1 * sin phi * snd z) ^ 2
           + (1 * cos phi * snd z + 1 * sin phi * fst z) ^ 2)
    with ((sin phi * sin phi + cos phi * cos phi)
          * (fst z ^ 2 + snd z ^ 2)) by ring.
  rewrite H. ring.
Qed.

Lemma Rsum_nonneg (terms : list R) :
  Forall (fun t => 0 <= t) terms -> 0 <= Rsum terms.
Proof.
  induction 1 as [|t terms Ht _ IH]; cbn; [lra|].
  fold (Rsum terms). lra.
Qed.

(** X20: the kernel lattices only ever raise a pixel, and the incoherent
    lattice does not see the sign of an intensity.  When the positional
    arguments cover the geometry and the per-peak values and the arrays
    have one non-empty shape, both forward functions return normally and keep the
    shape, every pixel gains a non-negative amount whatever the values of
    the arguments, and the incoherent lattice leaves the same array when
    every argument after the sixth is negated. *)
Theorem kernel_lattices_gain_is_nonnegative
    (args : list R) (kwargs : static_data) (DP : ndarray R) :
  (0 < fst (shape DP))%nat -> (0 < snd (shape DP))%nat ->
  (forall self : KernelDiskLattice.t,
      shape (KernelDiskLattice.xqArray self)
      = shape (KernelDiskLattice.yqArray self) ->
      shape (KernelDiskLattice.probe_kernelFT self)
      = shape (KernelDiskLattice.xqArray self) ->
      shape DP = shape (KernelDiskLattice.probe_kernelFT self) ->
      well_formed DP ->
      (6 + List.length (combine (KernelDiskLattice.u_inds self)
                                (KernelDiskLattice.v_inds self))
       <= List.length args)%nat ->
      exists DP',
        KernelDiskLattice.local_center_func self args kwargs DP
        = (DP', Ok tt)
        /\ shape DP' = shape DP
        /\ (forall p d, nth_error (ravel DP) p = Some d ->
              exists gain, nth_error (ravel DP') p = Some (d + gain)
                           /\ 0 <= gain)
        /\ KernelDiskLattice.local_center_func self
             (firstn 6 args ++ map Ropp (skipn 6 args)) kwargs DP
           = (DP', Ok tt))
  /\ (forall self : ComplexOverlapKernelDiskLattice.t,
      shape (ComplexOverlapKernelDiskLattice.xqArray self)
      = shape (ComplexOverlapKernelDiskLattice.yqArray self) ->
      shape (ComplexOverlapKernelDiskLattice.probe_kernelFT self)
      = shape (ComplexOverlapKernelDiskLattice.xqArray self) ->
      shape DP = shape (ComplexOverlapKernelDiskLattice.probe_kernelFT self) ->
      well_formed DP ->
      (6 + 2 * List.length
                 (combine (ComplexOverlapKernelDiskLattice.u_inds self)
                          (ComplexOverlapKernelDiskLattice.v_inds self))
       <= List.length args)%nat ->
      exists DP',
        ComplexOverlapKernelDiskLattice.local_center_func self args kwargs DP
        = (DP', Ok tt)
        /\ shape DP' = shape DP
        /\ (forall p d, nth_error (ravel DP) p = Some d ->
              exists gain, nth_error (ravel DP') p = Some (d + gain)
                           /\ 0 <= gain)).
Proof.
  intros _ _.
  assert (Hpix : forall (g : nat -> R) p d,
             nth_error (ravel DP) p = Some d ->
             nth_error (ravel (padd DP (map g (seq 0 (List.length
                                                       (ravel DP)))))) p
             = Some (d + g p)).
  { intros g p d Hd. unfold padd. cbn [ravel].
    assert (Hlt : (p < List.length (ravel DP))%nat)
      by (apply nth_error_Some; congruence).
    apply nth_error_zip_with; [exact Hd|].
    rewrite nth_error_map, (nth_error_nth_some _ p 0%nat)
      by (rewrite length_seq; exact Hlt).
    rewrite seq_nth by exact Hlt. reflexivity. }
  split.
  - intros self Hq Hp HDP Hwf Hlen.
    rewrite (incoherent_run self args kwargs DP Hq Hp HDP Hwf Hlen).
    eexists. split; [reflexivity|]. split; [reflexivity|]. split.
    + intros p d Hd. exists (incoherent_gain self args p).
      split; [exact (Hpix _ p d Hd)|].
      unfold incoherent_gain. apply Rsum_nonneg. apply Forall_forall.
      intros t Ht. apply in_map_iff in Ht as ([i [u v]] & <- & _).
      apply pow2_ge_0.
    + rewrite incoherent_run; try assumption.
      * do 2 f_equal. apply map_ext. intros p. unfold incoherent_gain.
        f_equal. apply map_ext. intros [i [u v]].
        rewrite (nth_head_kept 6 0), (nth_head_kept 6 1), (nth_head_kept 6 2),
          (nth_head_kept 6 3), (nth_head_kept 6 4), (nth_head_kept 6 5) by lia.
        rewrite nth_tail_moved by lia. rewrite nth_map_opp, nth_of_skipn.
        ring.
      * rewrite length_app, length_map, <- length_app, firstn_skipn.
        exact Hlen.
  - intros self Hq Hp HDP Hwf Hlen.
    rewrite (coherent_run self args kwargs DP Hq Hp HDP Hwf Hlen).
    eexists. split; [reflexivity|]. split; [reflexivity|].
    intros p d Hd. exists (coherent_gain self args p).
    split; [exact (Hpix _ p d Hd)|].
    unfold coherent_gain. apply pow2_ge_0.
Qed.

Lemma kernel_lattices_gain_is_nonnegative_witness :
  exists DP' gain,
    KernelDiskLattice.local_center_func example_kernel_lattice
      [0; 0; 1; 0; 0; 1; -2] example_context (one_pixel 0) = (DP', Ok tt)
    /\ nth_error (ravel DP') 0 = Some (0 + gain) /\ 0 <= gain.
Proof.
  destruct (proj1 (kernel_lattices_gain_is_nonnegative
                     [0; 0; 1; 0; 0; 1; -2] example_context (one_pixel 0)
                     (le_n 1) (le_n 1))
                  example_kernel_lattice eq_refl eq_refl eq_refl eq_refl
                  (le_n 7))
    as (DP' & Hrun & _ & Hpix & _).
  destruct (Hpix 0%nat 0 eq_refl) as (gain & Hnth & Hpos).
  exists DP', gain. split; [exact Hrun|]. split; [exact Hnth|exact Hpos].
Defined.

(** X21: the coherent lattice does not see a common phase.  When the
    positional arguments cover the six geometry values and an Intensity and
    a Phase per retained peak and the arrays have one non-empty shape,
    advancing the Phase of every peak by the same
    angle leaves the result of the forward function unchanged. *)
Theorem coherent_lattice_ignores_global_phase
    (self : ComplexOverlapKernelDiskLattice.t) (args : list R)
    (kwargs : static_data) (DP : ndarray R) (phi : R) :
  shape (ComplexOverlapKernelDiskLattice.xqArray self)
  = shape (ComplexOverlapKernelDiskLattice.yqArray self) ->
  shape (ComplexOverlapKernelDiskLattice.probe_kernelFT self)
  = shape (ComplexOverlapKernelDiskLattice.xqArray self) ->
  shape DP = shape (ComplexOverlapKernelDiskLattice.probe_kernelFT self) ->
  well_formed DP ->
  (0 < fst (shape DP))%nat -> (0 < snd (shape DP))%nat ->
  (6 + 2 * List.length (combine (ComplexOverlapKernelDiskLattice.u_inds self)
                                (ComplexOverlapKernelDiskLattice.v_inds self))
   <= List.length args)%nat ->
  exists DP',
    ComplexOverlapKernelDiskLattice.local_center_func self args kwargs DP
    = (DP', Ok tt)
    /\ ComplexOverlapKernelDiskLattice.local_center_func self
         (shift_phases phi args) kwargs DP = (DP', Ok tt).
Proof.
  intros Hq Hp HDP Hwf _ _ Hlen.
  rewrite (coherent_run self args kwargs DP Hq Hp HDP Hwf Hlen).
  eexists. split; [reflexivity|].
  rewrite coherent_run; try assumption;
    [|rewrite shift_phases_length; exact Hlen].
  do 2 f_equal. apply map_ext. intros p. unfold coherent_gain.
  destruct (shift_phases_nth phi args) as (Hhead & Heven & Hodd); [lia|].
  rewrite <- (Cx_abs_rotation phi
                (Cx.sum (map (coherent_amplitude self args p) _))).
  rewrite <- Cx_sum_mul, map_map. do 3 f_equal.
  apply map_ext_in. intros [i [u v]] Hin.
  apply in_enumerate_bound in Hin.
  unfold coherent_amplitude.
  rewrite (Hhead 0%nat), (Hhead 1%nat), (Hhead 2%nat), (Hhead 3%nat),
    (Hhead 4%nat), (Hhead 5%nat) by lia.
  rewrite Heven, Hodd by lia.
  apply Cx_mul_shift.
Qed.

Lemma coherent_lattice_ignores_global_phase_witness :
  exists DP',
    ComplexOverlapKernelDiskLattice.local_center_func example_coherent_lattice
      [0; 0; 1; 0; 0; 1; 4; 0] example_context (one_pixel 0) = (DP', Ok tt)
    /\ ComplexOverlapKernelDiskLattice.local_center_func
         example_coherent_lattice (shift_phases 1 [0; 0; 1; 0; 0; 1; 4; 0])
         example_context (one_pixel 0) = (DP', Ok tt).
Proof.
  exact (coherent_lattice_ignores_global_phase example_coherent_lattice
           [0; 0; 1; 0; 0; 1; 4; 0] example_context (one_pixel 0) 1
           eq_refl eq_refl eq_refl eq_refl (le_n 1) (le_n 1) (le_n 8)).
Defined.

(** *** Too few positional arguments *)

Lemma for_each_stops {S A} (before after : list A) (a : A)
    (body : A -> inplace S unit) (s s1 s2 : S) (e : exn) :
  for_each before body s = (s1, Ok tt) ->
  body a s1 = (s2, Raise e) ->
  for_each (before ++ a :: after) body s = (s2, Raise e).
Proof.
  intros H1 H2. rewrite for_each_app. unfold bind at 1. rewrite H1.
  cbn [for_each]. unfold bind. rewrite H2. reflexivity.
Qed.

Lemma combine_seq_split {A} (l : list A) :
  forall k s n,
    (k < List.length l)%nat -> (k < n)%nat ->
    exists a,
      combine (seq s n) l
      = firstn k (combine (seq s n) l)
        ++ ((s + k)%nat, a) :: skipn (S k) (combine (seq s n) l)
      /\ forall j a', In (j, a') (firstn k (combine (seq s n) l)) ->
                      (j < s + k)%nat.
Proof.
  induction l as [|b l IH]; intros k s n Hk Hn; [simpl in Hk; lia|].
  destruct n as [|n]; [lia|]. destruct k as [|k].
  - exists b. cbn [seq combine firstn skipn app]. rewrite Nat.add_0_r.
    split; [reflexivity|]. intros j a' [].
  - destruct (IH k (S s) n) as (a & E & Hlt); [simpl in Hk; lia|lia|].
    exists a. cbn [seq combine firstn skipn app].
    replace (s + S k)%nat with (S s + k)%nat by lia.
    split; [f_equal; exact E|].
    intros j a' [H|H]; [injection H as <- _; lia|].
    apply Hlt in H. lia.
Qed.

Lemma enumerate_split (us vs : list Z) (k : nat) :
  (k < List.length (combine us vs))%nat ->
  exists uv,
    enumerate_peaks us vs
    = firstn k (enumerate_peaks us vs)
      ++ (k, uv) :: skipn (S k) (enumerate_peaks us vs)
    /\ forall j uv', In (j, uv') (firstn k (enumerate_peaks us vs)) ->
                     (j < k)%nat.
Proof.
  intros Hk. unfold enumerate_peaks.
  apply (combine_seq_split (combine us vs) k 0%nat (List.length us) Hk).
  rewrite length_combine in Hk. lia.
Qed.

Lemma getindex_missing (args : list R) (i : nat) :
  (List.length args <= i)%nat -> getindex args i = Raise IndexError.
Proof.
  intros H. unfold getindex.
  destruct (nth_error args i) eqn:E; [|reflexivity].
  assert (i < List.length args)%nat by (apply nth_error_Some; congruence).
  lia.
Qed.

(** X22: what the kernel lattices leave behind when positional arguments
    are missing.  With arrays of one non-empty shape, the six geometry
    values present and the value of the
    k-th retained peak the first one missing, the incoherent lattice raises
    IndexError after it has added the first k peaks to the pattern, which
    stay added; the coherent lattice, whose peaks are collected in a local
    array, raises IndexError and leaves the pattern exactly as it was. *)
Theorem kernel_lattices_with_missing_arguments
    (args : list R) (kwargs : static_data) (DP : ndarray R) (k : nat) :
  (0 < fst (shape DP))%nat -> (0 < snd (shape DP))%nat ->
  (forall self : KernelDiskLattice.t,
      let peaks := enumerate_peaks (KernelDiskLattice.u_inds self)
                                   (KernelDiskLattice.v_inds self) in
      shape (KernelDiskLattice.xqArray self)
      = shape (KernelDiskLattice.yqArray self) ->
      shape (KernelDiskLattice.probe_kernelFT self)
      = shape (KernelDiskLattice.xqArray self) ->
      shape DP = shape (KernelDiskLattice.probe_kernelFT self) ->
      well_formed DP ->
      List.length args = (6 + k)%nat ->
      (k < List.length (combine (KernelDiskLattice.u_inds self)
                                (KernelDiskLattice.v_inds self)))%nat ->
      exists DP',
        KernelDiskLattice.local_center_func self args kwargs DP
        = (DP', Raise IndexError)
        /\ shape DP' = shape DP
        /\ forall p d,
            nth_error (ravel DP) p = Some d ->
            nth_error (ravel DP') p
            = Some (d + Rsum (map (fun iuv : nat * (Z * Z) =>
                   let '(i, (u, v)) := iuv in
                   (nth (i + 6) args 0
                    * shifted_magnitude (KernelDiskLattice.probe_kernelFT self)
                        (KernelDiskLattice.xqArray self)
                        (KernelDiskLattice.yqArray self)
                        (nth 0 args 0 + IZR u * nth 2 args 0
                         + IZR v * nth 4 args 0)
                        (nth 1 args 0 + IZR u * nth 3 args 0
                         + IZR v * nth 5 args 0) p) ^ 2)
                 (firstn k peaks))))
  /\ (forall self : ComplexOverlapKernelDiskLattice.t,
      shape (ComplexOverlapKernelDiskLattice.xqArray self)
      = shape (ComplexOverlapKernelDiskLattice.yqArray self) ->
      shape (ComplexOverlapKernelDiskLattice.probe_kernelFT self)
      = shape (ComplexOverlapKernelDiskLattice.xqArray self) ->
      shape DP = shape (ComplexOverlapKernelDiskLattice.probe_kernelFT self) ->
      well_formed DP ->
      (6 + 2 * k <= List.length args < 6 + 2 * k + 2)%nat ->
      (k < List.length
             (combine (ComplexOverlapKernelDiskLattice.u_inds self)
                      (ComplexOverlapKernelDiskLattice.v_inds self)))%nat ->
      ComplexOverlapKernelDiskLattice.local_center_func self args kwargs DP
      = (DP, Raise IndexError)).
Proof.
  intros _ _. split.
  - intros self peaks Hq Hp HDP Hwf Hlen Hk.
    unfold KernelDiskLattice.local_center_func.
    rewrite bind_lift, getindex_nth by lia.
    rewrite bind_lift, getindex_nth by lia.
    rewrite bind_lift, getindex_nth by lia.
    rewrite bind_lift, getindex_nth by lia.
    rewrite bind_lift, getindex_nth by lia.
    rewrite bind_lift, getindex_nth by lia.
    fold (enumerate_peaks (KernelDiskLattice.u_inds self)
                          (KernelDiskLattice.v_inds self)).
    fold peaks.
    destruct (enumerate_split _ _ k Hk) as (uv & Esplit & Hbefore).
    fold peaks in Esplit, Hbefore.
    destruct (kernel_loop_adds self args (nth 0 args 0) (nth 1 args 0)
                (nth 2 args 0) (nth 3 args 0) (nth 4 args 0) (nth 5 args 0)
                (firstn k peaks) Hq Hp) with (DP := DP)
      as (DP' & E & Hs & _ & Hpix); try assumption.
    { intros i uv' Hin. apply Hbefore in Hin. lia. }
    exists DP'. split; [|split; [exact Hs|]].
    + rewrite Esplit. apply (for_each_stops _ _ _ _ _ DP' DP' _ E).
      destruct uv as [u v]. unfold KernelDiskLattice.local_peak.
      rewrite bind_lift, getindex_missing by lia. reflexivity.
    + intros p d Hd. rewrite (Hpix p d Hd). do 3 f_equal.
      apply map_ext. intros [i [u v]]. reflexivity.
  - intros self Hq Hp HDP Hwf Hlen Hk.
    unfold ComplexOverlapKernelDiskLattice.local_center_func.
    rewrite bind_lift, getindex_nth by lia.
    rewrite bind_lift, getindex_nth by lia.
    rewrite bind_lift, getindex_nth by lia.
    rewrite bind_lift, getindex_nth by lia.
    rewrite bind_lift, getindex_nth by lia.
    rewrite bind_lift, getindex_nth by lia.
    fold (enumerate_peaks (ComplexOverlapKernelDiskLattice.u_inds self)
            (ComplexOverlapKernelDiskLattice.v_inds self)).
    set (peaks := enumerate_peaks (ComplexOverlapKernelDiskLattice.u_inds self)
                    (ComplexOverlapKernelDiskLattice.v_inds self)).
    destruct (enumerate_split _ _ k Hk) as (uv & Esplit & Hbefore).
    fold peaks in Esplit, Hbefore.
    destruct (coherent_loop_adds self args (nth 0 args 0) (nth 1 args 0)
                (nth 2 args 0) (nth 3 args 0) (nth 4 args 0) (nth 5 args 0)
                (firstn k peaks) Hq Hp) with (localDP := np.zeros_like Cx.zero DP)
      as (L & E & _).
    { intros i uv' Hin. apply Hbefore in Hin. lia. }
    { exact HDP. }
    { unfold well_formed, np.zeros_like, np.amap. cbn [ravel shape].
      rewrite length_map. exact Hwf. }
    unfold bind at 1. unfold with_local. rewrite Esplit.
    assert (Hstop : exists L',
               ComplexOverlapKernelDiskLattice.local_peak self args
                 (nth 0 args 0) (nth 1 args 0) (nth 2 args 0) (nth 3 args 0)
                 (nth 4 args 0) (nth 5 args 0) (k, uv) L
               = (L', Raise IndexError)).
    { destruct uv as [u v].
      unfold ComplexOverlapKernelDiskLattice.local_peak.
      destruct (Nat.eq_dec (List.length args) (6 + 2 * k)) as [Heq|Hne].
      - rewrite bind_lift, getindex_missing by lia. eexists. reflexivity.
      - rewrite bind_lift, getindex_nth by lia.
        rewrite bind_lift, getindex_missing by lia. eexists. reflexivity. }
    destruct Hstop as [L' Hstop].
    rewrite (for_each_stops _ _ _ _ _ L L' _ E Hstop). reflexivity.
Qed.

Lemma kernel_lattices_with_missing_arguments_witness :
  (exists DP',
      KernelDiskLattice.local_center_func example_kernel_lattice
        [0; 0; 1; 0; 0; 1] example_context (one_pixel 0)
      = (DP', Raise IndexError)
      /\ nth_error (ravel DP') 0 = Some (0 + Rsum []))
  /\ ComplexOverlapKernelDiskLattice.local_center_func
       example_coherent_lattice [0; 0; 1; 0; 0; 1; 4] example_context
       (one_pixel 0)
     = (one_pixel 0, Raise IndexError).
Proof.
  split.
  - destruct (proj1 (kernel_lattices_with_missing_arguments
                       [0; 0; 1; 0; 0; 1] example_context (one_pixel 0) 0
                       (le_n 1) (le_n 1))
                    example_kernel_lattice eq_refl eq_refl eq_refl eq_refl
                    eq_refl (le_n 1))
      as (DP' & Hrun & _ & Hpix).
    exists DP'. split; [exact Hrun|]. exact (Hpix 0%nat 0 eq_refl).
  - apply (proj2 (kernel_lattices_with_missing_arguments
                    [0; 0; 1; 0; 0; 1; 4] example_context (one_pixel 0) 0
                    (le_n 1) (le_n 1))
                 example_coherent_lattice); try reflexivity; simpl; lia.
Defined.

(** ** The frequency meshes of the kernel lattices *)

Lemma fftfreq_samples (n : nat) :
  (0 < n)%nat -> fft.fftfreq n = Ok (map (sample_frequency n) (seq 0 n)).
Proof.
  destruct n as [|n]; [lia|]. intros _. reflexivity.
Qed.

Lemma sample_frequency_range (n i : nat) :
  (i < n)%nat -> - (1 / 2) <= sample_frequency n i < 1 / 2.
Proof.
  intros Hi. unfold sample_frequency.
  assert (Hn : 0 < INR n) by (apply lt_0_INR; lia).
  assert (Hi' : INR i < INR n) by (apply lt_INR; exact Hi).
  assert (H0 : 0 <= INR i) by apply pos_INR.
  destruct (Nat.ltb_spec i ((n - 1) / 2 + 1)) as [Hlt|Hge].
  - assert (Hnat : (2 * i + 1 <= n)%nat).
    { pose proof (Nat.Div0.mul_div_le (n - 1) 2). lia. }
    apply le_INR in Hnat. rewrite plus_INR, mult_INR in Hnat.
    cbn [INR] in Hnat. split.
    + apply Rle_trans with 0; [lra|].
      unfold Rdiv. apply Rmult_le_pos; [exact H0|].
      left. apply Rinv_0_lt_compat. exact Hn.
    + apply (Rmult_lt_reg_r (INR n)); [exact Hn|].
      unfold Rdiv. rewrite Rmult_assoc, Rinv_l by lra. lra.
  - assert (Hnat : (n <= 2 * i)%nat).
    { pose proof (Nat.div_mod_eq (n - 1) 2) as Hd.
      pose proof (Nat.mod_upper_bound (n - 1) 2). lia. }
    apply le_INR in Hnat. rewrite mult_INR in Hnat. cbn [INR] in Hnat.
    split.
    + apply (Rmult_le_reg_r (INR n)); [exact Hn|].
      unfold Rdiv. rewrite Rmult_assoc, Rinv_l by lra. lra.
    + apply Rlt_trans with 0; [|lra].
      apply (Rmult_lt_reg_r (INR n)); [exact Hn|].
      unfold Rdiv. rewrite Rmult_assoc, Rinv_l by lra. lra.
Qed.

Lemma nth_tiled_rows (row : list R) (rows i j : nat) :
  (i < rows)%nat -> (j < List.length row)%nat ->
  nth (i * List.length row + j) (List.concat (repeat row rows)) 0
  = nth j row 0.
Proof.
  revert i. induction rows as [|rows IH]; intros i Hi Hj; [lia|].
  cbn [repeat List.concat]. destruct i as [|i].
  - cbn [Nat.mul Nat.add]. apply app_nth1. exact Hj.
  - rewrite app_nth2 by (cbn [Nat.mul]; lia).
    replace (S i * List.length row + j - List.length row)%nat
      with (i * List.length row + j)%nat by (cbn [Nat.mul]; lia).
    apply IH; [lia|exact Hj].
Qed.

Lemma nth_tiled_columns (column : list R) (cols i j : nat) :
  (i < List.length column)%nat -> (j < cols)%nat ->
  nth (i * cols + j) (flat_map (fun f => repeat f cols) column) 0
  = nth i column 0.
Proof.
  revert i. induction column as [|f column IH]; intros i Hi Hj;
    [simpl in Hi; lia|].
  cbn [flat_map]. destruct i as [|i].
  - cbn [Nat.mul Nat.add nth]. rewrite app_nth1 by (rewrite repeat_length; lia).
    apply nth_repeat_lt. exact Hj.
  - rewrite app_nth2 by (rewrite repeat_length; cbn [Nat.mul]; lia).
    rewrite repeat_length.
    replace (S i * cols + j - cols)%nat with (i * cols + j)%nat
      by (cbn [Nat.mul]; lia).
    cbn [nth]. apply IH; [simpl in Hi; lia|exact Hj].
Qed.

Lemma tiled_columns_length (column : list R) (cols : nat) :
  List.length (flat_map (fun f => repeat f cols) column)
  = (List.length column * cols)%nat.
Proof.
  induction column as [|f column IH]; [reflexivity|].
  cbn [flat_map List.length]. rewrite length_app, repeat_length, IH.
  cbn [Nat.mul]. reflexivity.
Qed.

Lemma tiled_rows_length (row : list R) (rows : nat) :
  List.length (List.concat (repeat row rows))
  = (rows * List.length row)%nat.
Proof.
  induction rows as [|rows IH]; [reflexivity|].
  cbn [repeat List.concat]. rewrite length_app, IH. cbn [Nat.mul].
  reflexivity.
Qed.

Lemma kernel_setup_meshes (wpf : WPF) (probe_kernel : ndarray R)
    (ux uy vx vy : R) (u_max v_max : Z) (setup : kernel_setup) :
  kernel_lattice_setup wpf probe_kernel ux uy vx vy u_max v_max = Ok setup ->
  let Nx := Q_Nx (wpf_static_data wpf) in
  let Ny := Q_Ny (wpf_static_data wpf) in
  (0 < Nx)%nat /\ (0 < Ny)%nat
  /\ ks_xqArray setup
     = mk_ndarray (Nx, Ny)
         (flat_map (fun f => repeat f Ny)
                   (map (sample_frequency Nx) (seq 0 Nx)))
  /\ ks_yqArray setup
     = mk_ndarray (Nx, Ny)
         (List.concat (repeat (map (sample_frequency Ny) (seq 0 Ny)) Nx)).
Proof.
  unfold kernel_lattice_setup.
  destruct (mgrid_cases u_max v_max) as [(_ & _ & ->)|[_ ->]];
    [|discriminate].
  cbn [Param.__init__ Param.set_params rbind].
  destruct (Q_Ny (wpf_static_data wpf)) as [|ny]; [discriminate|].
  destruct (Q_Nx (wpf_static_data wpf)) as [|nx]; [discriminate|].
  rewrite !fftfreq_samples by lia. cbn [rbind].
  intros H; injection H as <-. cbv zeta. cbn [ks_xqArray ks_yqArray].
  repeat split; lia.
Qed.

Lemma nth_map_seq (f : nat -> R) (n i : nat) :
  (i < n)%nat -> nth i (map f (seq 0 n)) 0 = f i.
Proof.
  intros Hi.
  rewrite (nth_indep _ 0 (f 0%nat)) by (rewrite length_map, length_seq; lia).
  rewrite map_nth, seq_nth by exact Hi. reflexivity.
Qed.

Section FrequencyMeshes.

Variables (Nx Ny : nat) (xq yq : ndarray R).

Hypothesis Hxq :
  xq = mk_ndarray (Nx, Ny)
         (flat_map (fun f => repeat f Ny)
                   (map (sample_frequency Nx) (seq 0 Nx))).
Hypothesis Hyq :
  yq = mk_ndarray (Nx, Ny)
         (List.concat (repeat (map (sample_frequency Ny) (seq 0 Ny)) Nx)).

Lemma frequency_meshes_spec :
  shape xq = (Nx, Ny) /\ shape yq = (Nx, Ny)
  /\ well_formed xq /\ well_formed yq
  /\ forall i j, (i < Nx)%nat -> (j < Ny)%nat ->
       nth (i * Ny + j) (ravel xq) 0 = sample_frequency Nx i
       /\ nth (i * Ny + j) (ravel yq) 0 = sample_frequency Ny j
       /\ - (1 / 2) <= sample_frequency Nx i < 1 / 2
       /\ - (1 / 2) <= sample_frequency Ny j < 1 / 2.
Proof.
  subst xq yq. cbn [shape ravel]. unfold well_formed. cbn [shape ravel fst snd].
  split; [reflexivity|]. split; [reflexivity|].
  split; [rewrite tiled_columns_length, length_map, length_seq; reflexivity|].
  split; [rewrite tiled_rows_length, length_map, length_seq; reflexivity|].
  intros i j Hi Hj. split; [|split; [|split]].
  - rewrite nth_tiled_columns
      by (rewrite ?length_map, ?length_seq; assumption).
    apply nth_map_seq, Hi.
  - pose proof (nth_tiled_rows (map (sample_frequency Ny) (seq 0 Ny))
                  Nx i j Hi) as H.
    rewrite length_map, length_seq in H. rewrite (H Hj).
    apply nth_map_seq, Hj.
  - apply sample_frequency_range, Hi.
  - apply sample_frequency_range, Hj.
Qed.

End FrequencyMeshes.

(** X23: the frequency meshes of a constructed kernel lattice.  Both have
    the shape of the pattern and as many cells as the shape says; the cell
    in row i and column j of xqArray holds the sample frequency i of a
    transform of length Q_Nx and that of yqArray the sample frequency j of
    a transform of length Q_Ny, so xqArray is constant along a row and
    yqArray along a column; and every entry lies in [-1/2, 1/2). *)
Theorem kernel_lattice_frequency_meshes
    (wpf : WPF) (probe_kernel : ndarray R) (ux uy vx vy : R)
    (u_max v_max : Z) (intensity_0 : R) (exclude_indices : list (Z * Z))
    (name : string) :
  let Nx := Q_Nx (wpf_static_data wpf) in
  let Ny := Q_Ny (wpf_static_data wpf) in
  let meshes (xq yq : ndarray R) :=
    shape xq = (Nx, Ny) /\ shape yq = (Nx, Ny)
    /\ well_formed xq /\ well_formed yq
    /\ forall i j, (i < Nx)%nat -> (j < Ny)%nat ->
         nth (i * Ny + j) (ravel xq) 0 = sample_frequency Nx i
         /\ nth (i * Ny + j) (ravel yq) 0 = sample_frequency Ny j
         /\ - (1 / 2) <= sample_frequency Nx i < 1 / 2
         /\ - (1 / 2) <= sample_frequency Ny j < 1 / 2 in
  (0 < fst (shape probe_kernel))%nat -> (0 < snd (shape probe_kernel))%nat ->
  (forall self,
      KernelDiskLattice.__init__ wpf probe_kernel ux uy vx vy u_max v_max
        intensity_0 exclude_indices name = Ok self ->
      meshes (KernelDiskLattice.xqArray self)
             (KernelDiskLattice.yqArray self))
  /\ (forall self,
      ComplexOverlapKernelDiskLattice.__init__ wpf probe_kernel ux uy vx vy
        u_max v_max intensity_0 exclude_indices name = Ok self ->
      meshes (ComplexOverlapKernelDiskLattice.xqArray self)
             (ComplexOverlapKernelDiskLattice.yqArray self)).
Proof.
  intros Nx Ny meshes _ _. split; intros self.
  - unfold KernelDiskLattice.__init__, rbind.
    destruct (kernel_lattice_setup wpf probe_kernel ux uy vx vy u_max v_max)
      as [setup|] eqn:E; [|discriminate].
    destruct (KernelDiskLattice.prune_loop _ _ _ _ _); [|discriminate].
    intros H; injection H as <-.
    cbn [KernelDiskLattice.xqArray KernelDiskLattice.yqArray].
    destruct (kernel_setup_meshes _ _ _ _ _ _ _ _ _ E) as (_ & _ & Hx & Hy).
    exact (frequency_meshes_spec Nx Ny _ _ Hx Hy).
  - unfold ComplexOverlapKernelDiskLattice.__init__, rbind.
    destruct (kernel_lattice_setup wpf probe_kernel ux uy vx vy u_max v_max)
      as [setup|] eqn:E; [|discriminate].
    destruct (ComplexOverlapKernelDiskLattice.prune_loop _ _ _ _ _);
      [|discriminate].
    intros H; injection H as <-.
    cbn [ComplexOverlapKernelDiskLattice.xqArray
         ComplexOverlapKernelDiskLattice.yqArray].
    destruct (kernel_setup_meshes _ _ _ _ _ _ _ _ _ E) as (_ & _ & Hx & Hy).
    exact (frequency_meshes_spec Nx Ny _ _ Hx Hy).
Qed.

Lemma example_kernel_init :
  exists self,
    KernelDiskLattice.__init__ example_engine (one_pixel 1) 1 0 0 1 1 0 1 []
      "Custom Kernel Disk Lattice" = Ok self.
Proof.
  destruct (kernel_setup_ok example_engine (one_pixel 1) 1 0 0 1 1 0
              ltac:(lia) ltac:(lia) (le_n 1) (le_n 1))
    as (setup & E & Hparams & Hgrid & _).
  unfold KernelDiskLattice.__init__. rewrite E. cbn [rbind].
  rewrite Hparams, Hgrid, kernel_prune_loop_as_disk.
  rewrite (disk_prune_loop_spec _ _ _ _ _ _
             (free_parameter 1) (free_parameter 0)
             (free_parameter 0) (free_parameter 1)
             (index_grid 1 0) (NoDup_index_grid 1 0)); try reflexivity.
  - cbn [rbind]. eexists. reflexivity.
  - intros [u v] _. apply fresh_lattice_vector_keys.
Qed.

Lemma kernel_lattice_frequency_meshes_witness :
  exists self,
    KernelDiskLattice.__init__ example_engine (one_pixel 1) 1 0 0 1 1 0 1 []
      "Custom Kernel Disk Lattice" = Ok self
    /\ nth 0 (ravel (KernelDiskLattice.xqArray self)) 0
       = sample_frequency 1 0.
Proof.
  destruct example_kernel_init as [self Hinit].
  exists self. split; [exact Hinit|].
  destruct (proj1 (kernel_lattice_frequency_meshes example_engine
                     (one_pixel 1) 1 0 0 1 1 0 1 []
                     "Custom Kernel Disk Lattice" (le_n 1) (le_n 1))
                  self Hinit) as (_ & _ & _ & _ & Hcells).
  exact (proj1 (Hcells 0%nat 0%nat (le_n 1) (le_n 1))).
Defined.
